(* ===== verification/_CoqProject ===== *)
-Q . S2P
Prelude.v
Doubles.v
CMemory.v
RadixNode.v
RadixTree.v
RadixBlocks.v
RadixShape.v
RadixCount.v
RadixMatch.v
RadixInsert.v
RadixErase.v
RadixWalk.v
RadixBag.v
RadixClient.v
RadixPrint.v
Knapsack.v
AcTrie.v
AcFail.v
AcSearch.v
ExChina.v
QlInstance.v
ExMarkets.v
Dict.v
Repo.v
Bond.v
ZkIds.v
ZkSession.v
ZkSafe.v
ZkLife.v
ZkCalls.v
ZkHeap.v
ZkRequests.v
StrSplit.v
Cluster.v
ClusterSpec.v
HttpRequest.v
HttpCall.v
Base64.v
Smtp.v
MailCmd.v
Epoll.v
Threads.v
EventFd.v
TimerFd.v
SpinLock.v
AsyncQueue.v
CurlClient.v
CurlSafe.v
CurlTest.v
Wget.v
ZSock.v
ZSockTest.v
CText.v
EchoQueue.v
Pgm.v
PgmRecv.v
ZmqPipes.v
ThreadEcho.v
CloseFds.v
CodeConvert.v
SharedRecord.v
Templates.v
Kafka.v
AioRead.v
ReusePort.v
EventSum.v
WorkPool.v
UvClients.v
IpcTools.v
ThreadDemos.v
Lifetimes.v
SmallTools.v
