(* ===== verification/Prelude.v ===== *)
(** * StudyNotes: a verification of its C++ components

    The repository is a collection of C++ programs and libraries.  This development
    models the ones that have logic of their own and proves what makes them correct, or
    what they do instead.  Paths below are relative to src/.

    ** The programs and the files that model them

    - The radix tree, Algorithm/radix-tree/radix_tree.{hpp,cpp}: a multiset of byte
      strings.  A node is a pointer to one block of bytes that holds three counters, the
      prefix, the first bytes of the edges and the child pointers.  CMemory.v is the
      memory (malloc, realloc, free, loads and stores in blocks of bytes) with its
      state-and-error monad; the allocator is the class [Allocator].  RadixNode.v has
      [struct node] and its accessors, RadixTree.v the operations ([match], [insert],
      [erase], [contains], [apply], [size], the printer, the destructor) statement by
      statement.  The proofs are in layers: RadixBlocks.v (what each manipulation does to
      the bytes), RadixShape.v (the tree a heap represents and its invariant),
      RadixCount.v (multiplicities under local changes), RadixMatch.v, RadixInsert.v,
      RadixErase.v, RadixWalk.v (one operation each), RadixBag.v (the interface
      [KeyBag] of a multiset and its implementation by the tree), RadixClient.v (clients
      of the interface and the theorems), RadixPrint.v (the printer, and the program
      main.cpp).
    - The receipt planner, Algorithm/动态规划/min_receipt_plan(01背包).cpp: a 0/1
      knapsack over amounts.  Knapsack.v.
    - The Aho-Corasick matcher, Algorithm/ac_automation.cpp.  AcTrie.v has all the
      definitions and the theory of insertion, AcFail.v the fail pointers, AcSearch.v the
      scan and the theorems.
    - The bond calculators, Languages/cpp/19_quantlib_demo: calendars of the Chinese
      markets (time/calendars/ex_china.cpp: ExChina.v, ExMarkets.v), repo products
      (dict_def.hpp: Dict.v), pledged and outright repos (pledge_repo.hpp,
      outright_repo.hpp: Repo.v), cash bonds (cash_bond.hpp: Bond.v).  QuantLib is not in
      the repository: what the code uses of it is the class [QuantLib], of which
      QlInstance.v has an instance, and the class [Bonds].  Doubles.v has the signs of
      floating point results.
    - The ZooKeeper wrapper for Node.js,
      Languages/cpp/0_libuv/uv_zookeeper_wrapper/uv-node-zk.cpp.  ZkIds.v: ids and
      passwords as text.  ZkSession.v: the object with its poll handle and its timer on
      the libuv loop, as a step function on events; ZkSafe.v and ZkLife.v: the invariants
      and theorems of sessions.  ZkCalls.v: the asynchronous methods, their completions
      and the memory they use; ZkHeap.v and ZkRequests.v: the invariants and theorems of
      requests.
    - The cluster manager, Languages/cpp/15_zookeeper_multi_thread_demo: string splitting
      (str_utils.h: StrSplit.v), the manager (cluster_manager.{h,cpp}: Cluster.v), its
      theorems (ClusterSpec.v).  The ZooKeeper service is the class [ZkService]; what it
      documents about its calls is the class [Healthy], with an instance.
    - The HTTP client, Languages/cpp/0_libuv/learn_uv/uv_http_req: requests (request.h:
      HttpRequest.v) and
      the callbacks of one call (http_request_call.cpp: HttpCall.v).
    - The mail programs, Languages/cpp/mail_wrapper: an SMTP client on a socket
      (send_email.c: Base64.v has [base64_encode], Smtp.v the rest, in a monad of its own
      for the network, [exit] and undefined behaviour) and the command line for mailx
      (mail_wrapper.{h,cpp}: MailCmd.v, with a lexer of the shell to read it back).
    - The epoll servers, IO/epoll_lt_et.c and IO/epoll_test.c: Epoll.v, with the sockets of
      the kernel and the clients in the state.
    - The workers on event and timer descriptors, IO/eventfd_examples: EventFd.v and
      TimerFd.v.  IO/tcp_reuse_port_test.c: [close_all_fd] in CloseFds.v, its two processes
      in ReusePort.v.  IO/eventfd_test.c: EventSum.v.
    - The IPC programs, LinuxIPC: echo over a System V message queue (27ipcs: EchoQueue.v),
      records in shared memory (28ipc-sharemem, 29ipcMem: SharedRecord.v), the threaded
      echo server (posix/33thread: ThreadEcho.v), semaphores and the tools for message
      queues (30ipcSem, 26ipcs: IpcTools.v).
    - The multicast programs, Languages/c/openpgm_test: pgmsend.c and the creation of
      sockets in Pgm.v, the two threads of pgmrecv.c in PgmRecv.v.
    - Locks and threads: the spin locks (Languages/cpp/locks/spin_lock.hpp and the one of
      the benchmark) are instances of the class [SpinLock] of SpinLock.v; the message queue
      of benckmark01_inproc_communication/uv_async is proved against that class in
      AsyncQueue.v.
    - The curl client, Languages/cpp/0_libuv/uv_curl_wrapper/curl_httpclient.hpp:
      CurlClient.v (the object, its callbacks and its destructor) and CurlSafe.v (the runs
      that libcurl and libuv allow, and the theorems); CurlTest.v has the program
      curl_test.cpp on top of it.  Wget.v has the program uvwget.cpp beside it, and the
      simulation of its callbacks by those of the client.
    - ZeroMQ sockets on the libuv loop, Languages/cpp/0_libuv/uv_zmq/uv_zsock.{h,c}:
      ZSock.v; ZSockTest.v has the program uv_zsock_test.c on top of it.  ZmqPipes.v: the benchmark over a pair of in-process sockets
      (benckmark01_inproc_communication/zmq_inproc) and the publisher and subscriber of
      Languages/c/zmq_pgm.
    - The Kafka producer, Languages/cpp/kafka-sasl-cpp: Kafka.v.  Asynchronous reads,
      IO/aio_sample.cpp: AioRead.v.
    - Conversion of encodings, Languages/cpp/code_convert: CodeConvert.v.
    - Class and function templates, Languages/cpp/cpp11_feature/templates_demo.cpp and
      Algorithm/rb_tree.cpp: Templates.v.
    - Other exercises with libuv: the thread pool (learn_uv/uv_thread_poll.c: WorkPool.v)
      and two TCP clients (learn_uv/uv_tcp_client.{h,cpp}, uv-tcp-echo-client.c:
      UvClients.v).
    - Small programs: threads, thread-local variables and futures (ThreadDemos.v), lifetimes
      of objects (Lifetimes.v), host names, a library loader and the answers of a server
      (SmallTools.v).

    This file holds what all of them share: the type of results, machine integers, binary64
    numbers, tactics, hints and lemmas on lists and maps.  Threads.v (any number of threads
    in a list) and CText.v (C strings in buffers) are shared by a few components.

    ** How the code is modelled

    A C++ function is a function to [result]: [Ok] with its value, or [Err] with what
    went wrong (an access outside an object, a failed assertion, a failed allocation).
    State is passed explicitly, or in the monad of CMemory.v.  Unsigned and signed
    integers are [Z] or [nat] with the wrap-around written out where the code can reach
    it; a [double] is a number of SpecFloat at binary64.  Callbacks of an event loop are
    the events of a step function, and what the environment answers is part of the event,
    so that the theorems cover every interleaving and every answer that the library
    documents.

    ** What the theorems show

    - C1 to C6, radix tree: every operation does to the stored multiset what its name
      says, for any allocator and any state; the destructor frees exactly the tree's
      blocks; the keys can be read back from what the printer prints; a session of
      operations refines the multiset.  Lemmas of RadixClient.v: [contains], and that
      [match] reads past a key that is not terminated.
    - C7, receipt planner: [main] reports the least amount that can be met, with a selection
      that has this sum.  A lemma of Knapsack.v: the table decides subset sums.
    - C8 and C9, Aho-Corasick: the fail pointers lead to the longest proper suffixes, and
      the scan counts only words that occur; a lemma of AcSearch.v: it misses some.
    - C10 to C12, SMTP client: [base64_encode] is the encoding of RFC 4648 and stays in its
      buffers; the session sends exactly the text it should, however [write] cuts it; what is
      sent of the attachment decodes to the file when it fits one buffer, and not otherwise,
      and the loop over a file that is too short does not end.
    - C13 and C14, epoll servers: no data is forgotten and connections are closed only when
      they are done with, in every interleaving with the clients; the server always gets
      back to waiting.  A lemma of Epoll.v: clients that connect together are not all
      accepted.
    - C15 and C24, threads: messages are neither lost nor duplicated although notifications
      merge, and the spin locks exclude.
    - C16 and C17, echo queue: each client gets its own lines back, in order; some call can be
      made until every client has returned, if the queue has room for a message of each.  A
      lemma of EchoQueue.v: otherwise all can wait for ever.
    - C18 to C21, multicast: in every interleaving of the receiver's threads no object is used
      after its release, once the socket is connected; the thread ends within six calls of
      the request to stop; what is printed of a message is a prefix of it, inside the
      buffer; the sender releases every object it obtained, unless [pgm_connect] fails,
      when it frees the addresses twice; options that end it leave the engine running.
    - C22, publisher and subscriber: the messages arrive with increasing ids; a packet that
      is given up leaves its topic in front of the next message.
    - C23 and C25, Linux programs: the threads echo to their own clients and free what they
      get, and a thread that could not be made leaves its connection and its cell behind;
      the workers do each task once.
    - C26, Kafka producer: [main] ends, every accepted message is reported once or still in
      the queue after the flush, and every object is released, except a configuration that
      no producer took over; a line is printed for refused messages too.
    - C27 to C30, ZooKeeper wrapper: in every reachable state the next event runs to its end
      without using a closed or lost handle, but for two misuses that are named (a second
      [init], and a poll handle that could not be allocated); sessions release what they own;
      ids and passwords come back; the answer to a request calls the function given with
      it, an event the function of its watch, and the memory of requests is accounted for.
      Lemmas of ZkLife.v and ZkRequests.v: the timer stays armed, and the runs in which a
      session, a request or the loop is lost.
    - C31 to C34, HTTP: no call of libuv on a handle that is closed, in the curl client, in
      the download program (by refinement) and in the client of uv_http_req; each request
      has its number and one answer at most.
    - C35 and C36, cluster manager: registration creates the missing parents and the
      ephemeral node, or fails without a change; when the handlers are all told, and where
      the loop over them stays.  Lemmas of ClusterSpec.v and StrSplit.v: one session at
      most, one leader, how reconnection ends, and splitting is inverse to joining.
    - C37, ZeroMQ sockets: the test program receives all messages in order, as the loop does
      not sleep over an event, unless the queue overflows; then it blocks itself.
    - C38, mailx: the shell reads the command line as the fields, and a text with a quote in
      part as commands.
    - C39, bond calculators: the listed working weekends are weekends, and on them alone the
      markets differ.  Lemmas of Repo.v, Dict.v
      and Bond.v: bounds of the days that money is occupied, the printed tables, the names,
      signs of interest.
    - C40, HTTP requests: the parts of a URI are recovered.
    - Lemmas of the other files: the records in shared memory come back, where
      [code_convert] and the asynchronous reads leave a string without its terminator, no
      expiration of a timer is lost, [close_all_fd] closes all descriptors but the first
      three, two processes share a port, the sum that the event counter has, the answers of
      the thread pool, the permits of a semaphore, messages that come back, what the demos
      with threads can print, and which requests of the TCP clients are used after their
      release.

    ** Fuel and bounds

    Loops that do not count run on fuel, and each has a theorem that a stated amount
    suffices: the matching loop of the radix tree is bounded by the length of the key and
    the traversals by the number of blocks of the heap (C3, C4), the plan printer by the
    amount (C7), the breadth-first pass and the scan by the size of the trie and of the
    text (C8, C9), the loops of the SMTP client by the lengths of the files (C11), the
    search for a business day by twelve days in the years that the tables cover
    (ExChina.v), the passes of [close_all_fd] by two (CloseFds.v), the publisher by the number
    of messages (C22), the retries of the producer by the answers of the library (C26), the
    recursion of the Fibonacci numbers by the argument (WorkPool.v).  The handlers' loop has no bound: C36 says when it ends.  Event loops
    and threads are step functions without fuel; C14 has a measure that decreases, C17 that
    some step is possible, and C19 a number of steps that is enough.
    The keys, counters and sizes of the radix tree are bounded by the widths of its
    counters (2^32, 2^64); the theorems say so in their hypotheses.

    ** What is not modelled

    Output to the terminal, except where it is what a program is for; V8, libuv, libcurl,
    ZeroMQ, OpenPGM, GLib, [iconv], librdkafka, the ZooKeeper client, QuantLib, the HTTP
    parser and the system calls beyond what they document to the code that calls them;
    failures of [malloc] that the code does not check, except in the ZooKeeper session, the
    radix tree and the threaded echo server, and of [uv_async_send], [uv_poll_init_socket]
    and [epoll_ctl] on objects just made (each definition says so); weak
    memory (the spin locks are modelled under sequential consistency, and a method that
    holds the manager's mutex is one step); programs that only print what a library
    returns (dates of QuantLib, JSON, YAML, flags and protobuf demos), programs that do not
    compile as they are (uv_udp.cpp, the pipe programs, reference_qualifier.cpp), single
    system calls (uv_file.c, clock_gettime_test.cpp), and the vendored libaio. *)

From stdpp Require Import base numbers list gmap strings.
From stdpp Require Export base numbers list gmap strings.
From Stdlib Require Import ZArith Lia SpecFloat.

#[global] Set Default Goal Selector "!".

(** ** Results: errors of the modelled C++ as values *)

(** What can go wrong in a modelled function: an access outside an allocated
    object, a failed [assert], an allocation that returned a null pointer, and
    exhausted fuel of a loop whose bound is proved separately. *)
Inductive err :=
  | Fault
  | AssertFail
  | OutOfMemory
  | OutOfFuel.

#[global] Instance err_eq_dec : EqDecision err.
Proof. solve_decision. Defined.

Inductive result (A : Type) :=
  | Ok (a : A)
  | Err (e : err).
Arguments Ok {A} a.
Arguments Err {A} e.

#[global] Instance result_ret : MRet result := λ A a, Ok a.
#[global] Instance result_bind : MBind result := λ A B f m,
  match m with Ok a => f a | Err e => Err e end.

(** [assert(b)] of the C++ code. *)
Definition check (b : bool) : result unit := if b then Ok tt else Err AssertFail.

(** ** Machine integers *)

Declare Scope cint_scope.
Delimit Scope cint_scope with cint.

Definition wrap (w : Z) (z : Z) : Z := (z mod 2 ^ w)%Z.
Abbreviation u8 := (wrap 8).
Abbreviation u32 := (wrap 32).
Abbreviation u64 := (wrap 64).

(** Two's complement reading of a [w]-bit pattern. *)
Definition sgn (w : Z) (z : Z) : Z :=
  let u := wrap w z in if (u <? 2 ^ (w - 1))%Z then u else (u - 2 ^ w)%Z.
Abbreviation i8 := (sgn 8).
Abbreviation i32 := (sgn 32).
Abbreviation i64 := (sgn 64).

Lemma wrap_small w z : (0 ≤ z < 2 ^ w)%Z → wrap w z = z.
Proof. apply Z.mod_small. Qed.

Lemma wrap_range w z : (0 ≤ w)%Z → (0 ≤ wrap w z < 2 ^ w)%Z.
Proof. intros Hw. apply Z.mod_pos_bound. by apply Z.pow_pos_nonneg. Qed.

Lemma wrap_sgn w z : (0 < w)%Z → wrap w (sgn w z) = wrap w z.
Proof.
  intros Hw. unfold sgn. case_match; unfold wrap.
  - apply Z.mod_mod. apply Z.pow_nonzero; lia.
  - rewrite <-(Z_mod_plus_full (z mod 2 ^ w - 2 ^ w) 1).
    replace (z mod 2 ^ w - 2 ^ w + 1 * 2 ^ w)%Z with (z mod 2 ^ w)%Z by lia.
    apply Z.mod_mod. apply Z.pow_nonzero; lia.
Qed.

Lemma sgn_small w z :
  (0 < w)%Z → (- 2 ^ (w - 1) ≤ z < 2 ^ (w - 1))%Z → sgn w z = z.
Proof.
  intros Hw Hz.
  assert (Hpow : (2 ^ w = 2 * 2 ^ (w - 1))%Z).
  { rewrite <-Z.pow_succ_r by lia. f_equal. lia. }
  unfold sgn, wrap. destruct (decide (0 ≤ z)%Z).
  - rewrite Z.mod_small by lia. case_match eqn:E; [done|]. apply Z.ltb_ge in E. lia.
  - assert (Hm : (z mod 2 ^ w = z + 2 ^ w)%Z).
    { symmetry. apply (Z.mod_unique _ _ (-1)); lia. }
    rewrite Hm. case_match eqn:E; [apply Z.ltb_lt in E; lia|lia].
Qed.

(** ** [double]: binary64, with the arithmetic of SpecFloat *)

Definition double : Type := spec_float.
Definition double_of_Z (z : Z) : double := binary_normalize 53 1024 z 0 false.
Definition double_mul : double → double → double := SFmul 53 1024.
Definition double_div : double → double → double := SFdiv 53 1024.
Definition double_sub : double → double → double := SFsub 53 1024.

(** ** Little-endian layout of integers in memory *)

Fixpoint le_encode (n : nat) (z : Z) : list Z :=
  match n with
  | O => []
  | S n => (z mod 256)%Z :: le_encode n (z / 256)%Z
  end.

Fixpoint le_decode (l : list Z) : Z :=
  match l with
  | [] => 0%Z
  | b :: l => (b + 256 * le_decode l)%Z
  end.

Lemma length_le_encode n z : length (le_encode n z) = n.
Proof. revert z. induction n as [|n IH]; intros z; simpl; [done|]. by rewrite IH. Qed.

Lemma le_decode_encode n z : le_decode (le_encode n z) = (z mod 256 ^ Z.of_nat n)%Z.
Proof.
  revert z. induction n as [|n IH]; intros z; cbn [le_encode le_decode].
  { by rewrite Z.mod_1_r. }
  rewrite IH, Nat2Z.inj_succ, Z.pow_succ_r by lia.
  rewrite Z.rem_mul_r; [lia|lia|]. apply Z.pow_pos_nonneg; lia.
Qed.

Lemma le_decode_encode_small n z :
  (0 ≤ z < 256 ^ Z.of_nat n)%Z → le_decode (le_encode n z) = z.
Proof. intros Hz. rewrite le_decode_encode. by apply Z.mod_small. Qed.

Lemma le_encode_mod n z : le_encode n (z mod 256 ^ Z.of_nat n)%Z = le_encode n z.
Proof.
  revert z. induction n as [|n IH]; intros z; cbn [le_encode]; [done|].
  assert (H256 : (0 < 256 ^ Z.of_nat n)%Z) by (apply Z.pow_pos_nonneg; lia).
  rewrite Nat2Z.inj_succ, Z.pow_succ_r by lia.
  rewrite Z.rem_mul_r by lia. f_equal.
  - rewrite Z.mul_comm, Z_mod_plus_full. apply Z.mod_mod. lia.
  - rewrite <-(IH (z / 256)%Z). f_equal.
    rewrite Z.add_comm, Z.mul_comm, Z.div_add_l by lia.
    rewrite (Z.div_small (z mod 256)); [lia|]. apply Z.mod_pos_bound. lia.
Qed.

Definition is_byte (b : Z) : Prop := (0 ≤ b < 256)%Z.
Definition is_byteb (b : Z) : bool := (0 <=? b)%Z && (b <? 256)%Z.

Lemma is_byteb_spec b : is_byteb b = true ↔ is_byte b.
Proof. unfold is_byteb, is_byte. rewrite andb_true_iff, Z.leb_le, Z.ltb_lt. done. Qed.

#[global] Instance is_byte_dec b : Decision (is_byte b).
Proof. refine (cast_if (decide (is_byteb b = true))); by rewrite <-is_byteb_spec. Defined.

(** The bytes of a string literal. *)
Fixpoint ascii_bytes (s : string) : list Z :=
  match s with
  | EmptyString => []
  | String c s => Z.of_N (Ascii.N_of_ascii c) :: ascii_bytes s
  end.

(** ** Ranges of a byte block *)

Definition slice {A} (off n : nat) (l : list A) : list A := take n (drop off l).
Definition splice {A} (off : nat) (x l : list A) : list A :=
  take off l ++ x ++ drop (off + length x) l.

Section ranges.
Context {A : Type}.
Implicit Types l x p q : list A.

Lemma length_slice off n l : off + n ≤ length l → length (slice off n l) = n.
Proof. intros. unfold slice. rewrite length_take, length_drop. lia. Qed.

Lemma length_splice off x l :
  off + length x ≤ length l → length (splice off x l) = length l.
Proof. intros. unfold splice. rewrite !length_app, length_take, length_drop. lia. Qed.

Lemma slice_app_mid p x q off n :
  length p = off → length x = n → slice off n (p ++ x ++ q) = x.
Proof.
  intros <- <-. unfold slice. rewrite drop_app_length. by rewrite take_app_length.
Qed.

Lemma splice_app_mid p x x' q off :
  length p = off → length x = length x' → splice off x' (p ++ x ++ q) = p ++ x' ++ q.
Proof.
  intros <- Hx. unfold splice. rewrite take_app_length. do 2 f_equal.
  rewrite <-Hx, <-drop_drop, drop_app_length. by rewrite drop_app_length.
Qed.
End ranges.

(** ** Tactics of the development *)

(** Split boolean tests into the propositions they decide. *)
Ltac bool_props :=
  repeat match goal with
  | H : (_ && _) = true |- _ => apply andb_true_iff in H; destruct H
  | H : (_ || _) = false |- _ => apply orb_false_iff in H; destruct H
  | H : (_ =? _)%Z = true |- _ => apply Z.eqb_eq in H
  | H : (_ =? _)%Z = false |- _ => apply Z.eqb_neq in H
  | H : (_ <? _)%Z = true |- _ => apply Z.ltb_lt in H
  | H : (_ <? _)%Z = false |- _ => apply Z.ltb_ge in H
  | H : (_ <=? _)%Z = true |- _ => apply Z.leb_le in H
  | H : (_ <=? _)%Z = false |- _ => apply Z.leb_gt in H
  | H : (_ =? _)%nat = true |- _ => apply Nat.eqb_eq in H
  | H : (_ =? _)%nat = false |- _ => apply Nat.eqb_neq in H
  | H : negb _ = true |- _ => apply negb_true_iff in H
  | H : negb _ = false |- _ => apply negb_false_iff in H
  end.

Ltac len_simpl :=
  repeat rewrite ?length_app, ?length_le_encode, ?length_take, ?length_drop, ?length_cons,
    ?length_nil, ?length_fmap, ?length_replicate in *.

(** Closing tactic for side conditions on lengths. *)
Ltac solve_len := len_simpl; simpl in *; lia.

Create HintDb study.
#[export] Hint Resolve length_le_encode : study.
