(* ===== verification/Doubles.v ===== *)
(** * Signs of floating point results

    Products and quotients of non-negative binary64 numbers, as Prelude.v's [double]
    has them, are non-negative and never NaN; integers below 2^53 are converted to
    finite numbers. *)

From S2P Require Import Prelude.
From Stdlib Require Import ZArith Lia SpecFloat.

(** Positive and finite; non-negative, infinity included. *)
Definition double_pos (x : double) : Prop := ∃ m e, x = S754_finite false m e.
Definition double_nonneg (x : double) : Prop :=
  x = S754_zero false ∨ x = S754_infinity false ∨ double_pos x.

(** ** Rounding *)

Lemma shr_1_nonneg mrs : (0 ≤ shr_m mrs)%Z → (0 ≤ shr_m (shr_1 mrs))%Z.
Proof. destruct mrs as [[|[p|p|]|p] r s]; simpl; lia. Qed.

Lemma iter_shr_nonneg p : ∀ mrs, (0 ≤ shr_m mrs)%Z → (0 ≤ shr_m (iter_pos shr_1 p mrs))%Z.
Proof. induction p as [p IH|p IH|]; intros mrs H; simpl; auto using shr_1_nonneg. Qed.

Lemma shr_fexp_nonneg prec emax m e l : (0 ≤ m)%Z → (0 ≤ shr_m (shr_fexp prec emax m e l).1)%Z.
Proof.
  intros Hm. unfold shr_fexp, shr.
  assert (0 ≤ shr_m (shr_record_of_loc m l))%Z by (by destruct l as [|[]]).
  case_match; simpl; auto using iter_shr_nonneg.
Qed.

Lemma round_nonneg prec emax m e l : (0 ≤ m)%Z → double_nonneg (binary_round_aux prec emax false m e l).
Proof.
  intros Hm. unfold binary_round_aux.
  pose proof (shr_fexp_nonneg prec emax m e l Hm) as H1. destruct (shr_fexp prec emax m e l) as [mrs e'].
  assert (H2 : (0 ≤ round_nearest_even (shr_m mrs) (loc_of_shr_record mrs))%Z).
  { unfold round_nearest_even. simpl in H1. repeat case_match; lia. }
  pose proof (shr_fexp_nonneg prec emax _ e' loc_Exact H2) as H3.
  destruct (shr_fexp prec emax _ e' loc_Exact) as [mrs' e'']. simpl in H3.
  destruct (shr_m mrs') as [|p|p]; [by left| |lia].
  case_match; [right; right; by eexists _, _|right; by left].
Qed.

Lemma double_mul_nonneg x y : double_nonneg x → double_pos y → double_nonneg (double_mul x y).
Proof.
  intros [->|[->|(m & e & ->)]] (m' & e' & ->); [by left|right; by left|]. by apply round_nonneg.
Qed.

Lemma double_div_nonneg x y : double_nonneg x → double_pos y → double_nonneg (double_div x y).
Proof.
  intros [->|[->|(m & e & ->)]] (m' & e' & ->); [by left|right; by left|].
  unfold double_div, SFdiv. destruct (SFdiv_core_binary _ _ _ _ _ _) as [[mz ez] lz] eqn:E.
  apply round_nonneg. unfold SFdiv_core_binary in E.
  match type of E with context [Z.div_eucl ?a _] => set (m1 := a) in E end.
  assert (0 ≤ m1)%Z.
  { unfold m1. set (s := (_ - Z.min _ _)%Z). destruct s; [lia| |lia]. apply Z.shiftl_nonneg. lia. }
  pose proof (Z_div_mod m1 (Z.pos m') ltac:(done)) as Hd. destruct (Z.div_eucl m1 (Z.pos m')) as [q r].
  injection E as <- _ _. nia.
Qed.

(** ** Integers *)

Lemma digits_iter_xO m d : digits2_pos (Pos.iter xO m d) = (digits2_pos m + d)%positive.
Proof.
  induction d as [|d IH] using Pos.peano_ind; [by rewrite Pos.add_1_r|].
  rewrite Pos.iter_succ. simpl. rewrite IH. lia.
Qed.

Lemma round_exact m e :
  digits2_pos m = 53%positive → (-1074 ≤ e ≤ 971)%Z → binary_round_aux 53 1024 false (Z.pos m) e loc_Exact = S754_finite false m e.
Proof.
  intros Hd He. unfold binary_round_aux, shr_fexp. unfold Zdigits2. rewrite Hd.
  replace (fexp 53 1024 (53 + e) - e)%Z with 0%Z by (unfold fexp, emin; lia). cbn [shr shr_record_of_loc].
  cbn [shr_m loc_of_shr_record round_nearest_even Zdigits2]. rewrite Hd.
  replace (fexp 53 1024 (53 + e) - e)%Z with 0%Z by (unfold fexp, emin; lia). cbn [shr shr_record_of_loc shr_m].
  by rewrite (proj2 (Z.leb_le _ _)) by lia.
Qed.

Lemma digits_lower m : (2 ^ (Z.pos (digits2_pos m) - 1) ≤ Z.pos m)%Z.
Proof.
  induction m as [m IH|m IH|]; cbn [digits2_pos]; [| |done];
    replace (Z.pos (Pos.succ (digits2_pos m)) - 1)%Z with (Z.succ (Z.pos (digits2_pos m) - 1)) by lia;
    rewrite Z.pow_succ_r by lia; lia.
Qed.

Lemma digits_53 m : (Z.pos m < 2 ^ 53)%Z → (digits2_pos m ≤ 53)%positive.
Proof.
  intros Hm. pose proof (digits_lower m) as Hl. destruct (decide (digits2_pos m ≤ 53)%positive) as [?|Hn]; [done|].
  assert (2 ^ 53 ≤ 2 ^ (Z.pos (digits2_pos m) - 1))%Z by (apply Z.pow_le_mono_r; lia). lia.
Qed.

Lemma double_of_Z_pos n : (0 < n < 2 ^ 53)%Z → double_pos (double_of_Z n).
Proof.
  intros Hn. destruct n as [|m|]; [lia| |lia]. unfold double_of_Z, binary_normalize, binary_round.
  assert (Hd : (digits2_pos m ≤ 53)%positive) by (apply digits_53; lia).
  rewrite Z.add_0_r. replace (fexp 53 1024 (Z.pos (digits2_pos m))) with (Z.pos (digits2_pos m) - 53)%Z by (unfold fexp, emin; lia).
  unfold shl_align. rewrite Z.sub_0_r. destruct (Z.pos (digits2_pos m) - 53)%Z as [|p|p] eqn:E; [|lia|].
  - rewrite round_exact by lia. by eexists _, _.
  - rewrite round_exact; [by eexists _, _|rewrite digits_iter_xO; lia|lia].
Qed.
