(* ===== verification/CMemory.v ===== *)
(** * The C memory the radix tree lives in

    Blocks of bytes indexed by their base address, with [malloc], [realloc],
    [free], loads and stores at a byte offset, and the state-and-error monad of
    code that runs on such a memory.  The allocator is an interface: any address
    it picks and any initial contents it leaves are covered.  A small weakest
    precondition calculus and the predicate [owns], which says which blocks a
    heap consists of, are what the proofs about pointer code use. *)

From S2P Require Import Prelude.
From Stdlib Require Import ZArith Lia.

Abbreviation heap := (gmap Z (list Z)).

(** ** The allocator *)

(** What the C library promises of [malloc] and [realloc]: the address is null
    (0) or names a block that is not allocated; [realloc] may also keep the
    block where it is.  The contents of new bytes are unspecified. *)
Class Allocator := {
  malloc_addr : heap → Z → Z;
  malloc_junk : heap → Z → list Z;
  realloc_addr : heap → Z → Z → Z;
  realloc_junk : heap → Z → Z → list Z;
  malloc_fresh h n : malloc_addr h n ≠ 0%Z →
    h !! malloc_addr h n = None ∧ (0 < malloc_addr h n < 2 ^ 64)%Z;
  malloc_junk_length h n : length (malloc_junk h n) = Z.to_nat n;
  realloc_fresh h p n : realloc_addr h p n ≠ 0%Z →
    realloc_addr h p n = p ∨
    (h !! realloc_addr h p n = None ∧ (0 < realloc_addr h p n < 2 ^ 64)%Z);
  realloc_junk_length h p n : length (realloc_junk h p n) = Z.to_nat n;
}.

(** The allocator finds room as long as at most [N] blocks are allocated. *)
Definition alloc_good `{Allocator} (N : nat) : Prop :=
  ∀ (h : heap) n, size h ≤ N → malloc_addr h n ≠ 0%Z ∧ ∀ p, p ≠ 0%Z → realloc_addr h p n ≠ 0%Z.

(** ** The monad *)

Definition M (A : Type) : Type := heap → result (A * heap).

#[global] Instance M_ret : MRet M := λ A a h, Ok (a, h).
#[global] Instance M_bind : MBind M := λ A B f m h,
  match m h with Ok (a, h') => f a h' | Err e => Err e end.

Definition fail {A} (e : err) : M A := λ _, Err e.
Definition massert (b : bool) : M unit := if b then mret tt else fail AssertFail.

(** An [unsigned char*]: a block and an offset into it. *)
Definition cptr : Type := Z * Z.
Definition cptr_add (p : cptr) (n : Z) : cptr := (p.1, (p.2 + n)%Z).

Definition in_block (off n : Z) (b : list Z) : bool :=
  (0 <=? off)%Z && (0 <=? n)%Z && (off + n <=? Z.of_nat (length b))%Z.

Definition load (p : cptr) (n : Z) : M (list Z) := λ h,
  match h !! p.1 with
  | Some b =>
      if in_block p.2 n b then Ok (slice (Z.to_nat p.2) (Z.to_nat n) b, h) else Err Fault
  | None => Err Fault
  end.

Definition store (p : cptr) (x : list Z) : M unit := λ h,
  match h !! p.1 with
  | Some b =>
      if in_block p.2 (Z.of_nat (length x)) b
      then Ok (tt, <[p.1 := splice (Z.to_nat p.2) x b]> h) else Err Fault
  | None => Err Fault
  end.

(** [std::memcpy] and [std::memmove] within the heap. *)
Definition memcpy (dst src : cptr) (n : Z) : M unit := x ← load src n; store dst x.
Definition memmove (dst src : cptr) (n : Z) : M unit := x ← load src n; store dst x.

(** Reading [n] bytes at index [i] of the caller's buffer. *)
Definition buf_read (buf : list Z) (i n : Z) : M (list Z) :=
  if in_block i n buf then mret (slice (Z.to_nat i) (Z.to_nat n) buf) else fail Fault.

Definition free (p : Z) : M unit := λ h,
  match h !! p with Some _ => Ok (tt, delete p h) | None => Err Fault end.

Section allocation.
Context `{!Allocator}.

(** [assert(data)] right after the call turns a null result into
    [OutOfMemory]; the null address is handled where the code tests it. *)
Definition malloc (n : Z) : M Z := λ h,
  let p := malloc_addr h n in
  if (p =? 0)%Z then Ok (0%Z, h) else Ok (p, <[p := malloc_junk h n]> h).

Definition realloc (p n : Z) : M Z := λ h,
  match h !! p with
  | None => Err Fault
  | Some b =>
      let q := realloc_addr h p n in
      if (q =? 0)%Z then Ok (0%Z, h)
      else Ok (q, <[q := take (Z.to_nat n) (b ++ realloc_junk h p n)]> (delete p h))
  end.
End allocation.

(** ** Ownership of blocks *)

(** The heap consists of the listed blocks and of nothing else. *)
Definition owns (h : heap) (L : list (Z * list Z)) : Prop :=
  NoDup L.*1 ∧ h = list_to_map L.

#[global] Instance owns_proper h : Proper (Permutation ==> iff) (owns h).
Proof.
  intros L L' HL. unfold owns. split; intros [Hnd ->].
  - split; [by rewrite <-HL|]. by apply list_to_map_proper.
  - split; [by rewrite HL|]. apply list_to_map_proper; [done|by symmetry].
Qed.

Section owns.
Implicit Types (h : heap) (L : list (Z * list Z)).

Lemma owns_lookup h p b L : owns h ((p, b) :: L) → h !! p = Some b.
Proof. intros [_ ->]. simpl. apply lookup_insert_eq. Qed.

Lemma owns_update h p b b' L : owns h ((p, b) :: L) → owns (<[p := b']> h) ((p, b') :: L).
Proof. intros [Hnd ->]. split; [done|]. simpl. by rewrite insert_insert_eq. Qed.

Lemma owns_alloc h p b L : h !! p = None → owns h L → owns (<[p := b]> h) ((p, b) :: L).
Proof.
  intros Hp [Hnd ->]. split; [|done]. simpl. constructor; [|done].
  by apply not_elem_of_list_to_map_2.
Qed.

Lemma owns_delete h p b L : owns h ((p, b) :: L) → owns (delete p h) L.
Proof.
  intros [Hnd ->]. simpl in *. apply NoDup_cons in Hnd as [Hp Hnd].
  split; [done|]. apply delete_insert_id. by apply not_elem_of_list_to_map_1.
Qed.

Lemma owns_size h L : owns h L → size h = length L.
Proof.
  intros [Hnd ->]. induction L as [|[p b] L IH]; simpl; [by rewrite map_size_empty|].
  apply NoDup_cons in Hnd as [Hp Hnd]. rewrite map_size_insert_None; [by rewrite IH|].
  by apply not_elem_of_list_to_map_1.
Qed.

Lemma owns_nil : owns ∅ [].
Proof. split; [constructor|done]. Qed.
End owns.

(** ** Weakest preconditions *)

(** [wp N m h Q]: run on [h], [m] returns a value and a heap that satisfy [Q].
    The only error it can end in is [OutOfMemory], and only under an allocator
    that may return null with at most [N] blocks allocated. *)
Definition wp `{!Allocator} {A} (N : nat) (m : M A) (h : heap) (Q : A → heap → Prop) : Prop :=
  match m h with
  | Ok (a, h') => Q a h'
  | Err OutOfMemory => ¬ alloc_good N
  | Err _ => False
  end.

Section wp.
Context `{!Allocator}.
Implicit Types (h : heap) (L : list (Z * list Z)).

Lemma wp_ret {A} N (a : A) h (Q : A → heap → Prop) : Q a h → wp N (mret a) h Q.
Proof. done. Qed.

Lemma wp_bind {A B} N (m : M A) (f : A → M B) h Q :
  wp N m h (λ a h', wp N (f a) h' Q) → wp N (m ≫= f) h Q.
Proof.
  unfold wp, mbind, M_bind. destruct (m h) as [[a h']|e]; [done|by destruct e].
Qed.

Lemma wp_mono {A} N (m : M A) h (Q Q' : A → heap → Prop) :
  wp N m h Q → (∀ a h', Q a h' → Q' a h') → wp N m h Q'.
Proof. unfold wp. destruct (m h) as [[a h']|[]]; auto. Qed.

(** With a good allocator the computation returns. *)
Lemma wp_total {A} N (m : M A) h (Q : A → heap → Prop) :
  wp N m h Q → alloc_good N → ∃ a h', m h = Ok (a, h') ∧ Q a h'.
Proof. unfold wp. destruct (m h) as [[a h']|[]]; [eauto|done..]. Qed.

(** [wp] read off the result. *)
Lemma wp_result {A} N (m : M A) h (Q : A → heap → Prop) :
  wp N m h Q →
  match m h with Ok (a, h') => Q a h' | Err e => e = OutOfMemory ∧ ¬ alloc_good N end.
Proof. unfold wp. by destruct (m h) as [[a h']|[]]. Qed.

(** A computation that is known to return. *)
Lemma wp_eq {A} N (m : M A) h a h' (Q : A → heap → Prop) :
  m h = Ok (a, h') → Q a h' → wp N m h Q.
Proof. unfold wp. by intros ->. Qed.

Lemma wp_massert N b h (Q : unit → heap → Prop) : b = true → Q tt h → wp N (massert b) h Q.
Proof. by intros ->. Qed.

Lemma wp_load N p off n h b L (Q : list Z → heap → Prop) :
  owns h ((p, b) :: L) →
  (0 ≤ off)%Z → (0 ≤ n)%Z → (off + n ≤ Z.of_nat (length b))%Z →
  Q (slice (Z.to_nat off) (Z.to_nat n) b) h → wp N (load (p, off) n) h Q.
Proof.
  intros Ho ? ? ? HQ. unfold wp, load. simpl. rewrite (owns_lookup _ _ _ _ Ho).
  replace (in_block off n b) with true; [done|].
  symmetry. unfold in_block. rewrite !andb_true_iff, !Z.leb_le. lia.
Qed.

Lemma wp_store N p off x h b L (Q : unit → heap → Prop) :
  owns h ((p, b) :: L) →
  (0 ≤ off)%Z → (off + Z.of_nat (length x) ≤ Z.of_nat (length b))%Z →
  (∀ h', owns h' ((p, splice (Z.to_nat off) x b) :: L) → Q tt h') →
  wp N (store (p, off) x) h Q.
Proof.
  intros Ho ? ? HQ. unfold wp, store. simpl. rewrite (owns_lookup _ _ _ _ Ho).
  replace (in_block off (Z.of_nat (length x)) b) with true.
  - apply HQ. by eapply owns_update.
  - symmetry. unfold in_block. rewrite !andb_true_iff, !Z.leb_le. lia.
Qed.

Lemma wp_buf_read N buf i n h (Q : list Z → heap → Prop) :
  (0 ≤ i)%Z → (0 ≤ n)%Z → (i + n ≤ Z.of_nat (length buf))%Z →
  Q (slice (Z.to_nat i) (Z.to_nat n) buf) h → wp N (buf_read buf i n) h Q.
Proof.
  intros ? ? ? HQ. unfold buf_read.
  replace (in_block i n buf) with true; [done|].
  symmetry. unfold in_block. rewrite !andb_true_iff, !Z.leb_le. lia.
Qed.

Lemma wp_free N p h b L (Q : unit → heap → Prop) :
  owns h ((p, b) :: L) → (∀ h', owns h' L → Q tt h') → wp N (free p) h Q.
Proof.
  intros Ho HQ. unfold wp, free. rewrite (owns_lookup _ _ _ _ Ho).
  apply HQ. by eapply owns_delete.
Qed.

(** [malloc] followed by the assertion on its result. *)
Lemma wp_malloc N n h L (Q : Z → heap → Prop) :
  owns h L →
  (∀ p b h', (0 < p < 2 ^ 64)%Z → length b = Z.to_nat n → owns h' ((p, b) :: L) → Q p h') →
  (malloc_addr h n = 0%Z → Q 0%Z h) → wp N (malloc n) h Q.
Proof.
  intros Ho HQ H0. unfold wp, malloc.
  destruct (Z.eqb_spec (malloc_addr h n) 0) as [E|E].
  - by apply H0.
  - destruct (malloc_fresh h n) as [Hf Hr]; [done|].
    eapply HQ; [done| |by apply owns_alloc]. apply malloc_junk_length.
Qed.

Lemma wp_realloc N p n h b L (Q : Z → heap → Prop) :
  owns h ((p, b) :: L) → (0 < p < 2 ^ 64)%Z → (0 ≤ n)%Z →
  (∀ q b' h', (0 < q < 2 ^ 64)%Z → length b' = Z.to_nat n →
    take (length b) b' = take (Z.to_nat n) b →
    owns h' ((q, b') :: L) → Q q h') →
  (realloc_addr h p n = 0%Z → Q 0%Z h) → wp N (realloc p n) h Q.
Proof.
  intros Ho Hp Hn HQ H0. unfold wp, realloc. rewrite (owns_lookup _ _ _ _ Ho).
  destruct (Z.eqb_spec (realloc_addr h p n) 0) as [E|E]; [by apply H0|].
  pose proof (owns_delete _ _ _ _ Ho) as Hd.
  assert (Hlen : length (take (Z.to_nat n) (b ++ realloc_junk h p n)) = Z.to_nat n).
  { len_simpl. rewrite realloc_junk_length. lia. }
  assert (Htake : take (length b) (take (Z.to_nat n) (b ++ realloc_junk h p n))
                  = take (Z.to_nat n) b).
  { rewrite take_take, Nat.min_comm, <-take_take, take_app_length. done. }
  destruct (realloc_fresh h p n) as [Hq|[Hq Hr]]; [done| |].
  - rewrite Hq in *. eapply HQ; [done..|]. apply owns_alloc; [apply lookup_delete_eq|done].
  - eapply HQ; [done..|]. apply owns_alloc; [|done].
    rewrite lookup_delete_None. by right.
Qed.
End wp.

(** ** A first-fit allocator *)

(** An instance of the interface: the least positive address that is not in
    use, zeroed memory, and blocks that [realloc] never moves. *)
Fixpoint first_free (h : heap) (fuel : nat) (p : Z) : Z :=
  match fuel with
  | O => 0
  | S fuel => if h !! p is Some _ then first_free h fuel (p + 1)%Z else p
  end.

Definition ff_malloc (h : heap) : Z :=
  let p := first_free h (S (size h)) 1%Z in if (p <? 2 ^ 64)%Z then p else 0%Z.

Lemma first_free_fresh h fuel p :
  (0 < p)%Z → first_free h fuel p ≠ 0%Z →
  h !! first_free h fuel p = None ∧ (0 < first_free h fuel p)%Z.
Proof.
  revert p. induction fuel as [|fuel IH]; simpl; intros p Hp; [done|].
  destruct (h !! p) eqn:E; [|done]. apply IH. lia.
Qed.

(** If the search from [p] finds nothing, [fuel] consecutive addresses are used. *)
Lemma first_free_used h fuel p :
  (0 < p)%Z → first_free h fuel p = 0%Z →
  ∀ i, i < fuel → is_Some (h !! (p + Z.of_nat i)%Z).
Proof.
  revert p. induction fuel as [|fuel IH]; simpl; intros p Hp Hff i Hi; [lia|].
  destruct (h !! p) eqn:E; [|lia].
  destruct i as [|i]; [rewrite Z.add_0_r; eauto|].
  replace (p + Z.of_nat (S i))%Z with ((p + 1) + Z.of_nat i)%Z by lia.
  apply (IH (p + 1)%Z); [lia|done|lia].
Qed.

Lemma first_free_bound h fuel p :
  (0 < p)%Z → (first_free h fuel p < p + Z.of_nat fuel)%Z.
Proof.
  revert p. induction fuel as [|fuel IH]; simpl; intros p Hp; [lia|].
  destruct (h !! p); [|lia]. specialize (IH (p + 1)%Z). lia.
Qed.

Lemma first_free_total h : first_free h (S (size h)) 1%Z ≠ 0%Z.
Proof.
  intros Hff.
  set (addrs := (λ i, (1 + Z.of_nat i)%Z) <$> seq 0 (S (size h))).
  assert (Hsub : list_to_set addrs ⊆@{gset Z} dom h).
  { intros x. rewrite elem_of_list_to_set. unfold addrs. rewrite list_elem_of_fmap.
    intros (i & -> & Hi). apply elem_of_seq in Hi. apply elem_of_dom.
    apply (first_free_used h (S (size h))); [lia|done|lia]. }
  apply subseteq_size in Hsub. rewrite size_dom in Hsub.
  rewrite size_list_to_set in Hsub.
  - unfold addrs in Hsub. rewrite length_fmap, length_seq in Hsub. lia.
  - apply NoDup_fmap_2_strong; [intros; lia|apply NoDup_seq].
Qed.

#[global] Program Instance first_fit : Allocator := {|
  malloc_addr h n := ff_malloc h;
  malloc_junk h n := replicate (Z.to_nat n) 0%Z;
  realloc_addr h p n := p;
  realloc_junk h p n := replicate (Z.to_nat n) 0%Z;
|}.
Next Obligation.
  intros h n. unfold ff_malloc. case_match eqn:E; [|done]. bool_props. intros Hne.
  destruct (first_free_fresh h (S (size h)) 1%Z) as [? ?]; [lia|done|]. split; [done|lia].
Qed.
Next Obligation. intros. apply length_replicate. Qed.
Next Obligation. intros. by left. Qed.
Next Obligation. intros. apply length_replicate. Qed.

(** First fit never fails while fewer than [2^64 - 1] blocks are allocated. *)
Lemma first_fit_good N : (Z.of_nat N + 1 < 2 ^ 64)%Z → @alloc_good first_fit N.
Proof.
  intros HN h n Hsz. split; [|done]. simpl. unfold ff_malloc.
  pose proof (first_free_bound h (S (size h)) 1%Z ltac:(lia)) as Hb.
  pose proof (first_free_total h).
  destruct (Z.ltb_spec (first_free h (S (size h)) 1) (2 ^ 64)); [done|lia].
Qed.
