(* ===== verification/RadixNode.v ===== *)
(** * Nodes of the radix tree

    [struct node] of Algorithm/radix-tree: a pointer to a block that holds three
    32-bit counters (reference count, prefix length, edge count) followed by the
    prefix, the first byte of each child and the child pointers.  Every accessor
    is modelled on the bytes of the block; [blk] is the layout the header
    comment of radix_tree.hpp describes, and the lemmas below are the Hoare
    triples of the accessors on blocks of that shape. *)

From S2P Require Import Prelude CMemory.
From Stdlib Require Import ZArith Lia.

(** [struct node { unsigned char* data_; }] *)
Definition node : Type := Z.

Definition sizeof_u32 : Z := 4.
Definition sizeof_ptr : Z := 8.

(** [bool node::operator==(node other) const], and its negation [operator!=] *)
Definition node_eqb (a b : node) : bool := (a =? b)%Z.
Definition node_neqb (a b : node) : bool := negb (node_eqb a b).

(** ** Accessors *)

Definition refcount (n : node) : M Z :=
  x ← load (n, 0%Z) sizeof_u32; mret (le_decode x).

Definition set_refcount (n : node) (value : Z) : M unit :=
  store (n, 0%Z) (le_encode 4 value).

Definition prefix_length (n : node) : M Z :=
  x ← load (n, sizeof_u32) sizeof_u32; mret (le_decode x).

Definition set_prefix_length (n : node) (value : Z) : M unit :=
  store (n, sizeof_u32) (le_encode 4 value).

Definition edgecount (n : node) : M Z :=
  x ← load (n, 2 * sizeof_u32)%Z sizeof_u32; mret (le_decode x).

Definition set_edgecount (n : node) (value : Z) : M unit :=
  store (n, 2 * sizeof_u32)%Z (le_encode 4 value).

Definition prefix (n : node) : cptr := (n, 3 * sizeof_u32)%Z.

(** [memcpy(prefix(), bytes, prefix_length())]; the source is a byte sequence
    [src], read for as many bytes as the node's prefix length says. *)
Definition set_prefix (n : node) (src : Z → M (list Z)) : M unit :=
  pl ← prefix_length n; x ← src pl; store (prefix n) x.

Definition first_bytes (n : node) : M cptr :=
  pl ← prefix_length n; mret (cptr_add (prefix n) pl).

Definition set_first_bytes (n : node) (src : Z → M (list Z)) : M unit :=
  p ← first_bytes n; ec ← edgecount n; x ← src ec; store p x.

Definition first_byte_at (n : node) (i : Z) : M Z :=
  ec ← edgecount n;
  _ ← massert (i <? ec)%Z;
  p ← first_bytes n;
  x ← load (cptr_add p i) 1;
  mret (le_decode x).

Definition set_first_byte_at (n : node) (i : Z) (byte : Z) : M unit :=
  ec ← edgecount n;
  _ ← massert (i <? ec)%Z;
  p ← first_bytes n;
  store (cptr_add p i) [byte].

Definition node_ptrs (n : node) : M cptr :=
  pl ← prefix_length n;
  ec ← edgecount n;
  mret (cptr_add (cptr_add (prefix n) pl) ec).

Definition set_node_ptrs (n : node) (src : Z → M (list Z)) : M unit :=
  p ← node_ptrs n; ec ← edgecount n; x ← src (ec * sizeof_ptr)%Z; store p x.

Definition node_at (n : node) (i : Z) : M node :=
  ec ← edgecount n;
  _ ← massert (i <? ec)%Z;
  p ← node_ptrs n;
  x ← load (cptr_add p (i * sizeof_ptr)) sizeof_ptr;
  mret (le_decode x).

Definition set_node_at (n : node) (i : Z) (m : node) : M unit :=
  ec ← edgecount n;
  _ ← massert (i <? ec)%Z;
  p ← node_ptrs n;
  store (cptr_add p (i * sizeof_ptr)) (le_encode 8 m).

Definition set_edge_at (n : node) (i : Z) (byte : Z) (m : node) : M unit :=
  _ ← set_first_byte_at n i byte;
  set_node_at n i m.

Section alloc.
Context `{!Allocator}.

(** [assert(data)] on the result of an allocation. *)
Definition assert_alloc (p : Z) : M unit :=
  if (p =? 0)%Z then fail OutOfMemory else mret tt.

(** The node is passed by value in a local variable; the new [data_] is returned. *)
Definition resize (n : node) (prefix_len edgecnt : Z) : M node :=
  let sz := u64 (3 * sizeof_u32 + prefix_len + edgecnt * (1 + sizeof_ptr))%Z in
  new_data ← realloc n sz;
  _ ← assert_alloc new_data;
  _ ← set_prefix_length new_data (u32 prefix_len);
  _ ← set_edgecount new_data (u32 edgecnt);
  mret new_data.

Definition make_node (refs bytes edges : Z) : M node :=
  let size := u64 (3 * sizeof_u32 + bytes + edges * (1 + sizeof_ptr))%Z in
  data ← malloc size;
  _ ← assert_alloc data;
  _ ← set_refcount data (u32 refs);
  _ ← set_prefix_length data (u32 bytes);
  _ ← set_edgecount data (u32 edges);
  mret data.
End alloc.

(** ** The layout of a node's block *)

(** Header, prefix [P], first bytes [F] and pointer chunk [D]. *)
Definition blk (r : Z) (P F D : list Z) : list Z :=
  le_encode 4 r ++ le_encode 4 (Z.of_nat (length P)) ++ le_encode 4 (Z.of_nat (length F))
  ++ P ++ F ++ D.

(** The sizes that fit the header and the chunk sizes that go together. *)
Definition blk_ok (P F D : list Z) : Prop :=
  (Z.of_nat (length P) < 2 ^ 32)%Z ∧ (Z.of_nat (length F) < 2 ^ 32)%Z ∧
  length D = 8 * length F.

(** Pointer chunk of a list of children. *)
Definition ptrs (cs : list Z) : list Z := cs ≫= le_encode 8.

Definition is_addr (p : Z) : Prop := (0 < p < 2 ^ 64)%Z.

Lemma length_ptrs cs : length (ptrs cs) = 8 * length cs.
Proof.
  unfold ptrs. induction cs as [|c cs IH]; [done|]. cbn [mbind list_bind].
  rewrite length_app, length_le_encode, IH. simpl. lia.
Qed.

Lemma ptrs_app cs cs' : ptrs (cs ++ cs') = ptrs cs ++ ptrs cs'.
Proof. unfold ptrs. apply bind_app. Qed.

Lemma length_blk r P F D :
  length (blk r P F D) = 12 + length P + length F + length D.
Proof. unfold blk. solve_len. Qed.

(** ** Bringing a block to the front *)

Lemma owns_mid h A (x : Z * list Z) L : owns h (A ++ x :: L) ↔ owns h (x :: A ++ L).
Proof. by rewrite Permutation_middle. Qed.

Lemma owns_2 h (a b : Z * list Z) L : owns h (a :: b :: L) → owns h (b :: a :: L).
Proof. apply (owns_mid h [a] b L). Qed.
Lemma owns_3 h (a b c : Z * list Z) L : owns h (a :: b :: c :: L) → owns h (c :: a :: b :: L).
Proof. apply (owns_mid h [a; b] c L). Qed.
Lemma owns_4 h (a b c d : Z * list Z) L :
  owns h (a :: b :: c :: d :: L) → owns h (d :: a :: b :: c :: L).
Proof. apply (owns_mid h [a; b; c] d L). Qed.

(** Solve [owns h ((p, ?b) :: ?L)] from an ownership hypothesis on [h]. *)
Ltac own := first
  [ eassumption | eapply owns_2; eassumption | eapply owns_3; eassumption
  | eapply owns_4; eassumption ].

(** ** Triples of the accessors *)

Section triples.
Context `{!Allocator}.
Implicit Types (h : heap) (L : list (Z * list Z)) (P F D : list Z).

Lemma wp_load_at N p off n h a x b L (Q : list Z → heap → Prop) :
  owns h ((p, a ++ x ++ b) :: L) →
  off = Z.of_nat (length a) → n = Z.of_nat (length x) →
  Q x h → wp N (load (p, off) n) h Q.
Proof.
  intros Ho -> -> HQ. eapply wp_load; [exact Ho|lia|lia|solve_len|].
  rewrite !Nat2Z.id. by rewrite slice_app_mid.
Qed.

Lemma wp_store_at N p off h a x x' b L (Q : unit → heap → Prop) :
  owns h ((p, a ++ x ++ b) :: L) →
  off = Z.of_nat (length a) → length x = length x' →
  (∀ h', owns h' ((p, a ++ x' ++ b) :: L) → Q tt h') → wp N (store (p, off) x') h Q.
Proof.
  intros Ho -> Hx HQ. eapply wp_store; [exact Ho|lia|solve_len|].
  rewrite !Nat2Z.id. rewrite splice_app_mid by done. done.
Qed.

Lemma le_decode_u32 z : (0 ≤ z < 2 ^ 32)%Z → le_decode (le_encode 4 z) = z.
Proof. intros Hz. apply le_decode_encode_small. exact Hz. Qed.

Lemma wp_refcount N n h r P F D L (Q : Z → heap → Prop) :
  owns h ((n, blk r P F D) :: L) → (0 ≤ r < 2 ^ 32)%Z → Q r h → wp N (refcount n) h Q.
Proof.
  intros Ho Hr HQ. apply wp_bind. eapply (wp_load_at _ _ _ _ _ []); [exact Ho|done|done|].
  apply wp_ret. by rewrite le_decode_u32.
Qed.

Lemma wp_set_refcount N n h r r' P F D L (Q : unit → heap → Prop) :
  owns h ((n, blk r P F D) :: L) →
  (∀ h', owns h' ((n, blk r' P F D) :: L) → Q tt h') → wp N (set_refcount n r') h Q.
Proof.
  intros Ho HQ. eapply (wp_store_at _ _ _ _ []); [exact Ho|done| |exact HQ].
  by rewrite !length_le_encode.
Qed.

Lemma wp_prefix_length N n h r P F D L (Q : Z → heap → Prop) :
  owns h ((n, blk r P F D) :: L) → blk_ok P F D →
  Q (Z.of_nat (length P)) h → wp N (prefix_length n) h Q.
Proof.
  intros Ho [? _] HQ. apply wp_bind. eapply wp_load_at; [exact Ho|done|done|].
  apply wp_ret. rewrite le_decode_u32; [done|lia].
Qed.

Lemma wp_edgecount N n h r P F D L (Q : Z → heap → Prop) :
  owns h ((n, blk r P F D) :: L) → blk_ok P F D →
  Q (Z.of_nat (length F)) h → wp N (edgecount n) h Q.
Proof.
  intros Ho (? & ? & _) HQ. apply wp_bind.
  eapply (wp_load_at _ _ _ _ _ (le_encode 4 r ++ le_encode 4 (Z.of_nat (length P)))).
  - unfold blk in Ho. rewrite <-app_assoc. exact Ho.
  - done.
  - done.
  - apply wp_ret. rewrite le_decode_u32; [done|lia].
Qed.

(** The block as header, prefix, first bytes and pointers. *)
Definition header (r : Z) (np nf : nat) : list Z :=
  le_encode 4 r ++ le_encode 4 (Z.of_nat np) ++ le_encode 4 (Z.of_nat nf).

Lemma length_header r np nf : length (header r np nf) = 12.
Proof. done. Qed.

Lemma blk_header r P F D : blk r P F D = header r (length P) (length F) ++ P ++ F ++ D.
Proof. unfold blk, header. by rewrite <-!app_assoc. Qed.

(** Load and store at an offset [k] of the data area, for any way [X ++ x ++ Y]
    of cutting that area. *)
Lemma wp_data_load N n h r P F D X x Y off len L (Q : list Z → heap → Prop) :
  owns h ((n, blk r P F D) :: L) → P ++ F ++ D = X ++ x ++ Y →
  off = (12 + Z.of_nat (length X))%Z → len = Z.of_nat (length x) →
  Q x h → wp N (load (n, off) len) h Q.
Proof.
  intros Ho E -> -> HQ. rewrite blk_header, E, app_assoc in Ho.
  eapply wp_load_at; [exact Ho| |done|done]. rewrite length_app, length_header. lia.
Qed.

Lemma wp_data_store N n h r P F D X x Y x' P' F' D' off L (Q : unit → heap → Prop) :
  owns h ((n, blk r P F D) :: L) → P ++ F ++ D = X ++ x ++ Y →
  off = (12 + Z.of_nat (length X))%Z → length x = length x' →
  P' ++ F' ++ D' = X ++ x' ++ Y → length P' = length P → length F' = length F →
  (∀ h', owns h' ((n, blk r P' F' D') :: L) → Q tt h') → wp N (store (n, off) x') h Q.
Proof.
  intros Ho E -> Hx E' HP HF HQ. rewrite blk_header, E, app_assoc in Ho.
  eapply wp_store_at; [exact Ho|rewrite length_app, length_header; lia|exact Hx|].
  intros h' Ho'. apply HQ. rewrite blk_header, E', HP, HF, app_assoc. exact Ho'.
Qed.

Lemma wp_first_bytes N n h r P F D L (Q : cptr → heap → Prop) :
  owns h ((n, blk r P F D) :: L) → blk_ok P F D →
  Q (n, 12 + Z.of_nat (length P))%Z h → wp N (first_bytes n) h Q.
Proof. intros Ho Hok HQ. apply wp_bind. eapply wp_prefix_length; eauto. Qed.

Lemma wp_node_ptrs N n h r P F D L (Q : cptr → heap → Prop) :
  owns h ((n, blk r P F D) :: L) → blk_ok P F D →
  Q (n, 12 + Z.of_nat (length P) + Z.of_nat (length F))%Z h → wp N (node_ptrs n) h Q.
Proof.
  intros Ho Hok HQ. apply wp_bind. eapply wp_prefix_length; eauto.
  apply wp_bind. eapply wp_edgecount; eauto.
Qed.

Lemma wp_set_prefix N n h r P P' F D L src (Q : unit → heap → Prop) :
  owns h ((n, blk r P F D) :: L) → blk_ok P F D → length P' = length P →
  (∀ (Q' : list Z → heap → Prop), Q' P' h → wp N (src (Z.of_nat (length P))) h Q') →
  (∀ h', owns h' ((n, blk r P' F D) :: L) → Q tt h') → wp N (set_prefix n src) h Q.
Proof.
  intros Ho Hok Hlen Hsrc HQ. apply wp_bind. eapply wp_prefix_length; eauto.
  apply wp_bind. apply Hsrc.
  by eapply (wp_data_store _ _ _ _ P F D [] P (F ++ D) P' P' F D).
Qed.

Lemma wp_set_first_bytes N n h r P F F' D L src (Q : unit → heap → Prop) :
  owns h ((n, blk r P F D) :: L) → blk_ok P F D → length F' = length F →
  (∀ (Q' : list Z → heap → Prop), Q' F' h → wp N (src (Z.of_nat (length F))) h Q') →
  (∀ h', owns h' ((n, blk r P F' D) :: L) → Q tt h') → wp N (set_first_bytes n src) h Q.
Proof.
  intros Ho Hok Hlen Hsrc HQ. apply wp_bind. eapply wp_first_bytes; eauto.
  apply wp_bind. eapply wp_edgecount; eauto. apply wp_bind. apply Hsrc.
  by eapply (wp_data_store _ _ _ _ P F D P F D F' P F' D).
Qed.

Lemma wp_set_node_ptrs N n h r P F D D' L src (Q : unit → heap → Prop) :
  owns h ((n, blk r P F D) :: L) → blk_ok P F D → length D' = length D →
  (∀ (Q' : list Z → heap → Prop),
    Q' D' h → wp N (src (Z.of_nat (length F) * sizeof_ptr)%Z) h Q') →
  (∀ h', owns h' ((n, blk r P F D') :: L) → Q tt h') → wp N (set_node_ptrs n src) h Q.
Proof.
  intros Ho Hok Hlen Hsrc HQ. apply wp_bind. eapply wp_node_ptrs; eauto.
  apply wp_bind. eapply wp_edgecount; eauto. apply wp_bind. apply Hsrc.
  eapply (wp_data_store _ _ _ _ P F D (P ++ F) D [] D' P F D').
  - exact Ho.
  - by rewrite app_nil_r, app_assoc.
  - rewrite length_app. lia.
  - done.
  - by rewrite app_nil_r, app_assoc.
  - done.
  - done.
  - exact HQ.
Qed.

(** Indexed access to the first bytes and to the pointers. *)
Lemma wp_first_byte_at N n h r P F D i b L (Q : Z → heap → Prop) :
  owns h ((n, blk r P F D) :: L) → blk_ok P F D → F !! i = Some b →
  Q b h → wp N (first_byte_at n (Z.of_nat i)) h Q.
Proof.
  intros Ho Hok Hi HQ. apply wp_bind. eapply wp_edgecount; eauto.
  pose proof (lookup_lt_Some _ _ _ Hi). apply wp_bind, wp_massert; [apply Z.ltb_lt; lia|].
  apply wp_bind. eapply wp_first_bytes; eauto. apply wp_bind.
  rewrite <-(take_drop_middle F i b) in Ho by done.
  eapply (wp_data_load _ _ _ _ P _ D (P ++ take i F) [b] (drop (S i) F ++ D)).
  - exact Ho.
  - by rewrite <-!app_assoc.
  - rewrite length_app, length_take. simpl. lia.
  - done.
  - apply wp_ret. cbn [le_decode]. by rewrite Z.mul_0_r, Z.add_0_r.
Qed.

Lemma wp_set_first_byte_at N n h r P F D i b L (Q : unit → heap → Prop) :
  owns h ((n, blk r P F D) :: L) → blk_ok P F D → i < length F →
  (∀ h', owns h' ((n, blk r P (<[i := b]> F) D) :: L) → Q tt h') →
  wp N (set_first_byte_at n (Z.of_nat i) b) h Q.
Proof.
  intros Ho Hok Hi HQ. apply wp_bind. eapply wp_edgecount; eauto.
  apply wp_bind, wp_massert; [apply Z.ltb_lt; lia|].
  apply wp_bind. eapply wp_first_bytes; eauto.
  destruct (lookup_lt_is_Some_2 F i Hi) as [b0 Hb0].
  eapply (wp_data_store _ _ _ _ P F D (P ++ take i F) [b0] (drop (S i) F ++ D) _
            P (<[i := b]> F) D).
  - exact Ho.
  - rewrite <-(take_drop_middle F i b0) at 1 by done. by rewrite <-!app_assoc.
  - rewrite length_app, length_take. simpl. lia.
  - done.
  - rewrite insert_take_drop by done. by rewrite <-!app_assoc.
  - done.
  - by rewrite length_insert.
  - exact HQ.
Qed.

Lemma wp_node_at N n h r P F cs i c L (Q : node → heap → Prop) :
  owns h ((n, blk r P F (ptrs cs)) :: L) → blk_ok P F (ptrs cs) →
  cs !! i = Some c → (0 ≤ c < 2 ^ 64)%Z → Q c h → wp N (node_at n (Z.of_nat i)) h Q.
Proof.
  intros Ho Hok Hi Hc HQ. pose proof (lookup_lt_Some _ _ _ Hi).
  pose proof Hok as (_ & _ & Hlen). rewrite length_ptrs in Hlen.
  apply wp_bind. eapply wp_edgecount; eauto.
  apply wp_bind, wp_massert; [apply Z.ltb_lt; lia|].
  apply wp_bind. eapply wp_node_ptrs; eauto. apply wp_bind.
  eapply (wp_data_load _ _ _ _ P F _ (P ++ F ++ ptrs (take i cs)) (le_encode 8 c)
            (ptrs (drop (S i) cs))).
  - exact Ho.
  - rewrite <-(take_drop_middle cs i c) at 1 by done.
    rewrite ptrs_app, <-!app_assoc. done.
  - rewrite !length_app, length_ptrs, length_take. unfold sizeof_ptr. simpl. lia.
  - done.
  - apply wp_ret. rewrite le_decode_encode_small; done.
Qed.

Lemma wp_set_node_at N n h r P F D i c L (Q : unit → heap → Prop) :
  owns h ((n, blk r P F D) :: L) → blk_ok P F D → i < length F →
  (∀ h', owns h' ((n, blk r P F (splice (8 * i) (le_encode 8 c) D)) :: L) → Q tt h') →
  wp N (set_node_at n (Z.of_nat i) c) h Q.
Proof.
  intros Ho Hok Hi HQ. pose proof Hok as (_ & _ & Hlen).
  apply wp_bind. eapply wp_edgecount; eauto.
  apply wp_bind, wp_massert; [apply Z.ltb_lt; lia|].
  apply wp_bind. eapply wp_node_ptrs; eauto.
  set (X := take (8 * i) D). set (x := take 8 (drop (8 * i) D)).
  set (Y := drop 8 (drop (8 * i) D)).
  assert (HD : D = X ++ x ++ Y) by (unfold X, x, Y; by rewrite !take_drop).
  eapply (wp_data_store _ _ _ _ P F D (P ++ F ++ X) x Y (le_encode 8 c) P F
            (splice (8 * i) (le_encode 8 c) D)).
  - exact Ho.
  - rewrite HD at 1. by rewrite <-!app_assoc.
  - unfold X. rewrite !length_app, length_take. unfold sizeof_ptr. simpl. lia.
  - unfold x. rewrite length_take, length_drop, length_le_encode. lia.
  - unfold splice. rewrite length_le_encode. unfold X, Y. rewrite drop_drop.
    rewrite <-!app_assoc. done.
  - done.
  - done.
  - exact HQ.
Qed.

(** *** Allocation *)

Definition node_size (np nf : nat) : Z :=
  (3 * sizeof_u32 + Z.of_nat np + Z.of_nat nf * (1 + sizeof_ptr))%Z.

Definition fits_u32 (n : nat) : Prop := (Z.of_nat n < 2 ^ 32)%Z.

Lemma u64_node_size np nf :
  fits_u32 np → fits_u32 nf → u64 (node_size np nf) = node_size np nf.
Proof.
  unfold fits_u32, node_size, sizeof_u32, sizeof_ptr. intros. apply wrap_small. lia.
Qed.

Lemma u32_fits n : fits_u32 n → u32 (Z.of_nat n) = Z.of_nat n.
Proof. unfold fits_u32. intros. apply wrap_small. lia. Qed.

(** Cut the data area of [np + 9 nf] bytes into its three chunks. *)
Lemma cut_data (d : list Z) np nf :
  length d = np + 9 * nf →
  ∃ P F D, d = P ++ F ++ D ∧ length P = np ∧ length F = nf ∧ length D = 8 * nf.
Proof.
  intros Hd. exists (take np d), (take nf (drop np d)), (drop nf (drop np d)).
  rewrite !take_drop. split; [done|]. len_simpl. lia.
Qed.

(** Cut a header of three 4-byte fields off a block. *)
Lemma cut_header (b : list Z) k :
  length b = 12 + k →
  ∃ x0 x1 x2 d, b = x0 ++ x1 ++ x2 ++ d ∧
    length x0 = 4 ∧ length x1 = 4 ∧ length x2 = 4 ∧ length d = k.
Proof.
  intros Hb. exists (take 4 b), (take 4 (drop 4 b)), (take 4 (drop 8 b)), (drop 12 b).
  replace (drop 12 b) with (drop 4 (drop 8 b)) by (rewrite drop_drop; done).
  rewrite take_drop. replace (drop 8 b) with (drop 4 (drop 4 b)) by (rewrite drop_drop; done).
  rewrite !take_drop. split; [done|]. len_simpl. lia.
Qed.

Lemma blk_ok_intro P F D :
  fits_u32 (length P) → fits_u32 (length F) → length D = 8 * length F → blk_ok P F D.
Proof. done. Qed.

(** Writing the last two header fields of a block. *)
Lemma wp_set_counts {A} N p h x0 x1 x2 np nf P F D L (k : M A) (Q : A → heap → Prop) r :
  owns h ((p, x0 ++ x1 ++ x2 ++ P ++ F ++ D) :: L) →
  x0 = le_encode 4 r → length x1 = 4 → length x2 = 4 →
  fits_u32 np → fits_u32 nf → length P = np → length F = nf →
  (∀ h', owns h' ((p, blk r P F D) :: L) → wp N k h' Q) →
  wp N (_ ← set_prefix_length p (u32 (Z.of_nat np));
        _ ← set_edgecount p (u32 (Z.of_nat nf)); k) h Q.
Proof.
  intros Ho -> H1 H2 Hnp Hnf HP HF HQ. rewrite !u32_fits by done.
  apply wp_bind. eapply wp_store_at; [exact Ho|done|by rewrite H1|].
  intros h1 Ho1. apply wp_bind.
  eapply (wp_store_at _ _ _ _ (le_encode 4 r ++ le_encode 4 (Z.of_nat np)) x2).
  - rewrite <-app_assoc. exact Ho1.
  - done.
  - done.
  - intros h2 Ho2. apply HQ. unfold blk. rewrite HP, HF. rewrite <-app_assoc in Ho2. exact Ho2.
Qed.

Lemma wp_assert_alloc N p h (Q : unit → heap → Prop) :
  p ≠ 0%Z → Q tt h → wp N (assert_alloc p) h Q.
Proof. intros Hp HQ. unfold assert_alloc. by rewrite (proj2 (Z.eqb_neq _ _) Hp). Qed.

Lemma wp_make_node N r np nf h L (Q : node → heap → Prop) :
  owns h L → length L ≤ N → (0 ≤ r < 2 ^ 32)%Z → fits_u32 np → fits_u32 nf →
  (∀ p P F D h', is_addr p → length P = np → length F = nf → blk_ok P F D →
    owns h' ((p, blk r P F D) :: L) → Q p h') →
  wp N (make_node r (Z.of_nat np) (Z.of_nat nf)) h Q.
Proof.
  intros Ho HN Hr Hnp Hnf HQ. unfold make_node.
  change (3 * sizeof_u32 + Z.of_nat np + Z.of_nat nf * (1 + sizeof_ptr))%Z
    with (node_size np nf). rewrite u64_node_size by done.
  apply wp_bind. eapply wp_malloc; [exact Ho| |].
  - intros p b h1 Hp Hb Ho1. apply wp_bind, wp_assert_alloc; [lia|].
    assert (Hb' : length b = 12 + (np + 9 * nf)).
    { rewrite Hb. unfold node_size, sizeof_u32, sizeof_ptr. lia. }
    destruct (cut_header _ _ Hb') as (x0 & x1 & x2 & d & -> & H0 & H1 & H2 & Hd).
    destruct (cut_data _ _ _ Hd) as (P & F & D & -> & HP & HF & HD).
    rewrite (wrap_small 32 r) by done. apply wp_bind.
    eapply (wp_store_at _ _ _ _ []); [exact Ho1|done|done|]. intros h2 Ho2.
    rewrite app_nil_l in Ho2. eapply wp_set_counts; [exact Ho2|done..|]. intros h3 Ho3. apply wp_ret.
    eapply HQ; [done|done|done| |exact Ho3].
    apply blk_ok_intro; [by rewrite HP|by rewrite HF|lia].
  - intros H0. apply wp_bind. unfold assert_alloc. simpl. intros Hgood.
    destruct (Hgood h (node_size np nf)) as [Hne _]; [|done].
    rewrite (owns_size _ _ Ho). lia.
Qed.

(** [resize] keeps the reference count and the common part of the data area. *)
Lemma wp_resize N n r P F D np nf h L (Q : node → heap → Prop) :
  owns h ((n, blk r P F D) :: L) → is_addr n → length L < N → fits_u32 np → fits_u32 nf →
  (∀ q P' F' D' h', is_addr q → length P' = np → length F' = nf → blk_ok P' F' D' →
    take (length (P ++ F ++ D)) (P' ++ F' ++ D') = take (np + 9 * nf) (P ++ F ++ D) →
    owns h' ((q, blk r P' F' D') :: L) → Q q h') →
  wp N (resize n (Z.of_nat np) (Z.of_nat nf)) h Q.
Proof.
  intros Ho Hn HN Hnp Hnf HQ. unfold resize.
  change (3 * sizeof_u32 + Z.of_nat np + Z.of_nat nf * (1 + sizeof_ptr))%Z
    with (node_size np nf). rewrite u64_node_size by done.
  apply wp_bind. eapply wp_realloc; [exact Ho|done| | |].
  - unfold node_size, sizeof_u32, sizeof_ptr. lia.
  - intros q b h1 Hq Hb Hkeep Ho1. apply wp_bind, wp_assert_alloc; [lia|].
    assert (Hb' : length b = 12 + (np + 9 * nf)).
    { rewrite Hb. unfold node_size, sizeof_u32, sizeof_ptr. lia. }
    destruct (cut_header _ _ Hb') as (x0 & x1 & x2 & d & -> & H0 & H1 & H2 & Hd).
    destruct (cut_data _ _ _ Hd) as (P' & F' & D' & -> & HP & HF & HD).
    rewrite <-Hb, Hb' in Hkeep.
    assert (Hx0 : x0 = le_encode 4 r).
    { apply (f_equal (take 4)) in Hkeep. rewrite !take_take in Hkeep.
      rewrite length_blk, Nat.min_l in Hkeep by lia.
      rewrite Nat.min_l in Hkeep by lia. unfold blk in Hkeep.
      rewrite !take_app_le in Hkeep by (rewrite ?length_le_encode; lia).
      rewrite (take_ge x0), (take_ge (le_encode 4 r)) in Hkeep; [done|by rewrite length_le_encode|lia]. }
    eapply wp_set_counts; [exact Ho1|exact Hx0|done..|]. intros h3 Ho3. apply wp_ret.
    eapply HQ; [done|done|done| | |exact Ho3].
    { apply blk_ok_intro; [by rewrite HP|by rewrite HF|lia]. }
    apply (f_equal (drop 12)) in Hkeep.
    rewrite !skipn_firstn_comm, blk_header in Hkeep.
    rewrite (drop_app_length' (header _ _ _)) in Hkeep by done.
    replace (x0 ++ x1 ++ x2 ++ P' ++ F' ++ D') with ((x0 ++ x1 ++ x2) ++ P' ++ F' ++ D')
      in Hkeep by (by rewrite <-!app_assoc).
    rewrite drop_app_length' in Hkeep by (rewrite !length_app; lia).
    rewrite length_app, length_header in Hkeep.
    replace (12 + length (P ++ F ++ D) - 12) with (length (P ++ F ++ D)) in Hkeep by lia.
    replace (12 + (np + 9 * nf) - 12) with (np + 9 * nf) in Hkeep by lia. exact Hkeep.
  - intros H0. apply wp_bind. unfold assert_alloc. simpl. intros Hgood.
    destruct (Hgood h (node_size np nf)) as [_ Hne].
    { rewrite (owns_size _ _ Ho). simpl. lia. }
    apply (Hne n); [unfold is_addr in Hn; lia|done].
Qed.
End triples.
