(* ===== verification/RadixTree.v ===== *)
(** * The radix tree operations

    [class radix_tree] of Algorithm/radix-tree/radix_tree.cpp on the byte-level
    memory: the matching loop, [insert], [erase], [contains], [apply], [size],
    the printer and the destructor, statement by statement.  The caller's key is
    the buffer [key] it points to (possibly longer than [size]); reading outside
    it is a [Fault].  Loops whose bound is not a counter run on fuel. *)

From S2P Require Import Prelude CMemory RadixNode.
From Stdlib Require Import ZArith Lia.

Record match_result := MatchResult {
  nkey : Z;
  nprefix : Z;
  edge_index : Z;
  gp_edge_index : Z;
  current_node : node;
  parent_node : node;
  grandparent_node : node;
}.

Record radix_tree := RadixTree { root_ : node; size_ : Z }.

(** ** Matching *)

(** [for (j = 0; j < current_node.prefix_length(); ++j)]: compare the prefix
    with the key from [i] on; the result is [(i, j)] when the loop ends. *)
Fixpoint match_prefix (fuel : nat) (cur : node) (key : list Z) (i j : Z) : M (Z * Z) :=
  match fuel with
  | O => fail OutOfFuel
  | S fuel =>
      pl ← prefix_length cur;
      if (j <? pl)%Z then
        c ← load (cptr_add (prefix cur) j) 1;
        k ← buf_read key i 1;
        if bool_decide (c = k) then match_prefix fuel cur key (i + 1)%Z (j + 1)%Z
        else mret (i, j)
      else mret (i, j)
  end.

(** [for (k = 0; k < current_node.edgecount(); ++k)]: the first outgoing edge
    whose byte is [key[i]], with the child it leads to. *)
Fixpoint find_edge (fuel : nat) (cur : node) (key : list Z) (size i k : Z) : M (option (Z * node)) :=
  match fuel with
  | O => fail OutOfFuel
  | S fuel =>
      ec ← edgecount cur;
      if (k <? ec)%Z then
        hit ← (if (i <? size)%Z then
                 b ← first_byte_at cur k; c ← buf_read key i 1;
                 mret (bool_decide (le_decode c = b))
               else mret false);
        if (hit : bool) then next ← node_at cur k; mret (Some (k, next))
        else find_edge fuel cur key size i (k + 1)%Z
      else mret None
  end.

(** The [while] loop of [match]. *)
Fixpoint match_loop (fuel : nat) (key : list Z) (size : Z) (m : match_result) : M match_result :=
  match fuel with
  | O => fail OutOfFuel
  | S fuel =>
      let cur := current_node m in
      pl ← prefix_length cur;
      ec ← edgecount cur;
      if ((0 <? pl)%Z || (0 <? ec)%Z) && (nkey m <? size)%Z then
        '(i, j) ← match_prefix (S (Z.to_nat pl)) cur key (nkey m) 0;
        let m1 := MatchResult i j (edge_index m) (gp_edge_index m) cur
                    (parent_node m) (grandparent_node m) in
        if negb (j =? pl)%Z then mret m1
        else
          e ← find_edge (S (Z.to_nat ec)) cur key size i 0;
          match e with
          | None => mret m1
          | Some (k, next_node) =>
              (* [if (next_node == current_node) break;] *)
              if node_eqb next_node cur then
                mret (MatchResult i j k (edge_index m) cur (parent_node m) (grandparent_node m))
              else
                match_loop fuel key size
                  (MatchResult i j k (edge_index m) next_node cur (parent_node m))
          end
      else mret m
  end.

(** [match_result radix_tree::match(key, size) const] *)
Definition match_ (t : radix_tree) (key : list Z) (size : Z) : M match_result :=
  _ ← massert (0 <? size)%Z;
  match_loop (S (S (Z.to_nat size))) key size
    (MatchResult 0 0 0 0 (root_ t) (root_ t) (root_ t)).

Section operations.
Context `{!Allocator}.

(** [radix_tree::radix_tree()] *)
Definition new_tree : M radix_tree :=
  root ← make_node 0 0 0; mret (RadixTree root 0).

(** ** Insertion *)

(** The allocation of [split_node] that both splitting branches of [insert] start
    with: room for the prefix from byte [j] on and for the edges of [cur]. *)
Definition make_split (cur : node) (j : Z) : M node :=
  r ← refcount cur;
  pl ← prefix_length cur;
  ec ← edgecount cur;
  make_node r (u64 (pl - j)) ec.

(** ... and the copies that fill it. *)
Definition fill_split (split_node cur : node) (j : Z) : M unit :=
  _ ← set_prefix split_node (load (cptr_add (prefix cur) j));
  fb ← first_bytes cur;
  _ ← set_first_bytes split_node (load fb);
  np ← node_ptrs cur;
  set_node_ptrs split_node (load np).

(** [Reallocate for one more edge] ... [Add a link to the new node]. *)
Definition append_edge (cur : node) (byte : Z) (child : node) : M node :=
  pl ← prefix_length cur;
  ec ← edgecount cur;
  cur' ← resize cur pl (u32 (ec + 1));
  np ← node_ptrs cur';
  ec' ← edgecount cur';
  _ ← memmove np (cptr_add np (-1)) (u32 (ec' - 1) * sizeof_ptr)%Z;
  _ ← set_edge_at cur' (u32 (ec' - 1)) byte child;
  mret cur'.

Definition first_prefix_byte (n : node) : M Z :=
  x ← load (prefix n) 1; mret (le_decode x).

(** [++size_] and [--size_] on the 64-bit counter. *)
Definition incr_size (t : radix_tree) : radix_tree := RadixTree (root_ t) (u64 (size_ t + 1)).
Definition decr_size (t : radix_tree) : radix_tree := RadixTree (root_ t) (u64 (size_ t - 1)).

(** [The mismatch is at one of the outgoing edges]: a new leaf below [cur]. *)
Definition insert_leaf (t : radix_tree) (key : list Z) (size i edge_idx : Z) (cur par : node)
    : M (bool * radix_tree) :=
  key_node ← make_node 1 (u64 (size - i)) 0;
  _ ← set_prefix key_node (buf_read key i);
  b ← buf_read key i 1;
  cur' ← append_edge cur (le_decode b) key_node;
  pl ← prefix_length cur';
  if (pl =? 0)%Z then mret (true, incr_size (RadixTree cur' (size_ t)))
  else
    _ ← set_node_at par edge_idx cur';
    mret (true, incr_size t).

(** [There was a mismatch, so we need to split this node]. *)
Definition insert_split (t : radix_tree) (key : list Z) (size i j edge_idx : Z) (cur par : node)
    : M (bool * radix_tree) :=
  key_node ← make_node 1 (u64 (size - i)) 0;
  split_node ← make_split cur j;
  _ ← set_prefix key_node (buf_read key i);
  _ ← fill_split split_node cur j;
  cur' ← resize cur j 2;
  _ ← set_refcount cur' 0;
  kb ← first_prefix_byte key_node;
  _ ← set_edge_at cur' 0 kb key_node;
  sb ← first_prefix_byte split_node;
  _ ← set_edge_at cur' 1 sb split_node;
  _ ← set_node_at par edge_idx cur';
  mret (true, incr_size t).

(** [All characters in the key match, but not all characters from the current
    node's prefix match]. *)
Definition insert_middle (t : radix_tree) (j edge_idx : Z) (cur par : node)
    : M (bool * radix_tree) :=
  split_node ← make_split cur j;
  _ ← fill_split split_node cur j;
  cur' ← resize cur j 1;
  sb ← first_prefix_byte split_node;
  _ ← set_edge_at cur' 0 sb split_node;
  _ ← set_refcount cur' 1;
  _ ← set_node_at par edge_idx cur';
  mret (true, incr_size t).

(** [bool radix_tree::insert(key, size)]; the updated object is returned too. *)
Definition insert (t : radix_tree) (key : list Z) (size : Z) : M (bool * radix_tree) :=
  result ← match_ t key size;
  let i := nkey result in
  let j := nprefix result in
  let edge_idx := edge_index result in
  let cur := current_node result in
  let par := parent_node result in
  pl ← prefix_length cur;
  if negb (i =? size)%Z then
    if (i =? 0)%Z || (j =? pl)%Z then insert_leaf t key size i edge_idx cur par
    else insert_split t key size i j edge_idx cur par
  else if negb (j =? pl)%Z then insert_middle t j edge_idx cur par
  else
    r ← refcount cur;
    _ ← set_refcount cur (u32 (r + 1));
    r' ← refcount cur;
    mret ((r' =? 1)%Z, incr_size t).

(** ** Removal *)

(** The merge that two branches of [erase] perform: [n] takes over the prefix,
    the edges and the reference count of its only remaining child. *)
Definition absorb (n child : node) : M node :=
  old_prefix_length ← prefix_length n;
  cpl ← prefix_length child;
  cec ← edgecount child;
  n' ← resize n (u32 (old_prefix_length + cpl)) cec;
  _ ← memcpy (cptr_add (prefix n') old_prefix_length) (prefix child) cpl;
  fb ← first_bytes child;
  _ ← set_first_bytes n' (load fb);
  np ← node_ptrs child;
  _ ← set_node_ptrs n' (load np);
  r ← refcount child;
  _ ← set_refcount n' r;
  mret n'.

(** [Move the first byte and node pointer ...] ... [Shrink the parent node]. *)
Definition drop_edge (par : node) (edge_idx : Z) : M node :=
  ec ← edgecount par;
  let last_idx := u32 (ec - 1) in
  last_byte ← first_byte_at par last_idx;
  last_ptr ← node_at par last_idx;
  _ ← set_edge_at par edge_idx last_byte last_ptr;
  np ← node_ptrs par;
  ec' ← edgecount par;
  _ ← memmove (cptr_add np (-1)) np (ec' * sizeof_ptr)%Z;
  pl ← prefix_length par;
  ec'' ← edgecount par;
  resize par pl (u32 (ec'' - 1)).

(** [Merge this node with the single child node]. *)
Definition erase_merge_child (t : radix_tree) (edge_idx : Z) (cur par : node) : M (bool * radix_tree) :=
  child ← node_at cur 0;
  cur' ← absorb cur child;
  _ ← free child;
  _ ← set_node_at par edge_idx cur';
  mret (true, t).

(** [Removing this node leaves the parent with one child]. *)
Definition erase_merge_parent (t : radix_tree) (edge_idx gp_edge_idx : Z) (cur par gp : node)
    : M (bool * radix_tree) :=
  _ ← massert (edge_idx <? 2)%Z;
  other_child ← node_at par (if (edge_idx =? 0)%Z then 1%Z else 0%Z);
  par' ← absorb par other_child;
  _ ← free cur;
  _ ← free other_child;
  _ ← set_node_at gp gp_edge_idx par';
  mret (true, t).

(** [Remove the outgoing edge to this node from the parent]. *)
Definition erase_leaf (t : radix_tree) (outgoing_edges edge_idx gp_edge_idx : Z) (cur par gp : node)
    : M (bool * radix_tree) :=
  _ ← massert (outgoing_edges =? 0)%Z;
  par' ← drop_edge par edge_idx;
  _ ← free cur;
  pl ← prefix_length par';
  if (pl =? 0)%Z then mret (true, RadixTree par' (size_ t))
  else
    _ ← set_node_at gp gp_edge_idx par';
    mret (true, t).

(** [bool radix_tree::erase(key, size)] *)
Definition erase (t : radix_tree) (key : list Z) (size : Z) : M (bool * radix_tree) :=
  result ← match_ t key size;
  let i := nkey result in
  let j := nprefix result in
  let edge_idx := edge_index result in
  let gp_edge_idx := gp_edge_index result in
  let cur := current_node result in
  let par := parent_node result in
  let gp := grandparent_node result in
  pl ← prefix_length cur;
  r ← refcount cur;
  if negb (i =? size)%Z || negb (j =? pl)%Z || (r =? 0)%Z then mret (false, t)
  else
    _ ← massert (node_neqb par cur);
    _ ← set_refcount cur (u32 (r - 1));
    let t' := decr_size t in
    r' ← refcount cur;
    if (0 <? r')%Z then mret (true, t')
    else
      outgoing_edges ← edgecount cur;
      if (1 <? outgoing_edges)%Z then mret (true, t')
      else if (outgoing_edges =? 1)%Z then erase_merge_child t' edge_idx cur par
      else
        pec ← edgecount par;
        prc ← refcount par;
        if (pec =? 2)%Z && (prc =? 0)%Z && node_neqb par (root_ t)
        then erase_merge_parent t' edge_idx gp_edge_idx cur par gp
        else erase_leaf t' outgoing_edges edge_idx gp_edge_idx cur par gp.

(** ** Queries *)

(** [bool radix_tree::contains(key, size) const] *)
Definition contains (t : radix_tree) (key : list Z) (size : Z) : M bool :=
  result ← match_ t key size;
  pl ← prefix_length (current_node result);
  r ← refcount (current_node result);
  mret ((nkey result =? size)%Z && (nprefix result =? pl)%Z && negb (r =? 0)%Z).

(** [std::size_t radix_tree::size() const] *)
Definition size (t : radix_tree) : Z := size_ t.

(** ** Traversals *)

(** [for (i = 0; i < n.edgecount(); ++i) body(n.node_at(i))], threading the state
    the bodies work on. *)
Fixpoint for_edges {St} (body : St → node → M St) (n : node) (k : nat) (i : Z) (s : St) : M St :=
  match k with
  | O => mret s
  | S k => c ← node_at n i; s' ← body s c; for_edges body n k (i + 1)%Z s'
  end.

Fixpoint free_nodes (fuel : nat) (_ : unit) (n : node) : M unit :=
  match fuel with
  | O => fail OutOfFuel
  | S fuel =>
      ec ← edgecount n;
      _ ← for_edges (free_nodes fuel) n (Z.to_nat ec) 0%Z tt;
      free n
  end.

(** [radix_tree::~radix_tree()] *)
Definition destroy (fuel : nat) (t : radix_tree) : M unit := free_nodes fuel tt (root_ t).

(** [visit_keys]: the state is the list of calls of [func] made so far, each with
    the bytes it was passed, and the contents of [buffer]. *)
Fixpoint visit_keys (fuel : nat) (st : list (list Z) * list Z) (n : node)
    : M (list (list Z) * list Z) :=
  match fuel with
  | O => fail OutOfFuel
  | S fuel =>
      pl ← prefix_length n;
      p ← load (prefix n) pl;
      let buffer := st.2 ++ p in
      r ← refcount n;
      let calls := if (0 <? r)%Z then st.1 ++ [buffer] else st.1 in
      ec ← edgecount n;
      '(calls, buffer) ← for_edges (visit_keys fuel) n (Z.to_nat ec) 0%Z (calls, buffer);
      pl ← prefix_length n;
      mret (calls, take (length buffer - Z.to_nat pl) buffer)
  end.

(** [void radix_tree::apply(func, arg)]: the calls of [func]. *)
Definition apply (fuel : nat) (t : radix_tree) : M (list (list Z)) :=
  '(calls, _) ← visit_keys fuel ([], []) (root_ t); mret calls.

(** [visit_child(child_node, level)]: the state is what was written to stdout. *)
Fixpoint visit_child (fuel : nat) (level : Z) (out : list Z) (n : node) : M (list Z) :=
  match fuel with
  | O => fail OutOfFuel
  | S fuel =>
      _ ← massert (0 <? level)%Z;
      let indent := replicate (Z.to_nat (4 * (level - 1) + level)) 32%Z in
      pl ← prefix_length n;
      p ← load (prefix n) pl;
      r ← refcount n;
      let line := indent ++ ascii_bytes "`-> " ++ p
                  ++ (if (0 <? r)%Z then ascii_bytes " [*]" else []) ++ [10%Z] in
      ec ← edgecount n;
      for_edges (visit_child fuel (level + 1)) n (Z.to_nat ec) 0%Z (out ++ line)
  end.

(** [void radix_tree::print()] *)
Definition print (fuel : nat) (t : radix_tree) : M (list Z) :=
  ec ← edgecount (root_ t);
  for_edges (visit_child fuel 1) (root_ t) (Z.to_nat ec) 0%Z (ascii_bytes "[root]" ++ [10%Z]).
End operations.
