(* ===== verification/RadixBlocks.v ===== *)
(** * Triples of the block manipulations of [insert] and [erase]

    What [make_split], [append_edge], [absorb] and [drop_edge] of RadixTree.v do
    to the bytes of the nodes involved, whatever the allocator does. *)

From S2P Require Import Prelude CMemory RadixNode RadixTree.
From Stdlib Require Import ZArith Lia.

(** [l] with entry [i] overwritten by the last one and the last one dropped. *)
Definition swap_remove {A} (i : nat) (l : list A) : list A :=
  match last l with
  | Some x => take (length l - 1) (<[i := x]> l)
  | None => []
  end.

Lemma length_swap_remove {A} i (l : list A) : length (swap_remove i l) = length l - 1.
Proof.
  unfold swap_remove. destruct (last l) as [x|] eqn:E.
  - rewrite length_take, length_insert. lia.
  - apply last_None in E. by subst.
Qed.

Lemma fmap_swap_remove {A B} (f : A → B) i l : f <$> swap_remove i l = swap_remove i (f <$> l).
Proof.
  unfold swap_remove. rewrite fmap_last. destruct (last l) as [x|]; simpl; [|done].
  by rewrite fmap_take, list_fmap_insert, length_fmap.
Qed.

Section pointers.
Implicit Types cs : list Z.

Lemma splice_ptrs cs i c :
  i < length cs → splice (8 * i) (le_encode 8 c) (ptrs cs) = ptrs (<[i := c]> cs).
Proof.
  intros Hi. destruct (lookup_lt_is_Some_2 cs i Hi) as [c0 Hc0].
  rewrite insert_take_drop by done.
  rewrite <-(take_drop_middle cs i c0) at 1 by done.
  rewrite !ptrs_app. change (ptrs (c0 :: drop (S i) cs)) with (le_encode 8 c0 ++ ptrs (drop (S i) cs)).
  apply splice_app_mid; [|done]. rewrite length_ptrs, length_take. lia.
Qed.

Lemma take_ptrs cs n : take (8 * n) (ptrs cs) = ptrs (take n cs).
Proof.
  rewrite <-(take_drop n cs) at 1. rewrite ptrs_app.
  destruct (decide (n ≤ length cs)).
  - rewrite take_app_length'; [done|]. rewrite length_ptrs, length_take. lia.
  - rewrite (drop_ge cs) by lia. rewrite app_nil_r. apply take_ge.
    rewrite length_ptrs, length_take. lia.
Qed.
End pointers.

Section triples.
Context `{!Allocator}.
Implicit Types (h : heap) (L : list (Z * list Z)) (P F D cs : list Z).

Lemma blk_ok_ptrs P F cs :
  fits_u32 (length P) → fits_u32 (length F) → length cs = length F → blk_ok P F (ptrs cs).
Proof. intros. apply blk_ok_intro; [done..|]. rewrite length_ptrs. lia. Qed.

Lemma blk_ok_insert P F D i b D' :
  blk_ok P F D → length D' = length D → blk_ok P (<[i := b]> F) D'.
Proof. intros (?&?&?) ?. unfold blk_ok. rewrite length_insert. lia. Qed.

Lemma wp_set_node_at_ptrs N n h r P F cs i c L (Q : unit → heap → Prop) :
  owns h ((n, blk r P F (ptrs cs)) :: L) → blk_ok P F (ptrs cs) → i < length F →
  (∀ h', owns h' ((n, blk r P F (ptrs (<[i := c]> cs))) :: L) → Q tt h') →
  wp N (set_node_at n (Z.of_nat i) c) h Q.
Proof.
  intros Ho Hok Hi HQ. eapply wp_set_node_at; [done..|]. intros h'.
  pose proof Hok as (_ & _ & Hlen). rewrite length_ptrs in Hlen.
  rewrite splice_ptrs by lia. apply HQ.
Qed.

Lemma wp_set_edge_at N n h r P F D i b c L (Q : unit → heap → Prop) :
  owns h ((n, blk r P F D) :: L) → blk_ok P F D → i < length F →
  (∀ h', owns h' ((n, blk r P (<[i := b]> F) (splice (8 * i) (le_encode 8 c) D)) :: L) → Q tt h') →
  wp N (set_edge_at n (Z.of_nat i) b c) h Q.
Proof.
  intros Ho Hok Hi HQ. apply wp_bind. eapply wp_set_first_byte_at; [done..|].
  intros h' Ho'. eapply wp_set_node_at; [done|by eapply blk_ok_insert| |done].
  by rewrite length_insert.
Qed.

Lemma wp_first_prefix_byte N n h r b P F D L (Q : Z → heap → Prop) :
  owns h ((n, blk r (b :: P) F D) :: L) → Q b h → wp N (first_prefix_byte n) h Q.
Proof.
  intros Ho HQ. apply wp_bind.
  eapply (wp_data_load _ _ _ _ (b :: P) F D [] [b] (P ++ F ++ D)); [done..|].
  apply wp_ret. cbn [le_decode]. by rewrite Z.mul_0_r, Z.add_0_r.
Qed.

(** Reading chunks of a node. *)
Lemma wp_load_prefix_from N n h r P F D j L len (Q : list Z → heap → Prop) :
  owns h ((n, blk r P F D) :: L) → j ≤ length P → len = Z.of_nat (length P - j) →
  Q (drop j P) h → wp N (load (cptr_add (prefix n) (Z.of_nat j)) len) h Q.
Proof.
  intros Ho Hj -> HQ.
  eapply (wp_data_load _ _ _ _ P F D (take j P) (drop j P) (F ++ D)); [done| | | |done].
  - by rewrite (app_assoc (take j P)), take_drop.
  - change (12 + Z.of_nat j = 12 + Z.of_nat (length (take j P)))%Z. rewrite length_take. lia.
  - by rewrite length_drop.
Qed.

Lemma wp_load_first_bytes N n h r P F D L len (Q : list Z → heap → Prop) :
  owns h ((n, blk r P F D) :: L) → len = Z.of_nat (length F) →
  Q F h → wp N (load (n, 12 + Z.of_nat (length P))%Z len) h Q.
Proof. intros Ho -> HQ. by eapply wp_data_load. Qed.

Lemma wp_load_ptrs N n h r P F D L len (Q : list Z → heap → Prop) :
  owns h ((n, blk r P F D) :: L) → len = Z.of_nat (length D) →
  Q D h → wp N (load (n, 12 + Z.of_nat (length P) + Z.of_nat (length F))%Z len) h Q.
Proof.
  intros Ho -> HQ.
  eapply (wp_data_load _ _ _ _ P F D (P ++ F) D []); [done| | |done|done].
  - by rewrite app_nil_r, app_assoc.
  - rewrite length_app. lia.
Qed.

(** Room for the tail of the prefix and the edges of [cur]. *)
Lemma wp_make_split N cur h r P F D j L (Q : node → heap → Prop) :
  owns h ((cur, blk r P F D) :: L) → blk_ok P F D → (0 ≤ r < 2 ^ 32)%Z →
  j ≤ length P → length L < N →
  (∀ q P' F' D' h', is_addr q → length P' = length P - j → length F' = length F →
    blk_ok P' F' D' → owns h' ((q, blk r P' F' D') :: (cur, blk r P F D) :: L) → Q q h') →
  wp N (make_split cur (Z.of_nat j)) h Q.
Proof.
  intros Ho Hok Hr Hj HN HQ. pose proof Hok as (HP & HF & HD).
  apply wp_bind. eapply wp_refcount; [done..|].
  apply wp_bind. eapply wp_prefix_length; [done..|].
  apply wp_bind. eapply wp_edgecount; [done..|].
  replace (u64 (Z.of_nat (length P) - Z.of_nat j)) with (Z.of_nat (length P - j))
    by (rewrite wrap_small; lia).
  eapply wp_make_node; [exact Ho|simpl; lia|done|unfold fits_u32; lia|exact HF|].
  intros q P' F' D' h1 Hq HP' HF' Hok' Ho1. by eapply HQ.
Qed.

(** The room is filled with that tail and those edges. *)
Lemma wp_fill_split N q cur h r P F D r' P' F' D' j L (Q : unit → heap → Prop) :
  owns h ((q, blk r' P' F' D') :: (cur, blk r P F D) :: L) → blk_ok P F D →
  j ≤ length P → length P' = length P - j → length F' = length F → blk_ok P' F' D' →
  (∀ h', owns h' ((q, blk r' (drop j P) F D) :: (cur, blk r P F D) :: L) → Q tt h') →
  wp N (fill_split q cur (Z.of_nat j)) h Q.
Proof.
  intros Ho1 Hok Hj HP' HF' Hok' HQ. pose proof Hok as (HP & HF & HD).
  pose proof Hok' as (_ & _ & HD').
  apply wp_bind. eapply (wp_set_prefix _ _ _ _ _ (drop j P));
    [exact Ho1|done|rewrite length_drop, HP'; done| |].
  { intros Q' HQ'. eapply wp_load_prefix_from; [own|done|by rewrite HP'|done]. }
  intros h2 Ho2. apply wp_bind. eapply wp_first_bytes; [own|done|].
  apply wp_bind. eapply (wp_set_first_bytes _ _ _ _ _ _ F); [exact Ho2| |by rewrite HF'| |].
  { unfold blk_ok. rewrite length_drop. lia. }
  { intros Q' HQ'. eapply wp_load_first_bytes; [own|by rewrite HF'|done]. }
  intros h3 Ho3. apply wp_bind. eapply wp_node_ptrs; [own|done|].
  eapply (wp_set_node_ptrs _ _ _ _ _ _ _ D); [exact Ho3| |rewrite HD', HF'; lia| |exact HQ].
  { unfold blk_ok. rewrite length_drop. lia. }
  { intros Q' HQ'. eapply wp_load_ptrs; [own|unfold sizeof_ptr; lia|done]. }
Qed.

(** After the block has grown, the old areas are the start of the new ones. *)
Lemma grown_areas (P P' F F' D D' : list Z) :
  length P' = length P → length F' = S (length F) →
  take (length (P ++ F ++ D)) (P' ++ F' ++ D') = P ++ F ++ D →
  P' = P ∧ ∃ z, F' = F ++ [z] ∧ take (length D) (z :: D') = D.
Proof.
  intros HP' HF' Hkeep.
  assert (HPP : P' = P).
  { apply (f_equal (take (length P))) in Hkeep. rewrite take_take, Nat.min_l in Hkeep by solve_len.
    rewrite <-HP' in Hkeep at 1. rewrite !take_app_length in Hkeep. done. }
  subst P'. split; [done|]. rewrite length_app in Hkeep.
  rewrite take_app_add in Hkeep. apply app_inv_head in Hkeep.
  assert (HFz : ∃ z, F' = F ++ [z]).
  { destruct F' as [|z F'] using rev_ind; [simpl in HF'; lia|]. exists z. f_equal.
    apply (f_equal (take (length F))) in Hkeep. rewrite take_take, Nat.min_l in Hkeep by solve_len.
    rewrite length_app in HF'. simpl in HF'. rewrite <-!app_assoc in Hkeep.
    rewrite take_app_length' in Hkeep by lia. rewrite take_app_length in Hkeep. done. }
  destruct HFz as [z ->]. rewrite <-app_assoc in Hkeep. simpl in Hkeep.
  rewrite length_app, take_app_add in Hkeep. apply app_inv_head in Hkeep. by exists z.
Qed.

(** The node gets one more edge, at the end. *)
Lemma wp_append_edge N cur h r P F cs b c L (Q : node → heap → Prop) :
  owns h ((cur, blk r P F (ptrs cs)) :: L) → blk_ok P F (ptrs cs) → is_addr cur →
  fits_u32 (S (length F)) → length L < N →
  (∀ q h', is_addr q → owns h' ((q, blk r P (F ++ [b]) (ptrs (cs ++ [c]))) :: L) → Q q h') →
  wp N (append_edge cur b c) h Q.
Proof.
  intros Ho Hok Hcur Hfit HN HQ. pose proof Hok as (HP & HF & HD).
  set (D := ptrs cs) in *.
  apply wp_bind. eapply wp_prefix_length; [done..|].
  apply wp_bind. eapply wp_edgecount; [done..|].
  replace (u32 (Z.of_nat (length F) + 1)) with (Z.of_nat (S (length F)))
    by (unfold fits_u32 in Hfit; rewrite wrap_small; lia).
  apply wp_bind. eapply wp_resize; [exact Ho|done|done|exact HP|done|].
  intros q P' F' D' h1 Hq HP' HF' Hok' Hkeep Ho1. pose proof Hok' as (_ & _ & HD').
  rewrite (take_ge (P ++ F ++ D)) in Hkeep by (len_simpl; lia).
  destruct (grown_areas P P' F F' D D') as (-> & z & -> & Hk); [done|done|done|]. clear Hkeep.
  apply wp_bind. eapply wp_node_ptrs; [exact Ho1|done|].
  apply wp_bind. eapply wp_edgecount; [exact Ho1|done|].
  replace (u32 (Z.of_nat (length (F ++ [z])) - 1)) with (Z.of_nat (length F))
    by (rewrite wrap_small; len_simpl; simpl; lia).
  apply wp_bind. apply wp_bind.
  eapply (wp_data_load _ _ _ _ P (F ++ [z]) D' (P ++ F) D (drop (length D) (z :: D')));
    [exact Ho1| | | |].
  { rewrite <-Hk at 1. rewrite take_drop. by rewrite <-!app_assoc. }
  { simpl. len_simpl. simpl. lia. }
  { unfold sizeof_ptr. lia. }
  eapply (wp_data_store _ _ _ _ P (F ++ [z]) D' (P ++ F ++ [z]) (take (length D) D')
            (drop (length D) D') D P (F ++ [z]) (D ++ drop (length D) D')); [exact Ho1|..].
  { rewrite take_drop. by rewrite <-!app_assoc. }
  { len_simpl. simpl. lia. }
  { rewrite length_take. len_simpl. simpl in *. lia. }
  { by rewrite <-!app_assoc. }
  { done. }
  { done. }
  intros h2 Ho2.
  assert (Hok2 : blk_ok P (F ++ [z]) (D ++ drop (length D) D')).
  { unfold blk_ok in *. len_simpl. simpl in *. lia. }
  apply wp_bind. eapply wp_set_edge_at; [exact Ho2|done|len_simpl; simpl; lia|].
  intros h3 Ho3. apply wp_ret. apply HQ; [done|].
  rewrite insert_app_r_alt in Ho3 by lia. rewrite Nat.sub_diag in Ho3. simpl in Ho3.
  replace (splice _ _ _) with (ptrs (cs ++ [c])) in Ho3; [exact Ho3|].
  rewrite ptrs_app. fold D. unfold splice.
  rewrite take_app_length' by lia. f_equal. rewrite drop_ge; [done|].
  change (length (le_encode 8 c)) with 8. len_simpl. simpl in *. lia.
Qed.
(** What [resize] keeps of a prefix. *)
Lemma resize_keeps k m n P X P' X' :
  take n (P' ++ X') = take m (P ++ X) → k ≤ n → k ≤ m → k ≤ length P → k ≤ length P' →
  take k P' = take k P.
Proof.
  intros E Hn Hm HP HP'. apply (f_equal (take k)) in E.
  rewrite !take_take, !Nat.min_l in E by done.
  rewrite !take_app_le in E by done. done.
Qed.

(** The node takes over everything of its child, after its own prefix. *)
Lemma wp_absorb N n c h r P F D rc Pc Fc Dc L (Q : node → heap → Prop) :
  owns h ((n, blk r P F D) :: (c, blk rc Pc Fc Dc) :: L) →
  blk_ok P F D → blk_ok Pc Fc Dc → is_addr n → (0 ≤ rc < 2 ^ 32)%Z →
  fits_u32 (length P + length Pc) → length L + 2 ≤ N →
  (∀ q h', is_addr q → blk_ok (P ++ Pc) Fc Dc →
    owns h' ((q, blk rc (P ++ Pc) Fc Dc) :: (c, blk rc Pc Fc Dc) :: L) → Q q h') →
  wp N (absorb n c) h Q.
Proof.
  intros Ho Hok Hokc Hn Hrc Hfit HN HQ. pose proof Hokc as (HPc & HFc & HDc).
  apply wp_bind. eapply wp_prefix_length; [own|done|].
  apply wp_bind. eapply wp_prefix_length; [own|done|].
  apply wp_bind. eapply wp_edgecount; [own|done|].
  replace (u32 (Z.of_nat (length P) + Z.of_nat (length Pc)))
    with (Z.of_nat (length P + length Pc))
    by (unfold fits_u32 in Hfit; rewrite wrap_small; lia).
  apply wp_bind. eapply wp_resize; [exact Ho|done|simpl; lia|done|exact HFc|].
  intros q P' F' D' h1 Hq HP' HF' Hok' Hkeep Ho1. pose proof Hok' as (_ & _ & HD').
  assert (HPX : P' = P ++ drop (length P) P').
  { rewrite <-(take_drop (length P) P') at 1. f_equal.
    rewrite (resize_keeps _ _ _ _ _ _ _ Hkeep) by (len_simpl; lia). by rewrite take_ge. }
  apply wp_bind. apply wp_bind.
  eapply (wp_load_prefix_from _ _ _ _ _ _ _ 0); [own|lia|by rewrite Nat.sub_0_r|].
  rewrite drop_0.
  eapply (wp_data_store _ _ _ _ P' F' D' P (drop (length P) P') (F' ++ D') Pc
            (P ++ Pc) F' D'); [exact Ho1|..].
  { rewrite HPX at 1. by rewrite <-!app_assoc. }
  { unfold prefix, cptr_add, sizeof_u32; simpl; lia. }
  { rewrite length_drop. lia. }
  { by rewrite <-!app_assoc. }
  { rewrite length_app. lia. }
  { done. }
  intros h2 Ho2.
  assert (Hokq : blk_ok (P ++ Pc) F' D') by (unfold blk_ok in *; rewrite length_app; lia).
  apply wp_bind. eapply wp_first_bytes; [own|done|].
  apply wp_bind. eapply (wp_set_first_bytes _ _ _ _ _ _ Fc); [exact Ho2|done|by rewrite HF'| |].
  { intros Q' HQ'. eapply wp_load_first_bytes; [own|by rewrite HF'|done]. }
  intros h3 Ho3. apply wp_bind. eapply wp_node_ptrs; [own|done|].
  assert (Hokq' : blk_ok (P ++ Pc) Fc D') by (unfold blk_ok in *; lia).
  apply wp_bind. eapply (wp_set_node_ptrs _ _ _ _ _ _ _ Dc); [exact Ho3|done|lia| |].
  { intros Q' HQ'. eapply wp_load_ptrs; [own|unfold sizeof_ptr; lia|done]. }
  intros h4 Ho4. apply wp_bind. eapply wp_refcount; [own|done|].
  apply wp_bind. eapply wp_set_refcount; [own|]. intros h5 Ho5.
  apply wp_ret. apply HQ; [done| |done]. unfold blk_ok in *. lia.
Qed.

(** Overwriting the last first byte by the pointer chunk, one byte to the left. *)
Lemma wp_shift_left {A} N n h r P F b D L (k : M A) (Q : A → heap → Prop) :
  owns h ((n, blk r P (F ++ [b]) D) :: L) → blk_ok P (F ++ [b]) D →
  (∀ F' D' y h', F' ++ D' = F ++ D ++ [y] → length F' = length (F ++ [b]) →
    blk_ok P F' D' → owns h' ((n, blk r P F' D') :: L) → wp N k h' Q) →
  wp N (np ← node_ptrs n; ec' ← edgecount n;
        _ ← memmove (cptr_add np (-1)) np (ec' * sizeof_ptr)%Z; k) h Q.
Proof.
  intros Ho Hok HQ. pose proof Hok as (HP & HF & HD). len_simpl. simpl in HF, HD.
  apply wp_bind. eapply wp_node_ptrs; [exact Ho|done|].
  apply wp_bind. eapply wp_edgecount; [exact Ho|done|].
  apply wp_bind, wp_bind. eapply wp_load_ptrs; [exact Ho|len_simpl; unfold sizeof_ptr; simpl; lia|].
  destruct D as [|y0 D0 _] using rev_ind; [simpl in HD; lia|]. rename y0 into y.
  destruct (cut_data (F ++ (D0 ++ [y]) ++ [y]) 0 (S (length F)))
    as ([|? ?] & F' & D' & Hcut & HP0 & HF' & HD'); [len_simpl; simpl in *; lia| |done].
  rewrite app_nil_l in Hcut.
  eapply (wp_data_store _ _ _ _ P (F ++ [b]) (D0 ++ [y]) (P ++ F) (b :: D0) [y] (D0 ++ [y])
            P F' D'); [exact Ho|..].
  - by rewrite <-!app_assoc.
  - simpl. len_simpl. simpl. lia.
  - len_simpl. simpl. lia.
  - rewrite <-Hcut. by rewrite <-!app_assoc.
  - done.
  - len_simpl. simpl. lia.
  - intros h' Ho'. eapply (HQ F' D' y); [done|len_simpl; simpl; lia| |exact Ho'].
    unfold blk_ok. len_simpl. simpl in *. lia.
Qed.
(** Removing edge [e]: the last edge takes its place. *)
Lemma wp_drop_edge N n h r P F cs e L (Q : node → heap → Prop) :
  owns h ((n, blk r P F (ptrs cs)) :: L) → blk_ok P F (ptrs cs) → is_addr n →
  Forall is_addr cs → e < length F → length L < N →
  (∀ q h', is_addr q →
    owns h' ((q, blk r P (swap_remove e F) (ptrs (swap_remove e cs))) :: L) → Q q h') →
  wp N (drop_edge n (Z.of_nat e)) h Q.
Proof.
  intros Ho Hok Hn Hcs He HN HQ. pose proof Hok as (HP & HF & HD).
  rewrite length_ptrs in HD. unfold swap_remove in HQ.
  destruct (last F) as [lb|] eqn:Elb; [|apply last_None in Elb; subst; simpl in He; lia].
  destruct (last cs) as [lp|] eqn:Elp; [|apply last_None in Elp; subst; simpl in HD; lia].
  rewrite last_lookup in Elb, Elp.
  pose proof (Forall_lookup_1 _ _ _ _ Hcs Elp) as Hlp. unfold is_addr in Hlp.
  apply wp_bind. eapply wp_edgecount; [done..|].
  replace (u32 (Z.of_nat (length F) - 1)) with (Z.of_nat (pred (length F)))
    by (rewrite wrap_small; lia).
  apply wp_bind. eapply wp_first_byte_at; [done..|].
  replace (pred (length cs)) with (pred (length F)) in Elp by lia.
  apply wp_bind. eapply wp_node_at; [done|done|exact Elp|lia|].
  apply wp_bind. eapply wp_set_edge_at; [done..|]. intros h1 Ho1.
  rewrite splice_ptrs in Ho1 by lia.
  set (F1 := <[e := lb]> F) in *. set (cs1 := <[e := lp]> cs) in *.
  assert (HF1 : length F1 = length F) by apply length_insert.
  assert (Hcs1 : length cs1 = length cs) by apply length_insert.
  destruct F1 as [|x Fi _] eqn:EF1 using rev_ind; [simpl in HF1; lia|].
  assert (Hok1 : blk_ok P (Fi ++ [x]) (ptrs cs1)).
  { unfold blk_ok. rewrite HF1, length_ptrs. lia. }
  eapply wp_shift_left; [exact Ho1|done|].
  intros F2 D2 y h2 E2 HF2 Hok2 Ho2.
  apply wp_bind. eapply wp_prefix_length; [exact Ho2|done|].
  apply wp_bind. eapply wp_edgecount; [exact Ho2|done|].
  rewrite HF2, HF1.
  replace (u32 (Z.of_nat (length F) - 1)) with (Z.of_nat (length Fi))
    by (rewrite wrap_small; len_simpl; simpl in *; lia).
  eapply wp_resize; [exact Ho2|done|done|exact HP|unfold fits_u32; len_simpl; simpl in *; lia|].
  intros q P' F' D' h3 Hq HP' HF' Hok' Hkeep Ho3. pose proof Hok' as (_ & _ & HD').
  rewrite E2 in Hkeep. rewrite !length_app in HF1. simpl in HF1.
  rewrite take_ge in Hkeep by (len_simpl; rewrite ?length_ptrs; simpl; lia).
  rewrite (app_assoc P), (app_assoc (P ++ Fi)) in Hkeep.
  rewrite take_app_le in Hkeep by (len_simpl; rewrite length_ptrs; simpl; lia).
  rewrite <-app_assoc in Hkeep. rewrite take_app_add in Hkeep.
  replace (9 * length Fi) with (length Fi + 8 * length Fi) in Hkeep by lia.
  rewrite take_app_add in Hkeep.
  apply app_inj_1 in Hkeep as [-> Hkeep]; [|done].
  apply app_inj_1 in Hkeep as [-> ->]; [|done].
  rewrite take_ptrs in Ho3. apply HQ; [done|].
  rewrite take_app_length' by lia.
  replace (length cs - 1) with (length Fi) by lia. done.
Qed.
End triples.
