(* ===== verification/RadixShape.v ===== *)
(** * The shape of a radix tree

    The tree the node blocks of a heap represent, as a datatype that records the
    address of every node, with the multiplicity of a key in it, its list of
    blocks, the well-formedness invariant of radix_tree.cpp, and one-hole
    contexts (the nodes above the one an operation works on).  Everything here is
    pure; RadixMatch.v to RadixBag.v connect it to the operations. *)

From S2P Require Import Prelude CMemory RadixNode RadixBlocks.
From Stdlib Require Import ZArith Lia.

(** A node: its address, reference count, prefix, and edges with their first byte. *)
#[local] Unset Elimination Schemes.
Inductive tree := T (p r : Z) (P : list Z) (es : list (Z * tree)).
#[local] Set Elimination Schemes.

Definition taddr (t : tree) : Z := let 'T p _ _ _ := t in p.
Definition trefs (t : tree) : Z := let 'T _ r _ _ := t in r.
Definition tprefix (t : tree) : list Z := let 'T _ _ P _ := t in P.
Definition tedges (t : tree) : list (Z * tree) := let 'T _ _ _ es := t in es.

Section induction.
Variable Pr : tree → Prop.
Hypothesis step : ∀ p r P es, Forall (λ e, Pr e.2) es → Pr (T p r P es).

Fixpoint tree_ind (t : tree) : Pr t :=
  match t with
  | T p r P es =>
      step p r P es
        ((fix go es : Forall (λ e, Pr e.2) es :=
            match es with
            | [] => List.Forall_nil _
            | e :: es => List.Forall_cons _ e es (tree_ind e.2) (go es)
            end) es)
  end.
End induction.

(** ** Blocks *)

Definition edge_addrs (es : list (Z * tree)) : list Z := taddr <$> es.*2.

Definition top_block (t : tree) : list Z :=
  let 'T _ r P es := t in blk r P es.*1 (ptrs (edge_addrs es)).

Fixpoint blocks (t : tree) : list (Z * list Z) :=
  match t with
  | T p r P es =>
      (p, blk r P es.*1 (ptrs (edge_addrs es))) ::
      (fix go es := match es with [] => [] | e :: es => blocks e.2 ++ go es end) es
  end.

Definition eblocks (es : list (Z * tree)) : list (Z * list Z) := es ≫= λ e, blocks e.2.

Lemma blocks_eq p r P es :
  blocks (T p r P es) = (p, blk r P es.*1 (ptrs (edge_addrs es))) :: eblocks es.
Proof.
  cbn [blocks]. apply (f_equal (cons _)). induction es as [|e es IH]; [done|].
  simpl. by rewrite IH.
Qed.

Lemma blocks_top t : blocks t = (taddr t, top_block t) :: eblocks (tedges t).
Proof. destruct t. apply blocks_eq. Qed.

Lemma eblocks_app es es' : eblocks (es ++ es') = eblocks es ++ eblocks es'.
Proof. apply bind_app. Qed.

#[global] Instance eblocks_proper : Proper (Permutation ==> Permutation) eblocks.
Proof. intros es es' E. unfold eblocks. by rewrite E. Qed.

(** ** Multiplicity of a key *)

(** The rest of [key] after [P], if [P] is a prefix of it. *)
Fixpoint strip (P key : list Z) : option (list Z) :=
  match P, key with
  | [], _ => Some key
  | a :: P, b :: key => if bool_decide (a = b) then strip P key else None
  | _ :: _, [] => None
  end.

(** The child behind the first edge with byte [b]. *)
Fixpoint elookup (b : Z) (es : list (Z * tree)) : option tree :=
  match es with
  | [] => None
  | (b', c) :: es => if bool_decide (b' = b) then Some c else elookup b es
  end.

(** How often [key] is stored below a node, the node's prefix being part of [key]. *)
Fixpoint cnt (t : tree) (key : list Z) : Z :=
  match t with
  | T _ r P es =>
      match strip P key with
      | None => 0%Z
      | Some [] => r
      | Some (b :: k) =>
          (fix go es :=
             match es with
             | [] => 0%Z
             | (b', c) :: es => if bool_decide (b' = b) then cnt c (b :: k) else go es
             end) es
      end
  end.

Lemma cnt_eq p r P es key :
  cnt (T p r P es) key =
  match strip P key with
  | None => 0
  | Some [] => r
  | Some (b :: k) => from_option (λ c, cnt c (b :: k)) 0 (elookup b es)
  end%Z.
Proof.
  cbn [cnt]. destruct (strip P key) as [[|b k]|]; [done| |done].
  induction es as [|[b' c] es IH]; [done|]. simpl. by case_bool_decide.
Qed.

Lemma strip_app P k : strip P (P ++ k) = Some k.
Proof. induction P as [|a P IH]; [done|]. simpl. by rewrite bool_decide_eq_true_2. Qed.

Lemma strip_Some P key k : strip P key = Some k ↔ key = P ++ k.
Proof.
  split; [|intros ->; apply strip_app].
  revert key. induction P as [|a P IH]; intros [|b key]; simpl; [congruence..|].
  case_bool_decide; [|done]. intros ?%IH. by subst.
Qed.

Lemma strip_None P key k : strip P key = None → key ≠ P ++ k.
Proof. intros Hs ->. by rewrite strip_app in Hs. Qed.

Lemma strip_app_l P P' key : strip (P ++ P') key = strip P key ≫= strip P'.
Proof.
  revert key. induction P as [|a P IH]; intros [|b key]; [by destruct P'|done|done|].
  simpl. case_bool_decide; [apply IH|done].
Qed.

Section elookup.
Implicit Types es : list (Z * tree).

Lemma elookup_None b es : elookup b es = None ↔ b ∉ es.*1.
Proof.
  induction es as [|[b' c] es IH]; simpl; [split; [intros _; apply not_elem_of_nil|done]|].
  rewrite not_elem_of_cons, <-IH. case_bool_decide; intuition congruence.
Qed.

Lemma elookup_Some_in b c es : elookup b es = Some c → (b, c) ∈ es.
Proof.
  induction es as [|[b' c'] es IH]; simpl; [done|].
  case_bool_decide as Hb; [intros [= ->]; subst; by left|]. intros ?%IH. by right.
Qed.

Lemma elookup_app b es es' :
  elookup b (es ++ es') = match elookup b es with Some c => Some c | None => elookup b es' end.
Proof. induction es as [|[b' c'] es IH]; simpl; [done|]. by case_bool_decide. Qed.

Lemma elookup_in b c es : NoDup es.*1 → (b, c) ∈ es → elookup b es = Some c.
Proof.
  induction es as [|[b' c'] es IH]; simpl; [by intros _ ?%not_elem_of_nil|].
  rewrite NoDup_cons, elem_of_cons. intros [Hb' Hnd] [[= -> ->]|Hin].
  - by rewrite bool_decide_eq_true_2.
  - case_bool_decide as Hb; [|by apply IH]. subst. destruct Hb'.
    apply list_elem_of_fmap. by exists (b, c).
Qed.

Lemma elookup_mid b c l rr : b ∉ l.*1 → elookup b (l ++ (b, c) :: rr) = Some c.
Proof.
  intros Hl%elookup_None. rewrite elookup_app, Hl. simpl. by rewrite bool_decide_eq_true_2.
Qed.

Lemma elookup_other b b' c c' l rr :
  b' ≠ b → elookup b' (l ++ (b, c) :: rr) = elookup b' (l ++ (b, c') :: rr).
Proof.
  intros Hb. rewrite !elookup_app. simpl. by rewrite !bool_decide_eq_false_2 by done.
Qed.

(** With distinct bytes, the order of the edges does not matter. *)
Lemma elookup_perm b es es' : NoDup es.*1 → es ≡ₚ es' → elookup b es = elookup b es'.
Proof.
  intros Hnd HE. destruct (elookup b es) as [c|] eqn:E.
  - symmetry. apply elookup_in; [by rewrite <-HE|]. rewrite <-HE. by apply elookup_Some_in.
  - symmetry. apply elookup_None. rewrite <-HE. by apply elookup_None.
Qed.
End elookup.

Lemma swap_remove_perm {A} (l rr : list A) x :
  swap_remove (length l) (l ++ x :: rr) ≡ₚ l ++ rr.
Proof.
  unfold swap_remove. destruct rr as [|y rr _] using rev_ind.
  - rewrite last_snoc, app_nil_r. rewrite insert_app_r_alt, Nat.sub_diag by lia. simpl.
    rewrite take_app_length'; [done|]. len_simpl. simpl. lia.
  - rewrite app_comm_cons, app_assoc, last_snoc.
    rewrite <-app_assoc, insert_app_r_alt, Nat.sub_diag by lia. simpl.
    rewrite take_app, take_ge by (len_simpl; simpl; lia). f_equiv.
    replace (_ - length l) with (S (length rr)) by (len_simpl; simpl; lia).
    simpl. rewrite take_app_length. by rewrite Permutation_app_comm.
Qed.

(** ** Well-formedness *)

(** Keys are C strings: no byte of a prefix is NUL. *)
Definition key_byte (b : Z) : Prop := (0 < b < 256)%Z.

(** The conditions on one node.  [m] bounds the length of the keys below it;
    [ob] is the byte of the edge that leads to it, [None] for the root.  A node
    other than the root has a non-empty prefix that starts with that byte, and
    holds a key or has two children. *)
Record node_ok (m : Z) (ob : option Z) (p r : Z) (P bs : list Z) : Prop := NodeOk {
  ok_addr : is_addr p;
  ok_refs : (0 ≤ r < 2 ^ 32)%Z;
  ok_len : (Z.of_nat (length P) ≤ m)%Z;
  ok_bytes : Forall key_byte P;
  ok_nodup : NoDup bs;
  ok_head : head P = ob;
  ok_merged : if ob is Some _ then (0 < r)%Z ∨ 2 ≤ length bs else r = 0%Z;
}.

#[local] Unset Elimination Schemes.
Inductive wf : Z → option Z → tree → Prop :=
  | wf_T m ob p r P es :
      node_ok m ob p r P es.*1 →
      Forall (λ e, wf (m - Z.of_nat (length P)) (Some e.1) e.2) es →
      wf m ob (T p r P es).
#[local] Set Elimination Schemes.

(** Sizes of prefixes are 32-bit. *)
Definition max_len : Z := 2 ^ 32 - 1.

(** ** Contexts *)

(** A node on the path to the current one: the edges before and after the edge
    that the path follows, and that edge's byte. *)
Record frame := Frame {
  f_addr : Z; f_refs : Z; f_prefix : list Z;
  f_left : list (Z * tree); f_byte : Z; f_right : list (Z * tree);
}.

Definition plug (f : frame) (t : tree) : tree :=
  T (f_addr f) (f_refs f) (f_prefix f) (f_left f ++ (f_byte f, t) :: f_right f).

(** The innermost frame comes first. *)
Definition plugs (C : list frame) (t : tree) : tree := foldl (λ t f, plug f t) t C.

Fixpoint path (C : list frame) : list Z :=
  match C with [] => [] | f :: C => path C ++ f_prefix f end.

Definition frame_block (f : frame) (q : Z) : list Z :=
  blk (f_refs f) (f_prefix f) ((f_left f).*1 ++ f_byte f :: (f_right f).*1)
    (ptrs (edge_addrs (f_left f) ++ q :: edge_addrs (f_right f))).

(** Blocks of a context whose hole holds a node at address [q]. *)
Fixpoint cblocks (C : list frame) (q : Z) : list (Z * list Z) :=
  match C with
  | [] => []
  | f :: C =>
      (f_addr f, frame_block f q) :: (eblocks (f_left f) ++ eblocks (f_right f)) ++ cblocks C (f_addr f)
  end.

Inductive wfc (m0 : Z) : list frame → Z → option Z → Prop :=
  | wfc_nil : wfc m0 [] m0 None
  | wfc_cons f C m ob :
      wfc m0 C m ob →
      node_ok m ob (f_addr f) (f_refs f) (f_prefix f) ((f_left f).*1 ++ f_byte f :: (f_right f).*1) →
      Forall (λ e, wf (m - Z.of_nat (length (f_prefix f))) (Some e.1) e.2) (f_left f ++ f_right f) →
      wfc m0 (f :: C) (m - Z.of_nat (length (f_prefix f))) (Some (f_byte f)).

Lemma blocks_plug f t :
  blocks (plug f t) ≡ₚ
  blocks t ++ (f_addr f, frame_block f (taddr t)) :: eblocks (f_left f) ++ eblocks (f_right f).
Proof.
  unfold plug, frame_block. rewrite blocks_eq, eblocks_app. unfold edge_addrs.
  rewrite !fmap_app. rewrite !fmap_cons. cbn [fst snd].
  change (eblocks ((f_byte f, t) :: f_right f)) with (blocks t ++ eblocks (f_right f)).
  generalize (blk (f_refs f) (f_prefix f) ((f_left f).*1 ++ f_byte f :: (f_right f).*1)
    (ptrs ((taddr <$> (f_left f).*2) ++ taddr t :: (taddr <$> (f_right f).*2)))); intros x.
  rewrite <-Permutation_middle. f_equiv.
  rewrite !(app_assoc _ _ (eblocks (f_right f))). f_equiv. apply Permutation_app_comm.
Qed.

Lemma blocks_plugs C t : blocks (plugs C t) ≡ₚ blocks t ++ cblocks C (taddr t).
Proof.
  revert t. induction C as [|f C IH]; intros t; [by rewrite app_nil_r|].
  change (plugs (f :: C) t) with (plugs C (plug f t)). rewrite IH, blocks_plug.
  cbn [cblocks]. by rewrite <-app_assoc, <-!app_comm_cons.
Qed.

Lemma wf_plug m ob f t :
  wf m ob (plug f t) ↔
  node_ok m ob (f_addr f) (f_refs f) (f_prefix f) ((f_left f).*1 ++ f_byte f :: (f_right f).*1) ∧
  Forall (λ e, wf (m - Z.of_nat (length (f_prefix f))) (Some e.1) e.2) (f_left f ++ f_right f) ∧
  wf (m - Z.of_nat (length (f_prefix f))) (Some (f_byte f)) t.
Proof.
  unfold plug. rewrite Forall_app. split.
  - inversion_clear 1 as [? ? ? ? ? ? Hok Hes]. rewrite fmap_app, fmap_cons in Hok.
    rewrite Forall_app, Forall_cons in Hes. naive_solver.
  - intros (Hok & [? ?] & ?). constructor; [by rewrite fmap_app|].
    rewrite Forall_app, Forall_cons. naive_solver.
Qed.

Lemma wf_plugs m0 C t : wf m0 None (plugs C t) ↔ ∃ m ob, wfc m0 C m ob ∧ wf m ob t.
Proof.
  revert t. induction C as [|f C IH]; intros t.
  - simpl. split; [intros; exists m0, None; eauto using wfc_nil|]. intros (m & ob & Hc & Ht).
    by inversion Hc; subst.
  - change (plugs (f :: C) t) with (plugs C (plug f t)).
    rewrite IH. setoid_rewrite wf_plug. split.
    + intros (m & ob & Hc & ? & ? & ?). eexists _, _. split; [by econstructor|done].
    + intros (m & ob & Hc & Ht). inversion Hc; subst. eauto 10.
Qed.
