(* ===== verification/RadixCount.v ===== *)
(** * What the local changes of [insert] and [erase] do to multiplicities

    Each change replaces one subtree: a leaf is hung on or taken off, a node is
    split or merged with its only child, or a count changes.  [adds t t' k d]
    says that the multiplicity of [k] grows by [d] and that no other key is
    affected; it is preserved by every context. *)

From S2P Require Import Prelude CMemory RadixNode RadixBlocks RadixShape.
From Stdlib Require Import ZArith Lia.

Definition at_key (key k : list Z) (d : Z) : Z := if decide (key = k) then d else 0%Z.

Definition adds (t t' : tree) (k : list Z) (d : Z) : Prop :=
  ∀ key, cnt t' key = (cnt t key + at_key key k d)%Z.

(** Trees with the same contents. *)
Definition same (t t' : tree) : Prop := ∀ key, cnt t' key = cnt t key.

Lemma at_key_eq k d : at_key k k d = d.
Proof. unfold at_key. by rewrite decide_True. Qed.

Lemma at_key_ne key k d : key ≠ k → at_key key k d = 0%Z.
Proof. intros. unfold at_key. by rewrite decide_False. Qed.

Lemma at_key_app P key k d : at_key (P ++ key) (P ++ k) d = at_key key k d.
Proof.
  unfold at_key. destruct (decide (key = k)) as [->|Hne]; [by rewrite decide_True|].
  rewrite decide_False; [done|]. by intros ?%app_inv_head.
Qed.

Lemma adds_same_l t1 t2 t3 k d : same t1 t2 → adds t2 t3 k d → adds t1 t3 k d.
Proof. intros H1 H2 key. by rewrite H2, H1. Qed.

Lemma adds_same_r t1 t2 t3 k d : adds t1 t2 k d → same t2 t3 → adds t1 t3 k d.
Proof. intros H1 H2 key. by rewrite H2, H1. Qed.

(** Change below an unchanged node: the cases of a key. *)
Lemma adds_edges p q r P es es' k d :
  k ≠ [] →
  (∀ b k', from_option (λ c, cnt c (b :: k')) 0%Z (elookup b es') =
           (from_option (λ c, cnt c (b :: k')) 0%Z (elookup b es) + at_key (b :: k') k d)%Z) →
  adds (T p r P es) (T q r P es') (P ++ k) d.
Proof.
  intros Hk Hes key. rewrite !cnt_eq. destruct (strip P key) as [[|b k']|] eqn:E.
  - apply strip_Some in E as ->. rewrite at_key_app, at_key_ne; [lia|done].
  - apply strip_Some in E as ->. by rewrite at_key_app.
  - rewrite at_key_ne; [lia|]. by apply strip_None.
Qed.

(** ** Contexts *)

Lemma adds_plug f t t' k d :
  NoDup ((f_left f).*1 ++ f_byte f :: (f_right f).*1) → head k = Some (f_byte f) →
  adds t t' k d → adds (plug f t) (plug f t') (f_prefix f ++ k) d.
Proof.
  intros Hnd Hk Ha. apply adds_edges; [by destruct k|]. intros b k'.
  destruct (decide (b = f_byte f)) as [->|Hne].
  - assert (Hb : f_byte f ∉ (f_left f).*1).
    { apply NoDup_app in Hnd as (_ & Hd & _). intros Hin. apply (Hd _ Hin). by left. }
    rewrite !elookup_mid by done. simpl. apply Ha.
  - rewrite (elookup_other (f_byte f) b t t'), at_key_ne; [lia| |done].
    intros <-. by injection Hk.
Qed.

Lemma adds_plugs m0 C m ob t t' k d :
  wfc m0 C m ob → (if ob is Some _ then head k = ob else True) → adds t t' k d →
  adds (plugs C t) (plugs C t') (path C ++ k) d.
Proof.
  intros Hc. revert t t' k. induction Hc as [|f C m ob Hc IH Hok Hes]; intros t t' k Hk Ha; [done|].
  change (plugs (f :: C)) with (λ t, plugs C (plug f t)). cbn [path]. rewrite <-app_assoc.
  apply IH; [|apply adds_plug; [apply (ok_nodup _ _ _ _ _ _ Hok)|done|done]].
  pose proof (ok_head _ _ _ _ _ _ Hok) as Hhd. destruct ob; [|done].
  by destruct (f_prefix f).
Qed.

(** The multiplicity of a key below a context. *)
Lemma cnt_plugs m0 C m ob t k :
  wfc m0 C m ob → (if ob is Some _ then head k = ob else True) →
  cnt (plugs C t) (path C ++ k) = cnt t k.
Proof.
  intros Hc. revert t k. induction Hc as [|f C m ob Hc IH Hok Hes]; intros t k Hk; [done|].
  change (plugs (f :: C)) with (λ t, plugs C (plug f t)). cbn [path]. rewrite <-app_assoc.
  rewrite IH.
  - unfold plug. rewrite cnt_eq, strip_app. destruct k as [|b k]; [done|]. injection Hk as ->.
    rewrite elookup_mid; [done|].
    pose proof (ok_nodup _ _ _ _ _ _ Hok) as (_ & Hd & _)%NoDup_app.
    intros Hin. apply (Hd _ Hin). by left.
  - pose proof (ok_head _ _ _ _ _ _ Hok) as Hhd. destruct ob; [|done].
    by destruct (f_prefix f).
Qed.

(** ** Local changes *)

Lemma adds_count p q r r' P es : adds (T p r P es) (T q r' P es) P (r' - r).
Proof.
  intros key. rewrite !cnt_eq. destruct (strip P key) as [[|b k]|] eqn:E.
  - apply strip_Some in E as ->. rewrite app_nil_r, at_key_eq. lia.
  - apply strip_Some in E as ->. rewrite at_key_ne; [lia|].
    intros E%(f_equal length). rewrite length_app in E. simpl in E. lia.
  - rewrite at_key_ne; [lia|]. intros ->. rewrite <-(app_nil_r P) in E at 2.
    by rewrite strip_app in E.
Qed.

Lemma cnt_leaf a P k : cnt (T a 1 P []) k = at_key k P 1.
Proof.
  rewrite cnt_eq. destruct (strip P k) as [[|b k']|] eqn:E.
  - apply strip_Some in E as ->. by rewrite app_nil_r, at_key_eq.
  - apply strip_Some in E as ->. rewrite at_key_ne; [done|].
    intros E%(f_equal length). rewrite length_app in E. simpl in E. lia.
  - rewrite at_key_ne; [done|]. intros ->. rewrite <-(app_nil_r P) in E at 2.
    by rewrite strip_app in E.
Qed.

(** [es'] has a leaf for [b :: k] that [es] does not have. *)
Lemma adds_leaf p q r P es es' a b k :
  NoDup es'.*1 → es' ≡ₚ (b, T a 1 (b :: k) []) :: es →
  adds (T p r P es) (T q r P es') (P ++ b :: k) 1.
Proof.
  intros Hnd He. apply adds_edges; [done|]. intros b' k'.
  rewrite (elookup_perm _ _ _ Hnd He). rewrite He, fmap_cons in Hnd.
  apply NoDup_cons in Hnd as [Hb Hnd]. cbn [elookup]. case_bool_decide as Hbb.
  - subst b'. cbn [from_option]. rewrite cnt_leaf.
    apply elookup_None in Hb. cbn [fst] in Hb. rewrite Hb. simpl. lia.
  - rewrite at_key_ne; [lia|congruence].
Qed.

(** Taking the leaf off again. *)
Lemma adds_unleaf p q r P es es' a b k :
  NoDup es.*1 → es ≡ₚ (b, T a 1 (b :: k) []) :: es' →
  adds (T p r P es) (T q r P es') (P ++ b :: k) (-1).
Proof.
  intros Hnd He key. rewrite (adds_leaf q p r P es' es a b k Hnd He key).
  unfold at_key. case_decide; lia.
Qed.

(** A node without a key and with a single child is the same as the child with
    the longer prefix. *)
Lemma same_merge p q c r P P' b es :
  head P' = Some b → same (T p 0 P [(b, T c r P' es)]) (T q r (P ++ P') es).
Proof.
  intros Hb key. rewrite !cnt_eq, strip_app_l.
  destruct (strip P key) as [[|b' k']|]; simpl; [by destruct P'| |done].
  destruct P' as [|b0 P']; [done|]. injection Hb as ->.
  case_bool_decide as Hbb; cbn [from_option].
  - subst b'. rewrite cnt_eq. simpl. by rewrite bool_decide_eq_true_2.
  - simpl. by rewrite bool_decide_eq_false_2.
Qed.

Lemma same_sym t t' : same t t' → same t' t.
Proof. intros H key. by rewrite H. Qed.

(** Splitting a node in the middle of its prefix, with a new leaf beside the rest. *)
Lemma adds_split p q s a r P1 P2 es b1 b2 k :
  head P2 = Some b2 → b1 ≠ b2 →
  adds (T p r (P1 ++ P2) es)
       (T q 0 P1 [(b1, T a 1 (b1 :: k) []); (b2, T s r P2 es)]) (P1 ++ b1 :: k) 1.
Proof.
  intros HP2 Hb. eapply adds_same_l; [apply same_sym, (same_merge q p s r P1 P2 b2 es HP2)|].
  apply (adds_leaf _ _ _ _ _ _ a); [|done]. simpl.
  apply NoDup_cons. rewrite list_elem_of_singleton. split; [done|apply NoDup_singleton].
Qed.

(** Splitting with the new key ending at the split point. *)
Lemma adds_split_end p q s r P1 P2 es b2 :
  head P2 = Some b2 →
  adds (T p r (P1 ++ P2) es) (T q 1 P1 [(b2, T s r P2 es)]) P1 1.
Proof.
  intros HP2. eapply adds_same_l; [apply same_sym, (same_merge q p s r P1 P2 b2 es HP2)|].
  apply (adds_count q q 0 1).
Qed.

(** Removing the last occurrence of a key from a node with one child. *)
Lemma adds_merge p q c r P P' b es :
  head P' = Some b → adds (T p 1 P [(b, T c r P' es)]) (T q r (P ++ P') es) P (-1).
Proof.
  intros Hb. eapply adds_same_r; [apply (adds_count p p 1 0)|]. by apply same_merge.
Qed.

(** The multiplicity of a key that does not end at a node. *)
Lemma cnt_no_edge p r P es b k : b ∉ es.*1 → cnt (T p r P es) (P ++ b :: k) = 0%Z.
Proof. intros Hb%elookup_None. by rewrite cnt_eq, strip_app, Hb. Qed.

Lemma cnt_differ p r P1 b2 P2 es b k :
  b ≠ b2 → cnt (T p r (P1 ++ b2 :: P2) es) (P1 ++ b :: k) = 0%Z.
Proof.
  intros Hb. rewrite cnt_eq, strip_app_l, strip_app. simpl.
  by rewrite bool_decide_eq_false_2 by done.
Qed.

Lemma cnt_key_ends p r P1 b2 P2 es : cnt (T p r (P1 ++ b2 :: P2) es) P1 = 0%Z.
Proof.
  rewrite cnt_eq, strip_app_l. rewrite <-(app_nil_r P1) at 2. by rewrite strip_app.
Qed.

Lemma cnt_exact p r P es : cnt (T p r P es) P = r.
Proof. rewrite cnt_eq. rewrite <-(app_nil_r P) at 2. by rewrite strip_app. Qed.
