(* ===== verification/RadixMatch.v ===== *)
(** * [radix_tree::match]

    The matching loop on a heap that holds a well-formed tree: it returns, never
    reads outside the key's buffer, and stops at the node the key leads to.  The
    buffer is the key followed by a NUL byte, as main.cpp passes it. *)

From S2P Require Import Prelude CMemory RadixNode RadixTree RadixBlocks RadixShape RadixCount.
From Stdlib Require Import ZArith Lia.

(** ** Sizes of a well-formed node *)

Lemma key_bytes_bound bs : NoDup bs → Forall key_byte bs → length bs ≤ 255.
Proof.
  intros Hnd Hb. change 255 with (length (seqZ 1 255)). apply submseteq_length.
  apply NoDup_submseteq; [done|]. intros x Hx. rewrite Forall_forall in Hb.
  apply elem_of_seqZ. specialize (Hb x Hx). unfold key_byte in Hb. lia.
Qed.

Lemma wf_head_byte m b t : wf m (Some b) t → key_byte b.
Proof.
  inversion_clear 1 as [? ? ? ? P ? Hok _]. pose proof (ok_bytes _ _ _ _ _ _ Hok) as Hb.
  destruct Hok as [_ _ _ _ _ Hhd _]. destruct P as [|b' P]; simplify_eq/=.
  by apply Forall_cons in Hb as [? _].
Qed.

Lemma wf_addr m ob t : wf m ob t → is_addr (taddr t).
Proof. destruct 1 as [? ? ? ? ? ? Hok _]. apply (ok_addr _ _ _ _ _ _ Hok). Qed.

Lemma wf_edge_bytes m es : Forall (λ e, wf m (Some e.1) e.2) es → Forall key_byte es.*1.
Proof. rewrite Forall_fmap. intros H. apply (Forall_impl _ _ _ H). intros e. apply wf_head_byte. Qed.

Lemma wf_edge_addrs m es : Forall (λ e, wf m (Some e.1) e.2) es → Forall is_addr (edge_addrs es).
Proof.
  unfold edge_addrs. rewrite !Forall_fmap. intros H. apply (Forall_impl _ _ _ H). intros e. apply wf_addr.
Qed.

Lemma wf_edge_count m ob t : wf m ob t → length (tedges t) ≤ 255.
Proof.
  destruct 1 as [? ? ? ? ? es Hok Hes]. simpl. rewrite <-(length_fmap fst).
  apply key_bytes_bound; [apply (ok_nodup _ _ _ _ _ _ Hok)|by eapply wf_edge_bytes].
Qed.

Lemma length_edge_addrs es : length (edge_addrs es) = length es.
Proof. unfold edge_addrs. by rewrite !length_fmap. Qed.

Lemma wf_blk_ok m ob p r P es :
  wf m ob (T p r P es) → (m ≤ max_len)%Z → blk_ok P es.*1 (ptrs (edge_addrs es)).
Proof.
  intros Hwf Hm. pose proof (wf_edge_count _ _ _ Hwf) as Hes. simpl in Hes.
  inversion_clear Hwf as [? ? ? ? ? ? Hok _].
  pose proof (ok_len _ _ _ _ _ _ Hok). unfold max_len in Hm.
  apply blk_ok_ptrs; unfold fits_u32.
  - lia.
  - rewrite length_fmap. lia.
  - by rewrite length_edge_addrs, length_fmap.
Qed.

Lemma wfc_le m0 C m ob : wfc m0 C m ob → (m ≤ m0)%Z.
Proof. induction 1; lia. Qed.

(** The bytes on the path and the budget left. *)
Lemma wfc_path m0 C m ob : wfc m0 C m ob → (m = m0 - Z.of_nat (length (path C)))%Z.
Proof. induction 1 as [|f C m ob Hc IH]; simpl; [lia|]. rewrite length_app. lia. Qed.

(** ** The longest common prefix *)

Fixpoint lcp (P k : list Z) : nat :=
  match P, k with
  | a :: P, b :: k => if bool_decide (a = b) then S (lcp P k) else 0
  | _, _ => 0
  end.

Lemma lcp_le P k : lcp P k ≤ length P ∧ lcp P k ≤ length k.
Proof.
  revert k. induction P as [|a P IH]; intros [|b k]; simpl; try lia.
  case_bool_decide; [|lia]. specialize (IH k). lia.
Qed.

Lemma lcp_take P k : take (lcp P k) P = take (lcp P k) k.
Proof.
  revert k. induction P as [|a P IH]; intros [|b k]; simpl; try done.
  case_bool_decide; [|done]. subst. simpl. by rewrite IH.
Qed.

Lemma lcp_full P k : lcp P k = length P → k = P ++ drop (length P) k.
Proof.
  intros E. pose proof (lcp_take P k) as Ht. rewrite E, take_ge in Ht by done.
  rewrite Ht at 1. by rewrite take_drop.
Qed.

(** How a key can end or leave a prefix. *)
Inductive lcp_case : list Z → list Z → nat → Prop :=
  | lcp_exact P : lcp_case P P (length P)
  | lcp_edge P b k : lcp_case P (P ++ b :: k) (length P)
  | lcp_key_ends P1 b2 P2 : lcp_case (P1 ++ b2 :: P2) P1 (length P1)
  | lcp_differ P1 b2 P2 b k : b ≠ b2 → lcp_case (P1 ++ b2 :: P2) (P1 ++ b :: k) (length P1).

Lemma lcp_cases P k : lcp_case P k (lcp P k).
Proof.
  revert k. induction P as [|a P IH]; intros [|b k]; simpl.
  - apply (lcp_exact []).
  - apply (lcp_edge [] b k).
  - apply (lcp_key_ends [] a P).
  - case_bool_decide as Hab; [|by apply (lcp_differ [] a P b k)]. subst b.
    destruct (IH k) as [P|P b k|P1 b2 P2|P1 b2 P2 b k Hb].
    + apply (lcp_exact (a :: P)).
    + apply (lcp_edge (a :: P)).
    + apply (lcp_key_ends (a :: P1)).
    + by apply (lcp_differ (a :: P1)).
Qed.

(** ** Where a search stops *)

(** [k] is what is left of the key at node [t]. *)
Definition stops (t : tree) (k : list Z) : Prop :=
  let j := lcp (tprefix t) k in
  j = length (tprefix t) → ∀ b, head (drop j k) = Some b → b ∉ (tedges t).*1.

Definition parent_of (C : list frame) (root : Z) : Z := if C is f :: _ then f_addr f else root.
Definition edge_of (C : list frame) : nat := if C is f :: _ then length (f_left f) else 0.

(** The result of [match] at node [t] below the context [C]. *)
Definition mres (C : list frame) (t : tree) (i j : Z) : match_result :=
  let root := taddr (plugs C t) in
  MatchResult i j (Z.of_nat (edge_of C)) (Z.of_nat (edge_of (tail C)))
    (taddr t) (parent_of C root) (parent_of (tail C) root).

Definition found (C : list frame) (t : tree) (k : list Z) : match_result :=
  let j := lcp (tprefix t) k in
  mres C t (Z.of_nat (length (path C) + j)) (Z.of_nat j).

(** ** The loops *)

Section match_loops.
Context `{!Allocator}.
Implicit Types (h : heap) (L : list (Z * list Z)).

Lemma wp_match_prefix N p h r P0 P F D K0 k L fuel (Q : Z * Z → heap → Prop) :
  owns h ((p, blk r (P0 ++ P) F D) :: L) → blk_ok (P0 ++ P) F D →
  Forall key_byte P → length P < fuel →
  Q (Z.of_nat (length K0 + lcp P k), Z.of_nat (length P0 + lcp P k)) h →
  wp N (match_prefix fuel p (K0 ++ k ++ [0%Z]) (Z.of_nat (length K0)) (Z.of_nat (length P0))) h Q.
Proof.
  revert P0 K0 k fuel. induction P as [|a P IH]; intros P0 K0 k fuel Ho Hok Hb Hf HQ;
    (destruct fuel as [|fuel]; [simpl in Hf; lia|]); simpl in Hf; cbn [match_prefix].
  - apply wp_bind. eapply wp_prefix_length; [done..|].
    rewrite app_nil_r. rewrite Z.ltb_irrefl. apply wp_ret.
    simpl in HQ. by rewrite !Nat.add_0_r in HQ.
  - apply Forall_cons in Hb as [Ha Hb].
    apply wp_bind. eapply wp_prefix_length; [done..|].
    rewrite (proj2 (Z.ltb_lt _ _)) by (len_simpl; simpl; lia).
    apply wp_bind. eapply (wp_data_load _ _ _ _ (P0 ++ a :: P) F D P0 [a] (P ++ F ++ D));
      [exact Ho|by rewrite <-app_assoc|unfold prefix, cptr_add, sizeof_u32; simpl; lia|done|].
    assert (Hstop : ∀ x y, K0 ++ k ++ [0%Z] = K0 ++ x :: y → x ≠ a →
      Q (Z.of_nat (length K0), Z.of_nat (length P0)) h →
      wp N (k0 ← buf_read (K0 ++ k ++ [0%Z]) (Z.of_nat (length K0)) 1;
            if bool_decide ([a] = k0)
            then match_prefix fuel p (K0 ++ k ++ [0%Z]) (Z.of_nat (length K0) + 1) (Z.of_nat (length P0) + 1)
            else mret (Z.of_nat (length K0), Z.of_nat (length P0))) h Q).
    { intros x y E Hx HQ'. apply wp_bind. apply wp_buf_read; [lia|lia|len_simpl; simpl; lia|].
      rewrite Nat2Z.id, E. change (x :: y) with ([x] ++ y). rewrite slice_app_mid by done.
      rewrite bool_decide_eq_false_2 by congruence. by apply wp_ret. }
    destruct k as [|b k].
    + apply (Hstop 0%Z []); [done|unfold key_byte in Ha; lia|].
      simpl in HQ. by rewrite !Nat.add_0_r in HQ.
    + simpl in HQ. case_bool_decide as Hab.
      * subst b. clear Hstop. apply wp_bind. apply wp_buf_read; [lia|lia|len_simpl; simpl; lia|].
        rewrite Nat2Z.id. change ((a :: k) ++ [0%Z]) with ([a] ++ k ++ [0%Z]).
        rewrite slice_app_mid by done. rewrite bool_decide_eq_true_2 by done.
        replace (Z.of_nat (length K0) + 1)%Z with (Z.of_nat (length (K0 ++ [a]))) by (len_simpl; simpl; lia).
        replace (Z.of_nat (length P0) + 1)%Z with (Z.of_nat (length (P0 ++ [a]))) by (len_simpl; simpl; lia).
        rewrite (app_assoc K0). apply IH; [by rewrite <-app_assoc|by rewrite <-app_assoc|done|lia|].
        rewrite !length_app. simpl. by rewrite <-!Nat.add_assoc, !Nat.add_1_l.
      * apply (Hstop b (k ++ [0%Z])); [done|congruence|]. by rewrite !Nat.add_0_r in HQ.
Qed.

(** [i < size]: [key[i]] is the first byte of what is left. *)
Lemma wp_find_edge N p h r P l es K0 b k L fuel (Q : option (Z * node) → heap → Prop) :
  owns h ((p, blk r P (l ++ es).*1 (ptrs (edge_addrs (l ++ es)))) :: L) →
  blk_ok P (l ++ es).*1 (ptrs (edge_addrs (l ++ es))) →
  Forall is_addr (edge_addrs es) → b ∉ l.*1 → length es < fuel →
  (b ∉ (l ++ es).*1 → Q None h) →
  (∀ l' c rr, l ++ es = l' ++ (b, c) :: rr → b ∉ l'.*1 →
    Q (Some (Z.of_nat (length l'), taddr c)) h) →
  wp N (find_edge fuel p (K0 ++ (b :: k) ++ [0%Z]) (Z.of_nat (length (K0 ++ b :: k)))
          (Z.of_nat (length K0)) (Z.of_nat (length l))) h Q.
Proof.
  revert l fuel. induction es as [|[b' c] es IH]; intros l fuel Ho Hok Has Hl Hf HN HS;
    (destruct fuel as [|fuel]; [simpl in Hf; lia|]); simpl in Hf; cbn [find_edge].
  - apply wp_bind. eapply wp_edgecount; [done..|]. rewrite app_nil_r in *.
    rewrite length_fmap, Z.ltb_irrefl. apply wp_ret. by apply HN.
  - apply wp_bind. eapply wp_edgecount; [done..|].
    rewrite (proj2 (Z.ltb_lt _ _)) by (len_simpl; simpl; lia).
    rewrite (proj2 (Z.ltb_lt (Z.of_nat (length K0)) _)) by (len_simpl; simpl; lia).
    assert (Hb' : (l ++ (b', c) :: es).*1 !! length l = Some b').
    { rewrite fmap_app, fmap_cons. apply list_lookup_middle. by rewrite length_fmap. }
    assert (Hc : edge_addrs (l ++ (b', c) :: es) !! length l = Some (taddr c)).
    { unfold edge_addrs. rewrite !fmap_app, !fmap_cons.
      apply list_lookup_middle. by rewrite !length_fmap. }
    apply Forall_cons in Has as [Hca Has].
    apply wp_bind, wp_bind. eapply wp_first_byte_at; [done..|].
    apply wp_bind. apply wp_buf_read; [lia|lia|len_simpl; simpl; lia|].
    rewrite Nat2Z.id. change ((b :: k) ++ [0%Z]) with ([b] ++ k ++ [0%Z]).
    rewrite slice_app_mid by done. apply wp_ret. cbn [le_decode].
    rewrite Z.mul_0_r, Z.add_0_r. case_bool_decide as Hbb.
    + subst b'. apply wp_bind. eapply wp_node_at; [done|done|exact Hc| |].
      { unfold is_addr in Hca. simpl in Hca. lia. }
      apply wp_ret. by eapply HS.
    + replace (Z.of_nat (length l) + 1)%Z with (Z.of_nat (length (l ++ [(b', c)])))
        by (len_simpl; simpl; lia).
      clear Hb' Hc.
      replace (l ++ (b', c) :: es) with ((l ++ [(b', c)]) ++ es) in * by (by rewrite <-app_assoc).
      apply (IH (l ++ [(b', c)])); [done..| |lia|done|done].
      rewrite fmap_app, not_elem_of_app. split; [done|]. simpl. rewrite list_elem_of_singleton. congruence.
Qed.

(** [i = size]: no edge is followed. *)
Lemma wp_find_edge_end N p h r P F D K0 x L n fuel i (Q : option (Z * node) → heap → Prop) :
  owns h ((p, blk r P F D) :: L) → blk_ok P F D → length F < fuel + n →
  i = Z.of_nat (length K0) → n ≤ length F → Q None h →
  wp N (find_edge fuel p (K0 ++ x) (Z.of_nat (length K0)) i (Z.of_nat n)) h Q.
Proof.
  intros Ho Hok. revert n. induction fuel as [|fuel IH]; intros n Hf -> Hn HQ; [lia|].
  cbn [find_edge]. apply wp_bind. eapply wp_edgecount; [done..|].
  destruct (Z.ltb_spec (Z.of_nat n) (Z.of_nat (length F))); [|by apply wp_ret].
  rewrite Z.ltb_irrefl. apply wp_bind, wp_ret.
  replace (Z.of_nat n + 1)%Z with (Z.of_nat (S n)) by lia. apply IH; [lia|done|lia|done].
Qed.

(** The search for the edge of the next byte, if the key [K0 ++ k] has one after [K0]. *)
Lemma wp_find_next N p h r P es K0 k L (Q : option (Z * node) → heap → Prop) :
  owns h ((p, blk r P es.*1 (ptrs (edge_addrs es))) :: L) → blk_ok P es.*1 (ptrs (edge_addrs es)) →
  Forall is_addr (edge_addrs es) →
  ((∀ b, head k = Some b → b ∉ es.*1) → Q None h) →
  (∀ b k' l c rr, k = b :: k' → es = l ++ (b, c) :: rr → b ∉ l.*1 → Q (Some (Z.of_nat (length l), taddr c)) h) →
  wp N (find_edge (S (length es)) p (K0 ++ k ++ [0%Z]) (Z.of_nat (length (K0 ++ k))) (Z.of_nat (length K0)) 0) h Q.
Proof.
  intros Ho Hok Has HN HS. destruct k as [|b k].
  - rewrite app_nil_r. eapply (wp_find_edge_end _ _ _ _ _ _ _ _ _ _ 0); [exact Ho|done| |done|lia|].
    { rewrite length_fmap. lia. }
    by apply HN.
  - eapply (wp_find_edge _ _ _ _ _ [] es); [exact Ho|done|done| |lia| |].
    { apply not_elem_of_nil. }
    { intros Hb. apply HN. by intros b' [= <-]. }
    intros l c rr E Hl. by eapply HS.
Qed.

(** What holds where the search stops with [k] left of the key. *)
Definition stopped (m0 : Z) (C : list frame) (t : tree) (k : list Z) : Prop :=
  k ≠ [] ∧ stops t k ∧
  ∃ m ob, wfc m0 C m ob ∧ wf m ob t ∧ if ob is Some _ then head k = ob else True.

Lemma owns_top_ne h p b c L L' :
  owns h ((p, b) :: L ++ L') → c ∈ L.*1 → c ≠ p.
Proof.
  intros [Hnd _] Hc ->. rewrite fmap_cons, NoDup_cons, fmap_app in Hnd.
  destruct Hnd as [Hp _]. apply Hp. cbn [fst]. rewrite elem_of_app. by left.
Qed.

Lemma eblocks_addr l b c rr : taddr c ∈ (eblocks (l ++ (b, c) :: rr)).*1.
Proof.
  rewrite eblocks_app, fmap_app, elem_of_app. right.
  change (eblocks ((b, c) :: rr)) with (blocks c ++ eblocks rr). rewrite blocks_top.
  by left.
Qed.

Lemma wp_match_loop N m0 C m ob t k j0 h L fuel (Q : match_result → heap → Prop) :
  owns h (blocks (plugs C t) ++ L) → (m0 ≤ max_len)%Z → wfc m0 C m ob → wf m ob t → k ≠ [] →
  (if ob is Some _ then head k = ob else j0 = 0%Z) →
  length k + (if ob is Some _ then 0 else 1) < fuel →
  (∀ C' t' k', plugs C' t' = plugs C t → path C' ++ k' = path C ++ k → stopped m0 C' t' k' →
    Q (found C' t' k') h) →
  wp N (match_loop fuel ((path C ++ k) ++ [0%Z]) (Z.of_nat (length (path C ++ k)))
          (mres C t (Z.of_nat (length (path C))) j0)) h Q.
Proof.
  revert C m ob t k j0. induction fuel as [|fuel IH]; intros C m ob t k j0 Ho Hm0 Hc Ht Hk Hob Hf HQ; [lia|].
  pose proof (wfc_le _ _ _ _ Hc) as Hm.
  destruct t as [p r P es]. cbn [match_loop mres current_node taddr].
  pose proof (wf_blk_ok _ _ _ _ _ _ Ht ltac:(lia)) as Hok.
  pose proof (Ho : owns h _) as Hblk. rewrite blocks_plugs, blocks_eq in Hblk.
  rewrite <-!app_assoc, <-!app_comm_cons in Hblk. cbn [taddr] in Hblk.
  pose proof Ht as Ht'. inversion_clear Ht' as [? ? ? ? ? ? Hnode Hes].
  assert (Hstopped : stops (T p r P es) k → stopped m0 C (T p r P es) k).
  { intros Hst. split; [done|]. split; [done|]. exists m, ob. by destruct ob. }
  apply wp_bind. eapply wp_prefix_length; [done..|].
  apply wp_bind. eapply wp_edgecount; [done..|].
  cbn [nkey edge_index gp_edge_index parent_node grandparent_node].
  rewrite (proj2 (Z.ltb_lt (Z.of_nat (length (path C))) _))
    by (destruct k; [done|len_simpl; simpl; lia]).
  rewrite andb_true_r. destruct (_ || _) eqn:Enz.
  - apply wp_bind. rewrite <-app_assoc.
    eapply (wp_match_prefix _ _ _ _ [] P); [exact Hblk|done| |lia|].
    { apply (ok_bytes _ _ _ _ _ _ Hnode). }
    cbn [length]. rewrite Nat.add_0_l.
    destruct (Z.eqb_spec (Z.of_nat (lcp P k)) (Z.of_nat (length P))) as [Ej|Ej]; cbn [negb].
    + apply Nat2Z.inj in Ej. pose proof (lcp_full _ _ Ej) as Hk2.
      assert (Hhere : stops (T p r P es) k →
        Q (mres C (T p r P es) (Z.of_nat (length (path C ++ P))) (Z.of_nat (length P))) h).
      { intros Hst. specialize (HQ C (T p r P es) k). unfold found in HQ. cbn [tprefix] in HQ.
        rewrite Ej, <-length_app in HQ. by apply HQ, Hstopped. }
      set (k2 := drop (length P) k) in *.
      assert (Hsize : path C ++ k = (path C ++ P) ++ k2) by (by rewrite Hk2, app_assoc).
      apply wp_bind. rewrite Ej, <-length_app, app_assoc, Hsize, <-(app_assoc _ k2).
      clearbody k2. rewrite length_fmap, Nat2Z.id. eapply wp_find_next; [exact Hblk|done|by eapply wf_edge_addrs| |].
      { intros Hb. apply wp_ret, Hhere. intros _ b Hb'. simpl in Hb'. rewrite Ej, Hk2, drop_app_length in Hb'. by apply Hb. }
      intros b k3 l c rr -> -> Hl. unfold node_eqb. rewrite (proj2 (Z.eqb_neq _ _)).
      2: { eapply owns_top_ne; [exact Hblk|apply eblocks_addr]. }
      apply (wf_plug m ob (Frame p r P l b rr)) in Ht as (Hn & Hlr & Hwc).
      rewrite (app_assoc (path C ++ P) (b :: k3)).
      apply (IH (Frame p r P l b rr :: C) (m - Z.of_nat (length P))%Z (Some b) c (b :: k3));
        [done|done|by econstructor|done|done|done| |].
      { rewrite Hk2, length_app in Hf. pose proof (ok_head _ _ _ _ _ _ Hnode) as Hhd.
        destruct ob; [|simpl in *; lia]. destruct P; [done|]. simpl in *. lia. }
      intros C' t' k' E1 E2. apply HQ; [done|]. by rewrite Hsize.
    + apply wp_ret. apply (HQ C (T p r P es) k); [done|done|]. apply Hstopped.
      intros Hj. simpl in Hj. lia.
  - apply orb_false_iff in Enz as [HP He]. apply Z.ltb_ge in HP, He.
    destruct P as [|? ?]; [|simpl in HP; lia]. destruct es as [|? ?]; [|simpl in He; lia].
    pose proof (ok_head _ _ _ _ _ _ Hnode) as Hhd. simpl in Hhd. subst ob j0. apply wp_ret.
    specialize (HQ C (T p r [] []) k). unfold found in HQ. simpl in HQ.
    rewrite Nat.add_0_r in HQ. apply HQ; [done|done|]. apply Hstopped.
    intros _ b _. apply not_elem_of_nil.
Qed.
(** [match]: it returns, and the heap is as before. *)
Lemma wp_match N t rt key h L (Q : match_result → heap → Prop) :
  owns h (blocks t ++ L) → wf max_len None t → root_ rt = taddr t → key ≠ [] →
  (∀ C t' k, plugs C t' = t → path C ++ k = key → stopped max_len C t' k → Q (found C t' k) h) →
  wp N (match_ rt (key ++ [0%Z]) (Z.of_nat (length key))) h Q.
Proof.
  intros Ho Ht Hroot Hkey HQ. unfold match_. apply wp_bind, wp_massert.
  { destruct key; [done|]. apply Z.ltb_lt. simpl. lia. }
  rewrite Hroot, Nat2Z.id.
  eapply (wp_match_loop N max_len [] _ None t key 0); [done|done|constructor|done|done|done|lia|].
  exact HQ.
Qed.
End match_loops.
