(* ===== verification/RadixInsert.v ===== *)
(** * [radix_tree::insert]

    On a heap that holds a well-formed tree, [insert] returns, leaves a
    well-formed tree in which the key's multiplicity has grown by one and
    nothing else has changed, and tells whether the key is new. *)

From S2P Require Import Prelude CMemory RadixNode RadixTree RadixBlocks RadixShape RadixCount RadixMatch.
From Stdlib Require Import ZArith Lia.

(** The heap holds a tree that differs from [t] by [d] occurrences of [key]; the
    blocks [L] of the rest of the program are untouched. *)
Definition updated (t : tree) (L : list (Z * list Z)) (key : list Z) (d n : Z)
    (rt : radix_tree) (h : heap) : Prop :=
  ∃ t', owns h (blocks t' ++ L) ∧ wf max_len None t' ∧ root_ rt = taddr t' ∧
        adds t t' key d ∧ size_ rt = n.

(** ** Working below a context *)

Lemma taddr_plugs f C t t' : taddr (plugs (f :: C) t) = taddr (plugs (f :: C) t').
Proof.
  revert f t t'. induction C as [|f' C IH]; intros f t t'; [done|].
  change (plugs (f :: f' :: C)) with (λ t, plugs (f' :: C) (plug f t)). apply IH.
Qed.

(** Bring the block of the current node to the front. *)
Lemma owns_focus h C p r P es L :
  owns h (blocks (plugs C (T p r P es)) ++ L) ↔
  owns h ((p, blk r P es.*1 (ptrs (edge_addrs es))) :: eblocks es ++ cblocks C p ++ L).
Proof.
  rewrite blocks_plugs, blocks_eq. cbn [taddr]. by rewrite <-!app_assoc, <-!app_comm_cons.
Qed.

Lemma length_focus C p r P es L :
  length (blocks (plugs C (T p r P es)) ++ L) = S (length (eblocks es ++ cblocks C p ++ L)).
Proof. rewrite blocks_plugs, blocks_eq. cbn [taddr]. solve_len. Qed.

Lemma updated_plugs C m ob t t' k d rt h L n :
  wfc max_len C m ob → (if ob is Some _ then head k = ob else True) → wf m ob t' →
  adds t t' k d → owns h (blocks (plugs C t') ++ L) → root_ rt = taddr (plugs C t') →
  size_ rt = n → updated (plugs C t) L (path C ++ k) d n rt h.
Proof.
  intros Hc Hk Ht' Ha Ho Hr Hn. exists (plugs C t'). split_and!; [done| |done| |done].
  - apply wf_plugs. eauto.
  - by eapply adds_plugs.
Qed.

(** The current node is the root exactly when its prefix is empty. *)
Lemma wfc_cases C m ob (P : list Z) :
  wfc max_len C m ob → head P = ob →
  (C = [] ∧ P = [] ∧ ob = None) ∨ (∃ f C', C = f :: C' ∧ P ≠ [] ∧ is_Some ob).
Proof.
  intros [|f C' ? ? ?] Hhd.
  - left. by destruct P.
  - right. exists f, C'. split_and!; [done|by destruct P|done].
Qed.

Section relink.
Context `{!Allocator}.

(** [parent_node.set_node_at(edge_idx, current_node)] after the current node moved. *)
Lemma wp_relink N f C m ob t0 t' q h L (Q : unit → heap → Prop) :
  wfc max_len (f :: C) m ob → wf m ob t0 →
  owns h (blocks t' ++ cblocks (f :: C) q ++ L) →
  (∀ h', owns h' (blocks (plugs (f :: C) t') ++ L) → Q tt h') →
  wp N (set_node_at (f_addr f) (Z.of_nat (length (f_left f))) (taddr t')) h Q.
Proof.
  intros Hc Ht Ho HQ. inversion Hc as [|f' C' m' ob' Hc' Hn Hlr]; subst.
  assert (Hok : blk_ok (f_prefix f) ((f_left f).*1 ++ f_byte f :: (f_right f).*1)
                  (ptrs (edge_addrs (f_left f) ++ q :: edge_addrs (f_right f)))).
  { assert (Hp : wf m' ob' (plug f t0)) by (apply wf_plug; done).
    apply wf_blk_ok in Hp; [|by apply wfc_le in Hc'].
    unfold blk_ok in *. unfold edge_addrs in *. len_simpl. rewrite !length_ptrs in *.
    len_simpl. simpl in *. lia. }
  set (R := blocks t' ++ eblocks (f_left f) ++ eblocks (f_right f) ++ cblocks C (f_addr f) ++ L).
  eapply (wp_set_node_at_ptrs N _ _ (f_refs f) _ _ _ _ _ R); [|exact Hok| |].
  - change (owns h ((f_addr f, frame_block f q) :: R)). cbn [cblocks] in Ho.
    eapply owns_proper; [|exact Ho]. unfold R. solve_Permutation.
  - len_simpl. simpl. lia.
  - intros h' Ho'. apply HQ.
    rewrite insert_app_r_alt in Ho' by (by rewrite length_edge_addrs).
    rewrite length_edge_addrs, Nat.sub_diag in Ho'.
    change (owns h' ((f_addr f, frame_block f (taddr t')) :: R)) in Ho'.
    eapply owns_proper; [|exact Ho']. rewrite blocks_plugs. cbn [cblocks]. unfold R.
    solve_Permutation.
Qed.
End relink.

(** ** New nodes *)

(** A new leaf is a well-formed child. *)
Lemma wf_leaf m a b k :
  is_addr a → Forall key_byte (b :: k) → (Z.of_nat (length (b :: k)) ≤ m)%Z →
  wf m (Some b) (T a 1 (b :: k) []).
Proof. intros. constructor; [|done]. constructor; simpl; [done..|constructor|done|lia]. Qed.

Section new_nodes.
Context `{!Allocator}.
Implicit Types (h : heap) (L : list (Z * list Z)).

(** Reading the rest of the key. *)
Lemma wp_key_read N K0 k x i n h (Q : list Z → heap → Prop) :
  i = Z.of_nat (length K0) → n = Z.of_nat (length k) → Q k h →
  wp N (buf_read (K0 ++ k ++ x) i n) h Q.
Proof.
  intros -> -> HQ. apply wp_buf_read; [lia|lia|len_simpl; lia|].
  by rewrite !Nat2Z.id, slice_app_mid.
Qed.

Lemma u64_sub_len (K0 k : list Z) :
  (Z.of_nat (length (K0 ++ k)) ≤ max_len)%Z →
  u64 (Z.of_nat (length (K0 ++ k)) - Z.of_nat (length K0)) = Z.of_nat (length k).
Proof. unfold max_len. rewrite length_app. intros. rewrite wrap_small; lia. Qed.

Lemma wp_make_key_node N (K0 k : list Z) h L (Q : node → heap → Prop) :
  owns h L → length L ≤ N → (Z.of_nat (length (K0 ++ k)) ≤ max_len)%Z →
  (∀ a (P' : list Z) h', is_addr a → length P' = length k → blk_ok P' [] [] →
    owns h' ((a, blk 1 P' [] []) :: L) → Q a h') →
  wp N (make_node 1 (u64 (Z.of_nat (length (K0 ++ k)) - Z.of_nat (length K0))) 0) h Q.
Proof.
  intros Ho HN Hlen HQ. rewrite u64_sub_len by done. rewrite length_app in Hlen.
  eapply (wp_make_node N 1 _ 0); [done|done|lia|unfold fits_u32, max_len in *; lia|done|].
  intros a P' F D h' Ha HP HF Hok Ho'. destruct F; [|done]. pose proof Hok as (_ & _ & HD).
  destruct D; [|done]. by eapply HQ.
Qed.

Lemma wp_set_key_prefix N a (P' K0 k x : list Z) h L (Q : unit → heap → Prop) :
  owns h ((a, blk 1 P' [] []) :: L) → blk_ok P' [] [] → length P' = length k →
  (∀ h', owns h' ((a, blk 1 k [] []) :: L) → Q tt h') →
  wp N (set_prefix a (buf_read (K0 ++ k ++ x) (Z.of_nat (length K0)))) h Q.
Proof.
  intros Ho Hok Hlen HQ. eapply wp_set_prefix; [done|done| | |exact HQ]; [done|].
  intros Q' HQ'. by apply wp_key_read; rewrite ?Hlen.
Qed.
End new_nodes.

(** Filling the pointer chunk of a node with one and with two children. *)
Lemma splice_ptr1 a (D : list Z) : length D = 8 → splice 0 (le_encode 8 a) D = ptrs [a].
Proof.
  intros HD. unfold splice. rewrite (drop_ge D) by (rewrite length_le_encode; lia). done.
Qed.

Lemma splice_ptr2 a b (D : list Z) :
  length D = 16 → splice 8 (le_encode 8 b) (splice 0 (le_encode 8 a) D) = ptrs [a; b].
Proof.
  intros HD. unfold splice. rewrite !length_le_encode, take_0, app_nil_l, Nat.add_0_l.
  rewrite take_app_length' by done. unfold ptrs. cbn [mbind list_bind]. f_equal. f_equal.
  rewrite drop_app_ge by (rewrite length_le_encode; lia).
  rewrite length_le_encode, drop_drop. apply drop_ge. lia.
Qed.

(** ** The branches of [insert] *)

Section branches.
Context `{!Allocator}.
Context (N : nat) (C : list frame) (m : Z) (ob : option Z) (p r : Z) (P : list Z) (es : list (Z * tree)).
Context (L : list (Z * list Z)) (rt : radix_tree) (h : heap).
Let t := T p r P es.
Let root := taddr (plugs C t).
Context (Hc : wfc max_len C m ob) (Ht : wf m ob t) (Ho : owns h (blocks (plugs C t) ++ L))
  (Hroot : root_ rt = root) (HN : length (blocks (plugs C t) ++ L) + 2 ≤ N).

#[local] Lemma branch_ok : blk_ok P es.*1 (ptrs (edge_addrs es)).
Proof. eapply wf_blk_ok; [exact Ht|]. by eapply wfc_le. Qed.

#[local] Lemma branch_node : node_ok m ob p r P es.*1.
Proof. by inversion Ht. Qed.

#[local] Lemma branch_edges : Forall (λ e, wf (m - Z.of_nat (length P)) (Some e.1) e.2) es.
Proof. by inversion Ht. Qed.

#[local] Lemma branch_cases :
  (C = [] ∧ P = [] ∧ ob = None) ∨ (∃ f C', C = f :: C' ∧ P ≠ [] ∧ is_Some ob).
Proof. apply (wfc_cases _ _ _ _ Hc). apply branch_node. Qed.

(** The last statements of a branch that moved the current node: link it to its
    parent and return. *)
Lemma wp_finish f C' t' k d (b : bool) rt' h' (Q : bool * radix_tree → heap → Prop) :
  C = f :: C' → wf m ob t' → adds t t' k d → head k = ob → root_ rt' = root_ rt →
  owns h' (blocks t' ++ cblocks C p ++ L) →
  (∀ h'', updated (plugs C t) L (path C ++ k) d (size_ rt') rt' h'' → Q (b, rt') h'') →
  wp N (_ ← set_node_at (parent_of C root) (Z.of_nat (edge_of C)) (taddr t'); mret (b, rt')) h' Q.
Proof.
  intros HC Ht' Ha Hk Hr Ho' HQ. apply wp_bind. rewrite HC. cbn [parent_of edge_of].
  apply (wp_relink N f C' m ob t t' p h' L); [by rewrite <-HC|exact Ht|by rewrite <-HC|].
  intros h'' Ho''. apply wp_ret, HQ. rewrite <-HC in Ho''.
  eapply updated_plugs; [done|by destruct ob|done|done|done| |done].
  rewrite Hr, Hroot. unfold root. rewrite HC. apply taddr_plugs.
Qed.

Lemma wf_add_leaf q a b k :
  is_addr q → is_addr a → b ∉ es.*1 → Forall key_byte (b :: k) →
  (Z.of_nat (length (path C ++ P ++ b :: k)) ≤ max_len)%Z →
  wf m ob (T q r P (es ++ [(b, T a 1 (b :: k) [])])).
Proof.
  intros Hq Ha Hb Hk Hlen. destruct branch_node as [_ ? ? ? Hnd ? Hm].
  pose proof (wfc_path _ _ _ _ Hc) as Hpath. rewrite !length_app in Hlen.
  constructor.
  - rewrite fmap_app. constructor; [done..| |done|].
    + apply NoDup_app. split; [done|]. split; [|apply NoDup_singleton].
      intros x Hx. simpl. rewrite list_elem_of_singleton. by intros ->.
    + destruct ob; [|done]. rewrite length_app. simpl. lia.
  - apply Forall_app. split; [apply branch_edges|]. apply Forall_singleton.
    apply wf_leaf; [done|done|]. lia.
Qed.

Lemma wp_insert_leaf b k (Q : bool * radix_tree → heap → Prop) :
  (if ob is Some _ then head (P ++ b :: k) = ob else True) →
  b ∉ es.*1 → Forall key_byte (b :: k) →
  (Z.of_nat (length (path C ++ P ++ b :: k)) ≤ max_len)%Z →
  (∀ rt' h', updated (plugs C t) L (path C ++ P ++ b :: k) 1 (u64 (size_ rt + 1)) rt' h' →
    Q (true, rt') h') →
  wp N (insert_leaf rt ((path C ++ P ++ b :: k) ++ [0%Z]) (Z.of_nat (length (path C ++ P ++ b :: k)))
          (Z.of_nat (length (path C ++ P))) (Z.of_nat (edge_of C)) p (parent_of C root)) h Q.
Proof.
  intros Hhd Hb Hk Hlen HQ. pose proof branch_ok as Hok.
  pose proof HN as HN0. pose proof Ho as Ho0. unfold t in HN0, Ho0.
  rewrite length_focus in HN0. apply owns_focus in Ho0.
  rewrite (app_assoc (path C) P) in Hlen |- *.
  apply wp_bind. eapply wp_make_key_node; [exact Ho0|simpl; lia|done|].
  intros a P' h1 Ha HP' Hoka Ho1. apply wp_bind. rewrite <-(app_assoc _ (b :: k)).
  eapply wp_set_key_prefix; [exact Ho1|done|done|]. intros h2 Ho2.
  apply wp_bind. change ((b :: k) ++ [0%Z]) with ([b] ++ k ++ [0%Z]).
  apply wp_key_read; [done|done|]. simpl le_decode. rewrite Z.mul_0_r, Z.add_0_r.
  pose proof (wf_edge_count _ _ _ Ht) as Hcnt. simpl in Hcnt.
  apply wp_bind. eapply wp_append_edge; [own|done|apply (ok_addr _ _ _ _ _ _ branch_node)| |simpl; lia|].
  { unfold fits_u32. rewrite length_fmap. lia. }
  intros q h3 Hq Ho3.
  set (t' := T q r P (es ++ [(b, T a 1 (b :: k) [])])).
  assert (Ht' : wf m ob t') by (apply wf_add_leaf; rewrite ?app_assoc; done).
  assert (Hadds : adds (T p r P es) t' (P ++ b :: k) 1).
  { apply (adds_leaf _ _ _ _ _ _ a); [|unfold t'; solve_Permutation]. by inversion_clear Ht' as [? ? ? ? ? ? []]. }
  assert (Ho3' : owns h3 (blocks t' ++ cblocks C p ++ L)).
  { unfold t'. rewrite blocks_eq, eblocks_app. unfold edge_addrs in *. rewrite !fmap_app in *.
    eapply owns_proper; [|exact Ho3].
    change (eblocks [(b, T a 1 (b :: k) [])]) with [(a, blk 1 (b :: k) [] [])].
    cbn [fmap list_fmap fst snd taddr]. solve_Permutation. }
  apply wp_bind. eapply wp_prefix_length; [exact Ho3| |].
  { pose proof (wf_blk_ok _ _ _ _ _ _ Ht' (wfc_le _ _ _ _ Hc)) as Hokq.
    unfold edge_addrs in *. rewrite !fmap_app in Hokq. exact Hokq. }
  destruct branch_cases as [(HC & HP & Hob)|(f & C' & HC & HP & Hob)].
  - rewrite HP at 1. apply wp_ret, HQ.
    eapply (updated_plugs C m ob t t'); [exact Hc|by rewrite Hob|exact Ht'|exact Hadds| | |done];
      by rewrite HC in Ho3' |- *.
  - rewrite (proj2 (Z.eqb_neq _ _)) by (destruct P; [done|simpl; lia]).
    eapply (wp_finish f C' t' (P ++ b :: k)); [done..| |done|exact Ho3'|].
    + destruct Hob as [? E]. by rewrite E in Hhd |- *.
    + intros h''. by apply HQ.
Qed.

Lemma wf_split_node s P1 b2 P2 :
  P = P1 ++ b2 :: P2 → is_addr s →
  wf (m - Z.of_nat (length P1)) (Some b2) (T s r (b2 :: P2) es).
Proof.
  intros HP Hs. pose proof branch_edges as He. pose proof branch_node as Hnode.
  rewrite HP in He, Hnode. destruct Hnode as [_ ? Hlen Hby Hnd Hhd Hm].
  rewrite length_app in He, Hlen. constructor.
  - apply Forall_app in Hby as [_ Hby].
    constructor; [done|done|lia|done|done|done|]. destruct ob; [done|]. by destruct P1.
  - eapply Forall_impl; [exact He|]. intros e He'. simpl in He' |- *.
    by replace (m - Z.of_nat (length P1) - Z.of_nat (S (length P2)))%Z
      with (m - Z.of_nat (length P1 + S (length P2)))%Z by lia.
Qed.

(** The upper half of a split node. *)
Lemma wf_upper_half q r' P1 b2 P2 es' :
  P = P1 ++ b2 :: P2 → P1 ≠ [] → is_addr q → (0 ≤ r' < 2 ^ 32)%Z → NoDup es'.*1 →
  (0 < r')%Z ∨ 2 ≤ length es' →
  Forall (λ e, wf (m - Z.of_nat (length P1)) (Some e.1) e.2) es' → wf m ob (T q r' P1 es').
Proof.
  intros HP HP1 Hq Hr' Hnd Hm Hes. pose proof branch_node as Hnode. rewrite HP in Hnode.
  destruct Hnode as [_ _ Hlen Hby _ Hhd _]. rewrite length_app in Hlen.
  constructor; [|done]. apply Forall_app in Hby as [Hby _].
  constructor; [done|done|lia|done|done| |].
  - by destruct P1.
  - rewrite length_fmap. destruct P1; [done|]. by destruct ob.
Qed.

(** The node after [resize(j, nf)]: the first [j] prefix bytes are kept. *)
Lemma resize_upper P1 X P' F' D' nf :
  P = P1 ++ X → length P' = length P1 →
  take (length (P ++ es.*1 ++ ptrs (edge_addrs es))) (P' ++ F' ++ D') =
  take (length P1 + 9 * nf) (P ++ es.*1 ++ ptrs (edge_addrs es)) → P' = P1.
Proof.
  intros HP HP' Hkeep. apply (resize_keeps (length P1)) in Hkeep;
    [|rewrite ?HP; len_simpl; lia..].
  rewrite take_ge in Hkeep by lia. rewrite Hkeep, HP. by rewrite take_app_length.
Qed.

Lemma wp_insert_split P1 b2 P2 b k (Q : bool * radix_tree → heap → Prop) :
  P = P1 ++ b2 :: P2 → P1 ≠ [] → b ≠ b2 → head (P1 ++ b :: k) = ob → Forall key_byte (b :: k) →
  (Z.of_nat (length (path C ++ P1 ++ b :: k)) ≤ max_len)%Z →
  (∀ rt' h', updated (plugs C t) L (path C ++ P1 ++ b :: k) 1 (u64 (size_ rt + 1)) rt' h' →
    Q (true, rt') h') →
  wp N (insert_split rt ((path C ++ P1 ++ b :: k) ++ [0%Z]) (Z.of_nat (length (path C ++ P1 ++ b :: k)))
          (Z.of_nat (length (path C ++ P1))) (Z.of_nat (length P1)) (Z.of_nat (edge_of C))
          p (parent_of C root)) h Q.
Proof.
  intros HP HP1 Hb Hhd Hk Hlen HQ. pose proof branch_ok as Hok. pose proof branch_node as Hnode.
  pose proof HN as HN0. pose proof Ho as Ho0. unfold t in HN0, Ho0.
  rewrite length_focus in HN0. apply owns_focus in Ho0.
  assert (HlenP : length P = length P1 + S (length P2)) by (rewrite HP, length_app; done).
  assert (Hdrop : drop (length P1) P = b2 :: P2) by (rewrite HP; apply drop_app_length).
  set (R := eblocks es ++ cblocks C p ++ L) in *. set (D := ptrs (edge_addrs es)) in *.
  rewrite (app_assoc (path C) P1) in Hlen |- *. rewrite <-(app_assoc _ (b :: k)).
  apply wp_bind. eapply wp_make_key_node; [exact Ho0|simpl; lia|done|].
  intros a P' h1 Ha HP' Hoka Ho1.
  apply wp_bind. eapply wp_make_split; [own|done|apply Hnode|lia|simpl; lia|].
  intros s Ps Fs Ds h2 Hs HPs HFs Hoks Ho2.
  apply wp_bind. eapply wp_set_key_prefix; [own|done|done|]. intros h3 Ho3.
  apply wp_bind. eapply (wp_fill_split N s p h3 r P es.*1 D r Ps Fs Ds _ ((a, blk 1 (b :: k) [] []) :: R));
    [|exact Hok|lia|exact HPs|exact HFs|exact Hoks|].
  { eapply owns_proper; [|exact Ho3]. solve_Permutation. }
  intros h4 Ho4. rewrite Hdrop in Ho4. apply owns_2 in Ho4.
  apply wp_bind. eapply (wp_resize N p r P es.*1 D _ 2); [exact Ho4|apply Hnode|simpl; lia|..].
  { unfold fits_u32, max_len in *. len_simpl. lia. }
  { done. }
  intros q P1' F' D' h5 Hq HP1' HF' Hok' Hkeep Ho5.
  apply (resize_upper P1 (b2 :: P2)) in Hkeep; [|done|done]. subst P1'.
  destruct F' as [|x [|y [|]]]; [done|done| |done]. pose proof Hok' as (_ & _ & HD').
  apply wp_bind. eapply wp_set_refcount; [exact Ho5|]. intros h6 Ho6.
  apply wp_bind. eapply wp_first_prefix_byte; [own|].
  apply wp_bind. apply (wp_set_edge_at N q h6 0 P1 [x; y] D' 0 b a _ _ Ho6 Hok'); [simpl; lia|].
  intros h7 Ho7. apply wp_bind. eapply wp_first_prefix_byte; [own|].
  apply wp_bind. apply (wp_set_edge_at N q h7 0 P1 [b; y] _ 1 b2 s _ _ Ho7); [|simpl; lia|].
  { unfold blk_ok in *. rewrite length_splice; [done|]. simpl in *. lia. }
  simpl list_insert. rewrite splice_ptr2 by done. intros h8 Ho8.
  destruct branch_cases as [(_ & HP0 & _)|(f & C' & HC & _)]; [by destruct P1; rewrite HP0 in HP|].
  eapply (wp_finish f C' (T q 0 P1 [(b, T a 1 (b :: k) []); (b2, T s r (b2 :: P2) es)])
            (P1 ++ b :: k)); [done| | |done|done| |].
  - eapply wf_upper_half; [done..| |simpl; lia|].
    + simpl. apply NoDup_cons. rewrite list_elem_of_singleton. split; [done|apply NoDup_singleton].
    + constructor; [|constructor; [by apply wf_split_node|done]]. apply wf_leaf; [done|done|].
      pose proof (wfc_path _ _ _ _ Hc). len_simpl. simpl in *. lia.
  - unfold t. rewrite HP. by apply adds_split.
  - eapply owns_proper; [|exact Ho8]. rewrite blocks_eq.
    change (eblocks _) with (blocks (T a 1 (b :: k) []) ++ blocks (T s r (b2 :: P2) es) ++ []) at 1.
    rewrite !blocks_eq. unfold R. cbn. solve_Permutation.
  - intros h''. by apply HQ.
Qed.

Lemma wp_insert_middle P1 b2 P2 (Q : bool * radix_tree → heap → Prop) :
  P = P1 ++ b2 :: P2 → P1 ≠ [] → head P1 = ob →
  (∀ rt' h', updated (plugs C t) L (path C ++ P1) 1 (u64 (size_ rt + 1)) rt' h' →
    Q (true, rt') h') →
  wp N (insert_middle rt (Z.of_nat (length P1)) (Z.of_nat (edge_of C)) p (parent_of C root)) h Q.
Proof.
  intros HP HP1 Hhd HQ. pose proof branch_ok as Hok. pose proof branch_node as Hnode.
  pose proof HN as HN0. pose proof Ho as Ho0. unfold t in HN0, Ho0.
  rewrite length_focus in HN0. apply owns_focus in Ho0.
  assert (HlenP : length P = length P1 + S (length P2)) by (rewrite HP, length_app; done).
  assert (Hdrop : drop (length P1) P = b2 :: P2) by (rewrite HP; apply drop_app_length).
  set (R := eblocks es ++ cblocks C p ++ L) in *. set (D := ptrs (edge_addrs es)) in *.
  apply wp_bind. eapply wp_make_split; [exact Ho0|done|apply Hnode|lia|simpl; lia|].
  intros s Ps Fs Ds h2 Hs HPs HFs Hoks Ho2.
  apply wp_bind. eapply wp_fill_split; [exact Ho2|exact Hok|lia|exact HPs|exact HFs|exact Hoks|].
  intros h4 Ho4. rewrite Hdrop in Ho4. apply owns_2 in Ho4.
  apply wp_bind. eapply (wp_resize N p r P es.*1 D _ 1); [exact Ho4|apply Hnode|simpl; lia|..].
  { pose proof Hok as (? & _). unfold fits_u32. lia. }
  { done. }
  intros q P1' F' D' h5 Hq HP1' HF' Hok' Hkeep Ho5.
  apply (resize_upper P1 (b2 :: P2)) in Hkeep; [|done|done]. subst P1'.
  destruct F' as [|x [|]]; [done| |done]. pose proof Hok' as (_ & _ & HD').
  apply wp_bind. eapply wp_first_prefix_byte; [own|].
  apply wp_bind. apply (wp_set_edge_at N q h5 r P1 [x] D' 0 b2 s _ _ Ho5 Hok'); [simpl; lia|].
  simpl list_insert. rewrite splice_ptr1 by done. intros h7 Ho7.
  apply wp_bind. eapply wp_set_refcount; [exact Ho7|]. intros h8 Ho8.
  destruct branch_cases as [(_ & HP0 & _)|(f & C' & HC & _)]; [by destruct P1; rewrite HP0 in HP|].
  eapply (wp_finish f C' (T q 1 P1 [(b2, T s r (b2 :: P2) es)]) P1); [done| | |done|done| |].
  - eapply wf_upper_half; [done..| |simpl; lia|].
    + apply NoDup_singleton.
    + constructor; [by apply wf_split_node|done].
  - unfold t. rewrite HP. by apply adds_split_end.
  - eapply owns_proper; [|exact Ho8]. rewrite blocks_eq.
    change (eblocks _) with (blocks (T s r (b2 :: P2) es) ++ []) at 1.
    rewrite !blocks_eq. unfold R. cbn. solve_Permutation.
  - intros h''. by apply HQ.
Qed.

(** The key is at the current node. *)
Lemma wf_set_count r' :
  (0 ≤ r' < 2 ^ 32)%Z → is_Some ob → (0 < r')%Z ∨ 2 ≤ length es → wf m ob (T p r' P es).
Proof.
  intros Hr' [b Hb] Hm. destruct branch_node as [? _ ? ? ? ? _].
  constructor; [|apply branch_edges]. constructor; [done..|]. by rewrite Hb, length_fmap.
Qed.

Lemma updated_count r' h' rt' n :
  (0 ≤ r' < 2 ^ 32)%Z → is_Some ob → (0 < r')%Z ∨ 2 ≤ length es → head P = ob →
  root_ rt' = root → size_ rt' = n →
  owns h' ((p, blk r' P es.*1 (ptrs (edge_addrs es))) :: eblocks es ++ cblocks C p ++ L) →
  updated (plugs C t) L (path C ++ P) (r' - r) n rt' h'.
Proof.
  intros Hr' Hob Hm Hhd Hroot' Hn Ho'.
  eapply (updated_plugs C m ob t (T p r' P es)); [done| | | | | |done].
  - by destruct ob.
  - by apply wf_set_count.
  - apply adds_count.
  - by apply owns_focus.
  - rewrite Hroot'. unfold root.
    destruct branch_cases as [(HC & _)|(f & C' & HC & _)]; rewrite HC; [done|apply taddr_plugs].
Qed.
End branches.

(** ** [insert] *)

Lemma wp_insert `{!Allocator} N t rt key h L (Q : bool * radix_tree → heap → Prop) :
  owns h (blocks t ++ L) → wf max_len None t → root_ rt = taddr t →
  key ≠ [] → Forall key_byte key → (Z.of_nat (length key) ≤ max_len)%Z →
  (cnt t key + 1 < 2 ^ 32)%Z → length (blocks t ++ L) + 2 ≤ N →
  (∀ rt' h', updated t L key 1 (u64 (size_ rt + 1)) rt' h' →
    Q (bool_decide (cnt t key = 0%Z), rt') h') →
  wp N (insert rt (key ++ [0%Z]) (Z.of_nat (length key))) h Q.
Proof.
  intros Ho Hwf Hroot Hkey Hbytes Hlen Hcnt HN HQ.
  apply wp_bind. eapply wp_match; [done..|]. intros C t' k <- <- (Hk & Hst & m & ob & Hc & Ht & Hhd).
  rewrite (cnt_plugs _ _ _ _ _ _ Hc Hhd) in Hcnt, HQ. destruct t' as [p r P es].
  pose proof (wf_blk_ok _ _ _ _ _ _ Ht (wfc_le _ _ _ _ Hc)) as Hok.
  pose proof (proj1 (owns_focus _ _ _ _ _ _ _) Ho) as Ho0.
  pose proof Ht as Ht0. inversion_clear Ht0 as [? ? ? ? ? ? Hnode _].
  pose proof (ok_head _ _ _ _ _ _ Hnode) as HhdP.
  unfold found, mres. cbn [nkey nprefix edge_index current_node parent_node tprefix taddr].
  apply wp_bind. eapply wp_prefix_length; [done..|].
  apply Forall_app in Hbytes as [_ Hbytes]. unfold stops in Hst. cbn [tprefix tedges] in Hst.
  destruct (lcp_cases P k) as [P|P b k|P1 b2 P2|P1 b2 P2 b k Hb].
  - rewrite cnt_exact in Hcnt, HQ. rewrite length_app.
    rewrite !Z.eqb_refl. cbn [negb].
    apply wp_bind. eapply wp_refcount; [done|apply Hnode|].
    apply wp_bind. eapply wp_set_refcount; [done|]. intros h1 Ho1.
    pose proof (ok_refs _ _ _ _ _ _ Hnode) as Hr. rewrite (wrap_small 32 (r + 1)) in Ho1 by lia.
    apply wp_bind. eapply wp_refcount; [done|lia|]. apply wp_ret.
    replace (r + 1 =? 1)%Z with (bool_decide (r = 0%Z)).
    2: { case_bool_decide; symmetry; [apply Z.eqb_eq|apply Z.eqb_neq]; lia. }
    apply HQ. replace 1%Z with (r + 1 - r)%Z at 1 by lia.
    apply (updated_count C m ob p r P es L); [done..|lia| |lia|done|done|done|done].
    destruct P; [done|]. by rewrite <-HhdP.
  - rewrite cnt_no_edge in HQ by (apply Hst; [done|by rewrite drop_app_length]).
    rewrite (proj2 (Z.eqb_neq _ _)) by (len_simpl; simpl; lia). cbn [negb].
    rewrite Z.eqb_refl, orb_true_r. rewrite <-length_app.
    apply Forall_app in Hbytes as [_ Hbytes].
    eapply (wp_insert_leaf N C m ob p r P es L rt h); [done..| |done|done|done].
    apply Hst; [done|by rewrite drop_app_length].
  - rewrite cnt_key_ends in HQ. rewrite length_app, Z.eqb_refl. cbn [negb].
    rewrite (proj2 (Z.eqb_neq _ _)) by (len_simpl; simpl; lia). cbn [negb].
    eapply (wp_insert_middle N C m ob p r _ es L rt h); [done..| |done].
    by destruct P1; simplify_eq/=.
  - rewrite cnt_differ in HQ by done.
    rewrite (proj2 (Z.eqb_neq _ (Z.of_nat (length (path C ++ P1 ++ b :: k))))) by (len_simpl; simpl; lia).
    cbn [negb].
    assert (HP1 : P1 ≠ []) by (intros ->; simplify_eq/=).
    rewrite (proj2 (Z.eqb_neq _ 0)), (proj2 (Z.eqb_neq _ _)).
    2: { len_simpl. simpl. lia. }
    2: { destruct P1; [done|]. simpl. lia. }
    cbn [orb]. rewrite <-length_app.
    apply Forall_app in Hbytes as [_ Hbytes].
    eapply (wp_insert_split N C m ob p r _ es L rt h); [done..| |done|done|done].
    by destruct P1; simplify_eq/=.
Qed.
