(* ===== verification/RadixErase.v ===== *)
(** * [radix_tree::erase] and [radix_tree::contains]

    On a heap that holds a well-formed tree, [erase] removes one occurrence of
    the key and frees the nodes that are no longer needed; [contains] tells
    whether the key is stored. *)

From S2P Require Import Prelude CMemory RadixNode RadixTree RadixBlocks RadixShape RadixCount RadixMatch RadixInsert.
From Stdlib Require Import ZArith Lia.

(** ** Shapes after a removal *)

(** A node merged with its only child. *)
Lemma wf_merge m ob p q r P bs b c rc Pc esc :
  node_ok m ob p r P bs → P ≠ [] → is_addr q →
  wf (m - Z.of_nat (length P)) (Some b) (T c rc Pc esc) → wf m ob (T q rc (P ++ Pc) esc).
Proof.
  intros [_ _ ? ? _ Hhd _] HP Hq Hw. inversion_clear Hw as [? ? ? ? ? ? Hc Hes].
  destruct Hc as [_ ? Hlen ? ? _ Hm]. constructor.
  - constructor; [done|done|rewrite length_app; lia|by apply Forall_app|done| |].
    + by destruct P.
    + destruct P; [done|]. by destruct ob.
  - eapply Forall_impl; [exact Hes|]. intros e He. rewrite length_app.
    by replace (m - Z.of_nat (length P + length Pc))%Z
      with (m - Z.of_nat (length P) - Z.of_nat (length Pc))%Z by lia.
Qed.

(** A node without one of its edges. *)
Lemma wf_drop m ob p q r P es es' e :
  wf m ob (T p r P es) → is_addr q → es ≡ₚ e :: es' →
  (if ob is Some _ then (0 < r)%Z ∨ 2 ≤ length es' else True) → wf m ob (T q r P es').
Proof.
  intros Hw Hq He Hm'. inversion_clear Hw as [? ? ? ? ? ? [_ ? ? ? Hnd ? Hm] Hes].
  rewrite He in Hnd, Hes. rewrite fmap_cons, NoDup_cons in Hnd. destruct Hnd as [_ Hnd].
  rewrite Forall_cons in Hes. destruct Hes as [_ Hes].
  constructor; [|done]. constructor; [done..|]. destruct ob; [|done]. by rewrite length_fmap.
Qed.

Lemma root_in_cblocks f C t q : taddr (plugs (f :: C) t) ∈ (cblocks (f :: C) q).*1.
Proof.
  revert f t q. induction C as [|g C IH]; intros f t q; [by left|].
  change (plugs (f :: g :: C) t) with (plugs (g :: C) (plug f t)).
  cbn [cblocks]. rewrite fmap_cons, fmap_app. right. apply elem_of_app. right.
  apply (IH g (plug f t) (f_addr f)).
Qed.

(** Nodes of the tree have different addresses. *)
Lemma owns_root_ne h f C t L :
  owns h (blocks (plugs (f :: C) t) ++ L) → taddr t ≠ taddr (plugs (f :: C) t).
Proof.
  intros [Hnd _] E. rewrite blocks_plugs, !fmap_app in Hnd.
  apply NoDup_app in Hnd as (Hnd & _ & _). apply NoDup_app in Hnd as (_ & Hd & _).
  apply (Hd (taddr t)); [rewrite blocks_top; by left|]. rewrite E. apply root_in_cblocks.
Qed.

Lemma owns_parent_ne h f C t L : owns h (blocks (plugs (f :: C) t) ++ L) → f_addr f ≠ taddr t.
Proof.
  intros [Hnd _] E. rewrite blocks_plugs, !fmap_app in Hnd.
  apply NoDup_app in Hnd as (Hnd & _ & _). apply NoDup_app in Hnd as (_ & Hd & _).
  apply (Hd (taddr t)); [rewrite blocks_top; by left|]. rewrite <-E. by left.
Qed.

(** ** The branches of [erase] *)

Section merge_child.
Context `{!Allocator}.

Lemma wp_erase_merge_child N C m ob p P b c rc Pc esc L rt rt' h h1 (Q : bool * radix_tree → heap → Prop) :
  let t := T p 1 P [(b, T c rc Pc esc)] in
  let root := taddr (plugs C t) in
  wfc max_len C m ob → wf m ob t → owns h (blocks (plugs C t) ++ L) → root_ rt = root →
  length (blocks (plugs C t) ++ L) + 2 ≤ N → P ≠ [] → root_ rt' = root_ rt →
  owns h1 ((p, blk 0 P [b] (ptrs [c])) :: blocks (T c rc Pc esc) ++ cblocks C p ++ L) →
  (∀ h', updated (plugs C t) L (path C ++ P) (-1) (size_ rt') rt' h' → Q (true, rt') h') →
  wp N (erase_merge_child rt' (Z.of_nat (edge_of C)) p (parent_of C root)) h1 Q.
Proof.
  intros t root Hc Ht Ho Hroot HN HP Hrt' Ho1 HQ.
  pose proof (wf_blk_ok _ _ _ _ _ _ Ht (wfc_le _ _ _ _ Hc)) as Hok.
  inversion Ht as [? ? ? ? ? ? Hnode Hes]; subst. apply Forall_cons in Hes as [Hes _]. simpl in Hes.
  pose proof (wfc_le _ _ _ _ Hc) as Hm.
  assert (Hokc : blk_ok Pc esc.*1 (ptrs (edge_addrs esc))) by (eapply wf_blk_ok; [exact Hes|lia]).
  inversion Hes as [? ? ? ? ? ? Hnodec Hesc]; subst.
  pose proof (ok_addr _ _ _ _ _ _ Hnodec) as Hca. pose proof (ok_len _ _ _ _ _ _ Hnodec).
  rewrite blocks_eq, <-app_comm_cons in Ho1.
  apply wp_bind. eapply (wp_node_at N p h1 0 P [b] [c] 0); [exact Ho1|exact Hok|done| |].
  { unfold is_addr in Hca. lia. }
  apply wp_bind. eapply wp_absorb; [exact Ho1|exact Hok|exact Hokc| | | | |].
  - apply Hnode.
  - apply Hnodec.
  - unfold fits_u32, max_len in *. lia.
  - unfold t in HN. rewrite length_focus in HN.
    change (eblocks [(b, T c rc Pc esc)]) with (blocks (T c rc Pc esc) ++ []) in HN.
    rewrite blocks_eq in HN. len_simpl. simpl in HN. lia.
  - intros q h2 Hq Hokq Ho2. apply wp_bind. eapply wp_free; [own|]. intros h3 Ho3.
    destruct (wfc_cases _ _ _ _ Hc (ok_head _ _ _ _ _ _ Hnode)) as [(_ & HP0 & _)|(f & C' & HC & _)]; [done|].
    apply (wp_finish N C m ob p 1 P _ L rt Hc Ht Hroot f C' (T q rc (P ++ Pc) esc) P (-1));
      [done| | | |done| |exact HQ].
    + by eapply wf_merge.
    + apply adds_merge. apply (ok_head _ _ _ _ _ _ Hnodec).
    + apply Hnode.
    + rewrite blocks_eq. exact Ho3.
Qed.
End merge_child.

(** The parent keeps the other one of its two edges. *)
Lemma other_edge f p b' o :
  f_left f ++ f_right f = [(b', o)] →
  length (f_left f) < 2 ∧
  (edge_addrs (f_left f) ++ p :: edge_addrs (f_right f)) !! (1 - length (f_left f)) = Some (taddr o).
Proof.
  destruct f as [? ? ? l ? rr]. cbn [f_left f_right].
  destruct l as [|e [|? ?]]; intros [=]; subst; simpl; (split; [lia|done]).
Qed.

Lemma other_index (n : nat) :
  n < 2 → (if (Z.of_nat n =? 0)%Z then 1%Z else 0%Z) = Z.of_nat (1 - n).
Proof. intros Hn. by destruct n as [|[|n]]; [| |lia]. Qed.

(** Dropping the edge to a leaf from its parent. *)
Lemma adds_plug_leaf f q p P es' :
  NoDup ((f_left f).*1 ++ f_byte f :: (f_right f).*1) → head P = Some (f_byte f) →
  es' ≡ₚ f_left f ++ f_right f →
  adds (plug f (T p 1 P [])) (T q (f_refs f) (f_prefix f) es') (f_prefix f ++ P) (-1).
Proof.
  intros Hnd HP He. destruct P as [|b P]; [done|]. injection HP as ->.
  apply (adds_unleaf _ _ _ _ _ _ p).
  - by rewrite fmap_app, fmap_cons.
  - rewrite He. solve_Permutation.
Qed.

Section merge_parent.
Context `{!Allocator}.
Implicit Types (f g : frame) (L : list (Z * list Z)).

Lemma wp_erase_merge_parent N f g C m ob p P b' c rc Pc esc L rt rt' h1
    (Q : bool * radix_tree → heap → Prop) :
  let t := T p 1 P [] in
  wfc max_len (g :: C) m ob → wf m ob (plug f t) → root_ rt = taddr (plugs (g :: C) (plug f t)) →
  root_ rt' = root_ rt → f_refs f = 0%Z → f_left f ++ f_right f = [(b', T c rc Pc esc)] →
  owns h1 ((p, blk 0 P [] []) :: (f_addr f, frame_block f p) ::
           blocks (T c rc Pc esc) ++ cblocks (g :: C) (f_addr f) ++ L) →
  length (blocks (T c rc Pc esc) ++ cblocks (g :: C) (f_addr f) ++ L) + 2 ≤ N →
  (∀ h', updated (plugs (f :: g :: C) t) L (path (f :: g :: C) ++ P) (-1) (size_ rt') rt' h' →
    Q (true, rt') h') →
  wp N (erase_merge_parent rt' (Z.of_nat (length (f_left f))) (Z.of_nat (length (f_left g)))
          p (f_addr f) (f_addr g)) h1 Q.
Proof.
  intros t Hc Hpar Hroot Hrt' Hr Hlr Ho1 HN HQ. pose proof (wfc_le _ _ _ _ Hc) as Hm.
  pose proof (wf_blk_ok _ _ _ _ _ _ Hpar Hm) as Hok.
  pose proof (other_edge f p b' _ Hlr) as [Hidx Hother].
  pose proof Hpar as (Hnode & Hes & Ht)%wf_plug. rewrite Hlr in Hes.
  apply Forall_cons in Hes as [Hes _]. cbn [fst snd] in Hes.
  assert (Hokc : blk_ok Pc esc.*1 (ptrs (edge_addrs esc))) by (eapply wf_blk_ok; [exact Hes|lia]).
  inversion Hes as [? ? ? ? ? ? Hnodec Hesc]; subst.
  inversion Ht as [? ? ? ? ? ? Hnodet _]; subst.
  assert (Hadds := λ es', adds_plug_leaf f (f_addr f) p P es' (ok_nodup _ _ _ _ _ _ Hnode)
                            (ok_head _ _ _ _ _ _ Hnodet)).
  pose proof (ok_addr _ _ _ _ _ _ Hnodec) as Hca. pose proof (ok_len _ _ _ _ _ _ Hnodec).
  apply owns_2 in Ho1. unfold frame_block in Ho1. rewrite Hr in Ho1.
  assert (Hok' : blk_ok (f_prefix f) ((f_left f).*1 ++ f_byte f :: (f_right f).*1)
      (ptrs (edge_addrs (f_left f) ++ p :: edge_addrs (f_right f)))).
  { unfold edge_addrs in *. rewrite !fmap_app in Hok. exact Hok. }
  apply wp_bind, wp_massert; [apply Z.ltb_lt; lia|].
  apply wp_bind. rewrite other_index by done.
  eapply wp_node_at; [exact Ho1|exact Hok'|exact Hother|unfold is_addr in Hca; simpl; lia|].
  rewrite blocks_eq in Ho1. cbn [taddr].
  set (R := eblocks esc ++ cblocks (g :: C) (f_addr f) ++ L) in *.
  apply wp_bind. eapply (wp_absorb N _ c h1 _ _ _ _ _ _ _ _ ((p, blk 0 P [] []) :: R));
    [|exact Hok'|exact Hokc|apply Hnode|apply Hnodec| | |].
  { eapply owns_proper; [|exact Ho1]. unfold R. solve_Permutation. }
  { unfold fits_u32, max_len in *. lia. }
  { rewrite blocks_eq in HN. unfold R. len_simpl. simpl in *. lia. }
  intros q h2 Hq Hokq Ho2. apply wp_bind. eapply wp_free; [own|]. intros h3 Ho3.
  apply wp_bind. eapply wp_free; [own|]. intros h4 Ho4.
  destruct (wfc_cases _ _ _ _ Hc (ok_head _ _ _ _ _ _ Hnode)) as [(? & _)|(_ & _ & _ & HP & _)]; [done|].
  apply (wp_finish N (g :: C) m ob (f_addr f) (f_refs f) (f_prefix f) _ L rt Hc Hpar Hroot g C
           (T q rc (f_prefix f ++ Pc) esc) (f_prefix f ++ P) (-1)); [done| | | |done| |].
  - by eapply wf_merge.
  - eapply adds_same_r; [|apply (same_merge (f_addr f) q c rc (f_prefix f) Pc b')].
    + rewrite <-Hr. apply Hadds. by rewrite Hlr.
    + apply (ok_head _ _ _ _ _ _ Hnodec).
  - pose proof (ok_head _ _ _ _ _ _ Hnode) as Hhd. by destruct (f_prefix f).
  - rewrite blocks_eq. exact Ho4.
  - intros h5. cbn [path] in HQ. rewrite <-app_assoc in HQ. apply HQ.
Qed.
End merge_parent.

Section drop_leaf.
Context `{!Allocator}.
Implicit Types (f : frame) (L : list (Z * list Z)).

Lemma wp_erase_leaf N f C m ob p P L rt rt' h1 (Q : bool * radix_tree → heap → Prop) :
  let t := T p 1 P [] in
  let root := taddr (plugs C (plug f t)) in
  wfc max_len C m ob → wf m ob (plug f t) → root_ rt = root → root_ rt' = root_ rt →
  (if ob is Some _ then (0 < f_refs f)%Z ∨ 2 ≤ length (f_left f ++ f_right f) else True) →
  owns h1 ((p, blk 0 P [] []) :: (f_addr f, frame_block f p) ::
           eblocks (f_left f ++ f_right f) ++ cblocks C (f_addr f) ++ L) →
  length (eblocks (f_left f ++ f_right f) ++ cblocks C (f_addr f) ++ L) + 2 ≤ N →
  (∀ rt'' h', updated (plugs (f :: C) t) L (path (f :: C) ++ P) (-1) (size_ rt') rt'' h' →
    Q (true, rt'') h') →
  wp N (erase_leaf rt' 0 (Z.of_nat (length (f_left f))) (Z.of_nat (edge_of C))
          p (f_addr f) (parent_of C root)) h1 Q.
Proof.
  intros t root Hc Hpar Hroot Hrt' Hm' Ho1 HN HQ. pose proof (wfc_le _ _ _ _ Hc) as Hm.
  pose proof (wf_blk_ok _ _ _ _ _ _ Hpar Hm) as Hok.
  pose proof Hpar as (Hnode & _ & Ht)%wf_plug. inversion Ht as [? ? ? ? ? ? Hnodet _]; subst.
  inversion Hpar as [? ? ? ? ? ? _ Hes]; subst. apply wf_edge_addrs in Hes.
  apply owns_2 in Ho1. unfold frame_block in Ho1.
  set (es := f_left f ++ (f_byte f, t) :: f_right f) in *.
  replace ((f_left f).*1 ++ f_byte f :: (f_right f).*1) with es.*1 in Ho1
    by (unfold es; by rewrite fmap_app).
  replace (edge_addrs (f_left f) ++ p :: edge_addrs (f_right f)) with (edge_addrs es) in Ho1
    by (unfold es, edge_addrs; by rewrite !fmap_app).
  apply wp_bind, wp_massert; [done|].
  apply wp_bind. eapply wp_drop_edge; [exact Ho1|exact Hok|apply Hnode|exact Hes| | |].
  { unfold es. len_simpl. simpl. lia. }
  { simpl. lia. }
  intros q h2 Hq Ho2. apply wp_bind. eapply wp_free; [own|]. intros h3 Ho3.
  assert (Hes' : swap_remove (length (f_left f)) es ≡ₚ f_left f ++ f_right f) by apply swap_remove_perm.
  set (es' := swap_remove (length (f_left f)) es) in *.
  rewrite <-fmap_swap_remove in Ho3. unfold edge_addrs in Ho3. rewrite <-!fmap_swap_remove in Ho3.
  fold es' in Ho3. change (taddr <$> es'.*2) with (edge_addrs es') in Ho3.
  set (t' := T q (f_refs f) (f_prefix f) es').
  assert (Ht' : wf m ob t').
  { apply (wf_drop _ _ _ _ _ _ _ es' (f_byte f, t) Hpar Hq).
    - rewrite Hes'. unfold es. solve_Permutation.
    - destruct ob; [by rewrite Hes'|done]. }
  assert (Hadds : adds (plug f t) t' (f_prefix f ++ P) (-1)).
  { apply adds_plug_leaf; [apply Hnode|apply Hnodet|done]. }
  assert (Ho3' : owns h3 (blocks t' ++ cblocks C (f_addr f) ++ L)).
  { assert (Heb : eblocks es' ≡ₚ eblocks (f_left f ++ f_right f)) by (by rewrite Hes').
    unfold t'. rewrite blocks_eq. eapply owns_proper; [|exact Ho3].
    rewrite <-app_comm_cons. apply perm_skip, Permutation_app; [exact Heb|done]. }
  apply wp_bind. eapply wp_prefix_length; [exact Ho3|by eapply wf_blk_ok|].
  cbn [path] in HQ. rewrite <-app_assoc in HQ.
  destruct (wfc_cases _ _ _ _ Hc (ok_head _ _ _ _ _ _ Hnode)) as [(HC & HP & Hob)|(g & C' & HC & HP & Hob)].
  - rewrite HP at 1. apply wp_ret, HQ.
    eapply (updated_plugs C m ob (plug f t) t'); [exact Hc|by rewrite Hob|exact Ht'|exact Hadds| | |done];
      by rewrite HC in Ho3' |- *.
  - rewrite (proj2 (Z.eqb_neq _ _)) by (destruct (f_prefix f); [done|simpl; lia]).
    apply (wp_finish N C m ob (f_addr f) (f_refs f) (f_prefix f) es L rt Hc Hpar Hroot g C' t'
             (f_prefix f ++ P) (-1)); [done|done|done| |done|exact Ho3'|].
    + pose proof (ok_head _ _ _ _ _ _ Hnode) as Hhd. by destruct (f_prefix f).
    + intros h4. apply HQ.
Qed.
End drop_leaf.

(** ** [erase] *)

Section erase.
Context `{!Allocator}.
Implicit Types (f : frame) (L : list (Z * list Z)).

(** The last occurrence of a key at a leaf. *)
Lemma wp_erase_last N f C m ob p P L rt rt' h h1 (Q : bool * radix_tree → heap → Prop) :
  let t := T p 1 P [] in
  let root := taddr (plugs (f :: C) t) in
  wfc max_len (f :: C) m ob → wf m ob t → root_ rt = root → root_ rt' = root_ rt →
  owns h (blocks (plugs (f :: C) t) ++ L) →
  owns h1 ((p, blk 0 P [] []) :: cblocks (f :: C) p ++ L) →
  length (blocks (plugs (f :: C) t) ++ L) + 2 ≤ N →
  (∀ rt'' h', updated (plugs (f :: C) t) L (path (f :: C) ++ P) (-1) (size_ rt') rt'' h' →
    Q (true, rt'') h') →
  wp N (pec ← edgecount (f_addr f);
        prc ← refcount (f_addr f);
        if (pec =? 2)%Z && (prc =? 0)%Z && node_neqb (f_addr f) (root_ rt)
        then erase_merge_parent rt' (Z.of_nat (length (f_left f))) (Z.of_nat (edge_of C)) p (f_addr f) (parent_of C root)
        else erase_leaf rt' 0 (Z.of_nat (length (f_left f))) (Z.of_nat (edge_of C)) p (f_addr f) (parent_of C root)) h1 Q.
Proof.
  intros t root Hc Ht Hroot Hrt' Ho Ho1 HN HQ.
  inversion Hc as [|? ? m' ob' Hc' Hnode Hlr]; subst.
  assert (Hpar : wf m' ob' (plug f t)) by (apply wf_plug; done).
  assert (Hok : blk_ok (f_prefix f) ((f_left f).*1 ++ f_byte f :: (f_right f).*1)
      (ptrs (edge_addrs (f_left f) ++ p :: edge_addrs (f_right f)))).
  { pose proof (wf_blk_ok _ _ _ _ _ _ Hpar (wfc_le _ _ _ _ Hc')) as Hok.
    unfold edge_addrs in *. rewrite !fmap_app in Hok. exact Hok. }
  cbn [cblocks] in Ho1. rewrite <-eblocks_app in Ho1.
  unfold t in HN. rewrite length_focus in HN. cbn [cblocks] in HN. rewrite <-eblocks_app in HN.
  rewrite <-!app_comm_cons, <-!app_assoc in Ho1, HN. change (eblocks []) with (@nil (Z * list Z)) in HN.
  rewrite app_nil_l in HN. simpl in HN.
  apply wp_bind. eapply wp_edgecount; [apply owns_2 in Ho1; exact Ho1|exact Hok|].
  apply wp_bind. eapply wp_refcount; [apply owns_2 in Ho1; exact Ho1|apply Hnode|].
  destruct ((_ =? 2)%Z && _ && _) eqn:Econd.
  - bool_props. unfold node_neqb, node_eqb in *. bool_props.
    destruct C as [|g C]; [by rewrite Hroot in *|].
    assert (Htwo : length (f_left f ++ f_right f) = 1) by (len_simpl; simpl in *; lia).
    destruct (f_left f ++ f_right f) as [|[b' [c rc Pc esc]] [|]] eqn:Elr; [done| |done].
    change (eblocks [(b', T c rc Pc esc)]) with (blocks (T c rc Pc esc) ++ []) in *.
    rewrite app_nil_r in *. cbn [edge_of parent_of].
    eapply wp_erase_merge_parent; [exact Hc'|exact Hpar|exact Hroot|done|done|exact Elr|exact Ho1|lia|].
    intros h'. apply HQ.
  - apply (wp_erase_leaf N f C m' ob' p P L rt rt' h1 Q Hc' Hpar Hroot Hrt'); [|exact Ho1|lia|done].
    pose proof (ok_merged _ _ _ _ _ _ Hnode) as Hm. pose proof (ok_refs _ _ _ _ _ _ Hnode) as Hr.
    destruct ob' as [b'|]; [|done].
    assert (Hne : node_neqb (f_addr f) (root_ rt) = true).
    { unfold node_neqb, node_eqb. apply negb_true_iff, Z.eqb_neq. rewrite Hroot.
      inversion Hc' as [|g C' ? ? ? ? ?]; subst. apply (owns_root_ne h g C' (plug f t) L Ho). }
    rewrite Hne, andb_true_r in Econd. len_simpl.
    apply andb_false_iff in Econd as [E|E]; bool_props; simpl in *; lia.
Qed.

(** The key is at the current node. *)
Lemma wp_erase_found N f C m ob p r P es L rt h (Q : bool * radix_tree → heap → Prop) :
  let t := T p r P es in
  let root := taddr (plugs (f :: C) t) in
  wfc max_len (f :: C) m ob → wf m ob t → root_ rt = root → (0 < r)%Z →
  owns h (blocks (plugs (f :: C) t) ++ L) →
  length (blocks (plugs (f :: C) t) ++ L) + 2 ≤ N →
  (∀ rt' h', updated (plugs (f :: C) t) L (path (f :: C) ++ P) (-1) (u64 (size_ rt - 1)) rt' h' →
    Q (true, rt') h') →
  wp N (_ ← massert (node_neqb (f_addr f) p);
        _ ← set_refcount p (u32 (r - 1));
        let t' := decr_size rt in
        r' ← refcount p;
        if (0 <? r')%Z then mret (true, t')
        else
          outgoing_edges ← edgecount p;
          if (1 <? outgoing_edges)%Z then mret (true, t')
          else if (outgoing_edges =? 1)%Z
               then erase_merge_child t' (Z.of_nat (length (f_left f))) p (f_addr f)
          else
            pec ← edgecount (f_addr f);
            prc ← refcount (f_addr f);
            if (pec =? 2)%Z && (prc =? 0)%Z && node_neqb (f_addr f) (root_ rt)
            then erase_merge_parent t' (Z.of_nat (length (f_left f))) (Z.of_nat (edge_of C)) p (f_addr f) (parent_of C root)
            else erase_leaf t' outgoing_edges (Z.of_nat (length (f_left f))) (Z.of_nat (edge_of C)) p (f_addr f) (parent_of C root)) h Q.
Proof.
  intros t root Hc Ht Hroot Hr Ho HN HQ.
  pose proof (wf_blk_ok _ _ _ _ _ _ Ht (wfc_le _ _ _ _ Hc)) as Hok.
  inversion Ht as [? ? ? ? ? ? Hnode Hes]; subst. pose proof (ok_refs _ _ _ _ _ _ Hnode) as Hr32.
  pose proof (ok_head _ _ _ _ _ _ Hnode) as Hhd.
  assert (Hob : is_Some ob) by (by inversion Hc).
  pose proof (proj1 (owns_focus _ _ _ _ _ _ _) Ho) as Ho0.
  apply wp_bind, wp_massert.
  { apply negb_true_iff, Z.eqb_neq. apply (owns_parent_ne h f C t L Ho). }
  rewrite wrap_small by lia.
  apply wp_bind. eapply wp_set_refcount; [exact Ho0|]. intros h1 Ho1. cbn zeta.
  apply wp_bind. eapply wp_refcount; [exact Ho1|lia|].
  assert (Hcount : ((0 < r - 1)%Z ∨ 2 ≤ length es) → Q (true, decr_size rt) h1).
  { intros Hm. apply HQ. replace (-1)%Z with (r - 1 - r)%Z by lia.
    eapply (updated_count (f :: C) m ob p r P es L); [done|done|lia|done|done|done|exact Hroot|done|done]. }
  destruct (Z.ltb_spec 0 (r - 1)); [apply wp_ret, Hcount; by left|].
  apply wp_bind. eapply wp_edgecount; [exact Ho1|exact Hok|]. rewrite length_fmap.
  destruct (Z.ltb_spec 1 (Z.of_nat (length es))); [apply wp_ret, Hcount; right; lia|].
  assert (r = 1%Z) as -> by lia. unfold root, t in *. clear t root.
  destruct es as [|[b [c rc Pc esc]] [|]]; [| |simpl in *; lia].
  - apply (wp_erase_last N f C m ob p P L rt (decr_size rt) h h1); [done..|exact Ho1|done|done].
  - eapply (wp_erase_merge_child N (f :: C) m ob p P b c rc Pc esc L rt (decr_size rt) h);
      [done..| |done| |by intros h'; apply HQ].
    + destruct Hob as [b0 ->]. by destruct P.
    + change (eblocks [(b, T c rc Pc esc)]) with (blocks (T c rc Pc esc) ++ []) in Ho1.
      rewrite app_nil_r in Ho1. exact Ho1.
Qed.

Lemma wp_erase N t rt key h L (Q : bool * radix_tree → heap → Prop) :
  owns h (blocks t ++ L) → wf max_len None t → root_ rt = taddr t → key ≠ [] →
  length (blocks t ++ L) + 2 ≤ N →
  (cnt t key = 0%Z → Q (false, rt) h) →
  ((0 < cnt t key)%Z → ∀ rt' h', updated t L key (-1) (u64 (size_ rt - 1)) rt' h' →
    Q (true, rt') h') →
  wp N (erase rt (key ++ [0%Z]) (Z.of_nat (length key))) h Q.
Proof.
  intros Ho Hwf Hroot Hkey HN HQ0 HQ.
  apply wp_bind. eapply wp_match; [done..|]. intros C t' k <- <- (Hk & Hst & m & ob & Hc & Ht & Hhd).
  rewrite (cnt_plugs _ _ _ _ _ _ Hc Hhd) in HQ0, HQ. destruct t' as [p r P es].
  pose proof (wf_blk_ok _ _ _ _ _ _ Ht (wfc_le _ _ _ _ Hc)) as Hok.
  pose proof (proj1 (owns_focus _ _ _ _ _ _ _) Ho) as Ho0.
  pose proof Ht as Ht0. inversion_clear Ht0 as [? ? ? ? ? ? Hnode _].
  unfold found, mres. cbn [nkey nprefix edge_index current_node parent_node tprefix taddr
    gp_edge_index grandparent_node].
  apply wp_bind. eapply wp_prefix_length; [done..|].
  apply wp_bind. eapply wp_refcount; [done|apply Hnode|].
  unfold stops in Hst. cbn [tprefix tedges] in Hst.
  destruct (lcp_cases P k) as [P|P b k|P1 b2 P2|P1 b2 P2 b k Hb].
  - rewrite cnt_exact in HQ0, HQ. rewrite length_app, !Z.eqb_refl. cbn [negb orb].
    pose proof (ok_refs _ _ _ _ _ _ Hnode).
    destruct (Z.eqb_spec r 0) as [Hr|Hr]; [by apply wp_ret, HQ0|].
    destruct (wfc_cases _ _ _ _ Hc (ok_head _ _ _ _ _ _ Hnode)) as [(_ & HP0 & _)|(f & C' & -> & _)]; [done|].
    apply (wp_erase_found N f C' m ob p r P es L rt h Q); [done..|lia|done|done|]. apply HQ. lia.
  - rewrite (proj2 (Z.eqb_neq _ _)) by (len_simpl; simpl; lia). apply wp_ret, HQ0.
    apply cnt_no_edge, Hst; [done|by rewrite drop_app_length].
  - rewrite length_app, Z.eqb_refl, (proj2 (Z.eqb_neq _ _)) by (len_simpl; simpl; lia).
    apply wp_ret, HQ0. apply cnt_key_ends.
  - rewrite (proj2 (Z.eqb_neq _ (Z.of_nat (length (path C ++ P1 ++ b :: k))))) by (len_simpl; simpl; lia).
    apply wp_ret, HQ0. by apply cnt_differ.
Qed.

Lemma wp_contains N t rt key h L (Q : bool → heap → Prop) :
  owns h (blocks t ++ L) → wf max_len None t → root_ rt = taddr t → key ≠ [] →
  Q (bool_decide (cnt t key ≠ 0%Z)) h →
  wp N (contains rt (key ++ [0%Z]) (Z.of_nat (length key))) h Q.
Proof.
  intros Ho Hwf Hroot Hkey HQ.
  apply wp_bind. eapply wp_match; [done..|]. intros C t' k <- <- (Hk & Hst & m & ob & Hc & Ht & Hhd).
  rewrite (cnt_plugs _ _ _ _ _ _ Hc Hhd) in HQ. destruct t' as [p r P es].
  pose proof (wf_blk_ok _ _ _ _ _ _ Ht (wfc_le _ _ _ _ Hc)) as Hok.
  pose proof (proj1 (owns_focus _ _ _ _ _ _ _) Ho) as Ho0.
  pose proof Ht as Ht0. inversion_clear Ht0 as [? ? ? ? ? ? Hnode _].
  unfold found, mres. cbn [nkey nprefix current_node tprefix taddr].
  apply wp_bind. eapply wp_prefix_length; [done..|].
  apply wp_bind. eapply wp_refcount; [done|apply Hnode|]. apply wp_ret.
  unfold stops in Hst. cbn [tprefix tedges] in Hst.
  destruct (lcp_cases P k) as [P|P b k|P1 b2 P2|P1 b2 P2 b k Hb].
  - rewrite cnt_exact in HQ. rewrite length_app, !Z.eqb_refl. cbn [andb].
    replace (negb (r =? 0)%Z) with (bool_decide (r ≠ 0%Z)); [done|].
    destruct (Z.eqb_spec r 0); [by rewrite bool_decide_eq_false_2 by auto|by rewrite bool_decide_eq_true_2].
  - rewrite cnt_no_edge in HQ by (apply Hst; [done|by rewrite drop_app_length]).
    by rewrite (proj2 (Z.eqb_neq _ _)) by (len_simpl; simpl; lia).
  - rewrite cnt_key_ends in HQ.
    by rewrite length_app, Z.eqb_refl, (proj2 (Z.eqb_neq _ _)) by (len_simpl; simpl; lia).
  - rewrite cnt_differ in HQ by done.
    by rewrite (proj2 (Z.eqb_neq _ (Z.of_nat (length (path C ++ P1 ++ b :: k))))) by (len_simpl; simpl; lia).
Qed.
End erase.
