(* ===== verification/RadixWalk.v ===== *)
(** * Traversals: [apply], the destructor, and the number of nodes

    [visit_keys] calls back once for every stored key, [free_nodes] releases
    exactly the blocks of the tree, and a well-formed tree has at most two nodes
    per stored key besides the root. *)

From S2P Require Import Prelude CMemory RadixNode RadixTree RadixBlocks RadixShape RadixCount RadixMatch RadixInsert.
From Stdlib Require Import ZArith Lia.

(** ** The keys of a tree, in the order of the traversal *)

Fixpoint tkeys (buffer : list Z) (t : tree) : list (list Z) :=
  match t with
  | T _ r P es =>
      (if (0 <? r)%Z then [buffer ++ P] else []) ++
      (fix go es := match es with [] => [] | e :: es => tkeys (buffer ++ P) e.2 ++ go es end) es
  end.

Definition ekeys (buffer : list Z) (es : list (Z * tree)) : list (list Z) :=
  es ≫= λ e, tkeys buffer e.2.

Lemma tkeys_eq buffer p r P es :
  tkeys buffer (T p r P es) =
  (if (0 <? r)%Z then [buffer ++ P] else []) ++ ekeys (buffer ++ P) es.
Proof.
  cbn [tkeys]. apply (f_equal (app _)). unfold ekeys. generalize (buffer ++ P); intros buf.
  induction es as [|e es IH]; [done|]. simpl. by rewrite IH.
Qed.

Lemma eblocks_cons e es : eblocks (e :: es) = blocks e.2 ++ eblocks es.
Proof. done. Qed.

Lemma elookup_cnt_elem m b k es :
  NoDup es.*1 → Forall (λ e, wf m (Some e.1) e.2) es →
  from_option (λ c, cnt c (b :: k)) 0%Z (elookup b es) ≠ 0%Z ↔
  ∃ e, e ∈ es ∧ cnt e.2 (b :: k) ≠ 0%Z.
Proof.
  intros Hnd Hes. split.
  - destruct (elookup b es) as [c|] eqn:E; simpl; [|done]. intros Hc.
    exists (b, c). split; [by apply elookup_Some_in|done].
  - intros ([b' c] & Hin & Hc). simpl in Hc.
    assert (b' = b) as ->; [|by rewrite (elookup_in _ _ _ Hnd Hin)].
    rewrite Forall_forall in Hes. specialize (Hes _ Hin). simpl in Hes.
    inversion Hes as [? ? ? ? P ? Hok _]; subst. pose proof (ok_head _ _ _ _ _ _ Hok) as Hhd.
    rewrite cnt_eq in Hc. destruct P as [|b0 P]; [done|]. injection Hhd as ->.
    simpl in Hc. by case_bool_decide.
Qed.

Lemma cnt_nil m b t : wf m (Some b) t → cnt t [] = 0%Z.
Proof.
  inversion 1 as [? ? ? ? P ? Hok _]; subst. rewrite cnt_eq.
  pose proof (ok_head _ _ _ _ _ _ Hok). by destruct P.
Qed.

Lemma tkeys_spec t : ∀ m ob buffer k,
  wf m ob t → k ∈ tkeys buffer t ↔ ∃ k', k = buffer ++ k' ∧ cnt t k' ≠ 0%Z.
Proof.
  induction t as [p r P es IH] using tree_ind. intros m ob buffer k Hw.
  inversion Hw as [? ? ? ? ? ? Hok Hes]; subst.
  rewrite tkeys_eq, elem_of_app. unfold ekeys. rewrite list_elem_of_bind.
  pose proof (ok_refs _ _ _ _ _ _ Hok) as Hr.
  assert (Hsub : (∃ e, k ∈ tkeys (buffer ++ P) e.2 ∧ e ∈ es) ↔
                 ∃ e k', e ∈ es ∧ k = buffer ++ P ++ k' ∧ cnt e.2 k' ≠ 0%Z).
  { rewrite Forall_forall in IH, Hes. split.
    - intros (e & Hk & He). apply (IH e He _ _ _ _ (Hes e He)) in Hk as (k' & -> & Hc).
      exists e, k'. by rewrite app_assoc.
    - intros (e & k' & He & -> & Hc). exists e. split; [|done].
      apply (IH e He _ _ _ _ (Hes e He)). exists k'. by rewrite app_assoc. }
  rewrite Hsub. clear Hsub. split.
  - intros [Hk|(e & k' & He & -> & Hc)].
    + destruct (Z.ltb_spec 0 r); [|by apply not_elem_of_nil in Hk].
      apply list_elem_of_singleton in Hk as ->. exists P. rewrite cnt_exact. split; [done|lia].
    + exists (P ++ k'). split; [done|]. rewrite cnt_eq, strip_app.
      destruct k' as [|b k'].
      * rewrite Forall_forall in Hes. specialize (Hes e He).
        destruct e as [b c]. simpl in *. destruct Hc. by eapply cnt_nil.
      * eapply elookup_cnt_elem; [apply Hok|exact Hes|]. by exists e.
  - intros (k' & -> & Hc). rewrite cnt_eq in Hc. destruct (strip P k') as [[|b k2]|] eqn:E; [| |done].
    + left. apply strip_Some in E as ->. rewrite app_nil_r.
      rewrite (proj2 (Z.ltb_lt 0 r)) by lia. by apply list_elem_of_singleton.
    + right. apply strip_Some in E as ->.
      eapply elookup_cnt_elem in Hc as (e & He & Hc); [|apply Hok|exact Hes].
      by exists e, (b :: k2).
Qed.

Lemma cnt_head m b t k : wf m (Some b) t → cnt t k ≠ 0%Z → head k = Some b.
Proof.
  inversion 1 as [? ? ? ? P ? Hok _]; subst. rewrite cnt_eq.
  pose proof (ok_head _ _ _ _ _ _ Hok) as Hhd. destruct P as [|b' P]; [done|].
  injection Hhd as ->. destruct k; simpl; [done|]. case_bool_decide; [by subst|done].
Qed.

(** The keys below an edge start with the edge's byte. *)
Lemma tkeys_head m b c buffer k :
  wf m (Some b) c → k ∈ tkeys buffer c → ∃ k', k = buffer ++ b :: k'.
Proof.
  intros Hw Hk. eapply tkeys_spec in Hk as (k' & -> & Hc); [|done].
  eapply cnt_head in Hc; [|done]. destruct k' as [|b' k']; [done|].
  injection Hc as ->. by exists k'.
Qed.

Lemma ekeys_head m buffer es k :
  Forall (λ e, wf m (Some e.1) e.2) es → k ∈ ekeys buffer es →
  ∃ b k', b ∈ es.*1 ∧ k = buffer ++ b :: k'.
Proof.
  intros Hes (e & Hk & He)%list_elem_of_bind. rewrite Forall_forall in Hes.
  destruct (tkeys_head _ _ _ _ _ (Hes e He) Hk) as (k' & ->).
  exists e.1, k'. split; [|done]. apply list_elem_of_fmap. by exists e.
Qed.

Lemma ekeys_nodup m buffer es :
  Forall (λ e, ∀ m ob buffer, wf m ob e.2 → NoDup (tkeys buffer e.2)) es →
  Forall (λ e, wf m (Some e.1) e.2) es → NoDup es.*1 → NoDup (ekeys buffer es).
Proof.
  induction es as [|e es IH]; intros Hk Hes Hnd; [constructor|].
  apply Forall_cons in Hk as [Hk1 Hk], Hes as [Hes1 Hes].
  rewrite fmap_cons, NoDup_cons in Hnd. destruct Hnd as [Hb Hnd].
  change (ekeys buffer (e :: es)) with (tkeys buffer e.2 ++ ekeys buffer es).
  apply NoDup_app. split; [by eapply Hk1|]. split; [|by apply IH].
  intros k H1 H2. destruct (tkeys_head _ _ _ _ _ Hes1 H1) as (k1 & ->).
  destruct (ekeys_head _ _ _ _ Hes H2) as (b & k2 & Hin & E).
  apply app_inv_head in E. injection E as <- _. done.
Qed.

(** No key is visited twice. *)
Lemma tkeys_nodup t : ∀ m ob buffer, wf m ob t → NoDup (tkeys buffer t).
Proof.
  induction t as [p r P es IH] using tree_ind. intros m ob buffer Hw.
  inversion Hw as [? ? ? ? ? ? Hok Hes]; subst. rewrite tkeys_eq. apply NoDup_app. split_and!.
  - destruct (0 <? r)%Z; [apply NoDup_singleton|constructor].
  - intros k Hk Hk'. destruct (0 <? r)%Z; [|by apply not_elem_of_nil in Hk].
    apply list_elem_of_singleton in Hk as ->.
    apply (ekeys_head _ _ _ _ Hes) in Hk' as (b & k' & _ & E).
    apply (f_equal length) in E. rewrite !length_app in E. simpl in E. lia.
  - eapply ekeys_nodup; [exact IH|exact Hes|apply Hok].
Qed.

(** ** The number of nodes *)

Lemma length_eblocks m buffer es :
  Forall (λ e, ∀ m b buffer, wf m (Some b) e.2 →
    S (length (blocks e.2)) ≤ 2 * length (tkeys buffer e.2)) es →
  Forall (λ e, wf m (Some e.1) e.2) es →
  length (eblocks es) + length es ≤ 2 * length (ekeys buffer es).
Proof.
  induction es as [|e es IH]; intros Hk Hes; [done|].
  apply Forall_cons in Hk as [Hk1 Hk], Hes as [Hes1 Hes].
  change (ekeys buffer (e :: es)) with (tkeys buffer e.2 ++ ekeys buffer es).
  rewrite eblocks_cons, !length_app. specialize (IH Hk Hes).
  specialize (Hk1 _ _ buffer Hes1). simpl. lia.
Qed.

Lemma length_blocks t : ∀ m b buffer,
  wf m (Some b) t → S (length (blocks t)) ≤ 2 * length (tkeys buffer t).
Proof.
  induction t as [p r P es IH] using tree_ind. intros m b buffer Hw.
  inversion Hw as [? ? ? ? ? ? Hok Hes]; subst.
  pose proof (length_eblocks _ (buffer ++ P) _ IH Hes) as He.
  rewrite tkeys_eq, blocks_eq, length_app. simpl.
  pose proof (ok_merged _ _ _ _ _ _ Hok) as Hm. simpl in Hm. rewrite length_fmap in Hm.
  destruct (Z.ltb_spec 0 r); simpl; lia.
Qed.

(** A tree has at most two nodes per key, and the root. *)
Lemma length_blocks_root m t : wf m None t → length (blocks t) ≤ 2 * length (tkeys [] t) + 1.
Proof.
  inversion 1 as [? ? p r P es Hok Hes]; subst. rewrite tkeys_eq, blocks_eq, length_app. simpl.
  pose proof (ok_merged _ _ _ _ _ _ Hok) as Hm. simpl in Hm. subst r. simpl.
  enough (length (eblocks es) + length es ≤ 2 * length (ekeys P es)) by lia.
  eapply length_eblocks; [|exact Hes]. apply Forall_forall. intros e _. apply length_blocks.
Qed.

(** ** The loops *)

Section walk.
Context `{!Allocator}.
Implicit Types (h : heap) (L R : list (Z * list Z)).

(** The loop over the edges with an invariant on the edges done. *)
Lemma wp_for_edges {St} N (body : St → node → M St) p r P es1 es2 s h
    (I : list (Z * tree) → St → heap → Prop) (Q : St → heap → Prop) :
  let es := es1 ++ es2 in
  blk_ok P es.*1 (ptrs (edge_addrs es)) → Forall is_addr (edge_addrs es) →
  (∀ es1 s h, I es1 s h → ∃ R, owns h ((p, blk r P es.*1 (ptrs (edge_addrs es))) :: R)) →
  (∀ es1 e es2 s h, es = es1 ++ e :: es2 → I es1 s h →
    wp N (body s (taddr e.2)) h (λ s' h', I (es1 ++ [e]) s' h')) →
  I es1 s h → (∀ s' h', I es s' h' → Q s' h') →
  wp N (for_edges body p (length es2) (Z.of_nat (length es1)) s) h Q.
Proof.
  revert es1 s h. induction es2 as [|e es2 IH]; intros es1 s h es Hok Has Hown Hbody HI HQ.
  - apply wp_ret. apply HQ. unfold es. by rewrite app_nil_r.
  - cbn [length for_edges]. apply wp_bind. destruct (Hown _ _ _ HI) as [R Ho].
    assert (Hl : edge_addrs es !! length es1 = Some (taddr e.2)).
    { unfold es, edge_addrs. rewrite !fmap_app, !fmap_cons. apply list_lookup_middle.
      by rewrite !length_fmap. }
    eapply wp_node_at; [exact Ho|exact Hok|exact Hl| |].
    { pose proof (Forall_lookup_1 _ _ _ _ Has Hl) as Ha. unfold is_addr in Ha. lia. }
    apply wp_bind. eapply wp_mono; [by apply (Hbody es1 e es2)|]. intros s' h' HI'.
    replace (Z.of_nat (length es1) + 1)%Z with (Z.of_nat (length (es1 ++ [e]))) by (len_simpl; simpl; lia).
    assert (E : (es1 ++ [e]) ++ es2 = es) by (unfold es; by rewrite <-app_assoc).
    apply IH; rewrite ?E; done.
Qed.

(** [free_nodes] releases the blocks of the tree and nothing else. *)
Lemma wp_free_nodes N t : ∀ m ob fuel h L (Q : unit → heap → Prop),
  wf m ob t → (m ≤ max_len)%Z → owns h (blocks t ++ L) → length (blocks t) ≤ fuel →
  (∀ h', owns h' L → Q tt h') → wp N (free_nodes fuel tt (taddr t)) h Q.
Proof.
  induction t as [p r P es IH] using tree_ind. intros m ob fuel h L Q Hw Hm Ho Hf HQ.
  rewrite blocks_eq in Ho, Hf. destruct fuel as [|fuel]; simpl in Hf; [lia|].
  pose proof (wf_blk_ok _ _ _ _ _ _ Hw Hm) as Hok.
  inversion Hw as [? ? ? ? ? ? _ Hes]; subst. cbn [free_nodes taddr].
  apply wp_bind. eapply wp_edgecount; [exact Ho|done|]. rewrite length_fmap, Nat2Z.id.
  set (B := (p, blk r P es.*1 (ptrs (edge_addrs es)))) in *.
  apply wp_bind. eapply (wp_for_edges N _ p r P [] es tt h
    (λ es1 _ h, ∃ es2, es = es1 ++ es2 ∧ owns h (B :: eblocks es2 ++ L))); [done| | | | |].
  - by eapply wf_edge_addrs.
  - intros es1 [] h1 (es2 & _ & Ho1). eauto.
  - intros es1 e es2 [] h1 E (es2' & E' & Ho1). simpl in E. rewrite E in E'.
    apply app_inv_head in E' as <-. rewrite eblocks_cons in Ho1.
    rewrite Forall_forall in IH, Hes. assert (He : e ∈ es) by (rewrite E; set_solver).
    eapply (IH e He _ _ _ _ (B :: eblocks es2 ++ L)); [by apply Hes|lia| | |].
    + eapply owns_proper; [|exact Ho1]. solve_Permutation.
    + rewrite E, eblocks_app, eblocks_cons in Hf. len_simpl. lia.
    + intros h' Ho'. exists es2. by rewrite <-app_assoc.
  - by exists es.
  - intros [] h1 (es2 & E & Ho1). simpl in E. rewrite <-(app_nil_r es) in E at 1.
    apply app_inv_head in E as <-. eapply wp_free; [exact Ho1|]. exact HQ.
Qed.

(** [visit_keys] calls back with the keys below the node and restores the buffer. *)
Lemma wp_visit_keys N t : ∀ m ob fuel calls buffer h L (Q : list (list Z) * list Z → heap → Prop),
  wf m ob t → (m ≤ max_len)%Z → owns h (blocks t ++ L) → length (blocks t) ≤ fuel →
  Q (calls ++ tkeys buffer t, buffer) h → wp N (visit_keys fuel (calls, buffer) (taddr t)) h Q.
Proof.
  induction t as [p r P es IH] using tree_ind. intros m ob fuel calls buffer h L Q Hw Hm Ho Hf HQ.
  rewrite blocks_eq in Ho, Hf. destruct fuel as [|fuel]; simpl in Hf; [lia|].
  pose proof (wf_blk_ok _ _ _ _ _ _ Hw Hm) as Hok.
  inversion Hw as [? ? ? ? ? ? Hnode Hes]; subst. cbn [visit_keys taddr fst snd].
  apply wp_bind. eapply wp_prefix_length; [exact Ho|done|].
  apply wp_bind. eapply (wp_load_prefix_from _ _ _ _ _ _ _ 0); [exact Ho|lia|by rewrite Nat.sub_0_r|].
  rewrite drop_0. apply wp_bind. eapply wp_refcount; [exact Ho|apply Hnode|].
  apply wp_bind. eapply wp_edgecount; [exact Ho|done|]. rewrite length_fmap, Nat2Z.id.
  set (calls0 := if (0 <? r)%Z then calls ++ [buffer ++ P] else calls).
  apply wp_bind. eapply (wp_for_edges N _ p r P [] es _ h
    (λ es1 s h1, s = (calls0 ++ ekeys (buffer ++ P) es1, buffer ++ P) ∧ h1 = h)); [done| | | | |].
  - by eapply wf_edge_addrs.
  - intros es1 s h1 [_ ->]. eauto.
  - intros es1 e es2 s h1 E [-> ->]. simpl in E.
    rewrite Forall_forall in IH, Hes. assert (He : e ∈ es) by (rewrite E; set_solver).
    rewrite E, eblocks_app, eblocks_cons in Ho, Hf.
    eapply (IH e He); [by apply Hes|lia| |len_simpl; lia|].
    + eapply owns_proper; [|exact Ho].
      instantiate (1 := (p, blk r P (es1 ++ e :: es2).*1 (ptrs (edge_addrs (es1 ++ e :: es2))))
                          :: eblocks es1 ++ eblocks es2 ++ L).
      solve_Permutation.
    + split; [|done]. unfold ekeys. rewrite bind_app. simpl. by rewrite app_nil_r, app_assoc.
  - split; [|done]. by rewrite app_nil_r.
  - intros s h1 [-> ->]. simpl. apply wp_bind. eapply wp_prefix_length; [exact Ho|done|].
    apply wp_ret. rewrite Nat2Z.id, length_app.
    replace (length buffer + length P - length P) with (length buffer) by lia.
    rewrite take_app_length. rewrite tkeys_eq in HQ. unfold calls0.
    destruct (0 <? r)%Z; [|done]. by rewrite <-app_assoc.
Qed.
End walk.
