(* ===== verification/RadixBag.v ===== *)
(** * The radix tree as a multiset of keys

    [repr L rt X h]: the heap holds the nodes of the tree object [rt] and the
    other blocks [L], and the tree stores the keys of [X] with their
    multiplicities.  [KeyBag] is the interface a client of the tree works
    against; the radix tree implements it for every allocator, and any sequence
    of operations returns what the multiset specification says. *)

From S2P Require Import Prelude CMemory RadixNode RadixTree RadixBlocks RadixShape RadixCount RadixMatch RadixInsert RadixErase RadixWalk.
From stdpp Require Import gmultiset.
From Stdlib Require Import ZArith Lia.

Abbreviation bag := (gmultiset (list Z)).

(** Keys that a caller may pass: C strings, not empty, of 32-bit length. *)
Definition valid_key (key : list Z) : Prop :=
  key ≠ [] ∧ Forall key_byte key ∧ (Z.of_nat (length key) ≤ max_len)%Z.

(** The buffer a caller passes for a key, and its length. *)
Definition c_str (key : list Z) : list Z := key ++ [0%Z].
Definition klen (key : list Z) : Z := Z.of_nat (length key).

Definition counts (t : tree) (X : bag) : Prop := ∀ k, cnt t k = Z.of_nat (multiplicity k X).

Definition repr (L : list (Z * list Z)) (rt : radix_tree) (X : bag) (h : heap) : Prop :=
  ∃ t, owns h (blocks t ++ L) ∧ wf max_len None t ∧ root_ rt = taddr t ∧
       counts t X ∧ size_ rt = Z.of_nat (base.size X).

(** ** The interface *)

(** A store of keys with multiplicities in the heap.  [N] bounds the number of
    blocks up to which the allocator has to find room. *)
Class KeyBag `{!Allocator} (St : Type) := {
  kb_rep : list (Z * list Z) → St → bag → heap → Prop;
  kb_new : M St;
  kb_insert : St → list Z → M (bool * St);
  kb_erase : St → list Z → M (bool * St);
  kb_contains : St → list Z → M bool;
  kb_size : St → Z;
  kb_new_spec N L h : owns h L → length L ≤ N → wp N kb_new h (λ s h', kb_rep L s ∅ h');
  kb_insert_spec N L s X h key :
    kb_rep L s X h → valid_key key → (Z.of_nat (size X) + 1 < 2 ^ 32)%Z → size h + 2 ≤ N →
    wp N (kb_insert s key) h (λ r h',
      r.1 = bool_decide (key ∉ X) ∧ kb_rep L r.2 ({[+ key +]} ⊎ X) h');
  kb_erase_spec N L s X h key :
    kb_rep L s X h → valid_key key → (Z.of_nat (size X) < 2 ^ 64)%Z → size h + 2 ≤ N →
    wp N (kb_erase s key) h (λ r h',
      r.1 = bool_decide (key ∈ X) ∧ kb_rep L r.2 (X ∖ {[+ key +]}) h');
  kb_contains_spec N L s X h key :
    kb_rep L s X h → valid_key key →
    wp N (kb_contains s key) h (λ b h', b = bool_decide (key ∈ X) ∧ h' = h);
  kb_size_spec L s X h : kb_rep L s X h → kb_size s = Z.of_nat (size X);
  kb_space L s X h : kb_rep L s X h → size h ≤ 2 * size X + 1 + length L;
}.

(** ** The tree implements it *)

Lemma multiplicity_le_size (X : bag) k : multiplicity k X ≤ size X.
Proof.
  assert (H : multiplicity k X *: {[+ k +]} ⊆ X).
  { intros k'. rewrite multiplicity_scalar_mul, multiplicity_singleton.
    case_decide; [subst|]; lia. }
  apply gmultiset_subseteq_size in H.
  rewrite gmultiset_size_scalar_mul, gmultiset_size_singleton in H. lia.
Qed.

Lemma counts_elem t X k : counts t X → cnt t k ≠ 0%Z ↔ k ∈ X.
Proof. intros Hc. rewrite Hc. rewrite elem_of_multiplicity. lia. Qed.

(** One more and one less occurrence of a key. *)
Lemma counts_insert t t' X key :
  counts t X → adds t t' key 1 → counts t' ({[+ key +]} ⊎ X).
Proof.
  intros Hc Ha k. rewrite Ha, Hc, multiplicity_disj_union. unfold at_key.
  rewrite multiplicity_singleton. repeat case_decide; lia || done.
Qed.

Lemma counts_erase t t' X key :
  counts t X → adds t t' key (-1) → key ∈ X → counts t' (X ∖ {[+ key +]}).
Proof.
  intros Hc Ha Hin k. rewrite Ha, Hc, multiplicity_difference. unfold at_key.
  rewrite elem_of_multiplicity in Hin. rewrite multiplicity_singleton.
  repeat case_decide; subst; lia || done.
Qed.

Section refinement.
Context `{!Allocator}.
Implicit Types (h : heap) (L : list (Z * list Z)) (X : bag).

Lemma repr_size h t L : owns h (blocks t ++ L) → size h = length (blocks t ++ L).
Proof. apply owns_size. Qed.

Lemma new_tree_wp N L h :
  owns h L → length L ≤ N → wp N new_tree h (λ rt h', repr L rt ∅ h').
Proof.
  intros Ho HN. apply wp_bind. eapply (wp_make_node N 0 0 0); [exact Ho|done|lia|done|done|].
  intros p P F D h' Hp HP HF Hok Ho'. apply wp_ret. pose proof Hok as (_ & _ & HD).
  destruct P, F; [|done..]. destruct D; [|done].
  exists (T p 0 [] []). split_and!; [exact Ho'| |done| |done].
  - constructor; [|done]. constructor; [done|lia|done|done|constructor|done|done].
  - intros k. rewrite cnt_eq. simpl. rewrite multiplicity_empty. by destruct k.
Qed.

Lemma insert_wp N L rt X h key :
  repr L rt X h → valid_key key → (Z.of_nat (multiplicity key X) + 1 < 2 ^ 32)%Z →
  (Z.of_nat (size X) + 1 < 2 ^ 64)%Z → size h + 2 ≤ N →
  wp N (RadixTree.insert rt (c_str key) (klen key)) h (λ r h',
    r.1 = bool_decide (key ∉ X) ∧ repr L r.2 ({[+ key +]} ⊎ X) h').
Proof.
  intros (t & Ho & Hw & Hr & Hc & Hs) (Hk & Hb & Hl) Hmul Hsz HN.
  rewrite (repr_size _ _ _ Ho) in HN.
  eapply wp_insert; [done..|rewrite Hc; lia|done|].
  intros rt' h' (t' & Ho' & Hw' & Hr' & Ha & Hs'). simpl. split.
  - apply bool_decide_ext. rewrite <-(counts_elem _ _ _ Hc). lia.
  - exists t'. split_and!; [done..|by eapply counts_insert|].
    rewrite Hs', Hs, gmultiset_size_disj_union, gmultiset_size_singleton, wrap_small; lia.
Qed.

Lemma erase_wp N L rt X h key :
  repr L rt X h → valid_key key → (Z.of_nat (size X) < 2 ^ 64)%Z → size h + 2 ≤ N →
  wp N (erase rt (c_str key) (klen key)) h (λ r h',
    r.1 = bool_decide (key ∈ X) ∧ repr L r.2 (X ∖ {[+ key +]}) h').
Proof.
  intros (t & Ho & Hw & Hr & Hc & Hs) (Hk & Hb & Hl) Hsz HN.
  rewrite (repr_size _ _ _ Ho) in HN. eapply wp_erase; [done..| |].
  - intros H0. assert (key ∉ X) by (rewrite <-(counts_elem _ _ _ Hc); lia). simpl. split.
    + by rewrite bool_decide_eq_false_2.
    + replace (X ∖ {[+ key +]}) with X by multiset_solver. by exists t.
  - intros H0. assert (Hin : key ∈ X) by (rewrite <-(counts_elem _ _ _ Hc); lia).
    intros rt' h' (t' & Ho' & Hw' & Hr' & Ha & Hs'). simpl. split.
    + by rewrite bool_decide_eq_true_2.
    + exists t'. split_and!; [done..|by eapply counts_erase|].
      assert (Hsub : {[+ key +]} ⊆ X) by multiset_solver.
      pose proof (gmultiset_subseteq_size _ _ Hsub) as Hle.
      rewrite gmultiset_size_singleton in Hle.
      rewrite Hs', Hs, gmultiset_size_difference, gmultiset_size_singleton by done.
      rewrite wrap_small; lia.
Qed.

Lemma contains_wp N L rt X h key :
  repr L rt X h → valid_key key →
  wp N (contains rt (c_str key) (klen key)) h (λ b h', b = bool_decide (key ∈ X) ∧ h' = h).
Proof.
  intros (t & Ho & Hw & Hr & Hc & Hs) (Hk & Hb & Hl). eapply wp_contains; [done..|].
  split; [|done]. apply bool_decide_ext. by apply counts_elem.
Qed.

Lemma repr_keys t X : wf max_len None t → counts t X → ∀ k, k ∈ tkeys [] t ↔ k ∈ X.
Proof.
  intros Hw Hc k. rewrite (tkeys_spec _ _ _ _ _ Hw). setoid_rewrite (counts_elem _ _ _ Hc).
  split; [by intros (k' & -> & ?)|]. intros. by exists k.
Qed.

Lemma repr_space L rt X h : repr L rt X h → size h ≤ 2 * size X + 1 + length L.
Proof.
  intros (t & Ho & Hw & Hr & Hc & Hs). rewrite (repr_size _ _ _ Ho), length_app.
  pose proof (length_blocks_root _ _ Hw).
  assert (Hle : length (tkeys [] t) ≤ length (elements X)).
  { apply submseteq_length, NoDup_submseteq; [by eapply tkeys_nodup|].
    intros k Hk. by apply gmultiset_elem_of_elements, (repr_keys t X Hw Hc). }
  unfold size, gmultiset_size in *. simpl in *. lia.
Qed.

(** The radix tree is a [KeyBag]. *)
#[global] Program Instance radix_bag : KeyBag radix_tree := {|
  kb_rep := repr;
  kb_new := new_tree;
  kb_insert rt key := RadixTree.insert rt (c_str key) (klen key);
  kb_erase rt key := erase rt (c_str key) (klen key);
  kb_contains rt key := contains rt (c_str key) (klen key);
  kb_size := RadixTree.size;
|}.
Next Obligation. intros. by apply new_tree_wp. Qed.
Next Obligation.
  intros. pose proof (multiplicity_le_size X key). apply insert_wp; [done..|lia|lia|done].
Qed.
Next Obligation. intros. by apply erase_wp. Qed.
Next Obligation. intros. by eapply contains_wp. Qed.
Next Obligation. by intros L s X h (t & _ & _ & _ & _ & Hs). Qed.
Next Obligation. intros. by eapply repr_space. Qed.
End refinement.
