(* ===== verification/RadixClient.v ===== *)
(** * Clients of the radix tree

    Sequences of operations on a key store, proved against the interface
    [KeyBag], and the theorems about the tree itself: what each operation does to
    the stored multiset, that the destructor gives back every block, and what
    happens when a key is not followed by a NUL byte. *)

From S2P Require Import Prelude CMemory RadixNode RadixTree RadixBlocks RadixShape RadixCount RadixMatch RadixInsert RadixErase RadixWalk RadixBag.
From stdpp Require Import gmultiset.
From Stdlib Require Import ZArith Lia.

Inductive op :=
  | OpInsert (key : list Z)
  | OpErase (key : list Z)
  | OpContains (key : list Z)
  | OpSize.

Inductive answer := ABool (b : bool) | ASize (n : Z).

Definition valid_op (o : op) : Prop :=
  match o with
  | OpInsert key | OpErase key | OpContains key => valid_key key
  | OpSize => True
  end.

(** ** What the operations mean *)

Definition spec_op (X : bag) (o : op) : answer * bag :=
  match o with
  | OpInsert key => (ABool (bool_decide (key ∉ X)), {[+ key +]} ⊎ X)
  | OpErase key => (ABool (bool_decide (key ∈ X)), X ∖ {[+ key +]})
  | OpContains key => (ABool (bool_decide (key ∈ X)), X)
  | OpSize => (ASize (Z.of_nat (size X)), X)
  end.

Fixpoint spec_ops (X : bag) (os : list op) : list answer * bag :=
  match os with
  | [] => ([], X)
  | o :: os => let '(a, X) := spec_op X o in let '(l, X) := spec_ops X os in (a :: l, X)
  end.

(** ** Running them on a key store *)

Section client.
Context `{!Allocator} {St : Type} `{!KeyBag St}.

Definition run_op (s : St) (o : op) : M (answer * St) :=
  match o with
  | OpInsert key => '(b, s) ← kb_insert s key; mret (ABool b, s)
  | OpErase key => '(b, s) ← kb_erase s key; mret (ABool b, s)
  | OpContains key => b ← kb_contains s key; mret (ABool b, s)
  | OpSize => mret (ASize (kb_size s), s)
  end.

Fixpoint run_ops (s : St) (os : list op) : M (list answer * St) :=
  match os with
  | [] => mret ([], s)
  | o :: os => '(a, s) ← run_op s o; '(l, s) ← run_ops s os; mret (a :: l, s)
  end.

Lemma spec_op_size X o : size (spec_op X o).2 ≤ size X + 1.
Proof.
  destruct o; simpl.
  - rewrite gmultiset_size_disj_union, gmultiset_size_singleton. lia.
  - assert (Hsub : X ∖ {[+ key +]} ⊆ X) by multiset_solver.
    apply gmultiset_subseteq_size in Hsub. lia.
  - lia.
  - lia.
Qed.

Lemma run_op_wp N L s X h o :
  kb_rep L s X h → valid_op o → (Z.of_nat (size X) + 1 < 2 ^ 32)%Z → size h + 2 ≤ N →
  wp N (run_op s o) h (λ r h', r.1 = (spec_op X o).1 ∧ kb_rep L r.2 (spec_op X o).2 h').
Proof.
  intros Hr Ho Hs HN. destruct o as [key|key|key|]; simpl in Ho |- *; [apply wp_bind..|].
  - eapply wp_mono; [by apply kb_insert_spec|]. intros [b s'] h' [Hb Hr']. simpl in Hb. subst b. by apply wp_ret.
  - eapply wp_mono; [apply kb_erase_spec; [done..|lia|done]|].
    intros [b s'] h' [Hb Hr']. simpl in Hb. subst b. by apply wp_ret.
  - eapply wp_mono; [by eapply kb_contains_spec|]. intros b h' [-> ->]. by apply wp_ret.
  - apply wp_ret. simpl. by rewrite (kb_size_spec _ _ _ _ Hr).
Qed.

Lemma spec_ops_size X os : size (spec_ops X os).2 ≤ size X + length os.
Proof.
  revert X. induction os as [|o os IH]; intros X; simpl; [lia|].
  pose proof (spec_op_size X o). destruct (spec_op X o) as [a X']. specialize (IH X').
  destruct (spec_ops X' os). simpl in *. lia.
Qed.

Lemma run_ops_wp N L s X h os :
  kb_rep L s X h → Forall valid_op os → (Z.of_nat (size X + length os) < 2 ^ 32)%Z →
  2 * (size X + length os) + 3 + length L ≤ N →
  wp N (run_ops s os) h (λ r h', r.1 = (spec_ops X os).1 ∧ kb_rep L r.2 (spec_ops X os).2 h').
Proof.
  revert s X h. induction os as [|o os IH]; intros s X h Hr Hos Hs HN; [by apply wp_ret|].
  destruct (Forall_cons_1 _ _ _ Hos) as [Ho Hos']. cbn [run_ops spec_ops length] in *.
  pose proof (kb_space _ _ _ _ Hr) as Hsp. pose proof (spec_op_size X o) as Hsz.
  apply wp_bind. eapply wp_mono; [apply (run_op_wp N L s X); [done..|lia|lia]|].
  destruct (spec_op X o) as [a X']. simpl in *. intros [a' s'] h' [Ha Hr']. simpl in Ha, Hr' |- *. subst a'.
  apply wp_bind. eapply wp_mono; [apply (IH s' X' h'); [done|done|lia|lia]|].
  destruct (spec_ops X' os) as [l X'']. intros [l' s''] h'' [Hl Hr''].
  simpl in Hl. subst l'. by apply wp_ret.
Qed.
End client.

(** ** Whole sessions *)

Section sessions.
Context `{!Allocator}.

Lemma destroy_wp N L rt X h fuel :
  repr L rt X h → size h ≤ fuel → wp N (destroy fuel rt) h (λ _ h', owns h' L).
Proof.
  intros (t & Ho & Hw & Hr & _ & _) Hf. unfold destroy. rewrite Hr.
  rewrite (owns_size _ _ Ho), length_app in Hf.
  eapply wp_free_nodes; [exact Hw|lia|exact Ho|lia|done].
Qed.

Lemma apply_wp N L rt X h fuel :
  repr L rt X h → size h ≤ fuel →
  wp N (RadixTree.apply fuel rt) h (λ calls h', NoDup calls ∧ (∀ k, k ∈ calls ↔ k ∈ X) ∧ h' = h).
Proof.
  intros (t & Ho & Hw & Hr & Hc & _) Hf. unfold RadixTree.apply. rewrite Hr.
  rewrite (owns_size _ _ Ho), length_app in Hf. apply wp_bind.
  eapply wp_visit_keys; [exact Hw|lia|exact Ho|lia|]. apply wp_ret. simpl.
  split_and!; [by eapply tkeys_nodup|by apply repr_keys|done].
Qed.

(** A heap is determined by its blocks. *)
Lemma owns_inj h h' L : owns h L → owns h' L → h' = h.
Proof. by intros [_ ->] [_ ->]. Qed.

(** Create a tree, run the operations, destroy the tree. *)
Definition session (fuel : nat) (os : list op) : M (list answer) :=
  t ← new_tree; '(l, t) ← run_ops t os; _ ← destroy fuel t; mret l.

Lemma session_wp N L h fuel os :
  owns h L → Forall valid_op os → (Z.of_nat (length os) < 2 ^ 32)%Z →
  2 * length os + 3 + length L ≤ N → 2 * length os + 3 + length L ≤ fuel →
  wp N (session fuel os) h (λ l h', l = (spec_ops ∅ os).1 ∧ h' = h).
Proof.
  intros Ho Hos Hn HN Hf. unfold session. apply wp_bind.
  eapply wp_mono; [apply new_tree_wp; [exact Ho|lia]|]. intros rt h1 Hr.
  apply wp_bind. eapply wp_mono.
  { by apply (run_ops_wp N L rt ∅ h1 os); [exact Hr|..]. }
  intros [l rt'] h2 [Hl Hr']. simpl in Hl, Hr'. apply wp_bind.
  eapply wp_mono; [eapply (destroy_wp N L rt' _ h2 fuel Hr')|].
  - pose proof (repr_space _ _ _ _ Hr') as Hsp. pose proof (spec_ops_size ∅ os) as Hs.
    change (size ∅) with 0 in Hs. lia.
  - intros [] h3 Ho3. apply wp_ret. split; [done|]. by eapply owns_inj.
Qed.
End sessions.

(** ** Theorems *)

(** C1. [insert] of a valid key, with any allocator.  It returns and the answer
    is [true] exactly when the key was not stored; afterwards the tree stores one
    more occurrence of the key, everything else is unchanged and the other blocks
    of the heap are untouched.  The only other outcome is a failed allocation,
    and only if the allocator cannot serve a heap of two more blocks. *)
Theorem insert_correct `{!Allocator} L rt X h key :
  repr L rt X h → valid_key key → (Z.of_nat (multiplicity key X) + 1 < 2 ^ 32)%Z →
  (Z.of_nat (size X) + 1 < 2 ^ 64)%Z →
  match RadixTree.insert rt (c_str key) (klen key) h with
  | Ok ((b, rt'), h') => b = bool_decide (key ∉ X) ∧ repr L rt' ({[+ key +]} ⊎ X) h'
  | Err e => e = OutOfMemory ∧ ¬ alloc_good (size h + 2)
  end.
Proof.
  intros Hr Hk Hm Hs. apply wp_result. eapply wp_mono; [by apply insert_wp|]. by intros [b rt'] h'.
Qed.

(** C2. [erase] of a valid key, with any allocator.  The answer is [true] exactly
    when the key was stored; afterwards one occurrence of it is gone and the
    other keys and blocks are untouched.  It fails only when the allocator refuses a
    block, which a good allocator for the present blocks and two more does not. *)
Theorem erase_correct `{!Allocator} L rt X h key :
  repr L rt X h → valid_key key → (Z.of_nat (size X) < 2 ^ 64)%Z →
  match erase rt (c_str key) (klen key) h with
  | Ok ((b, rt'), h') => b = bool_decide (key ∈ X) ∧ repr L rt' (X ∖ {[+ key +]}) h'
  | Err e => e = OutOfMemory ∧ ¬ alloc_good (size h + 2)
  end.
Proof.
  intros Hr Hk Hs. apply wp_result. eapply wp_mono; [by apply erase_wp|]. by intros [b rt'] h'.
Qed.

(** [contains] always returns, tells whether the key is stored and changes
    nothing. *)
Lemma contains_correct L rt X h key :
  repr L rt X h → valid_key key →
  contains rt (c_str key) (klen key) h = Ok (bool_decide (key ∈ X), h).
Proof.
  intros Hr Hk. destruct (wp_total 0 _ _ _ (contains_wp (H := first_fit) 0 L rt X h key Hr Hk)
    (first_fit_good 0 eq_refl)) as (b & h' & E & -> & ->). done.
Qed.

(** C3. [apply] returns within as many nested calls as the heap has blocks, calls
    back exactly once for every stored key and leaves the heap as it was. *)
Theorem apply_correct L rt X h fuel :
  repr L rt X h → size h ≤ fuel →
  ∃ calls, RadixTree.apply fuel rt h = Ok (calls, h) ∧ NoDup calls ∧ ∀ k, k ∈ calls ↔ k ∈ X.
Proof.
  intros Hr Hf. destruct (wp_total 0 _ _ _ (apply_wp (H := first_fit) 0 L rt X h fuel Hr Hf)
    (first_fit_good 0 eq_refl)) as (calls & h' & E & Hnd & Hk & ->). by exists calls.
Qed.

(** C4. The destructor returns and frees exactly the blocks of the tree: what is
    left are the blocks of the rest of the program. *)
Theorem destroy_correct L rt X h fuel :
  repr L rt X h → size h ≤ fuel → ∃ h', destroy fuel rt h = Ok (tt, h') ∧ owns h' L.
Proof.
  intros Hr Hf. destruct (wp_total 0 _ _ _ (destroy_wp (H := first_fit) 0 L rt X h fuel Hr Hf)
    (first_fit_good 0 eq_refl)) as ([] & h' & E & Ho). by exists h'.
Qed.

(** C6. A whole session refines the multiset specification.  A tree is created,
    any sequence of [insert], [erase], [contains] and [size] with valid keys is
    run on it and the tree is destroyed; with an allocator that can serve
    [2n + 3] blocks beside the [L] already in use, every answer is the one the
    specification gives and the heap is the initial one again. *)
Theorem session_refines `{!Allocator} L h fuel os :
  owns h L → Forall valid_op os → (Z.of_nat (length os) < 2 ^ 32)%Z →
  alloc_good (2 * length os + 3 + length L) → 2 * length os + 3 + length L ≤ fuel →
  session fuel os h = Ok ((spec_ops ∅ os).1, h).
Proof.
  intros Ho Hos Hn Hgood Hf.
  destruct (wp_total _ _ _ _ (session_wp _ L h fuel os Ho Hos Hn (le_n _) Hf) Hgood)
    as (l & h' & E & -> & ->). done.
Qed.

(** A tree that stores [n] keys, counted with multiplicity, consists of at
    most [2n + 1] nodes. *)
Lemma node_count L rt X h : repr L rt X h → size h ≤ 2 * size X + 1 + length L.
Proof. apply repr_space. Qed.

(** [match] compares with [key[i]] without checking [i < size].  A lookup of
    "ab" in a tree that stores "abc" reads past a two-byte buffer; if the buffer
    goes on with the bytes of the stored key, [insert] computes the length
    [size - i] of the new prefix from [i > size] and writes outside the block it
    has just allocated. *)
Lemma match_overruns_key :
  let stored := (t ← new_tree; '(_, t) ← RadixTree.insert t (c_str (ascii_bytes "abc")) 3; mret t) in
  (t ← stored; contains t (ascii_bytes "ab") 2) ∅ = Err Fault ∧
  (t ← stored; RadixTree.insert t (ascii_bytes "abc") 2) ∅ = Err Fault.
Proof. by vm_compute. Qed.

(** ** Instances *)

#[global] Instance key_byte_dec b : Decision (key_byte b).
Proof. unfold key_byte. apply _. Defined.
#[global] Instance valid_key_dec key : Decision (valid_key key).
Proof. unfold valid_key. apply _. Defined.

(** A tree that stores one key. *)
Lemma one_key key :
  valid_key key → ∃ rt h, repr [] rt {[+ key +]} h ∧ size h ≤ 3.
Proof.
  intros Hk. assert (Hg : ∀ N, N ≤ 9 → @alloc_good first_fit N) by (intros; apply first_fit_good; lia).
  destruct (wp_total 0 _ _ _ (new_tree_wp 0 [] ∅ owns_nil (le_n _)) (Hg 0 ltac:(lia)))
    as (rt & h & _ & Hr).
  assert (Hs : size h ≤ 1) by exact (repr_space _ _ _ _ Hr).
  destruct (wp_total 9 _ _ _ (insert_wp 9 [] rt ∅ h key Hr Hk eq_refl eq_refl ltac:(lia)) (Hg 9 ltac:(lia)))
    as ([b rt'] & h' & _ & _ & Hr').
  simpl in Hr'. rewrite gmultiset_disj_union_right_id in Hr'. exists rt', h'. split; [done|].
  pose proof (repr_space _ _ _ _ Hr') as Hsp. rewrite gmultiset_size_singleton in Hsp. done.
Qed.

Definition key_ab : list Z := ascii_bytes "ab".
Definition key_abc : list Z := ascii_bytes "abc".

Lemma insert_correct_witness : ∃ rt h, repr [] rt {[+ key_ab +]} h ∧
  match RadixTree.insert rt (c_str key_abc) (klen key_abc) h with
  | Ok ((b, rt'), h') => b = bool_decide (key_abc ∉ ({[+ key_ab +]} : bag)) ∧
                         repr [] rt' ({[+ key_abc +]} ⊎ {[+ key_ab +]}) h'
  | Err e => e = OutOfMemory ∧ ¬ alloc_good (size h + 2)
  end.
Proof.
  destruct (one_key key_ab) as (rt & h & Hr & _); [by apply (bool_decide_unpack _); vm_compute|].
  exists rt, h. split; [done|].
  apply (insert_correct [] rt {[+ key_ab +]} h key_abc Hr); [by apply (bool_decide_unpack _); vm_compute|done|done].
Defined.

Lemma erase_correct_witness : ∃ rt h, repr [] rt {[+ key_ab +]} h ∧
  match erase rt (c_str key_ab) (klen key_ab) h with
  | Ok ((b, rt'), h') => b = bool_decide (key_ab ∈ ({[+ key_ab +]} : bag)) ∧
                         repr [] rt' ({[+ key_ab +]} ∖ {[+ key_ab +]}) h'
  | Err e => e = OutOfMemory ∧ ¬ alloc_good (size h + 2)
  end.
Proof.
  destruct (one_key key_ab) as (rt & h & Hr & _); [by apply (bool_decide_unpack _); vm_compute|].
  exists rt, h. split; [done|].
  apply (erase_correct [] rt {[+ key_ab +]} h key_ab Hr); [by apply (bool_decide_unpack _); vm_compute|done].
Defined.

Lemma contains_correct_witness : ∃ rt h, repr [] rt {[+ key_ab +]} h ∧
  contains rt (c_str key_ab) (klen key_ab) h = Ok (true, h).
Proof.
  destruct (one_key key_ab) as (rt & h & Hr & _); [by apply (bool_decide_unpack _); vm_compute|].
  exists rt, h. split; [done|].
  apply (contains_correct [] rt {[+ key_ab +]} h key_ab Hr). by apply (bool_decide_unpack _); vm_compute.
Defined.

Lemma apply_correct_witness : ∃ rt h calls, RadixTree.apply 3 rt h = Ok (calls, h) ∧
  NoDup calls ∧ ∀ k, k ∈ calls ↔ k ∈ ({[+ key_ab +]} : bag).
Proof.
  destruct (one_key key_ab) as (rt & h & Hr & Hs); [by apply (bool_decide_unpack _); vm_compute|].
  exists rt, h. apply (apply_correct [] rt {[+ key_ab +]} h 3 Hr Hs).
Defined.

Lemma destroy_correct_witness : ∃ rt h h', repr [] rt {[+ key_ab +]} h ∧
  destroy 3 rt h = Ok (tt, h') ∧ owns h' [].
Proof.
  destruct (one_key key_ab) as (rt & h & Hr & Hs); [by apply (bool_decide_unpack _); vm_compute|].
  destruct (destroy_correct [] rt {[+ key_ab +]} h 3 Hr Hs) as (h' & E & Ho).
  exists rt, h, h'. done.
Defined.

Definition demo_ops : list op :=
  [OpInsert key_abc; OpInsert key_ab; OpInsert key_ab; OpSize; OpErase key_abc;
   OpContains key_abc; OpContains key_ab; OpErase key_abc].

Lemma session_refines_witness :
  session 19 demo_ops ∅ =
  Ok ([ABool true; ABool true; ABool false; ASize 3; ABool true; ABool false; ABool true; ABool false], ∅).
Proof.
  change [ABool true; ABool true; ABool false; ASize 3; ABool true; ABool false; ABool true; ABool false]
    with (spec_ops ∅ demo_ops).1.
  apply (session_refines [] ∅ 19 demo_ops owns_nil); [|done|by apply first_fit_good|simpl; lia].
  repeat constructor; by apply (bool_decide_unpack _); vm_compute.
Defined.

Lemma node_count_witness : ∃ rt h, repr [] rt {[+ key_ab +]} h ∧ size h ≤ 2 * 1 + 1 + 0.
Proof.
  destruct (one_key key_ab) as (rt & h & Hr & _); [by apply (bool_decide_unpack _); vm_compute|].
  exists rt, h. split; [done|]. apply (node_count [] rt {[+ key_ab +]} h Hr).
Defined.
