(* ===== verification/RadixPrint.v ===== *)
(** * The printer of the radix tree

    [radix_tree::print] of Algorithm/radix-tree/radix_tree.cpp, and the demonstration
    main.cpp.  The printer writes one line per node, indented by its depth; the keys of the
    tree can be read back from what it has written. *)

From stdpp Require Import gmultiset.
From S2P Require Import Prelude CMemory RadixNode RadixTree RadixBlocks RadixShape RadixCount RadixMatch RadixInsert RadixErase RadixWalk RadixBag RadixClient.
From Stdlib Require Import ZArith Lia.

(** ** The lines of a tree *)

(** A line: the depth, the prefix, and whether the node stores a key. *)
Definition line : Type := nat * list Z * bool.

Fixpoint tlines (level : nat) (t : tree) : list line :=
  match t with
  | T _ r P es => (level, P, (0 <? r)%Z) :: (fix go es := match es with [] => [] | e :: es => tlines (S level) e.2 ++ go es end) es
  end.

Definition elines (level : nat) (es : list (Z * tree)) : list line := es ≫= λ e, tlines level e.2.

Lemma tlines_eq level p r P es : tlines level (T p r P es) = (level, P, (0 <? r)%Z) :: elines (S level) es.
Proof. cbn [tlines]. f_equal. Qed.

(** The text of a line, as [visit_child] writes it. *)
Definition line_text (l : line) : list Z :=
  let '(level, P, star) := l in
  replicate (5 * level - 4) 32%Z ++ ascii_bytes "`-> " ++ P ++ (if star then ascii_bytes " [*]" else []) ++ [10%Z].

Definition lines_text (ls : list line) : list Z := ls ≫= line_text.

(** One more edge. *)
Lemma lines_snoc level es e :
  lines_text (elines level (es ++ [e])) = lines_text (elines level es) ++ lines_text (tlines level e.2).
Proof. unfold elines, lines_text. rewrite !bind_app. cbn [mbind list_bind]. by rewrite app_nil_r. Qed.

Section print.
Context `{!Allocator}.

(** The printer only reads, and writes the lines of the tree in order. *)
Lemma wp_visit_child N t : ∀ m ob fuel level out h L (Q : list Z → heap → Prop),
  wf m ob t → (m ≤ max_len)%Z → owns h (blocks t ++ L) → length (blocks t) ≤ fuel → 0 < level →
  Q (out ++ lines_text (tlines level t)) h → wp N (visit_child fuel (Z.of_nat level) out (taddr t)) h Q.
Proof.
  induction t as [p r P es IH] using tree_ind. intros m ob fuel level out h L Q Hw Hm Ho Hf Hl HQ.
  rewrite blocks_eq in Ho, Hf. destruct fuel as [|fuel]; simpl in Hf; [lia|].
  pose proof (wf_blk_ok _ _ _ _ _ _ Hw Hm) as Hok.
  inversion Hw as [? ? ? ? ? ? Hnode Hes]; subst. cbn [visit_child taddr].
  apply wp_bind. apply wp_massert; [by apply Z.ltb_lt; lia|].
  apply wp_bind. eapply wp_prefix_length; [exact Ho|done|].
  apply wp_bind. eapply (wp_load_prefix_from _ _ _ _ _ _ _ 0); [exact Ho|lia|by rewrite Nat.sub_0_r|].
  rewrite drop_0. apply wp_bind. eapply wp_refcount; [exact Ho|apply Hnode|].
  apply wp_bind. eapply wp_edgecount; [exact Ho|done|]. rewrite length_fmap, Nat2Z.id.
  replace (Z.to_nat (4 * (Z.of_nat level - 1) + Z.of_nat level)) with (5 * level - 4) by lia.
  set (out0 := out ++ _). eapply (wp_for_edges N _ p r P [] es _ h
    (λ es1 s h1, s = out0 ++ lines_text (elines (S level) es1) ∧ h1 = h)); [done| | | | |].
  - by eapply wf_edge_addrs.
  - intros es1 s h1 [_ ->]. eauto.
  - intros es1 e es2 s h1 E [-> ->]. simpl in E.
    rewrite Forall_forall in IH, Hes. assert (He : e ∈ es) by (rewrite E; set_solver).
    rewrite E, eblocks_app, eblocks_cons in Ho, Hf.
    replace (Z.of_nat level + 1)%Z with (Z.of_nat (S level)) by lia.
    eapply (IH e He); [by apply Hes|lia| |len_simpl; lia|lia|].
    + eapply owns_proper; [|exact Ho].
      instantiate (1 := (p, blk r P (es1 ++ e :: es2).*1 (ptrs (edge_addrs (es1 ++ e :: es2)))) :: eblocks es1 ++ eblocks es2 ++ L).
      solve_Permutation.
    + split; [|done]. by rewrite lines_snoc, app_assoc.
  - split; [|done]. by rewrite app_nil_r.
  - intros s h1 [-> ->]. unfold out0. rewrite tlines_eq in HQ. unfold lines_text in *. cbn [mbind list_bind] in HQ.
    by rewrite <-app_assoc.
Qed.

Lemma print_wp N L rt X h fuel :
  repr L rt X h → base.size h ≤ fuel →
  wp N (RadixTree.print fuel rt) h (λ out h', h' = h ∧ ∃ t, wf max_len None t ∧ counts t X ∧
    out = ascii_bytes "[root]" ++ 10%Z :: lines_text (elines 1 (tedges t))).
Proof.
  intros (t & Ho & Hw & Hr & Hc & _) Hf. rewrite (owns_size _ _ Ho), length_app in Hf. unfold RadixTree.print. rewrite Hr.
  destruct t as [p r P es]. pose proof (wf_blk_ok _ _ _ _ _ _ Hw (Z.le_refl _)) as Hok. rewrite blocks_eq in Ho, Hf.
  inversion Hw as [? ? ? ? ? ? Hnode Hes]; subst. apply wp_bind. cbn [taddr]. eapply wp_edgecount; [exact Ho|done|].
  rewrite length_fmap, Nat2Z.id. set (out0 := ascii_bytes "[root]" ++ [10%Z]).
  eapply (wp_for_edges N _ p r P [] es _ h (λ es1 s h1, s = out0 ++ lines_text (elines 1 es1) ∧ h1 = h)); [done| | | | |].
  - by eapply wf_edge_addrs.
  - intros es1 s h1 [_ ->]. eauto.
  - intros es1 e es2 s h1 E [-> ->]. simpl in E. rewrite Forall_forall in Hes. assert (He : e ∈ es) by (rewrite E; set_solver).
    rewrite E, eblocks_app, eblocks_cons in Ho, Hf. change 1%Z with (Z.of_nat 1).
    eapply (wp_visit_child N e.2); [by apply Hes|lia| |len_simpl; simpl in Hf; len_simpl; lia|lia|].
    + eapply owns_proper; [|exact Ho].
      instantiate (1 := (p, blk r P (es1 ++ e :: es2).*1 (ptrs (edge_addrs (es1 ++ e :: es2)))) :: eblocks es1 ++ eblocks es2 ++ L).
      solve_Permutation.
    + split; [|done]. by rewrite lines_snoc, app_assoc.
  - split; [|done]. by rewrite app_nil_r.
  - intros s h1 [-> ->]. split; [done|]. exists (T p r P es). by split_and!.
Qed.
End print.

(** ** Reading the lines *)

(** The path to the current node is kept in a stack; a starred line is a key. *)
Fixpoint read_lines (stack : list (list Z)) (ls : list line) : list (list Z) :=
  match ls with
  | [] => []
  | (level, P, star) :: ls =>
      let stack := take (level - 1) stack ++ [P] in
      (if star : bool then [concat stack] else []) ++ read_lines stack ls
  end.

(** The lines of a tree below the path [pre], whatever follows: the keys, and a stack that
    still starts with [pre]. *)
Definition reads (level : nat) (ls : list line) (keys : list Z → list (list Z)) : Prop :=
  ∀ stack pre rest, take (level - 1) stack = pre → length pre = level - 1 →
    ∃ stack', take (level - 1) stack' = pre ∧ read_lines stack (ls ++ rest) = keys (concat pre) ++ read_lines stack' rest.

Lemma read_edges level es :
  Forall (λ e, reads level (tlines level e.2) (λ b, tkeys b e.2)) es → reads level (elines level es) (λ b, ekeys b es).
Proof.
  induction 1 as [|e es He _ IH]; intros stack pre rest Hs Hl; [by exists stack|].
  destruct (He stack pre (elines level es ++ rest) Hs Hl) as (s1 & Hs1 & E1).
  destruct (IH s1 pre rest Hs1 Hl) as (s2 & Hs2 & E2). exists s2. split; [done|].
  unfold elines, ekeys in *. cbn [mbind list_bind]. by rewrite <-!app_assoc, E1, E2.
Qed.

Lemma read_tree t : ∀ level, 0 < level → reads level (tlines level t) (λ b, tkeys b t).
Proof.
  induction t as [p r P es IH] using tree_ind. intros level Hl stack pre rest Hs Hn.
  rewrite tlines_eq, tkeys_eq. cbn [app read_lines]. rewrite Hs.
  assert (Hp : take (S level - 1) (pre ++ [P]) = pre ++ [P]) by (apply take_ge; solve_len).
  assert (He : Forall (λ e, reads (S level) (tlines (S level) e.2) (λ b, tkeys b e.2)) es).
  { rewrite Forall_forall in *. intros e He. apply IH; [done|lia]. }
  destruct (read_edges (S level) es He (pre ++ [P]) (pre ++ [P]) rest Hp) as (s' & Hs' & E); [solve_len|].
  exists s'. split.
  - replace (level - 1) with (length pre) by lia. replace (S level - 1) with (S (length pre)) in Hs' by lia.
    apply (f_equal (take (length pre))) in Hs'. rewrite take_take in Hs'. replace (length pre `min` S (length pre)) with (length pre) in Hs' by lia.
    by rewrite Hs', take_app_length.
  - rewrite E, concat_app. cbn [concat]. rewrite app_nil_r. by destruct (0 <? r)%Z.
Qed.

(** ** Reading the text *)

(** The lines of a text that ends in a newline. *)
Fixpoint split_lines (cur text : list Z) : list (list Z) :=
  match text with
  | [] => []
  | c :: text => if (c =? 10)%Z then cur :: split_lines [] text else split_lines (cur ++ [c]) text
  end.

Fixpoint spaces (s : list Z) : nat := match s with c :: s => if (c =? 32)%Z then S (spaces s) else 0 | [] => 0 end.

(** A line of the printer: the depth from the indentation, the text after the arrow, and
    whether it ends in a star, whose last character is a bracket. *)
Definition parse_line (s : list Z) : line :=
  let n := spaces s in
  let body := drop (n + 4) s in
  if bool_decide (last body = Some 93%Z) then ((n + 4) / 5, take (length body - 4) body, true) else ((n + 4) / 5, body, false).

Definition read_text (text : list Z) : list (list Z) := read_lines [] (parse_line <$> tail (split_lines [] text)).

(** Text that the printed form does not disturb: no newlines and no closing brackets. *)
Definition plain (k : list Z) : Prop := (10%Z ∉ k) ∧ (93%Z ∉ k).

Lemma split_line cur s rest : 10%Z ∉ s → split_lines cur (s ++ 10%Z :: rest) = (cur ++ s) :: split_lines [] rest.
Proof.
  revert cur. induction s as [|c s IH]; intros cur Hs; cbn; [by rewrite app_nil_r|].
  apply not_elem_of_cons in Hs as [Hc Hs]. destruct (Z.eqb_spec c 10); [done|]. rewrite IH by done. by rewrite <-app_assoc.
Qed.

Lemma spaces_indent n s : spaces (replicate n 32%Z ++ 96%Z :: s) = n.
Proof. induction n as [|n IH]; [done|]. cbn. by rewrite IH. Qed.

Lemma drop_arrow n a b c d s : drop (n + 4) (replicate n 32%Z ++ a :: b :: c :: d :: s) = s.
Proof. induction n as [|n IH]; [done|]. apply IH. Qed.

(** The text of a line without its newline. *)
Definition line_body (l : line) : list Z :=
  let '(level, P, star) := l in
  replicate (5 * level - 4) 32%Z ++ ascii_bytes "`-> " ++ P ++ (if star then ascii_bytes " [*]" else []).

Lemma parse_line_text level P star : 0 < level → plain P → parse_line (line_body (level, P, star)) = (level, P, star).
Proof.
  intros Hl [_ Hp]. unfold parse_line, line_body. change (ascii_bytes "`-> ") with [96; 45; 62; 32]%Z. cbn [app].
  rewrite spaces_indent. replace ((5 * level - 4 + 4) / 5) with level by (apply (Nat.div_unique _ _ _ 0); lia).
  rewrite drop_arrow. destruct star.
  - change (ascii_bytes " [*]") with [32; 91; 42; 93]%Z. rewrite last_app. cbn. rewrite length_app. cbn.
    by rewrite Nat.add_sub, take_app_length.
  - rewrite app_nil_r, bool_decide_false; [done|]. intros Hlast. by apply Hp, last_Some_elem_of.
Qed.

(** Lines with plain prefixes, at positive depths. *)
Definition good_line (l : line) : Prop := 0 < l.1.1 ∧ plain l.1.2.

Lemma no_newline s : 10%Z ∈ ascii_bytes s → bool_decide (10%Z ∈ ascii_bytes s) = true.
Proof. by intros ?; apply bool_decide_eq_true. Qed.

Lemma parse_lines ls :
  Forall good_line ls → parse_line <$> split_lines [] (lines_text ls) = ls.
Proof.
  induction 1 as [|[[level P] star] ls [Hl Hp] _ IH]; [done|]. cbn [fst snd] in *. unfold lines_text in *. cbn [mbind list_bind].
  replace (line_text (level, P, star)) with (line_body (level, P, star) ++ [10%Z]) by (unfold line_text, line_body; by rewrite <-!app_assoc).
  rewrite <-app_assoc. cbn [app]. rewrite split_line; [rewrite fmap_cons; cbn [app]; by rewrite parse_line_text, IH|].
  unfold line_body. intros Hin. destruct Hp as [H10 _]. rewrite !elem_of_app in Hin. destruct Hin as [Hin|[Hin|[Hin|Hin]]].
  - by apply elem_of_replicate in Hin as [[=] _].
  - by apply no_newline in Hin.
  - done.
  - destruct star; [by apply no_newline in Hin|by apply elem_of_nil in Hin].
Qed.

(** Every prefix of a tree is part of one of its keys. *)
Lemma key_through t : ∀ m b buffer, wf m (Some b) t → ∃ k, k ∈ tkeys buffer t ∧ buffer ++ tprefix t `prefix_of` k.
Proof.
  induction t as [p r P es IH] using tree_ind. intros m b buffer Hw. inversion Hw as [? ? ? ? ? ? Hok Hes]; subst. cbn [tprefix].
  rewrite tkeys_eq. destruct (ok_merged _ _ _ _ _ _ Hok) as [Hr|Hn].
  - rewrite (proj2 (Z.ltb_lt _ _) Hr). exists (buffer ++ P). split; [by left|done].
  - destruct es as [|e es]; [cbn in Hn; lia|]. apply Forall_cons in IH as [IH _], Hes as [He _].
    destruct (IH _ _ (buffer ++ P) He) as (k & Hk & Hpre). exists k. split.
    + apply elem_of_app. right. unfold ekeys. cbn [mbind list_bind]. apply elem_of_app. by left.
    + etransitivity; [|exact Hpre]. by apply prefix_app_r.
Qed.

Lemma plain_lines t : ∀ m b buffer level,
  wf m (Some b) t → 0 < level → (∀ k, k ∈ tkeys buffer t → plain k) → Forall good_line (tlines level t).
Proof.
  induction t as [p r P es IH] using tree_ind. intros m b buffer level Hw Hl Hk. rewrite tlines_eq. constructor.
  - split; [done|]. destruct (key_through _ _ _ buffer Hw) as (k & Hin & suffix & ->). specialize (Hk _ Hin). unfold plain in *.
    rewrite !elem_of_app in Hk. cbn [tprefix] in Hk. tauto.
  - inversion Hw as [? ? ? ? ? ? Hok Hes]; subst. rewrite tkeys_eq in Hk. unfold elines. apply Forall_bind.
    rewrite Forall_forall in *. intros e He. eapply (IH e He); [by apply Hes|lia|]. intros k Hin. apply Hk, elem_of_app. right.
    unfold ekeys. apply list_elem_of_bind. by exists e.
Qed.

(** What the printer writes for a tree, and that it reads back as the keys of the tree. *)
Definition printed (t : tree) : list Z := ascii_bytes "[root]" ++ 10%Z :: lines_text (elines 1 (tedges t)).

Lemma read_printed t X : wf max_len None t → counts t X → (∀ k, k ∈ X → plain k) → read_text (printed t) = tkeys [] t.
Proof.
  intros Hw Hc Hp. unfold read_text, printed. rewrite split_line by (by intros H%no_newline). cbn [app tail].
  pose proof (repr_keys t X Hw Hc) as Hx. destruct t as [p r P es]. inversion Hw as [? ? ? ? ? ? Hok Hes]; subst. cbn [tedges] in *.
  pose proof (ok_merged _ _ _ _ _ _ Hok) as H0. pose proof (ok_head _ _ _ _ _ _ Hok) as HP. destruct P; [|done]. simpl in H0. subst r.
  rewrite tkeys_eq in *. cbn in *. rewrite parse_lines.
  - destruct (read_edges 1 es ltac:(apply Forall_true; intros e; by apply read_tree; lia) [] [] [] eq_refl eq_refl) as (s' & _ & E').
    rewrite app_nil_r in E'. rewrite E'. cbn. by rewrite app_nil_r.
  - apply Forall_bind. rewrite Forall_forall in *. intros e He. eapply (plain_lines e.2); [by apply Hes|lia|]. intros k Hin. apply Hp, Hx.
    unfold ekeys. apply list_elem_of_bind. by exists e.
Qed.

(** The keys that a text shows are those of [X], each once. *)
Definition shows (text : list Z) (X : bag) : Prop := NoDup (read_text text) ∧ ∀ k, k ∈ read_text text ↔ k ∈ X.

Lemma printed_shows t X : wf max_len None t → counts t X → (∀ k, k ∈ X → plain k) → shows (printed t) X.
Proof.
  intros Hw Hc Hp. unfold shows. rewrite (read_printed t X) by done. split; [by eapply tkeys_nodup|by apply repr_keys].
Qed.

(** C5. The printer only reads the tree, and what it prints can be read back: when no key has a
    newline or a closing bracket, the starred lines with the prefixes above them are exactly
    the keys that are stored, each once. *)
Theorem print_roundtrip L rt X h fuel :
  repr L rt X h → base.size h ≤ fuel → (∀ k, k ∈ X → plain k) →
  ∃ text, RadixTree.print fuel rt h = Ok (text, h) ∧ shows text X.
Proof.
  intros Hr Hf Hp. destruct (wp_total 0 _ _ _ (print_wp (H := first_fit) 0 L rt X h fuel Hr Hf) (first_fit_good 0 eq_refl))
    as (text & h' & E & -> & t & Hw & Hc & ->). exists (printed t). split; [done|by apply printed_shows].
Qed.

(** ** The demonstration *)

(** [insert_node] of main.cpp *)
Definition insert_node `{!Allocator} (tree : radix_tree) (key : list Z) : M radix_tree :=
  '(isOk, tree) ← RadixTree.insert tree (c_str key) (klen key);
  _ ← massert isOk;
  mret tree.

Definition zhangsan : list Z := ascii_bytes "zhangsan".
Definition zhanghaha : list Z := ascii_bytes "zhanghaha".
Definition zhanghaha2 : list Z := ascii_bytes "zhanghaha2".

(** [do_test], with the destructor of [tree] at its end; the sizes that it prints first are
    left out. *)
Definition do_test `{!Allocator} (fuel : nat) : M (list Z) :=
  tree ← new_tree;
  tree ← insert_node tree zhangsan;
  tree ← insert_node tree zhanghaha;
  tree ← insert_node tree zhanghaha2;
  text ← RadixTree.print fuel tree;
  _ ← destroy fuel tree;
  mret text.

Lemma insert_node_wp `{!Allocator} N L rt X h key (Q : radix_tree → heap → Prop) :
  repr L rt X h → valid_key key → key ∉ X → base.size X ≤ 9 → base.size h + 2 ≤ N →
  (∀ rt' h', repr L rt' ({[+ key +]} ⊎ X) h' → Q rt' h') → wp N (insert_node rt key) h Q.
Proof.
  intros Hr Hk Hx Hs HN HQ. apply wp_bind. eapply wp_mono.
  { apply (insert_wp N L rt X h key); [done..| |lia|done]. pose proof (multiplicity_le_size X key). lia. }
  intros [ok rt'] h' [Hok Hr']. cbn [fst snd] in *. apply wp_bind. apply wp_massert; [rewrite Hok; by apply bool_decide_eq_true|].
  apply wp_ret. by apply HQ.
Qed.

Definition demo_bag : bag := {[+ zhanghaha2 +]} ⊎ ({[+ zhanghaha +]} ⊎ ({[+ zhangsan +]} ⊎ ∅)).

Lemma demo_keys k : k ∈ demo_bag → plain k ∧ valid_key k.
Proof.
  intros Hk. assert (k = zhanghaha2 ∨ k = zhanghaha ∨ k = zhangsan) as [->|[->| ->]] by (unfold demo_bag in Hk; multiset_solver);
    (split; [split; apply (bool_decide_unpack _); by vm_compute|split_and!; [done| |done]]; apply (bool_decide_unpack _); by vm_compute).
Qed.

(** The number of keys in a bag that is written out. *)
Ltac bag_size :=
  repeat match goal with
  | H : base.size _ ≤ _ |- _ => progress rewrite ?gmultiset_size_disj_union, ?gmultiset_size_singleton in H
  end; rewrite ?gmultiset_size_disj_union, ?gmultiset_size_singleton; change (@base.size bag _ ∅) with 0 in *; lia.

(** The demonstration with any allocator that has room for nine blocks beside the [L] in
    use: its assertions hold, what it prints shows the three keys, and it leaves the heap as
    it was. *)
Lemma do_test_wp `{!Allocator} L h fuel :
  owns h L → 9 + length L ≤ fuel → wp (9 + length L) (do_test fuel) h (λ text h', shows text demo_bag ∧ h' = h).
Proof.
  intros Ho Hf. pose proof (λ k Hk, proj2 (demo_keys k Hk)) as Hv. unfold do_test. apply wp_bind.
  eapply wp_mono; [apply new_tree_wp; [exact Ho|lia]|]. intros t0 h0 H0. pose proof (repr_space _ _ _ _ H0) as S0.
  apply wp_bind. eapply insert_node_wp; [exact H0|apply Hv; unfold demo_bag; multiset_solver|multiset_solver|bag_size..|].
  intros t1 h1 H1. pose proof (repr_space _ _ _ _ H1) as S1.
  apply wp_bind. eapply insert_node_wp; [exact H1|apply Hv; unfold demo_bag; multiset_solver| |bag_size..|].
  { apply (bool_decide_unpack _). by vm_compute. }
  intros t2 h2 H2. pose proof (repr_space _ _ _ _ H2) as S2.
  apply wp_bind. eapply insert_node_wp; [exact H2|apply Hv; unfold demo_bag; multiset_solver| |bag_size..|].
  { apply (bool_decide_unpack _). by vm_compute. }
  intros t3 h3 H3. pose proof (repr_space _ _ _ _ H3) as S3.
  apply wp_bind. eapply wp_mono; [apply (print_wp _ L t3 _ h3 fuel H3); bag_size|]. intros text h4 (-> & t & Hw & Hc & ->).
  apply wp_bind. eapply wp_mono; [eapply (destroy_wp _ L t3 _ h3 fuel H3); bag_size|]. intros [] h5 H5. apply wp_ret.
  split; [|by eapply owns_inj]. apply (printed_shows t demo_bag); [done..|]. intros k Hk. by apply demo_keys.
Qed.

(** The text that it prints with the allocator that takes the first free address. *)
Definition demo_lines : list string :=
  ["[root]"; " `-> zhang"; "      `-> haha [*]"; "           `-> 2 [*]"; "      `-> san [*]"]%string.

Example do_test_output :
  ∃ h, do_test (H := first_fit) 9 ∅ = Ok (demo_lines ≫= (λ l, ascii_bytes l ++ [10%Z]), h).
Proof. eexists. by vm_compute. Qed.

Example print_roundtrip_witness :
  ∃ rt h text, repr [] rt {[+ zhangsan +]} h ∧ RadixTree.print (base.size h) rt h = Ok (text, h) ∧ zhangsan ∈ read_text text.
Proof.
  assert (Hv : valid_key zhangsan) by (apply demo_keys; unfold demo_bag; multiset_solver).
  destruct (wp_total 9 _ _ _ (new_tree_wp (H := first_fit) 9 [] ∅ owns_nil ltac:(simpl; lia)) (first_fit_good 9 eq_refl)) as (t0 & h0 & _ & H0).
  pose proof (repr_space _ _ _ _ H0) as S0. change (@base.size bag _ ∅) with 0 in S0. cbn [length] in S0.
  destruct (wp_total 9 _ _ _ (insert_wp (H := first_fit) 9 [] t0 ∅ h0 zhangsan H0 Hv ltac:(by vm_compute) ltac:(by vm_compute) ltac:(lia)) (first_fit_good 9 eq_refl))
    as ([ok rt] & h & _ & _ & Hr). cbn [snd] in Hr. replace ({[+ zhangsan +]} ⊎ ∅ : bag) with ({[+ zhangsan +]} : bag) in Hr by multiset_solver.
  destruct (print_roundtrip [] rt {[+ zhangsan +]} h (base.size h) Hr (le_n _)) as (text & E & _ & Hk).
  - intros k Hk. apply demo_keys. unfold demo_bag. multiset_solver.
  - exists rt, h, text. split_and!; [done..|]. apply Hk. multiset_solver.
Defined.
