(* ===== verification/Knapsack.v ===== *)
(** * The receipt planner (min_receipt_plan, a 0/1 knapsack)

    Algorithm/动态规划/min_receipt_plan(01背包).cpp: the table [dp], the pass of
    one receipt over it, the recursive printer of a plan and [main].  The table
    size [MAX_V] and the amount [DEST_V] are the constants of the source in
    [main]; the lemmas hold for any of them.  The theorems: after the passes a
    cell tells whether its amount is the sum of some of the receipts, the printer
    terminates and prints receipts with that sum, and [main] prints a plan for
    the least amount that can be met, or says that there is none. *)

From S2P Require Import Prelude.
From Stdlib Require Import ZArith Lia.

(** [struct DP] *)
Record DP := MkDP { value : Z; select_value : Z }.

(** [dp[i]]; an index outside the array is undefined behaviour. *)
Definition dp_get (dp : list DP) (i : Z) : result DP :=
  if (0 <=? i)%Z then
    match dp !! Z.to_nat i with Some c => Ok c | None => Err Fault end
  else Err Fault.

Definition dp_set (dp : list DP) (i : Z) (c : DP) : result (list DP) :=
  if (0 <=? i)%Z && (i <? Z.of_nat (length dp))%Z
  then Ok (<[Z.to_nat i := c]> dp) else Err Fault.

(** [void init()] *)
Definition init (max_v : nat) : list DP := MkDP 0 (-1) :: replicate max_v (MkDP (-1) (-1)).

(** The body of the loop of [zero_one_pack] at [V]. *)
Definition pack_step (item V : Z) (dp : list DP) : result (list DP) :=
  let cost := item in
  let value_ := item in
  c ← dp_get dp (V - cost);
  if (0 <=? value c)%Z then
    let value_if_select_it := (value c + value_)%Z in
    d ← dp_get dp V;
    if (value d <? value_if_select_it)%Z then dp_set dp V (MkDP value_if_select_it value_)
    else mret dp
  else mret dp.

(** [for (int V = MAX_V; V >= cost; --V)]: [n] iterations starting at [V]. *)
Fixpoint pack_loop (item : Z) (n : nat) (V : Z) (dp : list DP) : result (list DP) :=
  match n with
  | O => mret dp
  | S n => dp ← pack_step item V dp; pack_loop item n (V - 1) dp
  end.

(** [void zero_one_pack(int item)] *)
Definition zero_one_pack (max_v : Z) (item : Z) (dp : list DP) : result (list DP) :=
  pack_loop item (Z.to_nat (max_v - item + 1)) max_v dp.

(** [void recursive_print_plan(int V)]: the items printed, in order. *)
Fixpoint recursive_print_plan (fuel : nat) (dp : list DP) (V : Z) : result (list Z) :=
  match fuel with
  | O => Err OutOfFuel
  | S fuel =>
      if (0 <? V)%Z then
        c ← dp_get dp V;
        out ← recursive_print_plan fuel dp (V - select_value c);
        mret (out ++ [select_value c])
      else mret []
  end.

Fixpoint pack_all (max_v : Z) (items : list Z) (dp : list DP) : result (list DP) :=
  match items with
  | [] => mret dp
  | item :: items => dp ← zero_one_pack max_v item dp; pack_all max_v items dp
  end.

(** What [main] prints: the number of items, and either the amount found with its
    plan or the message that there is none. *)
Inductive report :=
  | Found (n : nat) (dest money : Z) (plan : list Z)
  | NotFound (n : nat).

(** [for (int i = DEST_V; i <= MAX_V; ++i)]: [k] iterations starting at [i]. *)
Fixpoint find_plan (fuel : nat) (dp : list DP) (n : nat) (dest : Z) (k : nat) (i : Z) : result report :=
  match k with
  | O => mret (NotFound n)
  | S k =>
      c ← dp_get dp i;
      if (0 <? value c)%Z then
        plan ← recursive_print_plan fuel dp (value c);
        mret (Found n dest (value c) plan)
      else find_plan fuel dp n dest k (i + 1)
  end.

(** [int main()] for any receipts and bounds. *)
Definition run (max_v : nat) (dest : Z) (items : list Z) : result report :=
  dp ← pack_all (Z.of_nat max_v) items (init max_v);
  find_plan (S max_v) dp (length items) dest (Z.to_nat (Z.of_nat max_v - dest + 1)) dest.

Definition DEST_V : Z := 8500.
Definition MAX_V : nat := Z.to_nat 9900.
Definition receipts : list Z :=
  [2132; 1483; 1290; 2093; 2218; 2064; 2329; 2727; 1542; 1790; 1760; 1574]%Z.
Definition main : result report := run MAX_V DEST_V receipts.

(** ** Sums of receipts *)

Definition zsum (l : list Z) : Z := foldr Z.add 0%Z l.

Lemma zsum_app l l' : zsum (l ++ l') = (zsum l + zsum l')%Z.
Proof. unfold zsum. induction l as [|x l IH]; simpl; [done|]. rewrite IH. lia. Qed.

(** [V] is the sum of some of the receipts of [l]. *)
Definition reach (l : list Z) (V : Z) : Prop := ∃ s, s `sublist_of` l ∧ zsum s = V.

Lemma reach_nil V : reach [] V ↔ V = 0%Z.
Proof.
  split; [|intros ->; by exists []]. intros (s & Hs & <-).
  by apply sublist_nil_r in Hs as ->.
Qed.

Lemma reach_snoc l x V : reach (l ++ [x]) V ↔ reach l V ∨ reach l (V - x).
Proof.
  split.
  - intros (s & Hs & Hsum). apply sublist_app_r in Hs as (s1 & s2 & -> & H1 & H2).
    apply sublist_cons_r in H2 as [H2|(s2' & -> & H2)]; apply sublist_nil_r in H2 as ->.
    + left. exists s1. by rewrite app_nil_r in Hsum.
    + right. exists s1. split; [done|]. rewrite zsum_app in Hsum. simpl in Hsum. lia.
  - intros [(s & Hs & Hsum)|(s & Hs & Hsum)].
    + exists s. split; [by apply sublist_inserts_r|done].
    + exists (s ++ [x]). split; [by apply sublist_app|]. rewrite zsum_app. simpl. lia.
Qed.

Lemma reach_app l l' V : reach l V → reach (l ++ l') V.
Proof. intros (s & Hs & ?). exists s. split; [by apply sublist_inserts_r|done]. Qed.

(** Receipts are positive, so sums are not negative. *)
Lemma reach_nonneg l V : Forall (λ x, 0 < x)%Z l → reach l V → (0 ≤ V)%Z.
Proof.
  intros Hl (s & Hs & <-). induction Hs as [|x s l _ IH|x s l _ IH]; simpl; [done|..];
    apply Forall_cons in Hl as [Hx Hl]; specialize (IH Hl); lia.
Qed.

(** ** The table *)

(** The cell of [V] after the receipts [l]: it holds [V] and the receipt whose pass
    first made [V] reachable, or [-1] if [V] is not a sum of receipts. *)
Definition cell_ok (l : list Z) (V : Z) (c : DP) : Prop :=
  (value c = V ∧ reach l V ∧
    (V = 0%Z ∨ ∃ l1 x l2, l = l1 ++ x :: l2 ∧ select_value c = x ∧ reach l1 (V - x) ∧ ¬ reach l1 V)) ∨
  (value c = (-1)%Z ∧ ¬ reach l V).

(** Cells above [W] are those after [l'], the others those after [l]. *)
Definition table_ok (max_v : nat) (l l' : list Z) (W : Z) (dp : list DP) : Prop :=
  length dp = S max_v ∧
  ∀ i c, dp !! i = Some c → cell_ok (if (W <? Z.of_nat i)%Z then l' else l) (Z.of_nat i) c.

Lemma cell_ok_mono l x V c :
  cell_ok l V c → ¬ reach l (V - x) ∨ reach l V → cell_ok (l ++ [x]) V c.
Proof.
  intros [(Hv & Hr & Hs)|(Hv & Hr)] Hx.
  - left. split_and!; [done|by apply reach_app|]. destruct Hs as [?|(l1 & y & l2 & -> & Hs)]; [by left|].
    right. exists l1, y, (l2 ++ [x]). by rewrite <-app_assoc.
  - right. split; [done|]. rewrite reach_snoc. tauto.
Qed.

Lemma table_get max_v l l' W dp V :
  table_ok max_v l l' W dp → (0 ≤ V ≤ Z.of_nat max_v)%Z →
  ∃ c, dp_get dp V = Ok c ∧ cell_ok (if (W <? V)%Z then l' else l) V c.
Proof.
  intros [Hlen Hc] HV. unfold dp_get. rewrite (proj2 (Z.leb_le 0 V)) by lia.
  destruct (lookup_lt_is_Some_2 dp (Z.to_nat V)) as [c Ec]; [lia|]. rewrite Ec.
  exists c. split; [done|]. specialize (Hc _ _ Ec). by rewrite Z2Nat.id in Hc by lia.
Qed.

(** One cell is brought up to date. *)
Lemma table_set max_v l l' W dp c :
  table_ok max_v l l' W dp → (0 ≤ W ≤ Z.of_nat max_v)%Z → cell_ok l' W c →
  ∃ dp', dp_set dp W c = Ok dp' ∧ table_ok max_v l l' (W - 1) dp'.
Proof.
  intros [Hlen Hc] HW Hok. unfold dp_set.
  rewrite (proj2 (Z.leb_le 0 W)), (proj2 (Z.ltb_lt W _)) by lia. eexists. split; [done|].
  split; [by rewrite length_insert|]. intros i c'. rewrite list_lookup_insert_Some.
  intros [(<- & <- & _)|(Hne & Hi)].
  - rewrite Z2Nat.id by lia. by rewrite (proj2 (Z.ltb_lt _ _)) by lia.
  - specialize (Hc _ _ Hi). destruct (Z.ltb_spec W (Z.of_nat i)), (Z.ltb_spec (W - 1) (Z.of_nat i)); [done|lia| |done].
    exfalso. apply Hne. lia.
Qed.

Lemma table_keep max_v l l' W dp c :
  table_ok max_v l l' W dp → (0 ≤ W)%Z → dp !! Z.to_nat W = Some c → cell_ok l' W c →
  table_ok max_v l l' (W - 1) dp.
Proof.
  intros [Hlen Hc] HW Hd Hok. split; [done|]. intros i c' Hi.
  specialize (Hc _ _ Hi). destruct (Z.ltb_spec W (Z.of_nat i)), (Z.ltb_spec (W - 1) (Z.of_nat i)); [done|lia| |done].
  assert (i = Z.to_nat W) as -> by lia. rewrite Z2Nat.id by lia. by simplify_eq.
Qed.

Lemma dp_get_lookup dp V c : dp_get dp V = Ok c → (0 ≤ V)%Z ∧ dp !! Z.to_nat V = Some c.
Proof.
  unfold dp_get. destruct (Z.leb_spec 0 V); [|done]. case_match; [|done]. by intros [= ->].
Qed.

Section passes.
Context (max_v : nat).

Lemma pack_step_ok l x W dp :
  (0 < x)%Z → (x ≤ W ≤ Z.of_nat max_v)%Z → table_ok max_v l (l ++ [x]) W dp →
  ∃ dp', pack_step x W dp = Ok dp' ∧ table_ok max_v l (l ++ [x]) (W - 1) dp'.
Proof.
  intros Hx HW Ht. unfold pack_step.
  destruct (table_get _ _ _ _ _ (W - x) Ht) as (c & -> & Hc); [lia|].
  rewrite (proj2 (Z.ltb_ge _ _)) in Hc by lia. simpl.
  destruct (table_get _ _ _ _ _ W Ht) as (d & Ed & Hd); [lia|]. rewrite Z.ltb_irrefl in Hd.
  pose proof (dp_get_lookup _ _ _ Ed) as [_ Hl].
  assert (Hkeep : ¬ reach l (W - x) ∨ reach l W → table_ok max_v l (l ++ [x]) (W - 1) dp).
  { intros H. eapply table_keep; [done|lia|done|]. by apply cell_ok_mono. }
  destruct Hc as [(Hv & Hr & _)|(Hv & Hr)]; rewrite Hv.
  - rewrite (proj2 (Z.leb_le _ _)) by lia. rewrite Ed. simpl.
    replace (W - x + x)%Z with W by lia. destruct Hd as [(Hdv & Hdr & _)|(Hdv & Hdr)]; rewrite Hdv.
    + rewrite Z.ltb_irrefl. exists dp. split; [done|]. apply Hkeep. by right.
    + rewrite (proj2 (Z.ltb_lt _ _)) by lia. apply table_set; [done|lia|]. left. simpl.
      split_and!; [done|rewrite reach_snoc; by right|]. right. by exists l, x, [].
  - exists dp. split; [done|]. apply Hkeep. by left.
Qed.

Lemma pack_loop_ok l x n : ∀ W dp,
  (0 < x)%Z → (W ≤ Z.of_nat max_v)%Z → Z.of_nat n = (W - x + 1)%Z ∨ (n = 0 ∧ (W < x)%Z) →
  table_ok max_v l (l ++ [x]) W dp →
  ∃ dp', pack_loop x n W dp = Ok dp' ∧ table_ok max_v l (l ++ [x]) (W - Z.of_nat n) dp'.
Proof.
  induction n as [|n IH]; intros W dp Hx HW Hn Ht.
  - exists dp. by rewrite Z.sub_0_r.
  - cbn [pack_loop]. destruct (pack_step_ok l x W dp) as (dp' & -> & Ht'); [done|lia|done|]. simpl.
    replace (W - Z.of_nat (S n))%Z with (W - 1 - Z.of_nat n)%Z by lia. apply IH; [done|lia|lia|done].
Qed.

(** The cells below the receipt's value do not change. *)
Lemma table_done l x W dp :
  (0 < x)%Z → Forall (λ x, 0 < x)%Z l → (W < x)%Z → table_ok max_v l (l ++ [x]) W dp →
  table_ok max_v (l ++ [x]) (l ++ [x]) 0 dp.
Proof.
  intros Hx Hl HW [Hlen Hc]. split; [done|]. intros i c Hi. specialize (Hc _ _ Hi).
  destruct (Z.ltb_spec W (Z.of_nat i)); [by case_match|].
  assert (Hi' : cell_ok (l ++ [x]) (Z.of_nat i) c); [|by case_match].
  apply cell_ok_mono; [done|]. left. intros Hr. apply (reach_nonneg _ _ Hl) in Hr. lia.
Qed.

Lemma table_start l l' W dp :
  (Z.of_nat max_v ≤ W)%Z → table_ok max_v l l 0 dp → table_ok max_v l l' W dp.
Proof.
  intros HW [Hlen Hc]. split; [done|]. intros i c Hi. specialize (Hc _ _ Hi).
  apply lookup_lt_Some in Hi. rewrite (proj2 (Z.ltb_ge _ _)) by lia. by case_match.
Qed.

Lemma zero_one_pack_ok l x dp :
  (0 < x)%Z → Forall (λ x, 0 < x)%Z l → table_ok max_v l l 0 dp →
  ∃ dp', zero_one_pack (Z.of_nat max_v) x dp = Ok dp' ∧ table_ok max_v (l ++ [x]) (l ++ [x]) 0 dp'.
Proof.
  intros Hx Hl Ht. unfold zero_one_pack.
  destruct (pack_loop_ok l x (Z.to_nat (Z.of_nat max_v - x + 1)) (Z.of_nat max_v) dp)
    as (dp' & -> & Ht'); [done|lia|lia|by apply table_start|].
  exists dp'. split; [done|]. eapply table_done; [done|done| |exact Ht']. lia.
Qed.

Lemma init_ok : table_ok max_v [] [] 0 (init max_v).
Proof.
  unfold init. split; [simpl; by rewrite length_replicate|]. intros [|i] c Hi; simpl in Hi.
  - injection Hi as <-. left. simpl. split_and!; [done|by apply reach_nil|by left].
  - apply lookup_replicate in Hi as [-> _]. right.
    assert (¬ reach [] (Z.of_nat (S i))) by (rewrite reach_nil; lia). by case_match.
Qed.

Lemma pack_all_ok items : ∀ l dp,
  Forall (λ x, 0 < x)%Z (l ++ items) → table_ok max_v l l 0 dp →
  ∃ dp', pack_all (Z.of_nat max_v) items dp = Ok dp' ∧ table_ok max_v (l ++ items) (l ++ items) 0 dp'.
Proof.
  induction items as [|x items IH]; intros l dp Hp Ht.
  - exists dp. by rewrite app_nil_r.
  - pose proof Hp as (Hl & Hx)%Forall_app. apply Forall_cons in Hx as [Hx _]. cbn [pack_all].
    destruct (zero_one_pack_ok l x dp Hx Hl Ht) as (dp' & -> & Ht'). simpl.
    replace (l ++ x :: items) with ((l ++ [x]) ++ items) in * by (by rewrite <-app_assoc).
    by apply IH.
Qed.

(** ** The printer *)

(** Two prefixes of a list: if the first does not reach [V] and the second does,
    the first is the shorter one. *)
Lemma prefix_split (l1 : list Z) x l2 lp rest V :
  l1 ++ x :: l2 = lp ++ rest → reach lp V → ¬ reach l1 V → ∃ r, lp = l1 ++ x :: r.
Proof.
  intros E Hr Hn. apply app_eq_inv in E as [(k & -> & E)|(k & -> & E)].
  - by destruct Hn; apply reach_app.
  - destruct k as [|y k]; [by rewrite app_nil_r in Hr|]. injection E as -> ->. by exists k.
Qed.

Lemma print_plan_ok l dp fuel : ∀ lp rest V,
  Forall (λ x, 0 < x)%Z l → table_ok max_v l l 0 dp → l = lp ++ rest → reach lp V →
  (V ≤ Z.of_nat max_v)%Z → Z.to_nat V < fuel →
  ∃ p, recursive_print_plan fuel dp V = Ok p ∧ p `sublist_of` lp ∧ zsum p = V.
Proof.
  induction fuel as [|fuel IH]; intros lp rest V Hl Ht E Hr HV Hf; [lia|].
  pose proof Hl as Hlp. rewrite E in Hlp. apply Forall_app in Hlp as [Hlp _].
  pose proof (reach_nonneg _ _ Hlp Hr) as H0. cbn [recursive_print_plan].
  destruct (Z.ltb_spec 0 V) as [HV0|HV0].
  - destruct (table_get _ _ _ _ _ V Ht) as (c & -> & Hc); [lia|]. simpl.
    assert (Hc' : cell_ok l V c) by (by case_match). clear Hc.
    destruct Hc' as [(_ & _ & [?|(l1 & x & l2 & El & -> & Hr1 & Hn)])|(_ & Hn)]; [lia| |].
    + rewrite E in El. symmetry in El. destruct (prefix_split _ _ _ _ _ _ El Hr Hn) as [r ->].
      pose proof Hlp as (Hl1 & Hx)%Forall_app. apply Forall_cons in Hx as [Hx _].
      pose proof (reach_nonneg _ _ Hl1 Hr1).
      destruct (IH l1 (x :: r ++ rest) (V - x)%Z) as (p & -> & Hp & Hsum); [done|done| |done|lia|lia|].
      { rewrite E. by rewrite <-app_assoc. }
      simpl. exists (p ++ [x]). split_and!; [done| |rewrite zsum_app; simpl; lia].
      apply sublist_app; [done|]. by apply sublist_skip, sublist_nil_l.
    + destruct Hn. rewrite E. by apply reach_app.
  - exists []. split_and!; [done|apply sublist_nil_l|]. simpl. lia.
Qed.

(** ** The search of [main] *)

Definition report_ok (dest : Z) (items : list Z) (from : Z) (r : report) : Prop :=
  match r with
  | Found n d money plan =>
      n = length items ∧ d = dest ∧ (from ≤ money ≤ Z.of_nat max_v)%Z ∧
      plan `sublist_of` items ∧ zsum plan = money ∧
      ∀ W, (from ≤ W < money)%Z → ¬ reach items W
  | NotFound n => n = length items ∧ ∀ W, (from ≤ W ≤ Z.of_nat max_v)%Z → ¬ reach items W
  end.

Lemma find_plan_ok items dp dest k : ∀ i,
  Forall (λ x, 0 < x)%Z items → table_ok max_v items items 0 dp → (0 < i)%Z →
  k = Z.to_nat (Z.of_nat max_v - i + 1) →
  ∃ r, find_plan (S max_v) dp (length items) dest k i = Ok r ∧ report_ok dest items i r.
Proof.
  induction k as [|k IH]; intros i Hl Ht Hi Hk; cbn [find_plan].
  - eexists. split; [done|]. split; [done|]. intros W HW. lia.
  - destruct (table_get _ _ _ _ _ i Ht) as (c & -> & Hc); [lia|].
    cbn [mbind result_bind].
    assert (Hc' : cell_ok items i c) by (by case_match). clear Hc.
    destruct Hc' as [(Hv & Hr & _)|(Hv & Hn)]; rewrite Hv.
    + rewrite (proj2 (Z.ltb_lt _ _)) by lia.
      destruct (print_plan_ok items dp (S max_v) items [] i) as (p & -> & Hp & Hsum);
        [done|done|by rewrite app_nil_r|done|lia|lia|].
      simpl. eexists. split; [done|]. split_and!; [done|done|lia|lia|done|done|]. intros W HW. lia.
    + simpl. destruct (IH (i + 1)%Z Hl Ht) as (r & -> & Hrep); [lia|lia|]. exists r. split; [done|].
      assert (Hstep : ∀ W, (i ≤ W)%Z → W = i ∨ (i + 1 ≤ W)%Z) by lia.
      destruct r; simpl in Hrep |- *.
      * destruct Hrep as (? & ? & ? & ? & ? & Hmin). split_and!; [done|done|lia|lia|done|done|].
        intros W HW. destruct (Hstep W) as [->|?]; [lia|done|]. apply Hmin. lia.
      * destruct Hrep as (? & Hmin). split; [done|]. intros W HW.
        destruct (Hstep W) as [->|?]; [lia|done|]. apply Hmin. lia.
Qed.
End passes.

(** ** Theorems *)

Definition positive_items (items : list Z) : Prop := Forall (λ x, 0 < x)%Z items.

(** After the passes of all receipts the table answers the subset-sum
    question: the passes stay inside the array, and the cell of [V] holds [V] if
    [V] is the sum of some of the receipts and [-1] otherwise. *)
Lemma table_decides_sums max_v items V :
  positive_items items → (0 ≤ V ≤ Z.of_nat max_v)%Z →
  ∃ dp c, pack_all (Z.of_nat max_v) items (init max_v) = Ok dp ∧ dp_get dp V = Ok c ∧
    ((value c = V ∧ reach items V) ∨ (value c = (-1)%Z ∧ ¬ reach items V)).
Proof.
  intros Hp HV. destruct (pack_all_ok max_v items [] (init max_v) Hp (init_ok max_v)) as (dp & E & Ht).
  destruct (table_get _ _ _ _ _ V Ht HV) as (c & Ec & Hc). exists dp, c. split_and!; [done|done|].
  assert (Hc' : cell_ok items V c) by (by case_match). unfold cell_ok in Hc'. tauto.
Qed.

(** For an amount [V] that some receipts add up to, [recursive_print_plan]
    terminates within [V + 1] nested calls and prints receipts, each used at most
    once and in their order, whose sum is [V]. *)
Lemma plan_is_a_selection max_v items dp V :
  positive_items items → pack_all (Z.of_nat max_v) items (init max_v) = Ok dp →
  reach items V → (V ≤ Z.of_nat max_v)%Z →
  ∃ plan, recursive_print_plan (S (Z.to_nat V)) dp V = Ok plan ∧
          plan `sublist_of` items ∧ zsum plan = V.
Proof.
  intros Hp E Hr HV. destruct (pack_all_ok max_v items [] (init max_v) Hp (init_ok max_v)) as (dp' & E' & Ht).
  rewrite E in E'. injection E' as <-.
  eapply (print_plan_ok max_v items dp _ items []); [done|exact Ht|by rewrite app_nil_r|done|done|lia].
Qed.

(** C7. [main] returns for any positive receipts and amount: it reports the least
    reachable amount not below [DEST_V] with receipts that add up to it, or that
    no amount up to [MAX_V] is reachable. *)
Theorem run_reports_minimum max_v dest items :
  positive_items items → (0 < dest)%Z →
  ∃ r, run max_v dest items = Ok r ∧
    match r with
    | Found n d money plan =>
        n = length items ∧ d = dest ∧ (dest ≤ money ≤ Z.of_nat max_v)%Z ∧
        plan `sublist_of` items ∧ zsum plan = money ∧
        ∀ W, (dest ≤ W < money)%Z → ¬ reach items W
    | NotFound n => n = length items ∧ ∀ W, (dest ≤ W ≤ Z.of_nat max_v)%Z → ¬ reach items W
    end.
Proof.
  intros Hp Hd. unfold run.
  destruct (pack_all_ok max_v items [] (init max_v) Hp (init_ok max_v)) as (dp & -> & Ht). simpl.
  destruct (find_plan_ok max_v items dp dest _ dest Hp Ht Hd eq_refl) as (r & E & Hr).
  exists r. split; [exact E|]. by destruct r.
Qed.

Lemma table_decides_sums_witness :
  ∃ dp c, pack_all 10 [3; 4; 6]%Z (init 10) = Ok dp ∧ dp_get dp 7 = Ok c ∧
    ((value c = 7%Z ∧ reach [3; 4; 6]%Z 7) ∨ (value c = (-1)%Z ∧ ¬ reach [3; 4; 6]%Z 7)).
Proof. apply (table_decides_sums 10 [3; 4; 6]%Z 7); [repeat constructor|lia]. Defined.

Lemma plan_is_a_selection_witness : ∃ dp plan,
  pack_all 10 [3; 4; 6]%Z (init 10) = Ok dp ∧
  recursive_print_plan 8 dp 7 = Ok plan ∧ plan `sublist_of` [3; 4; 6]%Z ∧ zsum plan = 7%Z.
Proof.
  destruct (pack_all 10 [3; 4; 6]%Z (init 10)) as [dp|] eqn:E; [|by vm_compute in E].
  exists dp. destruct (plan_is_a_selection 10 [3; 4; 6]%Z dp 7) as (plan & H & Hs & Hz);
    [repeat constructor|exact E| |lia|by exists plan].
  exists [3; 4]%Z. split; [repeat constructor|done].
Defined.

Lemma run_reports_minimum_witness :
  run 12 8 [3; 4; 6]%Z = Ok (Found 3 8 9 [3; 6]%Z) ∧
  ∃ r, run 12 8 [3; 4; 6]%Z = Ok r ∧
    match r with
    | Found n d money plan =>
        n = 3 ∧ d = 8%Z ∧ (8 ≤ money ≤ 12)%Z ∧ plan `sublist_of` [3; 4; 6]%Z ∧ zsum plan = money ∧
        ∀ W, (8 ≤ W < money)%Z → ¬ reach [3; 4; 6]%Z W
    | NotFound n => n = 3 ∧ ∀ W, (8 ≤ W ≤ 12)%Z → ¬ reach [3; 4; 6]%Z W
    end.
Proof.
  split; [by vm_compute|]. apply (run_reports_minimum 12 8 [3; 4; 6]%Z); [repeat constructor|lia].
Defined.
