(* ===== verification/AcTrie.v ===== *)
(** * The trie of the Aho-Corasick matcher

    Algorithm/ac_automation.cpp: the node structure, [create_node], [insert_tree],
    [do_find_fail_ptr], [build_fail_ptr], [search] and [show] on a store of
    nodes.  A pointer is an index into the store, the null pointer is [None], and
    indexing [next] outside its [MAXN] entries is a [Fault].  The diagnostic
    [printf]s are left out.  This file holds the definitions and the theory of
    [insert_tree]; AcFail.v and AcSearch.v continue. *)

From S2P Require Import Prelude.
From Stdlib Require Import ZArith Lia.

Definition MAXN : Z := 127.

(** [struct Trie] *)
Record Trie := MkTrie {
  ch : Z;
  is_word : Z;
  is_marked : Z;
  fail_ptr : option nat;
  next : gmap Z nat;
  data : Z;
}.

Abbreviation store := (list Trie).

(** ** The monad of code that runs on a store *)

Definition TM (A : Type) : Type := store → result (A * store).
#[global] Instance TM_ret : MRet TM := λ A a s, Ok (a, s).
#[global] Instance TM_bind : MBind TM := λ A B f m s,
  match m s with Ok (a, s') => f a s' | Err e => Err e end.

Definition tfail {A} (e : err) : TM A := λ _, Err e.

Definition get (n : nat) : TM Trie := λ s,
  match s !! n with Some t => Ok (t, s) | None => Err Fault end.

Definition put (n : nat) (t : Trie) : TM unit := λ s,
  if bool_decide (n < length s) then Ok (tt, <[n := t]> s) else Err Fault.

(** [p->next[c]] *)
Definition in_next (c : Z) : bool := (0 <=? c)%Z && (c <? MAXN)%Z.
Definition next_at (t : Trie) (c : Z) : TM (option nat) :=
  if in_next c then mret (next t !! c) else tfail Fault.

Definition set_word (t : Trie) : Trie :=
  MkTrie (ch t) 1 (is_marked t) (fail_ptr t) (next t) (data t).
Definition set_marked (t : Trie) : Trie :=
  MkTrie (ch t) (is_word t) 1 (fail_ptr t) (next t) (data t).
Definition set_fail (t : Trie) (p : option nat) : Trie :=
  MkTrie (ch t) (is_word t) (is_marked t) p (next t) (data t).
Definition set_next (t : Trie) (c : Z) (m : nat) : Trie :=
  MkTrie (ch t) (is_word t) (is_marked t) (fail_ptr t) (<[c := m]> (next t)) (data t).

(** ** The operations *)

Definition new_trie (c level : Z) : Trie := MkTrie c 0 0 None ∅ level.

(** [malloc] is not checked by the code, and taken to succeed here. *)
Definition create_node (c level : Z) : TM nat := λ s, Ok (length s, s ++ [new_trie c level]).

(** The [for] loop of [insert_tree]; the result is [cur] after it. *)
Fixpoint insert_loop (words : list Z) (i : Z) (cur : nat) : TM nat :=
  match words with
  | [] => mret cur
  | c :: words =>
      t ← get cur;
      child ← next_at t c;
      match child with
      | None =>
          m ← create_node c (i + 1);
          _ ← put cur (set_next t c m);
          insert_loop words (i + 1) m
      | Some m => insert_loop words (i + 1) m
      end
  end.

Definition insert_tree (root : nat) (words : list Z) : TM bool :=
  cur ← insert_loop words 0 root;
  t ← get cur;
  _ ← put cur (set_word t);
  mret true.

(** The [while (ptrfail != nullptr)] loop. *)
Fixpoint find_fail_loop (fuel : nat) (ptrfail : option nat) (c : Z) (default_ptr : nat) : TM nat :=
  match fuel with
  | O => tfail OutOfFuel
  | S fuel =>
      match ptrfail with
      | None => mret default_ptr
      | Some p =>
          t ← get p;
          m ← next_at t c;
          match m with
          | Some m => mret m
          | None => find_fail_loop fuel (fail_ptr t) c default_ptr
          end
      end
  end.

Definition do_find_fail_ptr (fuel : nat) (cur : nat) (c : Z) (default_ptr : nat) : TM nat :=
  t ← get cur; find_fail_loop fuel (fail_ptr t) c default_ptr.

(** [for (int i = 0; i < MAXN; i++)] in [build_fail_ptr]: [n] iterations from [i]. *)
Fixpoint link_children (fuel : nat) (root cur : nat) (n : nat) (i : Z) (Q : list nat) : TM (list nat) :=
  match n with
  | O => mret Q
  | S n =>
      t ← get cur;
      child ← next_at t i;
      match child with
      | Some child =>
          ct ← get child;
          f ← do_find_fail_ptr fuel cur (ch ct) root;
          ct ← get child;
          _ ← put child (set_fail ct (Some f));
          link_children fuel root cur n (i + 1) (Q ++ [child])
      | None => link_children fuel root cur n (i + 1) Q
      end
  end.

(** [while (!Q.empty())] *)
Fixpoint build_loop (fuel : nat) (depth : nat) (root : nat) (Q : list nat) : TM unit :=
  match fuel with
  | O => tfail OutOfFuel
  | S fuel =>
      match Q with
      | [] => mret tt
      | cur :: Q =>
          Q' ← link_children depth root cur (Z.to_nat MAXN) 0 Q;
          build_loop fuel depth root Q'
      end
  end.

(** [bool build_fail_ptr(Trie *root)]; [fuel] bounds the nodes visited and
    [depth] the length of a chain of fail pointers. *)
Definition build_fail_ptr (fuel depth : nat) (root : nat) : TM bool :=
  t ← get root;
  _ ← put root (set_fail t None);
  _ ← build_loop fuel depth root [root];
  mret true.

Definition do_check_and_return_cnt (cur : nat) : TM Z :=
  t ← get cur;
  if negb (is_word t =? 0)%Z && (is_marked t =? 0)%Z then
    _ ← put cur (set_marked t);
    mret (is_word t)
  else mret 0%Z.

(** [while (cur != root)] in [search]: count along the fail pointers. *)
Fixpoint suffix_loop (fuel : nat) (root cur : nat) (iCount : Z) : TM (nat * Z) :=
  match fuel with
  | O => tfail OutOfFuel
  | S fuel =>
      if bool_decide (cur = root) then mret (cur, iCount)
      else
        t ← get cur;
        match fail_ptr t with
        | None => tfail Fault
        | Some f => k ← do_check_and_return_cnt f; suffix_loop fuel root f (iCount + k)
        end
  end.

Fixpoint search_loop (depth : nat) (root : nat) (matchs : list Z) (cur : nat) (iCount : Z) : TM Z :=
  match matchs with
  | [] => mret iCount
  | c :: matchs =>
      t ← get cur;
      m ← next_at t c;
      match m with
      | Some m =>
          k ← do_check_and_return_cnt m;
          search_loop depth root matchs m (iCount + k)
      | None =>
          '(cur, iCount) ← suffix_loop depth root cur iCount;
          search_loop depth root matchs cur iCount
      end
  end.

(** [int search(Trie *root, const std::string& matchs)] *)
Definition search (depth : nat) (root : nat) (matchs : list Z) : TM Z :=
  search_loop depth root matchs root 0.

(** [for (int i = 0; i < MAXN; ++i)] in [show]. *)
Fixpoint push_children (t : Trie) (n : nat) (i : Z) (Q : list nat) : TM (list nat) :=
  match n with
  | O => mret Q
  | S n => m ← next_at t i; push_children t n (i + 1) (Q ++ option_list m)
  end.

(** [void show(Trie *root)]: what is printed per node, with the level headings. *)
Inductive shown := Level (l : Z) | Node (c word : Z).

Fixpoint show_loop (fuel : nat) (max_level : Z) (Q : list nat) : TM (list shown) :=
  match fuel with
  | O => tfail OutOfFuel
  | S fuel =>
      match Q with
      | [] => mret []
      | cur :: Q =>
          t ← get cur;
          let heading := if (max_level <? data t)%Z then [Level (data t)] else [] in
          Q' ← push_children t (Z.to_nat MAXN) 0 Q;
          out ← show_loop fuel (Z.max max_level (data t)) Q';
          mret (heading ++ Node (ch t) (is_word t) :: out)
      end
  end.

Definition show (fuel : nat) (root : nat) : TM (list shown) := show_loop fuel (-1) [root].

(** [create_node('r', 0)] on an empty store, as [main] does first. *)
Definition empty_trie : store := [new_trie 114 0].

Fixpoint insert_all (root : nat) (ws : list (list Z)) : TM unit :=
  match ws with
  | [] => mret tt
  | w :: ws => _ ← insert_tree root w; insert_all root ws
  end.

(** [int main()] *)
Definition main : TM Z :=
  _ ← insert_tree 0 (ascii_bytes "she");
  _ ← insert_tree 0 (ascii_bytes "he");
  _ ← show 10 0;
  _ ← build_fail_ptr 10 10 0;
  search 10 0 (ascii_bytes "sher").

(** ** Labels *)

(** [lab] gives the string that leads from the root to each node. *)
Record trie_ok (lab : list (list Z)) (s : store) : Prop := TrieOk {
  lab_len : length lab = length s;
  lab_root : lab !! 0 = Some [];
  lab_nodup : NoDup lab;
  lab_next : ∀ n t w c m, s !! n = Some t → lab !! n = Some w →
    next t !! c = Some m ↔ lab !! m = Some (w ++ [c]);
  lab_prefix : ∀ w c, w ++ [c] ∈ lab → w ∈ lab;
  lab_ch : ∀ n t w c, s !! n = Some t → lab !! n = Some (w ++ [c]) → ch t = c ∧ in_next c = true;
  lab_data : ∀ n t w, s !! n = Some t → lab !! n = Some w → data t = Z.of_nat (length w);
}.

Lemma lab_inj lab s n n' w :
  trie_ok lab s → lab !! n = Some w → lab !! n' = Some w → n = n'.
Proof. intros Hok H1 H2. eapply NoDup_lookup; [apply Hok|done|done]. Qed.

Lemma lab_node lab s n w : trie_ok lab s → lab !! n = Some w → ∃ t, s !! n = Some t.
Proof.
  intros Hok Hn. apply lookup_lt_is_Some_2. rewrite <-(lab_len _ _ Hok). by eapply lookup_lt_Some.
Qed.

Lemma node_lab lab s n t : trie_ok lab s → s !! n = Some t → ∃ w, lab !! n = Some w.
Proof.
  intros Hok Hn. apply lookup_lt_is_Some_2. rewrite (lab_len _ _ Hok). by eapply lookup_lt_Some.
Qed.

Lemma prefix_closed lab s v w : trie_ok lab s → w ∈ lab → v `prefix_of` w → v ∈ lab.
Proof.
  intros Hok Hw [k ->]. revert Hw. induction k as [|c k IH] using rev_ind; intros Hw.
  - by rewrite app_nil_r in Hw.
  - apply IH. rewrite app_assoc in Hw. by eapply (lab_prefix _ _ Hok).
Qed.

Lemma get_ok s n t : s !! n = Some t → get n s = Ok (t, s).
Proof. unfold get. by intros ->. Qed.

Lemma put_ok s n t : n < length s → put n t s = Ok (tt, <[n := t]> s).
Proof. intros Hn. unfold put. by rewrite bool_decide_eq_true_2. Qed.

Lemma next_at_ok t c s : in_next c = true → next_at t c s = Ok (next t !! c, s).
Proof. unfold next_at. by intros ->. Qed.

(** Changes of a node that keep its label, letter, level and children. *)
Definition same_shape (t t' : Trie) : Prop := ch t' = ch t ∧ next t' = next t ∧ data t' = data t.

Lemma trie_ok_update lab s n t t' :
  trie_ok lab s → s !! n = Some t → same_shape t t' → trie_ok lab (<[n := t']> s).
Proof.
  intros [Hl H0 Hnd Hn Hp Hc Hd] Ht (Ec & En & Ed).
  assert (Hs : ∀ m u, <[n := t']> s !! m = Some u → ∃ v, s !! m = Some v ∧ same_shape v u).
  { intros m u. rewrite list_lookup_insert_Some. intros [(<- & <- & _)|(_ & Hu)].
    - by exists t.
    - by exists u. }
  constructor; [by rewrite length_insert|done..| |done| |].
  - intros m u w c k (v & Hv & _ & Env & _)%Hs Hw. rewrite Env. by apply (Hn m v w).
  - intros m u w c (v & Hv & Ecv & _)%Hs Hw. rewrite Ecv. by apply (Hc m v w).
  - intros m u w (v & Hv & _ & _ & Edv)%Hs Hw. rewrite Edv. by apply (Hd m v w).
Qed.

(** ** [insert_tree] *)

(** A node hung below [cur]. *)
Section grow.
Context (lab : list (list Z)) (s : store) (cur : nat) (t : Trie) (w : list Z) (c : Z).
Context (Hok : trie_ok lab s) (Ht : s !! cur = Some t) (Hw : lab !! cur = Some w)
  (Hc : in_next c = true) (Hnone : next t !! c = None).

Definition grown_node : Trie := new_trie c (Z.of_nat (length w) + 1).
Definition grown_lab : list (list Z) := lab ++ [w ++ [c]].
Definition grown : store := <[cur := set_next t c (length s)]> (s ++ [grown_node]).

#[local] Lemma grow_fresh : w ++ [c] ∉ lab.
Proof.
  intros [m Hm]%list_elem_of_lookup. apply (lab_next _ _ Hok cur t w c m Ht Hw) in Hm.
  by rewrite Hnone in Hm.
Qed.

Lemma grown_lab_lookup m v :
  grown_lab !! m = Some v ↔ lab !! m = Some v ∨ m = length s ∧ v = w ++ [c].
Proof.
  unfold grown_lab. rewrite lookup_snoc_Some, (lab_len _ _ Hok). split.
  - intros [[? ?]|[? ?]]; [by left|by right].
  - intros [Hm|[? ?]]; [|by right]. left. split; [|done].
    rewrite <-(lab_len _ _ Hok). by eapply lookup_lt_Some.
Qed.

(** The nodes afterwards: [cur], the old ones and the new one. *)
Lemma grown_cases m u v :
  grown !! m = Some u → grown_lab !! m = Some v →
  (m = cur ∧ u = set_next t c (length s) ∧ v = w) ∨
  (m ≠ cur ∧ s !! m = Some u ∧ lab !! m = Some v) ∨
  (m = length s ∧ u = grown_node ∧ v = w ++ [c]).
Proof.
  assert (Hcur : cur < length s) by (by eapply lookup_lt_Some).
  unfold grown. rewrite list_lookup_insert_Some, grown_lab_lookup.
  intros [(<- & <- & _)|(Hne & Hu)] Hv.
  - left. destruct Hv as [Hm|[-> _]]; [|lia]. rewrite Hw in Hm. by injection Hm as <-.
  - right. rewrite lookup_snoc_Some in Hu. destruct Hu as [[Hlt Hu]|[-> <-]].
    + left. destruct Hv as [|[-> _]]; [done|lia].
    + right. destruct Hv as [Hv|[_ ->]]; [|done]. apply lookup_lt_Some in Hv.
      rewrite (lab_len _ _ Hok) in Hv. lia.
Qed.

Lemma grown_next n u v c' m :
  grown !! n = Some u → grown_lab !! n = Some v →
  next u !! c' = Some m ↔ grown_lab !! m = Some (v ++ [c']).
Proof.
  intros Hu Hv. rewrite grown_lab_lookup.
  destruct (grown_cases n u v Hu Hv) as [(-> & -> & ->)|[(Hne & Hu' & Hv')|(-> & -> & ->)]]; simpl.
  - destruct (decide (c' = c)) as [->|Hcc].
    + rewrite lookup_insert_eq. split; [intros [= <-]; by right|]. intros [Hk|[-> _]]; [|done].
      destruct grow_fresh. by eapply list_elem_of_lookup_2.
    + rewrite lookup_insert_ne by done. rewrite (lab_next _ _ Hok cur t w c' m Ht Hw).
      split; [by left|]. intros [|[_ E]]; [done|]. apply app_inj_2 in E as [_ E]; [|done]. congruence.
  - rewrite (lab_next _ _ Hok n u v c' m Hu' Hv'). split; [by left|]. intros [|[_ E]]; [done|].
    apply app_inj_2 in E as [-> _]; [|done]. destruct Hne. by eapply lab_inj.
  - rewrite lookup_empty. split; [done|]. intros [Hk|[_ E]].
    + destruct grow_fresh. eapply (lab_prefix _ _ Hok). by eapply list_elem_of_lookup_2.
    + apply (f_equal length) in E. rewrite !length_app in E. simpl in E. lia.
Qed.

Lemma trie_ok_grow : trie_ok grown_lab grown.
Proof.
  constructor.
  - unfold grown, grown_lab. rewrite length_insert, !length_app, (lab_len _ _ Hok). done.
  - apply grown_lab_lookup. left. apply Hok.
  - apply NoDup_app. split_and!; [apply Hok| |apply NoDup_singleton]. intros v Hv Hv'.
    apply list_elem_of_singleton in Hv' as ->. by apply grow_fresh.
  - apply grown_next.
  - intros v c' [m Hm]%list_elem_of_lookup. apply elem_of_app. left.
    apply grown_lab_lookup in Hm as [Hm|[_ E]].
    + eapply (lab_prefix _ _ Hok). by eapply list_elem_of_lookup_2.
    + apply app_inj_2 in E as [-> _]; [|done]. by eapply list_elem_of_lookup_2.
  - intros m u v c' Hu Hv.
    destruct (grown_cases m u _ Hu Hv) as [(-> & -> & E)|[(Hne & Hu' & Hv')|(-> & -> & E)]].
    + apply (lab_ch _ _ Hok cur t v c'); [done|]. by rewrite E.
    + by apply (lab_ch _ _ Hok m u v c').
    + apply app_inj_2 in E as [_ [= ->]]; [|done]. done.
  - intros m u v Hu Hv.
    destruct (grown_cases m u _ Hu Hv) as [(-> & -> & ->)|[(Hne & Hu' & Hv')|(-> & -> & ->)]].
    + by apply (lab_data _ _ Hok cur t w).
    + by apply (lab_data _ _ Hok m u v).
    + simpl. rewrite length_app. simpl. lia.
Qed.
End grow.

(** Word and visit marks of a node, 0 for nodes that do not exist. *)
Definition word_mark (s : store) (n : nat) : Z := from_option is_word 0%Z (s !! n).
Definition visit_mark (s : store) (n : nat) : Z := from_option is_marked 0%Z (s !! n).

Lemma grown_marks s cur t w c n :
  s !! cur = Some t →
  word_mark (grown s cur t w c) n = word_mark s n ∧ visit_mark (grown s cur t w c) n = visit_mark s n.
Proof.
  intros Ht. assert (Hcur : cur < length s) by (by eapply lookup_lt_Some).
  unfold word_mark, visit_mark, grown. destruct (decide (n = cur)) as [->|Hne].
  - rewrite list_lookup_insert_eq, Ht; [done|]. rewrite length_app. lia.
  - rewrite list_lookup_insert_ne by done. destruct (decide (n < length s)).
    + by rewrite lookup_app_l.
    + rewrite lookup_app_r, (lookup_ge_None_2 s) by lia. destruct (n - length s) as [|[|]]; done.
Qed.

(** The labels added by a word: the prefixes of it. *)
Lemma insert_labels (lab lab1 : list (list Z)) w c ws v :
  w ∈ lab → (∀ u, u ∈ lab1 ↔ u ∈ lab ∨ u = w ++ [c]) →
  (v ∈ lab1 ∨ ∃ u, u `prefix_of` ws ∧ v = (w ++ [c]) ++ u) ↔
  (v ∈ lab ∨ ∃ u, u `prefix_of` c :: ws ∧ v = w ++ u).
Proof.
  intros Hw H1. rewrite H1. split.
  - intros [[?| ->]|(u & Hu & ->)]; [by left|right..].
    + exists [c]. split; [by apply prefix_cons, prefix_nil|done].
    + exists (c :: u). split; [by apply prefix_cons|by rewrite <-app_assoc].
  - intros [?|(u & Hu & ->)]; [by left; left|]. destruct u as [|c' u].
    + left; left. by rewrite app_nil_r.
    + apply prefix_cons_inv_1 in Hu as Hc'. subst c'. apply prefix_cons_inv_2 in Hu.
      right. exists u. split; [done|by rewrite <-app_assoc].
Qed.

Lemma insert_loop_ok ws : ∀ lab s cur w,
  trie_ok lab s → lab !! cur = Some w → forallb in_next ws = true →
  ∃ n lab' s', insert_loop ws (Z.of_nat (length w)) cur s = Ok (n, s') ∧ trie_ok lab' s' ∧
    lab' !! n = Some (w ++ ws) ∧ (∀ v, v ∈ lab' ↔ v ∈ lab ∨ ∃ u, u `prefix_of` ws ∧ v = w ++ u) ∧
    (∀ m v, lab !! m = Some v → lab' !! m = Some v) ∧
    ∀ m, word_mark s' m = word_mark s m ∧ visit_mark s' m = visit_mark s m.
Proof.
  induction ws as [|c ws IH]; intros lab s cur w Hok Hw Hws.
  - exists cur, lab, s. split_and!; [done|done|by rewrite app_nil_r| |done|done].
    intros v. split; [by left|]. intros [|(u & Hu & ->)]; [done|].
    apply prefix_nil_inv in Hu as ->. rewrite app_nil_r. by eapply list_elem_of_lookup_2.
  - simpl in Hws. apply andb_true_iff in Hws as [Hc Hws].
    destruct (lab_node _ _ _ _ Hok Hw) as [t Ht]. cbn [insert_loop].
    unfold mbind, TM_bind. rewrite (get_ok _ _ _ Ht), (next_at_ok _ _ _ Hc).
    assert (Hwl : w ∈ lab) by (by eapply list_elem_of_lookup_2).
    replace (Z.of_nat (length w) + 1)%Z with (Z.of_nat (length (w ++ [c]))) by (rewrite length_app; simpl; lia).
    replace (w ++ c :: ws) with ((w ++ [c]) ++ ws) by (by rewrite <-app_assoc).
    destruct (next t !! c) as [m|] eqn:En.
    + apply (lab_next _ _ Hok cur t w c m Ht Hw) in En.
      destruct (IH lab s m (w ++ [c]) Hok En Hws) as (n & lab' & s' & E & Hok' & Hn & Hl & Hk & Hm).
      exists n, lab', s'. split_and!; [exact E|done|done| |done|done].
      intros v. rewrite Hl. apply insert_labels; [done|]. intros u. split; [by left|].
      intros [| ->]; [done|]. by eapply list_elem_of_lookup_2.
    + pose proof (trie_ok_grow lab s cur t w c Hok Ht Hw Hc En) as Hok1.
      destruct (IH (grown_lab lab w c) (grown s cur t w c) (length s) (w ++ [c]) Hok1)
        as (n & lab' & s' & E & Hok' & Hn & Hl & Hk & Hm); [|done|].
      { by apply (grown_lab_lookup lab s w c Hok); right. }
      exists n, lab', s'. cbn [create_node]. unfold create_node. rewrite put_ok.
      2: { apply lookup_lt_Some in Ht. rewrite length_app. lia. }
      split_and!; [|done|done| | |].
      * unfold grown, grown_node in E. rewrite length_app in E |- *. 
        replace (Z.of_nat (length w + length [c])) with (Z.of_nat (length w) + 1)%Z in E |- * by (simpl; lia).
        exact E.
      * intros v. rewrite Hl. apply insert_labels; [done|]. intros u. unfold grown_lab.
        by rewrite elem_of_app, list_elem_of_singleton.
      * intros k v Hv. apply Hk. apply (grown_lab_lookup lab s w c Hok). by left.
      * intros k. destruct (grown_marks s cur t w c k Ht) as [<- <-]. apply Hm.
Qed.

(** The labels and the words after [insert_tree]. *)
Lemma insert_tree_ok lab s ws :
  trie_ok lab s → forallb in_next ws = true →
  ∃ lab' s', insert_tree 0 ws s = Ok (true, s') ∧ trie_ok lab' s' ∧
    (∀ v, v ∈ lab' ↔ v ∈ lab ∨ v `prefix_of` ws) ∧
    (∀ m v, lab !! m = Some v → lab' !! m = Some v) ∧
    ∀ m v, lab' !! m = Some v →
      word_mark s' m = (if decide (v = ws) then 1%Z else word_mark s m) ∧
      visit_mark s' m = visit_mark s m.
Proof.
  intros Hok Hws. destruct (insert_loop_ok ws lab s 0 [] Hok (lab_root _ _ Hok) Hws)
    as (n & lab' & s' & E & Hok' & Hn & Hl & Hk & Hm).
  unfold insert_tree. unfold mbind, TM_bind. change 0%Z with (Z.of_nat (length (@nil Z))). rewrite E.
  destruct (lab_node _ _ _ _ Hok' Hn) as [t Ht]. rewrite (get_ok _ _ _ Ht), put_ok by (by eapply lookup_lt_Some).
  exists lab', (<[n := set_word t]> s'). split_and!; [done|by eapply trie_ok_update| |done|].
  - intros v. rewrite Hl. split; (intros [|H]; [by left|right]).
    + by destruct H as (u & Hu & ->).
    + by exists v.
  - intros m v Hv. unfold word_mark, visit_mark. destruct (decide (v = ws)) as [->|Hne].
    + assert (m = n) as -> by (by eapply lab_inj).
      rewrite list_lookup_insert_eq by (by eapply lookup_lt_Some). split; [done|].
      destruct (Hm n) as [_ Hvm]. unfold visit_mark in Hvm. by rewrite Ht in Hvm.
    + rewrite list_lookup_insert_ne; [apply Hm|]. intros ->. rewrite Hn in Hv. by injection Hv as <-.
Qed.

(** ** The trie of a list of words *)

Lemma empty_trie_ok : trie_ok [[]] empty_trie.
Proof.
  constructor; [done|done|apply NoDup_singleton|..].
  - intros [|[|n]] t w c m; simpl; [|done..]. intros [= <-] [= <-]. simpl. rewrite lookup_empty.
    split; [done|]. by destruct m as [|[|m]].
  - intros w c Hin. apply list_elem_of_singleton in Hin. by destruct w.
  - intros [|[|n]] t w c; simpl; [|done..]. intros _ [= E]. by destruct w.
  - intros [|[|n]] t w; simpl; [|done..]. by intros [= <-] [= <-].
Qed.

(** [lab] labels a trie for the words [ws], none of them visited yet. *)
Definition trie_for (ws : list (list Z)) (lab : list (list Z)) (s : store) : Prop :=
  trie_ok lab s ∧
  (∀ v, v ∈ lab ↔ v = [] ∨ ∃ w, w ∈ ws ∧ v `prefix_of` w) ∧
  ∀ m v, lab !! m = Some v →
    word_mark s m = (if decide (v ∈ ws) then 1 else 0)%Z ∧ visit_mark s m = 0%Z.

Lemma trie_for_snoc ws w lab s :
  trie_for ws lab s → forallb in_next w = true →
  ∃ lab' s', insert_tree 0 w s = Ok (true, s') ∧ trie_for (ws ++ [w]) lab' s'.
Proof.
  intros (Hok & Hlab & Hm) Hw.
  destruct (insert_tree_ok lab s w Hok Hw) as (lab' & s' & E & Hok' & Hlab' & Hk & Hm').
  exists lab', s'. split; [done|]. split_and!; [done| |].
  - intros v. rewrite Hlab', Hlab. setoid_rewrite elem_of_app. setoid_rewrite list_elem_of_singleton.
    split.
    + intros [[?|(u & ? & ?)]|?]; [by left|right; exists u; auto|right; exists w; auto].
    + intros [?|(u & [?| ->] & ?)]; [by left; left|left; right; eauto|by right].
  - intros m v Hv. destruct (Hm' m v Hv) as [-> ->].
    assert (Hold : word_mark s m = (if decide (v ∈ ws) then 1 else 0)%Z ∧ visit_mark s m = 0%Z).
    { destruct (lab !! m) as [v'|] eqn:Hv'.
      - rewrite (Hk _ _ Hv') in Hv. injection Hv as ->. by apply Hm.
      - assert (Hs : s !! m = None).
        { apply lookup_ge_None. apply lookup_ge_None in Hv'. by rewrite <-(lab_len _ _ Hok). }
        unfold word_mark, visit_mark. rewrite Hs. simpl. rewrite decide_False; [done|]. intros Hin.
        assert (Hvl : v ∈ lab) by (apply Hlab; right; by exists v).
        apply list_elem_of_lookup in Hvl as [m' Hm'l]. pose proof (Hk _ _ Hm'l) as Hm'2.
        rewrite (lab_inj _ _ _ _ _ Hok' Hv Hm'2) in Hv'. congruence. }
    destruct Hold as [-> ->]. split; [|done].
    repeat case_decide; try done; exfalso; rewrite elem_of_app, list_elem_of_singleton in *; tauto.
Qed.

Lemma insert_all_ok ws : ∀ ws0 lab s,
  trie_for ws0 lab s → forallb (forallb in_next) ws = true →
  ∃ lab' s', insert_all 0 ws s = Ok (tt, s') ∧ trie_for (ws0 ++ ws) lab' s'.
Proof.
  induction ws as [|w ws IH]; intros ws0 lab s Ht Hws.
  - exists lab, s. by rewrite app_nil_r.
  - simpl in Hws. apply andb_true_iff in Hws as [Hw Hws].
    destruct (trie_for_snoc ws0 w lab s Ht Hw) as (lab1 & s1 & E1 & Ht1).
    cbn [insert_all]. unfold mbind, TM_bind. rewrite E1.
    destruct (IH _ _ _ Ht1 Hws) as (lab2 & s2 & E2 & Ht2). exists lab2, s2.
    split; [done|]. by rewrite <-app_assoc in Ht2.
Qed.

Lemma empty_trie_for : trie_for [] [[]] empty_trie.
Proof.
  split_and!; [apply empty_trie_ok| |].
  - intros v. rewrite list_elem_of_singleton. split; [by left|]. intros [|(w & Hw & _)]; [done|].
    by apply not_elem_of_nil in Hw.
  - intros [|[|m]] v; simpl; [|done..]. intros _. done.
Qed.
