(* ===== verification/AcFail.v ===== *)
(** * [build_fail_ptr]

    The breadth-first pass sets the fail pointer of every node to the node of the
    longest proper suffix of its label that the trie contains, and terminates. *)

From S2P Require Import Prelude AcTrie.
From Stdlib Require Import ZArith Lia.

(** ** Longest suffixes *)

Definition proper_suffix (u w : list Z) : Prop := u `suffix_of` w ∧ u ≠ w.

Definition longest_suffix (lab : list (list Z)) (w u : list Z) : Prop :=
  proper_suffix u w ∧ u ∈ lab ∧ ∀ v, proper_suffix v w → v ∈ lab → length v ≤ length u.

Lemma proper_suffix_length u w : proper_suffix u w → length u < length w.
Proof.
  intros [[k ->] Hne]. rewrite length_app. destruct k; [done|]. simpl. lia.
Qed.

Lemma proper_suffix_snoc v w c :
  proper_suffix v (w ++ [c]) ↔ v = [] ∨ ∃ u, v = u ++ [c] ∧ proper_suffix u w.
Proof.
  split.
  - intros [[k E] Hne]. destruct v as [|c' v _] using rev_ind; [by left|]. right.
    rewrite app_assoc in E. apply app_inj_2 in E as [-> [= ->]]; [|done].
    exists v. split; [done|]. split; [by exists k|]. intros E'. by rewrite <-E' in Hne.
  - intros [->|(u & -> & [[k ->] Hne])].
    + split; [by exists (w ++ [c]); rewrite app_nil_r|]. by destruct w.
    + split; [exists k; by rewrite app_assoc|]. intros E. apply app_inj_2 in E as [E _]; [|done]. done.
Qed.

Lemma proper_suffix_trans u v w : proper_suffix u v → proper_suffix v w → proper_suffix u w.
Proof.
  intros Huv Hvw. pose proof (proper_suffix_length _ _ Huv). pose proof (proper_suffix_length _ _ Hvw).
  split; [etrans; [apply Huv|apply Hvw]|]. intros ->. lia.
Qed.

(** Of two suffixes of a string the shorter one is a suffix of the longer one. *)
Lemma suffix_shorter (u v w : list Z) :
  u `suffix_of` w → v `suffix_of` w → length u < length v → proper_suffix u v.
Proof.
  intros [k ->] [k' E] Hl. split; [|intros ->; lia].
  apply app_eq_inv in E as [(x & -> & ->)|(x & -> & ->)].
  - by exists x.
  - rewrite length_app in Hl. lia.
Qed.

(** ** The search along the fail pointers *)

Definition fail_ok (lab : list (list Z)) (s : store) (n : nat) : Prop :=
  ∀ w t, lab !! n = Some w → s !! n = Some t →
  if decide (w = []) then fail_ptr t = None
  else ∃ f u, fail_ptr t = Some f ∧ lab !! f = Some u ∧ longest_suffix lab w u.

(** No suffix of [w] longer than [u] can be extended by [c]. *)
Definition tried (lab : list (list Z)) (w : list Z) (c : Z) (k : nat) : Prop :=
  ∀ v, proper_suffix v w → v ∈ lab → k ≤ length v → v ++ [c] ∉ lab.

Section find_fail.
Context (lab : list (list Z)) (s : store) (Hok : trie_ok lab s).
Context (w : list Z) (c : Z) (Hc : in_next c = true).
(* fail pointers of shorter labels are in place *)
Context (Hfail : ∀ n v, lab !! n = Some v → length v < length w → fail_ok lab s n).

Lemma find_fail_loop_ok fuel : ∀ ptr,
  (match ptr with
   | None => tried lab w c 0
   | Some p => ∃ u, lab !! p = Some u ∧ proper_suffix u w ∧ tried lab w c (S (length u)) ∧ length u + 1 < fuel
   end) → 0 < fuel →
  ∃ f u, find_fail_loop fuel ptr c 0 s = Ok (f, s) ∧ lab !! f = Some u ∧ longest_suffix lab (w ++ [c]) u.
Proof.
  induction fuel as [|fuel IH]; intros ptr Hptr Hf; [lia|]. cbn [find_fail_loop].
  destruct ptr as [p|].
  - destruct Hptr as (u & Hp & Hu & Htr & Hlen).
    destruct (lab_node _ _ _ _ Hok Hp) as [t Ht]. unfold mbind, TM_bind.
    rewrite (get_ok _ _ _ Ht), (next_at_ok _ _ _ Hc). destruct (next t !! c) as [m|] eqn:En.
    + apply (lab_next _ _ Hok p t u c m Ht Hp) in En. exists m, (u ++ [c]). split_and!; [done|done|].
      split_and!.
      * apply proper_suffix_snoc. right. by exists u.
      * by eapply list_elem_of_lookup_2.
      * intros v [->|(v' & -> & Hv')]%proper_suffix_snoc Hv; [simpl; lia|].
        rewrite !length_app. destruct (decide (length v' ≤ length u)) as [|Hgt]; [lia|].
        exfalso. eapply (Htr v'); [done|by eapply (lab_prefix _ _ Hok)|lia|done].
    + assert (Hno : u ++ [c] ∉ lab).
      { intros [m Hm]%list_elem_of_lookup. apply (lab_next _ _ Hok p t u c m Ht Hp) in Hm. congruence. }
      assert (Htr' : tried lab w c (length u)).
      { intros v Hv Hin Hle. destruct (decide (length v = length u)) as [E|E]; [|by apply Htr; [..|lia]].
        assert (v = u) as ->; [|done]. destruct Hv as [[k ->] _], Hu as [[k' E'] _].
        by apply app_inj_2 in E' as [_ ->]. }
      apply IH; [|lia]. pose proof (Hfail p u Hp (proper_suffix_length _ _ Hu) u t Hp Ht) as Hfp.
      case_decide as Hu0.
      * subst u. by rewrite Hfp.
      * destruct Hfp as (f & u' & -> & Hf' & Hps & Hin & Hmax). exists u'.
        pose proof (proper_suffix_length _ _ Hps). split_and!; [done|by eapply proper_suffix_trans| |lia].
        intros v Hv Hvin Hle. destruct (decide (length u ≤ length v)) as [|Hlt]; [by apply Htr'|].
        exfalso. assert (Hvu : proper_suffix v u).
        { apply (suffix_shorter v u w); [apply Hv|apply Hu|lia]. }
        specialize (Hmax v Hvu Hvin). lia.
  - exists 0, []. split_and!; [done|apply Hok|]. split_and!.
    + apply proper_suffix_snoc. by left.
    + eapply list_elem_of_lookup_2. apply Hok.
    + intros v [->|(v' & -> & Hv')]%proper_suffix_snoc Hv; [done|].
      exfalso. eapply (Hptr v'); [done|by eapply (lab_prefix _ _ Hok)|lia|done].
Qed.

Lemma do_find_fail_ptr_ok fuel cur :
  lab !! cur = Some w → fail_ok lab s cur → length w + 1 < fuel →
  ∃ f u, do_find_fail_ptr fuel cur c 0 s = Ok (f, s) ∧ lab !! f = Some u ∧ longest_suffix lab (w ++ [c]) u.
Proof.
  intros Hw Hcur Hf. destruct (lab_node _ _ _ _ Hok Hw) as [t Ht].
  unfold do_find_fail_ptr, mbind, TM_bind. rewrite (get_ok _ _ _ Ht).
  apply find_fail_loop_ok; [|lia]. specialize (Hcur w t Hw Ht). case_decide as Hw0.
  - rewrite Hcur. intros v Hv. apply proper_suffix_length in Hv. rewrite Hw0 in Hv. simpl in Hv. lia.
  - destruct Hcur as (f & u & -> & Hf' & Hps & Hin & Hmax). exists u.
    pose proof (proper_suffix_length _ _ Hps). split_and!; [done|done| |lia].
    intros v Hv Hvin Hle. specialize (Hmax v Hv Hvin). lia.
Qed.
End find_fail.

(** ** Linking the children of a node *)

Lemma set_fail_marks s n t p m :
  s !! n = Some t →
  word_mark (<[n := set_fail t p]> s) m = word_mark s m ∧
  visit_mark (<[n := set_fail t p]> s) m = visit_mark s m.
Proof.
  intros Ht. unfold word_mark, visit_mark. destruct (decide (m = n)) as [->|Hne].
  - rewrite list_lookup_insert_eq by (by eapply lookup_lt_Some). by rewrite Ht.
  - by rewrite list_lookup_insert_ne.
Qed.

Lemma fail_ok_other lab s n t p m :
  m ≠ n → fail_ok lab s m → fail_ok lab (<[n := set_fail t p]> s) m.
Proof. intros Hne Hf w t' Hw. rewrite list_lookup_insert_ne by done. by apply Hf. Qed.

Lemma fail_ok_set lab s n t w f u :
  s !! n = Some t → lab !! n = Some w → w ≠ [] → lab !! f = Some u → longest_suffix lab w u →
  fail_ok lab (<[n := set_fail t (Some f)]> s) n.
Proof.
  intros Ht Hw Hw0 Hf Hl w' t' Hw' Ht'. rewrite Hw in Hw'. injection Hw' as <-.
  rewrite list_lookup_insert_eq in Ht' by (by eapply lookup_lt_Some). injection Ht' as <-.
  rewrite decide_False by done. by exists f, u.
Qed.

Definition same_marks (s s' : store) : Prop :=
  ∀ m, word_mark s' m = word_mark s m ∧ visit_mark s' m = visit_mark s m.

Lemma same_marks_trans s1 s2 s3 : same_marks s1 s2 → same_marks s2 s3 → same_marks s1 s3.
Proof. intros H1 H2 m. destruct (H1 m), (H2 m). split; congruence. Qed.

Section link.
Context (lab : list (list Z)) (fuel cur : nat) (w : list Z) (pre : list nat) (Q0 : list nat).
Context (Hw : lab !! cur = Some w) (Hfuel : length w + 1 < fuel).
(* [pre] are the nodes linked so far: all that are not deeper than [cur], no child of it *)
Context (Hdone : ∀ m v, lab !! m = Some v → length v ≤ length w → m ∈ pre)
  (Hnew : ∀ m c, lab !! m = Some (w ++ [c]) → m ∉ pre).

(** [Qc] are the children of [cur] below letter [i], with their fail pointers. *)
Record linked (i : Z) (Qc : list nat) (s : store) : Prop := Linked {
  linked_trie : trie_ok lab s;
  linked_pre : ∀ m, m ∈ pre → fail_ok lab s m;
  linked_new : ∀ m, m ∈ Qc → fail_ok lab s m;
  linked_iff : ∀ m, m ∈ Qc ↔ ∃ c, (c < i)%Z ∧ lab !! m = Some (w ++ [c]);
  linked_nodup : NoDup Qc;
}.

Lemma linked_skip i Qc s t :
  linked i Qc s → s !! cur = Some t → next t !! i = None → linked (i + 1) Qc s.
Proof.
  intros [Ht Hp Hn Hi Hd] Hcur Hnone. constructor; [done..| |done].
  intros m. rewrite Hi. split; intros (c & Hc & Hm); exists c; [split; [lia|done]|].
  split; [|done]. assert (c ≠ i); [|lia]. intros ->.
  apply (lab_next _ _ Ht cur t w i m Hcur Hw) in Hm. congruence.
Qed.

Lemma linked_step i Qc s t child :
  linked i Qc s → s !! cur = Some t → next t !! i = Some child →
  ∃ ct f s', s !! child = Some ct ∧ do_find_fail_ptr fuel cur (ch ct) 0 s = Ok (f, s) ∧
    put child (set_fail ct (Some f)) s = Ok (tt, s') ∧ linked (i + 1) (Qc ++ [child]) s' ∧
    same_marks s s'.
Proof.
  intros [Ht Hp Hn Hi Hd] Hcur Hchild. apply (lab_next _ _ Ht cur t w i child Hcur Hw) in Hchild as Hl.
  destruct (lab_node _ _ _ _ Ht Hl) as [ct Hct]. destruct (lab_ch _ _ Ht child ct w i Hct Hl) as [Ech Hin].
  assert (Hcp : cur ∈ pre) by (by apply (Hdone cur w)).
  destruct (do_find_fail_ptr_ok lab s Ht w i Hin) with (fuel := fuel) (cur := cur)
    as (f & u & Ef & Hf & Hls); [|done|by apply Hp|done|].
  { intros n v Hv Hlt. apply Hp, (Hdone n v); [done|lia]. }
  exists ct, f, (<[child := set_fail ct (Some f)]> s). split_and!; [done|by rewrite Ech| | |].
  - apply put_ok. by eapply lookup_lt_Some.
  - constructor.
    + by eapply trie_ok_update.
    + intros m Hm. apply fail_ok_other; [|by apply Hp]. intros ->. by apply (Hnew child i).
    + intros m [Hm|Hm]%elem_of_app.
      * apply fail_ok_other; [|by apply Hn]. intros ->. apply Hi in Hm as (c & Hc & Hm).
        rewrite Hl in Hm. injection Hm as E. apply app_inj_2 in E as [_ [= ->]]; [lia|done].
      * apply list_elem_of_singleton in Hm as ->. eapply fail_ok_set; [done|done| |done|done]. by destruct w.
    + intros m. rewrite elem_of_app, list_elem_of_singleton, Hi. split.
      * intros [(c & Hc & Hm)| ->]; [exists c|exists i]; (split; [lia|done]).
      * intros (c & Hc & Hm). destruct (decide (c = i)) as [->|Hne].
        -- right. by eapply lab_inj.
        -- left. exists c. split; [lia|done].
    + apply NoDup_app. split_and!; [done| |apply NoDup_singleton]. intros m Hm Hm'.
      apply list_elem_of_singleton in Hm' as ->. apply Hi in Hm as (c & Hc & Hm).
      rewrite Hl in Hm. injection Hm as E. apply app_inj_2 in E as [_ [= ->]]; [lia|done].
  - intros m. by apply set_fail_marks.
Qed.

Lemma link_children_ok n : ∀ i Qc s,
  linked i Qc s → (0 ≤ i)%Z → (i + Z.of_nat n = MAXN)%Z →
  ∃ Qc' s', link_children fuel 0 cur n i (Q0 ++ Qc) s = Ok (Q0 ++ Qc', s') ∧
    linked MAXN Qc' s' ∧ same_marks s s'.
Proof.
  induction n as [|n IH]; intros i Qc s Hl Hi Hn.
  - exists Qc, s. split_and!; [done| |done]. by replace MAXN with i by lia.
  - cbn [link_children]. destruct (lab_node _ _ _ _ (linked_trie _ _ _ Hl) Hw) as [t Ht].
    unfold mbind, TM_bind. rewrite (get_ok _ _ _ Ht).
    rewrite next_at_ok by (unfold in_next; rewrite andb_true_iff, Z.leb_le, Z.ltb_lt; lia).
    destruct (next t !! i) as [child|] eqn:En.
    + destruct (linked_step _ _ _ _ _ Hl Ht En) as (ct & f & s1 & Hct & Ef & Eput & Hl1 & Hm1).
      rewrite (get_ok _ _ _ Hct), Ef, (get_ok _ _ _ Hct), Eput.
      destruct (IH (i + 1)%Z (Qc ++ [child]) s1 Hl1) as (Qc' & s' & E & Hl' & Hm'); [lia|lia|].
      exists Qc', s'. rewrite <-app_assoc. split_and!; [done|done|by eapply same_marks_trans].
    + apply IH; [by eapply linked_skip|lia|lia].
Qed.
End link.

(** ** The breadth-first loop *)

Section bfs.
Context (lab : list (list Z)) (depth : nat).
Context (Hdepth : ∀ w, w ∈ lab → length w + 1 < depth).

Definition at_depth (d m : nat) : Prop := ∃ w, lab !! m = Some w ∧ length w = d.

(** [seen] have left the queue; a node enters the queue when its fail pointer is set. *)
Record bfs (seen Q : list nat) (s : store) : Prop := Bfs {
  bfs_trie : trie_ok lab s;
  bfs_fail : ∀ m, m ∈ seen ++ Q → fail_ok lab s m;
  bfs_nodup : NoDup (seen ++ Q);
  bfs_root : 0 ∈ seen ++ Q;
  bfs_children : ∀ p w m c, p ∈ seen → lab !! p = Some w → lab !! m = Some (w ++ [c]) → m ∈ seen ++ Q;
  bfs_parent : ∀ m w c p, m ∈ seen ++ Q → lab !! m = Some (w ++ [c]) → lab !! p = Some w → p ∈ seen;
  bfs_seen : ∀ m, m ∈ seen → m < length lab;
  bfs_levels : ∃ d Q1 Q2, Q = Q1 ++ Q2 ∧ Forall (at_depth d) Q1 ∧ Forall (at_depth (S d)) Q2;
}.

(** The first node of the queue is a shallowest one. *)
Lemma bfs_front seen cur Q s :
  bfs seen (cur :: Q) s →
  ∃ w Q1 Q2, lab !! cur = Some w ∧ Q = Q1 ++ Q2 ∧
    Forall (at_depth (length w)) Q1 ∧ Forall (at_depth (S (length w))) Q2.
Proof.
  intros Hb. destruct (bfs_levels _ _ _ Hb) as (d & [|x Q1] & Q2 & E & H1 & H2); simpl in E.
  - destruct Q2 as [|y Q2]; [done|]. injection E as -> ->.
    apply Forall_cons in H2 as [(w & Hw & <-) H2]. exists w, Q2, []. by rewrite app_nil_r.
  - injection E as -> ->. apply Forall_cons in H1 as [(w & Hw & <-) H1]. by exists w, Q1, Q2.
Qed.

(** All nodes that are not deeper than the front of the queue have been linked. *)
Lemma bfs_done seen cur Q s w :
  bfs seen (cur :: Q) s → lab !! cur = Some w →
  ∀ v m, lab !! m = Some v → length v ≤ length w → m ∈ seen ++ cur :: Q.
Proof.
  intros Hb Hw v. induction v as [|c v IH] using rev_ind; intros m Hm Hle.
  - rewrite (lab_inj _ _ _ _ _ (bfs_trie _ _ _ Hb) Hm (lab_root _ _ (bfs_trie _ _ _ Hb))). apply Hb.
  - assert (Hv : v ∈ lab) by (eapply (lab_prefix _ _ (bfs_trie _ _ _ Hb)); by eapply list_elem_of_lookup_2).
    apply list_elem_of_lookup in Hv as [p Hp]. rewrite length_app in Hle. simpl in Hle.
    specialize (IH p Hp ltac:(lia)). apply elem_of_app in IH as [Hp'|Hp'].
    + by eapply (bfs_children _ _ _ Hb p v).
    + exfalso. destruct (bfs_front _ _ _ _ Hb) as (w' & Q1 & Q2 & Hw' & -> & H1 & H2).
      rewrite Hw in Hw'. injection Hw' as <-. rewrite Forall_forall in H1, H2.
      assert (Hat : ∃ d, length w ≤ d ∧ at_depth d p).
      { rewrite elem_of_cons, elem_of_app in Hp'. destruct Hp' as [->|[Hp'|Hp']].
        - exists (length w). split; [done|by exists w].
        - exists (length w). by split; [|apply H1].
        - exists (S (length w)). split; [lia|by apply H2]. }
      destruct Hat as (d & Hd & v' & Hv' & <-). rewrite Hp in Hv'. injection Hv' as <-. lia.
Qed.

(** The letters on edges are those of [next]. *)
Lemma edge_letter s m w c : trie_ok lab s → lab !! m = Some (w ++ [c]) → (0 ≤ c < MAXN)%Z.
Proof.
  intros Ht Hm. destruct (lab_node _ _ _ _ Ht Hm) as [t Ht'].
  destruct (lab_ch _ _ Ht m t w c Ht' Hm) as [_ Hin]. unfold in_next in Hin. by bool_props.
Qed.

(** A child of the front of the queue has not been linked. *)
Lemma bfs_new seen cur Q s w m c :
  bfs seen (cur :: Q) s → lab !! cur = Some w → lab !! m = Some (w ++ [c]) → m ∉ seen ++ cur :: Q.
Proof.
  intros Hb Hw Hm Hin. pose proof (bfs_nodup _ _ _ Hb) as (_ & Hd & _)%NoDup_app.
  assert (Hs : cur ∈ seen) by (by eapply (bfs_parent _ _ _ Hb m w c)). apply (Hd _ Hs). by left.
Qed.

Lemma bfs_advance seen cur Q s w Qc s' :
  bfs seen (cur :: Q) s → lab !! cur = Some w →
  linked lab w (seen ++ cur :: Q) MAXN Qc s' → bfs (seen ++ [cur]) (Q ++ Qc) s'.
Proof.
  intros Hb Hw [Ht' Hpre Hnew' Hiff Hnd'].
  assert (Hmem : ∀ m, m ∈ (seen ++ [cur]) ++ Q ++ Qc ↔ m ∈ seen ++ cur :: Q ∨ m ∈ Qc).
  { intros m. rewrite !elem_of_app, !elem_of_cons. rewrite elem_of_nil. tauto. }
  constructor.
  - done.
  - intros m [Hin|Hin]%Hmem; [by apply Hpre|by apply Hnew'].
  - replace ((seen ++ [cur]) ++ Q ++ Qc) with ((seen ++ cur :: Q) ++ Qc) by (by rewrite <-!app_assoc).
    apply NoDup_app. split_and!; [apply Hb| |done]. intros m Hin (c & _ & Hmc)%Hiff.
    by eapply bfs_new.
  - apply Hmem. left. apply Hb.
  - intros p v m c Hp Hv Hmc. apply Hmem. apply elem_of_app in Hp as [Hp|Hp].
    + left. by eapply (bfs_children _ _ _ Hb p v).
    + right. apply list_elem_of_singleton in Hp as ->. rewrite Hw in Hv. injection Hv as <-.
      apply Hiff. exists c. split; [by eapply edge_letter|done].
  - intros m v c p Hin Hmc Hp. apply elem_of_app. apply Hmem in Hin as [Hin|Hin].
    + left. by eapply (bfs_parent _ _ _ Hb m v c).
    + right. apply list_elem_of_singleton. apply Hiff in Hin as (c' & _ & Hmc').
      rewrite Hmc in Hmc'. injection Hmc' as E'. apply app_inj_2 in E' as [-> _]; [|done]. by eapply lab_inj.
  - intros m [Hin|Hin]%elem_of_app; [by apply (bfs_seen _ _ _ Hb)|].
    apply list_elem_of_singleton in Hin as ->. by eapply lookup_lt_Some.
  - destruct (bfs_front _ _ _ _ Hb) as (w' & Q1 & Q2 & Hw' & -> & H1 & H2).
    rewrite Hw in Hw'. injection Hw' as <-. exists (length w), Q1, (Q2 ++ Qc).
    split_and!; [by rewrite app_assoc|done|]. apply Forall_app. split; [done|].
    apply Forall_forall. intros m (c & _ & Hmc)%Hiff. exists (w ++ [c]). split; [done|].
    rewrite length_app. simpl. lia.
Qed.

Lemma bfs_step seen cur Q s :
  bfs seen (cur :: Q) s →
  ∃ Q' s', link_children depth 0 cur (Z.to_nat MAXN) 0 Q s = Ok (Q', s') ∧
    bfs (seen ++ [cur]) Q' s' ∧ same_marks s s'.
Proof.
  intros Hb. destruct (bfs_front _ _ _ _ Hb) as (w & _ & _ & Hw & _).
  destruct (link_children_ok lab depth cur w (seen ++ cur :: Q) Q Hw) with
    (n := Z.to_nat MAXN) (i := 0%Z) (Qc := @nil nat) (s := s) as (Qc & s' & E & Hl & Hm); [| | | |lia|done|].
  - apply Hdepth. by eapply list_elem_of_lookup_2.
  - intros m v Hm Hle. by eapply bfs_done.
  - intros m c Hm. by eapply bfs_new.
  - constructor; [apply Hb|apply Hb|by intros m ?%not_elem_of_nil| |constructor].
    intros m. split; [by intros ?%not_elem_of_nil|]. intros (c & Hc & Hm).
    apply (edge_letter s) in Hm; [lia|apply Hb].
  - rewrite app_nil_r in E. exists (Q ++ Qc), s'. split_and!; [exact E|by eapply bfs_advance|exact Hm].
Qed.

Lemma seen_bound seen Q s : bfs seen Q s → length seen ≤ length lab.
Proof.
  intros Hb. pose proof (bfs_nodup _ _ _ Hb) as (Hnd & _ & _)%NoDup_app.
  enough (Hsub : seen ⊆+ seq 0 (length lab)) by (apply submseteq_length in Hsub; by rewrite length_seq in Hsub).
  apply NoDup_submseteq; [done|]. intros m Hm. apply elem_of_seq. pose proof (bfs_seen _ _ _ Hb m Hm). lia.
Qed.

Lemma build_loop_ok fuel : ∀ seen Q s,
  bfs seen Q s → length lab < fuel + length seen →
  ∃ seen' s', build_loop fuel depth 0 Q s = Ok (tt, s') ∧ bfs seen' [] s' ∧ same_marks s s'.
Proof.
  induction fuel as [|fuel IH]; intros seen Q s Hb Hf; cbn [build_loop].
  - pose proof (seen_bound _ _ _ Hb). lia.
  - destruct Q as [|cur Q]; [by exists seen, s|].
    destruct (bfs_step _ _ _ _ Hb) as (Q' & s1 & E & Hb1 & Hm1). unfold mbind, TM_bind. rewrite E.
    destruct (IH _ _ _ Hb1) as (seen' & s' & E' & Hb' & Hm'); [rewrite length_app; simpl; lia|].
    exists seen', s'. split_and!; [done|done|by eapply same_marks_trans].
Qed.

(** When the queue is empty every node has been linked. *)
Lemma bfs_all seen s : bfs seen [] s → ∀ v m, lab !! m = Some v → fail_ok lab s m.
Proof.
  intros Hb v m Hm. apply (bfs_fail _ _ _ Hb). revert m Hm.
  induction v as [|c v IH] using rev_ind; intros m Hm.
  - rewrite (lab_inj _ _ _ _ _ (bfs_trie _ _ _ Hb) Hm (lab_root _ _ (bfs_trie _ _ _ Hb))). apply Hb.
  - assert (Hv : v ∈ lab) by (eapply (lab_prefix _ _ (bfs_trie _ _ _ Hb)); by eapply list_elem_of_lookup_2).
    apply list_elem_of_lookup in Hv as [p Hp]. specialize (IH p Hp). rewrite app_nil_r in IH.
    by eapply (bfs_children _ _ _ Hb p v).
Qed.
End bfs.

(** The fail pointers after [build_fail_ptr]. *)
Lemma build_fail_ptr_ok lab s fuel depth :
  trie_ok lab s → length s < fuel → (∀ w, w ∈ lab → length w + 1 < depth) →
  ∃ s', build_fail_ptr fuel depth 0 s = Ok (true, s') ∧ trie_ok lab s' ∧
    (∀ m v, lab !! m = Some v → fail_ok lab s' m) ∧ same_marks s s'.
Proof.
  intros Hok Hf Hd. pose proof (lab_root _ _ Hok) as H0.
  destruct (lab_node _ _ _ _ Hok H0) as [t Ht]. pose proof (lookup_lt_Some _ _ _ Ht) as Hlt.
  unfold build_fail_ptr, mbind, TM_bind. rewrite (get_ok _ _ _ Ht), put_ok by done.
  set (s0 := <[0 := set_fail t None]> s).
  assert (Hb : bfs lab [] [0] s0).
  { constructor.
    - by eapply trie_ok_update.
    - intros m ->%list_elem_of_singleton w u Hw Hu. unfold s0 in Hu.
      rewrite list_lookup_insert_eq in Hu by done. injection Hu as <-.
      rewrite H0 in Hw. injection Hw as <-. done.
    - apply NoDup_singleton.
    - by left.
    - by intros p w m c ?%not_elem_of_nil.
    - intros m w c p ->%list_elem_of_singleton Hm. rewrite H0 in Hm. injection Hm as E. by destruct w.
    - by intros m ?%not_elem_of_nil.
    - exists 0, [0], []. split_and!; [done| |done]. apply Forall_singleton. by exists []. }
  destruct (build_loop_ok lab depth Hd fuel [] [0] s0 Hb) as (seen & s' & E & Hb' & Hm).
  { simpl. rewrite (lab_len _ _ Hok). lia. }
  rewrite E. exists s'. split_and!; [done|apply Hb'| |].
  - intros m v Hm'. by eapply bfs_all.
  - eapply same_marks_trans; [|exact Hm]. intros m. by apply set_fail_marks.
Qed.
