(* ===== verification/AcSearch.v ===== *)
(** * [search]

    The scan of a text terminates without touching memory outside the trie,
    counts only words that occur in the text, each at most once, and counts every
    word that the text starts with.  It does not find every occurrence: the last
    theorem of this file shows the cases the scan misses. *)

From S2P Require Import Prelude AcTrie AcFail.
From Stdlib Require Import ZArith Lia.

Definition occurs (v text : list Z) : Prop := ∃ a b, text = a ++ v ++ b.

Lemma suffix_occurs (v done rest : list Z) : v `suffix_of` done → occurs v (done ++ rest).
Proof. intros [k ->]. exists k, rest. by rewrite <-app_assoc. Qed.

(** The trie with its fail pointers; marks are 0 or 1. *)
Record auto_ok (lab : list (list Z)) (s : store) : Prop := AutoOk {
  auto_trie : trie_ok lab s;
  auto_fail : ∀ m v, lab !! m = Some v → fail_ok lab s m;
  auto_word : ∀ m, word_mark s m = 0%Z ∨ word_mark s m = 1%Z;
  auto_visit : ∀ m, visit_mark s m = 0%Z ∨ visit_mark s m = 1%Z;
}.

(** [hits] are the nodes counted between [s] and [s']. *)
Record counted (s s' : store) (hits : list nat) : Prop := Counted {
  cnt_nodup : NoDup hits;
  cnt_hit : ∀ m, m ∈ hits → word_mark s m = 1%Z ∧ visit_mark s m = 0%Z ∧ visit_mark s' m = 1%Z;
  cnt_other : ∀ m, m ∉ hits → visit_mark s' m = visit_mark s m;
  cnt_word : ∀ m, word_mark s' m = word_mark s m;
}.

Lemma counted_refl s : counted s s [].
Proof. constructor; [constructor|by intros m ?%not_elem_of_nil|done|done]. Qed.

Lemma counted_trans s1 s2 s3 h1 h2 :
  counted s1 s2 h1 → counted s2 s3 h2 → counted s1 s3 (h1 ++ h2).
Proof.
  intros [N1 H1 O1 W1] [N2 H2 O2 W2].
  assert (Hdis : ∀ m, m ∈ h1 → m ∉ h2).
  { intros m Hm1 Hm2. destruct (H1 m Hm1) as (_ & _ & E1), (H2 m Hm2) as (_ & E2 & _). congruence. }
  constructor.
  - apply NoDup_app. auto.
  - intros m [Hm|Hm]%elem_of_app.
    + destruct (H1 m Hm) as (? & ? & ?). split_and!; [done|done|]. rewrite O2; auto.
    + destruct (H2 m Hm) as (? & ? & ?). rewrite <-W1, <-O1; [done|]. intros Hm1. by apply (Hdis m).
  - intros m [Hm1 Hm2]%not_elem_of_app. rewrite O2, O1; done.
  - intros m. by rewrite W2, W1.
Qed.

(** Marking a word. *)
Lemma mark_ok lab s n t :
  auto_ok lab s → s !! n = Some t → is_word t = 1%Z → is_marked t = 0%Z →
  auto_ok lab (<[n := set_marked t]> s) ∧ counted s (<[n := set_marked t]> s) [n] ∧
  visit_mark (<[n := set_marked t]> s) n = 1%Z.
Proof.
  intros Ha Ht Hw1 Hv0. pose proof (lookup_lt_Some _ _ _ Ht) as Hlt. set (s' := <[n := set_marked t]> s).
  assert (Hm : ∀ m, word_mark s' m = word_mark s m ∧
                    visit_mark s' m = (if decide (m = n) then 1%Z else visit_mark s m)).
  { intros m. unfold word_mark, visit_mark, s'. case_decide as Hmn; [subst m|].
    - rewrite list_lookup_insert_eq by done. by rewrite Ht.
    - by rewrite list_lookup_insert_ne. }
  split_and!; [constructor..|].
  - by eapply trie_ok_update; [apply Ha|done|].
  - intros m w Hm' w' t' Hw' Ht'. unfold s' in Ht'.
    apply list_lookup_insert_Some in Ht' as [(<- & <- & _)|(_ & Ht')].
    + exact (auto_fail _ _ Ha n w Hm' w' t Hw' Ht).
    + exact (auto_fail _ _ Ha m w Hm' w' t' Hw' Ht').
  - intros m. destruct (Hm m) as [-> _]. apply Ha.
  - intros m. destruct (Hm m) as [_ ->]. case_decide; [by right|apply Ha].
  - apply NoDup_singleton.
  - intros m ->%list_elem_of_singleton. destruct (Hm n) as [_ ->]. rewrite decide_True by done.
    unfold word_mark, visit_mark. by rewrite Ht.
  - intros m Hne%not_elem_of_cons. destruct (Hm m) as [_ ->]. by rewrite decide_False by tauto.
  - intros m. apply Hm.
  - destruct (Hm n) as [_ ->]. by rewrite decide_True.
Qed.

(** Counting a node marks it if it is an unmarked word. *)
Lemma check_ok lab s n v :
  auto_ok lab s → lab !! n = Some v →
  ∃ hits s', do_check_and_return_cnt n s = Ok (Z.of_nat (length hits), s') ∧ auto_ok lab s' ∧
    counted s s' hits ∧ (∀ m, m ∈ hits → m = n) ∧ (word_mark s n = 1%Z → visit_mark s' n = 1%Z).
Proof.
  intros Ha Hn. destruct (lab_node _ _ _ _ (auto_trie _ _ Ha) Hn) as [t Ht].
  pose proof (auto_word _ _ Ha n) as Hw01. pose proof (auto_visit _ _ Ha n) as Hv01.
  unfold word_mark in Hw01 |- *. unfold visit_mark in Hv01. rewrite Ht in Hw01, Hv01 |- *. simpl in *.
  unfold do_check_and_return_cnt, mbind, TM_bind. rewrite (get_ok _ _ _ Ht).
  destruct (Z.eqb_spec (is_word t) 0) as [Ew|Ew]; simpl.
  { exists [], s. split_and!; [done|done|apply counted_refl|by intros m ?%not_elem_of_nil|congruence]. }
  destruct Hw01 as [|Hw1]; [done|]. destruct (Z.eqb_spec (is_marked t) 0) as [Ev|Ev].
  - destruct (mark_ok lab s n t Ha Ht Hw1 Ev) as (Ha' & Hc & Hv').
    rewrite (put_ok _ _ _ (lookup_lt_Some _ _ _ Ht)). exists [n], (<[n := set_marked t]> s).
    rewrite Hw1. split_and!; [done|done|done|by intros m ->%list_elem_of_singleton|done].
  - exists [], s. split_and!; [done|done|apply counted_refl|by intros m ?%not_elem_of_nil|].
    intros _. unfold visit_mark. rewrite Ht. simpl. tauto.
Qed.

(** Marks are never taken back. *)
Lemma counted_keeps s s' hits m :
  counted s s' hits → visit_mark s m = 1%Z → visit_mark s' m = 1%Z.
Proof.
  intros [_ Hh Ho _] Hm. destruct (decide (m ∈ hits)) as [Hin|Hin]; [by apply Hh|by rewrite Ho].
Qed.

Section scan.
Context (lab : list (list Z)).

(** Every counted node is labelled by a suffix of [w]. *)
Lemma suffix_loop_ok fuel : ∀ s cur w k,
  auto_ok lab s → lab !! cur = Some w → length w < fuel →
  ∃ hits s', suffix_loop fuel 0 cur k s = Ok ((0, (k + Z.of_nat (length hits))%Z), s') ∧
    auto_ok lab s' ∧ counted s s' hits ∧ ∀ m, m ∈ hits → ∃ v, lab !! m = Some v ∧ v `suffix_of` w.
Proof.
  induction fuel as [|fuel IH]; intros s cur w k Ha Hw Hf; [lia|]. cbn [suffix_loop].
  case_bool_decide as Hc.
  - subst cur. exists [], s. rewrite Z.add_0_r.
    split_and!; [done|done|apply counted_refl|by intros m ?%not_elem_of_nil].
  - destruct (lab_node _ _ _ _ (auto_trie _ _ Ha) Hw) as [t Ht]. unfold mbind, TM_bind.
    rewrite (get_ok _ _ _ Ht). pose proof (auto_fail _ _ Ha cur w Hw w t Hw Ht) as Hfp.
    case_decide as Hw0.
    { destruct Hc. subst w. eapply lab_inj; [apply Ha|done|apply Ha]. }
    destruct Hfp as (f & u & -> & Hfl & Hps & _ & _).
    destruct (check_ok lab s f u Ha Hfl) as (h1 & s1 & -> & Ha1 & Hc1 & Hh1 & _).
    pose proof (proper_suffix_length _ _ Hps).
    destruct (IH s1 f u (k + Z.of_nat (length h1))%Z Ha1 Hfl) as (h2 & s2 & -> & Ha2 & Hc2 & Hh2); [lia|].
    exists (h1 ++ h2), s2. rewrite length_app, Nat2Z.inj_add, Z.add_assoc.
    split_and!; [done|done|by eapply counted_trans|]. intros m [Hm|Hm]%elem_of_app.
    + rewrite (Hh1 m Hm). exists u. split; [done|apply Hps].
    + destruct (Hh2 m Hm) as (v & Hv & Hvu). exists v. split; [done|]. etrans; [exact Hvu|apply Hps].
Qed.

(** What is counted while scanning [rest] after [done]; the current node is
    labelled by a suffix of [done]. *)
Lemma search_loop_ok depth rest : ∀ s cur w done k,
  (∀ v, v ∈ lab → length v < depth) → auto_ok lab s → lab !! cur = Some w → w `suffix_of` done →
  forallb in_next rest = true →
  ∃ hits s', search_loop depth 0 rest cur k s = Ok ((k + Z.of_nat (length hits))%Z, s') ∧
    auto_ok lab s' ∧ counted s s' hits ∧
    (∀ m, m ∈ hits → ∃ v, lab !! m = Some v ∧ occurs v (done ++ rest)) ∧
    (∀ u m, u ≠ [] → u `prefix_of` rest → lab !! m = Some (w ++ u) → word_mark s m = 1%Z →
      visit_mark s' m = 1%Z).
Proof.
  induction rest as [|c rest IH]; intros s cur w done k Hd Ha Hw Hsuf Hr.
  - exists [], s. rewrite Z.add_0_r. split_and!; [done|done|apply counted_refl|by intros m ?%not_elem_of_nil|].
    intros u m Hu Hp. by apply prefix_nil_inv in Hp.
  - simpl in Hr. apply andb_true_iff in Hr as [Hc Hr]. cbn [search_loop].
    destruct (lab_node _ _ _ _ (auto_trie _ _ Ha) Hw) as [t Ht]. unfold mbind, TM_bind.
    rewrite (get_ok _ _ _ Ht), (next_at_ok _ _ _ Hc).
    replace (done ++ c :: rest) with ((done ++ [c]) ++ rest) by (by rewrite <-app_assoc).
    destruct (next t !! c) as [n|] eqn:En.
    + apply (lab_next _ _ (auto_trie _ _ Ha) cur t w c n Ht Hw) in En.
      destruct (check_ok lab s n _ Ha En) as (h1 & s1 & -> & Ha1 & Hc1 & Hh1 & Hv1).
      assert (Hsuf1 : w ++ [c] `suffix_of` done ++ [c]).
      { destruct Hsuf as [x ->]. exists x. by rewrite app_assoc. }
      destruct (IH s1 n (w ++ [c]) (done ++ [c]) (k + Z.of_nat (length h1))%Z Hd Ha1 En Hsuf1 Hr)
        as (h2 & s2 & -> & Ha2 & Hc2 & Hh2 & Hv2).
      exists (h1 ++ h2), s2. rewrite length_app, Nat2Z.inj_add, Z.add_assoc.
      split_and!; [done|done|by eapply counted_trans| |].
      * intros m [Hm|Hm]%elem_of_app; [|by apply Hh2]. rewrite (Hh1 m Hm).
        exists (w ++ [c]). split; [done|by apply suffix_occurs].
      * intros u m Hu Hp Hm Hwm. destruct u as [|c' u]; [done|].
        apply prefix_cons_inv_1 in Hp as Hcc. subst c'. apply prefix_cons_inv_2 in Hp.
        destruct u as [|c' u].
        -- assert (m = n) as -> by (eapply lab_inj; [apply Ha|done|done]).
           eapply counted_keeps; [exact Hc2|by apply Hv1].
        -- apply (Hv2 (c' :: u) m); [done|done|by rewrite <-app_assoc|].
           by rewrite (cnt_word _ _ _ Hc1).
    + destruct (suffix_loop_ok depth s cur w k Ha Hw) as (h1 & s1 & -> & Ha1 & Hc1 & Hh1).
      { apply Hd. by eapply list_elem_of_lookup_2. }
      destruct (IH s1 0 [] (done ++ [c]) (k + Z.of_nat (length h1))%Z Hd Ha1)
        as (h2 & s2 & -> & Ha2 & Hc2 & Hh2 & _); [apply Ha1|by exists (done ++ [c]); rewrite app_nil_r|done|].
      exists (h1 ++ h2), s2. rewrite length_app, Nat2Z.inj_add, Z.add_assoc.
      split_and!; [done|done|by eapply counted_trans| |].
      * intros m [Hm|Hm]%elem_of_app; [|by apply Hh2].
        destruct (Hh1 m Hm) as (v & Hv & Hvw). exists v. split; [done|].
        rewrite <-app_assoc. apply suffix_occurs. by etrans.
      * intros u m Hu Hp Hm _. exfalso. destruct u as [|c' u]; [done|].
        apply prefix_cons_inv_1 in Hp as Hcc. subst c'.
        assert (Hin : w ++ [c] ∈ lab).
        { eapply (prefix_closed lab s); [apply Ha|by eapply list_elem_of_lookup_2|].
          exists u. by rewrite <-app_assoc. }
        apply list_elem_of_lookup in Hin as [n Hn].
        apply (lab_next _ _ (auto_trie _ _ Ha) cur t w c n Ht Hw) in Hn. congruence.
Qed.
End scan.

(** The automaton of a list of words, before the first search. *)
Lemma trie_for_auto ws lab s s1 :
  trie_for ws lab s → trie_ok lab s1 → (∀ m v, lab !! m = Some v → fail_ok lab s1 m) →
  same_marks s s1 →
  auto_ok lab s1 ∧ ∀ m v, lab !! m = Some v → visit_mark s1 m = 0%Z ∧ (word_mark s1 m = 1%Z ↔ v ∈ ws).
Proof.
  intros (Hok & _ & Hm) Hok1 Hf Hs.
  assert (Hmark : ∀ m v, lab !! m = Some v →
    word_mark s1 m = (if decide (v ∈ ws) then 1 else 0)%Z ∧ visit_mark s1 m = 0%Z).
  { intros m v Hv. destruct (Hs m) as [-> ->]. by apply Hm. }
  assert (Hout : ∀ m, lab !! m = None → word_mark s1 m = 0%Z ∧ visit_mark s1 m = 0%Z).
  { intros m Hn. unfold word_mark, visit_mark. rewrite (lookup_ge_None_2 s1); [done|].
    rewrite <-(lab_len _ _ Hok1). by apply lookup_ge_None. }
  split; [constructor; [done|done|..]|].
  - intros m. destruct (lab !! m) as [v|] eqn:Hv.
    + destruct (Hmark m v Hv) as [-> _]. case_decide; auto.
    + left. by apply Hout.
  - intros m. left. destruct (lab !! m) as [v|] eqn:Hv; [by apply (Hmark m v)|by apply Hout].
  - intros m v Hv. destruct (Hmark m v Hv) as [-> ->]. split; [done|]. by case_decide.
Qed.

(** The labels of a list of nodes. *)
Definition labels (lab : list (list Z)) (hits : list nat) : list (list Z) :=
  (λ m, default [] (lab !! m)) <$> hits.

Lemma labels_nodup lab hits :
  NoDup lab → NoDup hits → (∀ m, m ∈ hits → ∃ v, lab !! m = Some v) → NoDup (labels lab hits).
Proof.
  intros Hl Hh Hin. apply NoDup_fmap_2_strong; [|done]. intros m m' Hm Hm' E.
  destruct (Hin m Hm) as [v Hv], (Hin m' Hm') as [v' Hv']. rewrite Hv, Hv' in E. simpl in E.
  eapply NoDup_lookup; [exact Hl|exact Hv|]. by rewrite E.
Qed.

Lemma labels_elem lab hits v :
  (∀ m, m ∈ hits → ∃ v, lab !! m = Some v) →
  v ∈ labels lab hits ↔ ∃ m, m ∈ hits ∧ lab !! m = Some v.
Proof.
  intros Hin. unfold labels. rewrite list_elem_of_fmap. split.
  - intros (m & -> & Hm). destruct (Hin m Hm) as [u Hu]. exists m. by rewrite Hu.
  - intros (m & Hm & Hv). exists m. by rewrite Hv.
Qed.

(** ** Theorems *)

(** Words and texts whose characters index [next] inside its bounds. *)
Definition valid_words (ws : list (list Z)) : Prop := forallb (forallb in_next) ws = true.

(** [insert_tree] stores words.  Inserting valid words into the empty trie
    succeeds; the nodes are then labelled one-to-one by the prefixes of the
    words, an edge [c] leads from label [w] to label [w ++ [c]], and exactly the
    nodes labelled by a word carry the word mark. *)
Lemma insert_all_stores ws :
  valid_words ws →
  ∃ lab s, insert_all 0 ws empty_trie = Ok (tt, s) ∧ trie_ok lab s ∧
    (∀ v, v ∈ lab ↔ v = [] ∨ ∃ w, w ∈ ws ∧ v `prefix_of` w) ∧
    ∀ m v, lab !! m = Some v → word_mark s m = (if decide (v ∈ ws) then 1 else 0)%Z.
Proof.
  intros Hws. destruct (insert_all_ok ws [] _ _ empty_trie_for Hws) as (lab & s & E & Hok & Hl & Hm).
  exists lab, s. split_and!; [done|done|done|]. intros m v Hv. by apply Hm.
Qed.

(** C8. [build_fail_ptr] terminates, visiting each node once, and then the fail
    pointer of every node but the root leads to the node of the longest proper
    suffix of its label that is in the trie; the root has none. *)
Theorem fail_ptr_longest_suffix ws lab s fuel depth :
  trie_for ws lab s → length s < fuel → (∀ w, w ∈ ws → length w + 1 < depth) → 1 < depth →
  ∃ s', build_fail_ptr fuel depth 0 s = Ok (true, s') ∧
    ∀ m w t, lab !! m = Some w → s' !! m = Some t →
      if decide (w = []) then fail_ptr t = None
      else ∃ f u, fail_ptr t = Some f ∧ lab !! f = Some u ∧
             (u `suffix_of` w ∧ u ≠ w) ∧ u ∈ lab ∧
             ∀ v, v `suffix_of` w ∧ v ≠ w → v ∈ lab → length v ≤ length u.
Proof.
  intros (Hok & Hl & _) Hf Hd H1.
  destruct (build_fail_ptr_ok lab s fuel depth Hok Hf) as (s' & E & _ & Hfail & _).
  - intros v [->|(w & Hw & Hv)]%Hl; [done|]. specialize (Hd w Hw).
    apply prefix_length in Hv. lia.
  - exists s'. split; [done|]. intros m w t Hm Ht. by apply (Hfail m w Hm w t).
Qed.

(** C9. [search] on the finished automaton returns for every valid text.  The
    number it returns is that of distinct words, all of them occurring in the
    text, and every non-empty word that the text starts with is among them. *)
Theorem search_counts_occurring_words ws lab s fuel depth text :
  trie_for ws lab s → length s < fuel → (∀ w, w ∈ ws → length w + 1 < depth) → 1 < depth →
  forallb in_next text = true →
  ∃ k s' s'' found, build_fail_ptr fuel depth 0 s = Ok (true, s') ∧
    search depth 0 text s' = Ok (k, s'') ∧ k = Z.of_nat (length found) ∧ NoDup found ∧
    (∀ v, v ∈ found → v ∈ ws ∧ occurs v text) ∧
    ∀ v, v ∈ ws → v ≠ [] → v `prefix_of` text → v ∈ found.
Proof.
  intros (Hok & Hl & Hm) Hf Hd H1 Htext.
  assert (Hd' : ∀ v, v ∈ lab → length v + 1 < depth).
  { intros v [->|(w & Hw & Hv)]%Hl; [done|]. specialize (Hd w Hw). apply prefix_length in Hv. lia. }
  destruct (build_fail_ptr_ok lab s fuel depth Hok Hf Hd') as (s1 & E1 & Hok1 & Hfail & Hmarks).
  destruct (trie_for_auto ws lab s s1) as [Ha Hfresh]; [done..|].
  destruct (search_loop_ok lab depth text s1 0 [] [] 0) as (hits & s2 & E2 & Ha2 & Hc & Hocc & Hpre);
    [|done|apply Hok1|done|done|].
  { intros v Hv. specialize (Hd' v Hv). lia. }
  assert (Hin : ∀ m, m ∈ hits → ∃ v, lab !! m = Some v).
  { intros m (v & Hv & _)%Hocc. by exists v. }
  exists (Z.of_nat (length hits)), s1, s2, (labels lab hits). split_and!; [done|done| | | |].
  - unfold labels. by rewrite length_fmap.
  - apply labels_nodup; [apply Hok|apply Hc|done].
  - intros v (m & Hm' & Hv)%labels_elem; [|done]. destruct (Hocc m Hm') as (v' & Hv' & Ho).
    rewrite Hv in Hv'. injection Hv' as <-. split; [|done].
    apply (Hfresh m v Hv). apply (cnt_hit _ _ _ Hc m Hm').
  - intros v Hv Hv0 Hp. apply labels_elem; [done|].
    assert (Hvl : v ∈ lab) by (apply Hl; right; by exists v).
    apply list_elem_of_lookup in Hvl as [m Hml]. exists m. split; [|done].
    destruct (Hfresh m v Hml) as [Hv1 Hw1]. destruct (decide (m ∈ hits)) as [|Hno]; [done|].
    assert (Hset : visit_mark s2 m = 1%Z) by (by apply (Hpre v m); [..|apply Hw1]).
    rewrite (cnt_other _ _ _ Hc m Hno) in Hset. congruence.
Qed.

(** What [search] returns for a list of words and a text. *)
Definition scan (ws : list string) (text : string) : result Z :=
  match (_ ← insert_all 0 (ascii_bytes <$> ws); _ ← build_fail_ptr 20 20 0;
         search 20 0 (ascii_bytes text)) empty_trie with
  | Ok (k, _) => Ok k
  | Err e => Err e
  end.

(** [search] does not count every word that occurs, although its comment says
    so.  After a mismatch the character is dropped, so a word that starts with it
    is missed ("bc" in "abc"); suffixes of the last match are not examined at the
    end of the text ("he" in "she"), only when another character follows
    ("sher"); and the marks of an earlier search are not cleared. *)
Lemma search_misses_words :
  scan ["ab"; "bc"]%string "abc" = Ok 1%Z ∧ scan ["she"; "he"]%string "she" = Ok 1%Z ∧
  scan ["she"; "he"]%string "sher" = Ok 2%Z ∧
  (match (_ ← insert_tree 0 (ascii_bytes "he"); _ ← build_fail_ptr 20 20 0;
          a ← search 20 0 (ascii_bytes "he"); b ← search 20 0 (ascii_bytes "he");
          mret (a, b)) empty_trie with Ok (ab, _) => Some ab | Err _ => None end) = Some (1, 0)%Z.
Proof. by vm_compute. Qed.

(** ** Instances *)

Definition demo_words : list (list Z) := [ascii_bytes "she"; ascii_bytes "he"].

Lemma insert_all_stores_witness :
  ∃ lab s, insert_all 0 demo_words empty_trie = Ok (tt, s) ∧ trie_ok lab s ∧
    (∀ v, v ∈ lab ↔ v = [] ∨ ∃ w, w ∈ demo_words ∧ v `prefix_of` w) ∧
    ∀ m v, lab !! m = Some v → word_mark s m = (if decide (v ∈ demo_words) then 1 else 0)%Z.
Proof. apply (insert_all_stores demo_words). reflexivity. Defined.

(** The trie of the words of [main]. *)
Lemma demo_trie : ∃ lab s, trie_for demo_words lab s ∧ length s < 10.
Proof.
  destruct (insert_all_ok demo_words [] _ _ empty_trie_for eq_refl) as (lab & s & E & Ht).
  exists lab, s. split; [done|]. vm_compute in E. injection E as <-. simpl. lia.
Qed.

Lemma demo_depth w : w ∈ demo_words → length w + 1 < 10.
Proof. intros [->|[->|[]%elem_of_nil]%elem_of_cons]%elem_of_cons; simpl; lia. Qed.

Lemma fail_ptr_longest_suffix_witness : ∃ lab s s', trie_for demo_words lab s ∧
  build_fail_ptr 10 10 0 s = Ok (true, s') ∧
  ∀ m w t, lab !! m = Some w → s' !! m = Some t →
    if decide (w = []) then fail_ptr t = None
    else ∃ f u, fail_ptr t = Some f ∧ lab !! f = Some u ∧
           (u `suffix_of` w ∧ u ≠ w) ∧ u ∈ lab ∧
           ∀ v, v `suffix_of` w ∧ v ≠ w → v ∈ lab → length v ≤ length u.
Proof.
  destruct demo_trie as (lab & s & Ht & Hlen).
  destruct (fail_ptr_longest_suffix demo_words lab s 10 10 Ht Hlen demo_depth ltac:(lia)) as (s' & E & H).
  by exists lab, s, s'.
Defined.

Lemma search_counts_occurring_words_witness : ∃ lab s k s' s'' found, trie_for demo_words lab s ∧
  build_fail_ptr 10 10 0 s = Ok (true, s') ∧
  search 10 0 (ascii_bytes "sher") s' = Ok (k, s'') ∧ k = Z.of_nat (length found) ∧ NoDup found ∧
  (∀ v, v ∈ found → v ∈ demo_words ∧ occurs v (ascii_bytes "sher")) ∧
  ∀ v, v ∈ demo_words → v ≠ [] → v `prefix_of` ascii_bytes "sher" → v ∈ found.
Proof.
  destruct demo_trie as (lab & s & Ht & Hlen).
  destruct (search_counts_occurring_words demo_words lab s 10 10 (ascii_bytes "sher") Ht Hlen demo_depth
    ltac:(lia) eq_refl) as (k & s' & s'' & found & H).
  by exists lab, s, k, s', s'', found.
Defined.
