(* ===== verification/ExChina.v ===== *)
(** * The Chinese market calendars

    Languages/cpp/19_quantlib_demo/time/calendars/ex_china.cpp on top of the
    QuantLib library.  QuantLib itself is not part of the repository: the class
    [QuantLib] states what the code uses of its [Date] and [Calendar], a date
    being its serial number; QlInstance.v has an instance of it.  The lemmas show
    that a business day is never further away than twelve days; ExMarkets.v has
    the theorems. *)

From S2P Require Import Prelude.
From Stdlib Require Import ZArith Lia.

(** Months and weekdays are numbered as QuantLib's enumerations number them. *)
Abbreviation January := 1%Z.
Abbreviation February := 2%Z.
Abbreviation March := 3%Z.
Abbreviation April := 4%Z.
Abbreviation May := 5%Z.
Abbreviation June := 6%Z.
Abbreviation July := 7%Z.
Abbreviation August := 8%Z.
Abbreviation September := 9%Z.
Abbreviation October := 10%Z.
Abbreviation November := 11%Z.
Abbreviation December := 12%Z.
Abbreviation Sunday := 1%Z.
Abbreviation Saturday := 7%Z.

(** ** QuantLib *)

(** January 1st, 1901 and December 31st, 2199. *)
Definition min_date : Z := 367.
Definition max_date : Z := 109574.

(** Years, months and days follow each other as in the Gregorian calendar. *)
Definition is_leap (y : Z) : bool := ((y mod 4 =? 0) && negb (y mod 100 =? 0) || (y mod 400 =? 0))%Z.

Definition month_length (m y : Z) : Z :=
  if (m =? February)%Z then (if is_leap y then 29 else 28)%Z
  else if (m =? April)%Z || (m =? June)%Z || (m =? September)%Z || (m =? November)%Z then 30%Z else 31%Z.

Definition next_day (c : Z * Z * Z) : Z * Z * Z :=
  let '(y, m, d) := c in
  if (d <? month_length m y)%Z then (y, m, d + 1)%Z
  else if (m <? 12)%Z then (y, m + 1, 1)%Z else (y + 1, 1, 1)%Z.

Definition next_weekday (w : Z) : Z := if (w <? 7)%Z then (w + 1)%Z else 1%Z.

(** What the code relies on: accessors and constructor of [Date],
    [Calendar::adjust(d, Following)] and [Calendar::advance(d, 1, Days,
    Following)] for a calendar given by its [isBusinessDay]. *)
Class QuantLib := {
  dayOfMonth : Z → Z;
  month : Z → Z;
  year : Z → Z;
  weekday : Z → Z;
  mk_date : Z → Z → Z → Z;
  adjust : (Z → bool) → Z → Z;
  advance1 : (Z → bool) → Z → Z;
  ql_first : (year min_date, month min_date, dayOfMonth min_date) = (1901, 1, 1)%Z ∧
    weekday min_date = 3%Z;
  ql_next s : (min_date ≤ s < max_date)%Z →
    (year (s + 1), month (s + 1), dayOfMonth (s + 1)) = next_day (year s, month s, dayOfMonth s) ∧
    weekday (s + 1) = next_weekday (weekday s);
  ql_mk_date s : (min_date ≤ s ≤ max_date)%Z → mk_date (dayOfMonth s) (month s) (year s) = s;
  (* the first business day not before [d], at most a year away *)
  ql_adjust bd d n : (0 ≤ n ≤ 366)%Z → bd (d + n)%Z = true →
    (∀ k, (0 ≤ k < n)%Z → bd (d + k)%Z = false) → adjust bd d = (d + n)%Z;
  ql_advance1 bd d n : (1 ≤ n ≤ 366)%Z → bd (d + n)%Z = true →
    (∀ k, (1 ≤ k < n)%Z → bd (d + k)%Z = false) → advance1 bd d = (d + n)%Z;
}.

(** ** The holidays of ex_china.cpp *)

(** New Year's Day *)
Definition new_year (d m y : Z) : bool := (
  ((d =? 1) && (m =? January))
  || ((y =? 2005) && (d =? 3) && (m =? January))
  || ((y =? 2006) && ((d =? 2) || (d =? 3)) && (m =? January))
  || ((y =? 2007) && (d <=? 3) && (m =? January))
  || ((y =? 2007) && (d =? 31) && (m =? December))
  || ((y =? 2009) && (d =? 2) && (m =? January))
  || ((y =? 2011) && (d =? 3) && (m =? January))
  || ((y =? 2012) && ((d =? 2) || (d =? 3)) && (m =? January))
  || ((y =? 2013) && (d <=? 3) && (m =? January))
  || ((y =? 2014) && (d =? 1) && (m =? January))
  || ((y =? 2015) && (d <=? 3) && (m =? January))
  || ((y =? 2017) && (d =? 2) && (m =? January))
  || ((y =? 2018) && (d =? 1) && (m =? January))
  || ((y =? 2018) && (d =? 31) && (m =? December))
  || ((y =? 2019) && (d =? 1) && (m =? January)))%Z.

(** Chinese New Year *)
Definition chinese_new_year (d m y : Z) : bool := (
  ((y =? 2004) && (19 <=? d) && (d <=? 28) && (m =? January))
  || ((y =? 2005) && (7 <=? d) && (d <=? 15) && (m =? February))
  || ((y =? 2006) && (((26 <=? d) && (m =? January)) || ((d <=? 3) && (m =? February))))
  || ((y =? 2007) && (17 <=? d) && (d <=? 25) && (m =? February))
  || ((y =? 2008) && (6 <=? d) && (d <=? 12) && (m =? February))
  || ((y =? 2009) && (26 <=? d) && (d <=? 30) && (m =? January))
  || ((y =? 2010) && (15 <=? d) && (d <=? 19) && (m =? February))
  || ((y =? 2011) && (2 <=? d) && (d <=? 8) && (m =? February))
  || ((y =? 2012) && (23 <=? d) && (d <=? 28) && (m =? January))
  || ((y =? 2013) && (11 <=? d) && (d <=? 15) && (m =? February))
  || ((y =? 2014) && (31 <=? d) && (m =? January))
  || ((y =? 2014) && (d <=? 6) && (m =? February))
  || ((y =? 2015) && (18 <=? d) && (d <=? 24) && (m =? February))
  || ((y =? 2016) && (8 <=? d) && (d <=? 12) && (m =? February))
  || ((y =? 2017) && (((27 <=? d) && (m =? January)) || ((d <=? 2) && (m =? February))))
  || ((y =? 2018) && ((15 <=? d) && (d <=? 21) && (m =? February)))
  || ((y =? 2019) && (4 <=? d) && (d <=? 8) && (m =? February)))%Z.

(** Ching Ming Festival *)
Definition ching_ming (d m y : Z) : bool := (
  ((y <=? 2008) && (d =? 4) && (m =? April))
  || ((y =? 2009) && (d =? 6) && (m =? April))
  || ((y =? 2010) && (d =? 5) && (m =? April))
  || ((y =? 2011) && (3 <=? d) && (d <=? 5) && (m =? April))
  || ((y =? 2012) && (2 <=? d) && (d <=? 4) && (m =? April))
  || ((y =? 2013) && (4 <=? d) && (d <=? 5) && (m =? April))
  || ((y =? 2014) && (d =? 7) && (m =? April))
  || ((y =? 2015) && (5 <=? d) && (d <=? 6) && (m =? April))
  || ((y =? 2016) && (d =? 4) && (m =? April))
  || ((y =? 2017) && (3 <=? d) && (d <=? 4) && (m =? April))
  || ((y =? 2018) && (5 <=? d) && (d <=? 6) && (m =? April))
  || ((y =? 2019) && (d =? 5) && (m =? April)))%Z.

(** Labor Day *)
Definition labor_day (d m y : Z) : bool := (
  ((y <=? 2007) && (1 <=? d) && (d <=? 7) && (m =? May))
  || ((y =? 2008) && (1 <=? d) && (d <=? 2) && (m =? May))
  || ((y =? 2009) && (d =? 1) && (m =? May))
  || ((y =? 2010) && (d =? 3) && (m =? May))
  || ((y =? 2011) && (d =? 2) && (m =? May))
  || ((y =? 2012) && (((d =? 30) && (m =? April)) || ((d =? 1) && (m =? May))))
  || ((y =? 2013) && (((29 <=? d) && (m =? April)) || ((d =? 1) && (m =? May))))
  || ((y =? 2014) && (1 <=? d) && (d <=? 3) && (m =? May))
  || ((y =? 2015) && (d =? 1) && (m =? May))
  || ((y =? 2016) && (1 <=? d) && (d <=? 2) && (m =? May))
  || ((y =? 2017) && (d =? 1) && (m =? May))
  || ((y =? 2018) && (((d =? 30) && (m =? April)) || ((d =? 1) && (m =? May))))
  || ((y =? 2019) && (1 <=? d) && (d <=? 3) && (m =? May)))%Z.

(** Tuen Ng Festival *)
Definition tuen_ng (d m y : Z) : bool := (
  ((y <=? 2008) && (d =? 9) && (m =? June))
  || ((y =? 2009) && ((d =? 28) || (d =? 29)) && (m =? May))
  || ((y =? 2010) && (14 <=? d) && (d <=? 16) && (m =? June))
  || ((y =? 2011) && (4 <=? d) && (d <=? 6) && (m =? June))
  || ((y =? 2012) && (22 <=? d) && (d <=? 24) && (m =? June))
  || ((y =? 2013) && (10 <=? d) && (d <=? 12) && (m =? June))
  || ((y =? 2014) && (d =? 2) && (m =? June))
  || ((y =? 2015) && (d =? 22) && (m =? June))
  || ((y =? 2016) && (9 <=? d) && (d <=? 10) && (m =? June))
  || ((y =? 2017) && (29 <=? d) && (d <=? 30) && (m =? May))
  || ((y =? 2018) && (d =? 18) && (m =? June))
  || ((y =? 2019) && (d =? 7) && (m =? June)))%Z.

(** Mid-Autumn Festival *)
Definition mid_autumn (d m y : Z) : bool := (
  ((y <=? 2008) && (d =? 15) && (m =? September))
  || ((y =? 2010) && (22 <=? d) && (d <=? 24) && (m =? September))
  || ((y =? 2011) && (10 <=? d) && (d <=? 12) && (m =? September))
  || ((y =? 2012) && (d =? 30) && (m =? September))
  || ((y =? 2013) && (19 <=? d) && (d <=? 20) && (m =? September))
  || ((y =? 2014) && (d =? 8) && (m =? September))
  || ((y =? 2015) && (d =? 27) && (m =? September))
  || ((y =? 2016) && (15 <=? d) && (d <=? 16) && (m =? September))
  || ((y =? 2018) && (d =? 24) && (m =? September))
  || ((y =? 2019) && (d =? 13) && (m =? September)))%Z.

(** National Day *)
Definition national_day (d m y : Z) : bool := (
  ((y <=? 2007) && (1 <=? d) && (d <=? 7) && (m =? October))
  || ((y =? 2008) && (((29 <=? d) && (m =? September)) || ((d <=? 3) && (m =? October))))
  || ((y =? 2009) && (1 <=? d) && (d <=? 8) && (m =? October))
  || ((y =? 2010) && (1 <=? d) && (d <=? 7) && (m =? October))
  || ((y =? 2011) && (1 <=? d) && (d <=? 7) && (m =? October))
  || ((y =? 2012) && (1 <=? d) && (d <=? 7) && (m =? October))
  || ((y =? 2013) && (1 <=? d) && (d <=? 7) && (m =? October))
  || ((y =? 2014) && (1 <=? d) && (d <=? 7) && (m =? October))
  || ((y =? 2015) && (1 <=? d) && (d <=? 7) && (m =? October))
  || ((y =? 2016) && (3 <=? d) && (d <=? 7) && (m =? October))
  || ((y =? 2017) && (2 <=? d) && (d <=? 6) && (m =? October))
  || ((y =? 2018) && (1 <=? d) && (d <=? 5) && (m =? October))
  || ((y =? 2019) && (1 <=? d) && (d <=? 7) && (m =? October)))%Z.

(** 70th anniversary of the victory of anti-Japaneses war *)
Definition victory_anniversary (d m y : Z) : bool := (
  ((y =? 2015) && (3 <=? d) && (d <=? 4) && (m =? September)))%Z.


(** [SseImpl::isWeekend] (the other two implementations have the same body). *)
Definition isWeekend (w : Z) : bool := (w =? Saturday)%Z || (w =? Sunday)%Z.

(** The condition of [SseImpl::isBusinessDay]. *)
Definition sse_holiday (w d m y : Z) : bool :=
  isWeekend w || new_year d m y || chinese_new_year d m y || ching_ming d m y || labor_day d m y
  || tuen_ng d m y || mid_autumn d m y || national_day d m y || victory_anniversary d m y.

(** Saturdays and Sundays on which the interbank market works: day, month, year. *)
Definition working_weekends : list (Z * Z * Z) :=
  [(5, February, 2005); (6, February, 2005); (30, April, 2005);
   (8, May, 2005); (8, October, 2005); (9, October, 2005);
   (31, December, 2005); (28, January, 2006); (29, April, 2006);
   (30, April, 2006); (30, September, 2006); (30, December, 2006);
   (31, December, 2006); (17, February, 2007); (25, February, 2007);
   (28, April, 2007); (29, April, 2007); (29, September, 2007);
   (30, September, 2007); (29, December, 2007); (2, February, 2008);
   (3, February, 2008); (4, May, 2008); (27, September, 2008);
   (28, September, 2008); (4, January, 2009); (24, January, 2009);
   (1, February, 2009); (31, May, 2009); (27, September, 2009);
   (10, October, 2009); (20, February, 2010); (21, February, 2010);
   (12, June, 2010); (13, June, 2010); (19, September, 2010);
   (25, September, 2010); (26, September, 2010); (9, October, 2010);
   (30, January, 2011); (12, February, 2011); (2, April, 2011);
   (8, October, 2011); (9, October, 2011); (31, December, 2011);
   (21, January, 2012); (29, January, 2012); (31, March, 2012);
   (1, April, 2012); (28, April, 2012); (29, September, 2012);
   (5, January, 2013); (6, January, 2013); (16, February, 2013);
   (17, February, 2013); (7, April, 2013); (27, April, 2013);
   (28, April, 2013); (8, June, 2013); (9, June, 2013);
   (22, September, 2013); (29, September, 2013); (12, October, 2013);
   (26, January, 2014); (8, February, 2014); (4, May, 2014);
   (28, September, 2014); (11, October, 2014); (4, January, 2015);
   (15, February, 2015); (28, February, 2015); (6, September, 2015);
   (10, October, 2015); (6, February, 2016); (14, February, 2016);
   (12, June, 2016); (18, September, 2016); (8, October, 2016);
   (9, October, 2016); (22, January, 2017); (4, February, 2017);
   (1, April, 2017); (27, May, 2017); (30, September, 2017);
   (11, February, 2018); (24, February, 2018); (8, April, 2018);
   (28, April, 2018); (29, September, 2018); (30, September, 2018);
   (29, December, 2018); (2, February, 2019); (3, February, 2019);
   (28, April, 2019); (5, May, 2019); (29, September, 2019);
   (12, October, 2019)]%Z.

(** [enum Market] *)
Inductive Market := SSE | SZSE | IB.

#[global] Instance Market_eq_dec : EqDecision Market.
Proof. solve_decision. Defined.

Section calendars.
Context `{!QuantLib}.

(** [SseImpl::isBusinessDay] *)
Definition sse_isBusinessDay (date : Z) : bool :=
  negb (sse_holiday (weekday date) (dayOfMonth date) (month date) (year date)).

(** [IbImpl::isBusinessDay] *)
Definition ib_isBusinessDay (date : Z) : bool :=
  sse_isBusinessDay date
  || existsb (λ '(d, m, y), (mk_date d m y =? date)%Z) working_weekends.

(** [SzseImpl::isBusinessDay] *)
Definition szse_isBusinessDay (date : Z) : bool := sse_isBusinessDay date.

(** [ExChina::ExChina(Market m)]: the implementation that [m] selects. *)
Definition ExChina (m : Market) : Z → bool :=
  match m with
  | SSE => sse_isBusinessDay
  | SZSE => szse_isBusinessDay
  | IB => ib_isBusinessDay
  end.
End calendars.

(** ** Walking through the calendar *)

Abbreviation day := (Z * Z * Z * Z)%type.

Definition first_day : day := (1901, 1, 1, 3)%Z.
Definition step (c : day) : day :=
  let '(y, m, d, w) := c in (next_day (y, m, d), next_weekday w).
Definition day_at (n : nat) : day := Nat.iter n step first_day.
Definition holiday_at (c : day) : bool := let '(y, m, d, w) := c in sse_holiday w d m y.

(** No thirteen holidays in a row among the next [fuel] days; [run] of the days
    before were holidays. *)
Fixpoint no_long_run (fuel : nat) (c : day) (run : Z) : bool :=
  match fuel with
  | O => true
  | S fuel =>
      let run := if holiday_at c then (run + 1)%Z else 0%Z in
      (run <=? 12)%Z && no_long_run fuel (step c) run
  end.

(** The years that the holiday tables cover, and the next: January 1st, 2004 to
    December 31st, 2020. *)
Definition data_first : Z := 37987.
Definition data_last : Z := 44196.

Lemma data_first_day : day_at (Z.to_nat (data_first - min_date)) = (2004, January, 1, 5)%Z.
Proof. vm_compute. reflexivity. Qed.

Lemma no_long_run_all :
  no_long_run (Z.to_nat (data_last - data_first + 1)) (2004, January, 1, 5)%Z 0 = true.
Proof. vm_compute. reflexivity. Qed.

Lemma day_at_S n : day_at (S n) = step (day_at n).
Proof. done. Qed.

Lemma no_long_run_next fuel : ∀ n run,
  no_long_run fuel (day_at n) run = true → (0 ≤ run ≤ 12)%Z → (13 - run ≤ Z.of_nat fuel)%Z →
  ∃ i, (Z.of_nat i ≤ 12 - run)%Z ∧ holiday_at (day_at (n + i)) = false.
Proof.
  induction fuel as [|fuel IH]; intros n run Hs Hr Hf; [lia|]. cbn [no_long_run] in Hs.
  apply andb_true_iff in Hs as [Hr' Hs]. apply Z.leb_le in Hr'. rewrite <-day_at_S in Hs.
  destruct (holiday_at (day_at n)) eqn:E.
  - destruct (IH (S n) (run + 1)%Z Hs) as (i & Hi & Hh); [lia|lia|]. exists (S i).
    rewrite Nat.add_succ_r. split; [lia|done].
  - exists 0. rewrite Nat.add_0_r. split; [lia|done].
Qed.

Lemma no_long_run_drop fuel : ∀ n run j,
  no_long_run fuel (day_at n) run = true → (0 ≤ run ≤ 12)%Z → j ≤ fuel →
  ∃ run', (0 ≤ run' ≤ 12)%Z ∧ no_long_run (fuel - j) (day_at (n + j)) run' = true.
Proof.
  induction fuel as [|fuel IH]; intros n run [|j] Hs Hr Hj; [exists run; rewrite Nat.add_0_r; done|lia| |].
  - exists run. by rewrite Nat.sub_0_r, Nat.add_0_r.
  - cbn [no_long_run] in Hs. apply andb_true_iff in Hs as [Hr' Hs]. apply Z.leb_le in Hr'.
    rewrite <-day_at_S in Hs. rewrite Nat.add_succ_r. eapply (IH (S n)); [exact Hs| |lia].
    destruct (holiday_at (day_at n)); lia.
Qed.

Section dates.
Context `{!QuantLib}.

Definition day_of (s : Z) : day := (year s, month s, dayOfMonth s, weekday s).

(** The accessors follow the Gregorian calendar. *)
Lemma day_of_at n : (min_date + Z.of_nat n ≤ max_date)%Z → day_of (min_date + Z.of_nat n) = day_at n.
Proof.
  induction n as [|n IH]; intros Hn.
  - rewrite Z.add_0_r. destruct ql_first as [E1 E2]. unfold day_of. by rewrite E1, E2.
  - rewrite day_at_S, <-IH by lia.
    replace (min_date + Z.of_nat (S n))%Z with (min_date + Z.of_nat n + 1)%Z by lia.
    destruct (ql_next (min_date + Z.of_nat n)) as [E1 E2]; [lia|]. unfold day_of.
    by rewrite E1, E2.
Qed.

Lemma day_of_serial s : (min_date ≤ s ≤ max_date)%Z → day_of s = day_at (Z.to_nat (s - min_date)).
Proof. intros Hs. rewrite <-day_of_at by lia. f_equal. lia. Qed.

Lemma sse_holiday_at s : sse_isBusinessDay s = negb (holiday_at (day_of s)).
Proof. done. Qed.

(** The next business day, [n] days ahead. *)
Definition next_business (bd : Z → bool) (s n : Z) : Prop :=
  bd (s + n)%Z = true ∧ ∀ k, (0 ≤ k < n)%Z → bd (s + k)%Z = false.

Lemma next_business_exists (bd : Z → bool) s (n : nat) :
  bd (s + Z.of_nat n)%Z = true → ∃ k, (0 ≤ k ≤ Z.of_nat n)%Z ∧ next_business bd s k.
Proof.
  revert s. induction n as [|n IH]; intros s Hn.
  - exists 0%Z. split; [lia|]. split; [by rewrite Z.add_0_r in *|lia].
  - destruct (bd s) eqn:E.
    + exists 0%Z. split; [lia|]. split; [by rewrite Z.add_0_r|lia].
    + destruct (IH (s + 1)%Z) as (k & Hk & Hb & Hno).
      { by replace (s + 1 + Z.of_nat n)%Z with (s + Z.of_nat (S n))%Z by lia. }
      exists (k + 1)%Z. split; [lia|]. split.
      * by replace (s + (k + 1))%Z with (s + 1 + k)%Z by lia.
      * intros j Hj. destruct (decide (j = 0)%Z) as [->|Hj0]; [by rewrite Z.add_0_r|].
        replace (s + j)%Z with (s + 1 + (j - 1))%Z by lia. apply Hno. lia.
Qed.

Lemma sse_business_near s :
  (data_first ≤ s ≤ data_last - 12)%Z → ∃ n, (0 ≤ n ≤ 12)%Z ∧ next_business sse_isBusinessDay s n.
Proof.
  intros Hs. set (j0 := Z.to_nat (data_first - min_date)). set (j := Z.to_nat (s - data_first)).
  pose proof no_long_run_all as Hall. rewrite <-data_first_day in Hall. fold j0 in Hall.
  destruct (no_long_run_drop _ j0 0 j Hall) as (run & Hr & Hrun); [lia|lia|].
  destruct (no_long_run_next _ _ _ Hrun Hr) as (i & Hi & Hh); [unfold data_last, data_first in *; lia|].
  destruct (next_business_exists sse_isBusinessDay s i) as (n & Hn & Hb); [|exists n; split; [lia|done]].
  unfold data_first, data_last in *. rewrite sse_holiday_at, day_of_serial by (unfold min_date, max_date; lia).
  replace (Z.to_nat (s + Z.of_nat i - min_date)) with (j0 + j + i) by (unfold min_date in *; lia). by rewrite Hh.
Qed.

(** The interbank market works on the days the stock exchange does, and more. *)
Lemma market_business_near m s :
  (data_first ≤ s ≤ data_last - 12)%Z → ∃ n, (0 ≤ n ≤ 12)%Z ∧ next_business (ExChina m) s n.
Proof.
  intros Hs. destruct (sse_business_near s Hs) as (n & Hn & Hb & Hno).
  destruct m; [by exists n|by exists n|].
  destruct (next_business_exists (ExChina IB) s (Z.to_nat n)) as (k & Hk & Hk').
  - rewrite Z2Nat.id by lia. unfold ExChina, ib_isBusinessDay. by rewrite Hb.
  - exists k. split; [lia|done].
Qed.

(** [adjust] and [advance] return the next business day. *)
Lemma adjust_business m s :
  (data_first ≤ s ≤ data_last - 12)%Z →
  ∃ n, (0 ≤ n ≤ 12)%Z ∧ adjust (ExChina m) s = (s + n)%Z ∧ next_business (ExChina m) s n.
Proof.
  intros Hs. destruct (market_business_near m s Hs) as (n & Hn & Hb & Hno).
  exists n. split; [lia|]. split; [|done]. apply ql_adjust; [lia|done|done].
Qed.

Lemma advance_business m s :
  (data_first ≤ s ≤ data_last - 13)%Z →
  ∃ n, (1 ≤ n ≤ 13)%Z ∧ advance1 (ExChina m) s = (s + n)%Z ∧ next_business (ExChina m) (s + 1) (n - 1).
Proof.
  intros Hs. destruct (market_business_near m (s + 1)) as (n & Hn & Hb & Hno); [lia|].
  exists (n + 1)%Z. replace (n + 1 - 1)%Z with n by lia. split; [lia|]. split; [|done].
  apply ql_advance1; [lia| |].
  - by replace (s + (n + 1))%Z with (s + 1 + n)%Z by lia.
  - intros k Hk. replace (s + k)%Z with (s + 1 + (k - 1))%Z by lia. apply Hno. lia.
Qed.
End dates.
