(* ===== verification/QlInstance.v ===== *)
(** * An instance of the QuantLib interface

    The Gregorian calendar computed day by day, its inverse, and the linear search
    for a business day: the interface [QuantLib] of ExChina.v can be implemented,
    and the theorems about the calendars can be evaluated. *)

From S2P Require Import Prelude ExChina.
From Stdlib Require Import ZArith Lia.

(** ** Serial numbers from year, month and day *)

Definition days_before_year (y : Z) : Z :=
  (365 * (y - 1) + (y - 1) / 4 - (y - 1) / 100 + (y - 1) / 400)%Z.

Definition days_before_month (m y : Z) : Z :=
  foldr Z.add 0%Z ((λ i, month_length i y) <$> seqZ 1 (m - 1)).

Definition serial_of (d m y : Z) : Z :=
  (days_before_year y - days_before_year 1901 + days_before_month m y + d + 366)%Z.

Definition valid_day (c : Z * Z * Z) : Prop :=
  let '(y, m, d) := c in (1 ≤ m ≤ 12)%Z ∧ (1 ≤ d ≤ month_length m y)%Z.

Lemma month_length_pos m y : (28 ≤ month_length m y ≤ 31)%Z.
Proof. unfold month_length. repeat case_match; lia. Qed.

Lemma next_day_valid c : valid_day c → valid_day (next_day c).
Proof.
  destruct c as [[y m] d]. intros [Hm Hd]. unfold next_day.
  pose proof (month_length_pos 1 (y + 1)). pose proof (month_length_pos (m + 1) y).
  destruct (Z.ltb_spec d (month_length m y)); [simpl; lia|].
  destruct (Z.ltb_spec m 12); simpl; lia.
Qed.

Lemma days_before_year_next y :
  days_before_year (y + 1) = (days_before_year y + (if is_leap y then 366 else 365))%Z.
Proof.
  unfold days_before_year, is_leap. replace (y + 1 - 1)%Z with y by lia.
  destruct (Z.eqb_spec (y mod 4) 0), (Z.eqb_spec (y mod 100) 0), (Z.eqb_spec (y mod 400) 0);
    simpl; Z.to_euclidean_division_equations; lia.
Qed.

Lemma days_before_month_next m y :
  (1 ≤ m)%Z → days_before_month (m + 1) y = (days_before_month m y + month_length m y)%Z.
Proof.
  intros Hm. unfold days_before_month. replace (m + 1 - 1)%Z with ((m - 1) + 1)%Z by lia.
  rewrite seqZ_app by lia. rewrite fmap_app. replace (1 + (m - 1))%Z with m by lia.
  rewrite (seqZ_cons m 1) by lia. change (seqZ _ _) with (@nil Z) at 2.
  induction ((λ i, month_length i y) <$> seqZ 1 (m - 1)) as [|x l IH]; simpl in *; lia.
Qed.

Lemma days_before_month_13 y :
  (days_before_month 12 y + month_length 12 y)%Z = (if is_leap y then 366 else 365)%Z.
Proof. unfold days_before_month. change (seqZ 1 (12 - 1)) with [1;2;3;4;5;6;7;8;9;10;11]%Z. unfold month_length. simpl. by destruct (is_leap y). Qed.

Lemma serial_of_next c :
  valid_day c →
  (let '(y, m, d) := next_day c in serial_of d m y) = (let '(y, m, d) := c in serial_of d m y + 1)%Z.
Proof.
  destruct c as [[y m] d]. intros [Hm Hd]. unfold next_day.
  destruct (Z.ltb_spec d (month_length m y)); [unfold serial_of; lia|].
  destruct (Z.ltb_spec m 12); unfold serial_of.
  - rewrite days_before_month_next by lia. lia.
  - assert (m = 12%Z) as -> by lia. pose proof (days_before_month_13 y).
    rewrite days_before_year_next. change (days_before_month 1 (y + 1)) with 0%Z. lia.
Qed.

Lemma day_at_serial n :
  let '(y, m, d, w) := day_at n in valid_day (y, m, d) ∧ serial_of d m y = (min_date + Z.of_nat n)%Z.
Proof.
  induction n as [|n IH].
  - split; [split; vm_compute; split; discriminate|reflexivity].
  - rewrite day_at_S. destruct (day_at n) as [[[y m] d] w]. destruct IH as [Hv Hs]. unfold step.
    destruct (next_day (y, m, d)) as [[y' m'] d'] eqn:E.
    pose proof (next_day_valid _ Hv) as Hv'. pose proof (serial_of_next _ Hv) as Hs'. rewrite E in Hv', Hs'.
    split; [done|]. lia.
Qed.

(** ** The search for a business day *)

Fixpoint search_business (fuel : nat) (bd : Z → bool) (d : Z) : Z :=
  match fuel with
  | O => d
  | S fuel => if bd d then d else search_business fuel bd (d + 1)
  end.

Lemma search_business_ok bd n : ∀ fuel d,
  n < fuel → bd (d + Z.of_nat n)%Z = true → (∀ k, (0 ≤ k < Z.of_nat n)%Z → bd (d + k)%Z = false) →
  search_business fuel bd d = (d + Z.of_nat n)%Z.
Proof.
  induction n as [|n IH]; intros [|fuel] d Hf Hb Hno; [lia| |lia|]; cbn [search_business].
  - rewrite Z.add_0_r in *. by rewrite Hb.
  - pose proof (Hno 0%Z ltac:(lia)) as H0. rewrite Z.add_0_r in H0. rewrite H0.
    rewrite IH; [lia|lia| |].
    + by replace (d + 1 + Z.of_nat n)%Z with (d + Z.of_nat (S n))%Z by lia.
    + intros k Hk. replace (d + 1 + k)%Z with (d + (k + 1))%Z by lia. apply Hno. lia.
Qed.

(** ** The instance *)

Definition at_serial (s : Z) : day := day_at (Z.to_nat (s - min_date)).

Lemma at_serial_next s : (min_date ≤ s)%Z → at_serial (s + 1) = step (at_serial s).
Proof.
  intros Hs. unfold at_serial. rewrite <-day_at_S. f_equal. lia.
Qed.

#[global] Program Instance gregorian : QuantLib := {|
  year s := (at_serial s).1.1.1;
  month s := (at_serial s).1.1.2;
  dayOfMonth s := (at_serial s).1.2;
  weekday s := (at_serial s).2;
  mk_date := serial_of;
  adjust := search_business 367;
  advance1 bd d := search_business 367 bd (d + 1);
|}.
Next Obligation. split; reflexivity. Qed.
Next Obligation.
  intros s Hs. cbn beta. rewrite at_serial_next by lia. destruct (at_serial s) as [[[y m] d] w].
  cbn [step fst snd]. destruct (next_day (y, m, d)) as [[? ?] ?] eqn:E. cbn [fst snd].
  split; [by symmetry|done].
Qed.
Next Obligation.
  intros s Hs. pose proof (day_at_serial (Z.to_nat (s - min_date))) as H.
  unfold at_serial. destruct (day_at _) as [[[y m] d] w]. destruct H as [_ H]. cbn [fst snd]. lia.
Qed.
Next Obligation.
  intros bd d n Hn Hb Hno. rewrite <-(Z2Nat.id n) by lia. apply search_business_ok.
  - lia.
  - by rewrite Z2Nat.id by lia.
  - intros k Hk. apply Hno. lia.
Qed.
Next Obligation.
  intros bd d n Hn Hb Hno.
  replace (d + n)%Z with (d + 1 + Z.of_nat (Z.to_nat (n - 1)))%Z by lia. apply search_business_ok.
  - lia.
  - by replace (d + 1 + Z.of_nat (Z.to_nat (n - 1)))%Z with (d + n)%Z by lia.
  - intros k Hk. replace (d + 1 + k)%Z with (d + (k + 1))%Z by lia. apply Hno. lia.
Qed.
