(* ===== verification/ExMarkets.v ===== *)
(** * How the market calendars relate

    Theorems about the calendars of ExChina.v: stock exchanges close on weekends,
    the interbank market adds exactly the listed working weekends, and in the years
    the tables cover every market opens again within twelve days. *)

From S2P Require Import Prelude ExChina QlInstance.
From Stdlib Require Import ZArith Lia.

(** ** The working weekends are weekends *)

(** Walk through the calendar and meet the days of [l] one after the other, each on
    a weekend. *)
Fixpoint meets_weekends (fuel : nat) (c : day) (l : list (Z * Z * Z)) : bool :=
  match l with
  | [] => true
  | (d, m, y) :: l' =>
      match fuel with
      | O => false
      | S fuel =>
          let '(y', m', d', w) := c in
          if (y =? y')%Z && (m =? m')%Z && (d =? d')%Z
          then isWeekend w && meets_weekends fuel (step c) l'
          else meets_weekends fuel (step c) l
      end
  end.

Lemma meets_weekends_all :
  meets_weekends (Z.to_nat (data_last - data_first)) (2004, January, 1, 5)%Z working_weekends = true.
Proof. vm_compute. reflexivity. Qed.

Definition weekend_at (n : nat) (c : Z * Z * Z) : Prop :=
  let '(d, m, y) := c in ∃ w, day_at n = (y, m, d, w) ∧ isWeekend w = true.

Lemma meets_weekends_spec fuel : ∀ n l,
  meets_weekends fuel (day_at n) l = true → Forall (λ c, ∃ i, i < n + fuel ∧ weekend_at i c) l.
Proof.
  induction fuel as [|fuel IH]; intros n [|[[d m] y] l] H; try done.
  cbn [meets_weekends] in H. destruct (day_at n) as [[[y' m'] d'] w] eqn:E. rewrite <-E, <-day_at_S in H.
  destruct (_ && _) eqn:Et.
  - bool_props. subst. constructor; [exists n; split; [lia|by exists w]|].
    eapply Forall_impl; [by apply IH|]. intros c (i & Hi & Hc). exists i. split; [lia|done].
  - eapply Forall_impl; [by apply IH|]. intros c (i & Hi & Hc). exists i. split; [lia|done].
Qed.

Lemma working_weekend_at c :
  c ∈ working_weekends → ∃ n, (min_date + Z.of_nat n ≤ data_last)%Z ∧ weekend_at n c.
Proof.
  intros Hc. pose proof meets_weekends_all as H. rewrite <-data_first_day in H.
  apply meets_weekends_spec in H. rewrite Forall_forall in H. destruct (H c Hc) as (n & Hn & Hw).
  exists n. split; [|done]. revert Hn. unfold data_last, data_first, min_date. lia.
Qed.

Section markets.
Context `{!QuantLib}.

Definition dmy (s : Z) : Z * Z * Z := (dayOfMonth s, month s, year s).

(** A listed day has one serial number, and it is on a weekend. *)
Lemma working_weekend_serial d m y :
  (d, m, y) ∈ working_weekends →
  ∃ s, (min_date ≤ s ≤ max_date)%Z ∧ mk_date d m y = s ∧ dmy s = (d, m, y) ∧ isWeekend (weekday s) = true.
Proof.
  intros Hc. destruct (working_weekend_at _ Hc) as (n & Hn & w & Hd & Hw).
  assert (min_date + Z.of_nat n ≤ max_date)%Z by (unfold data_last, max_date in *; lia).
  pose proof (day_of_at n ltac:(done)) as E. rewrite Hd in E. unfold day_of in E. simplify_eq.
  exists (min_date + Z.of_nat n)%Z. split_and!; [lia|lia| |done|done].
  apply ql_mk_date. lia.
Qed.

Lemma ib_listed s :
  existsb (λ '(d, m, y), (mk_date d m y =? s)%Z) working_weekends = true ↔
  ∃ d m y, (d, m, y) ∈ working_weekends ∧ mk_date d m y = s.
Proof.
  rewrite existsb_exists. split.
  - intros ([[d m] y] & Hin & E). exists d, m, y. split; [by apply list_elem_of_In|lia].
  - intros (d & m & y & Hin & E). exists (d, m, y). split; [by apply list_elem_of_In|lia].
Qed.

Lemma weekend_closed s : isWeekend (weekday s) = true → sse_isBusinessDay s = false.
Proof. intros Hw. unfold sse_isBusinessDay, sse_holiday. by rewrite Hw. Qed.

Lemma ib_listed_serial s :
  (min_date ≤ s ≤ max_date)%Z →
  existsb (λ '(d, m, y), (mk_date d m y =? s)%Z) working_weekends = true ↔ dmy s ∈ working_weekends.
Proof.
  intros Hs. rewrite ib_listed. split.
  - intros (d & m & y & Hin & E). destruct (working_weekend_serial d m y Hin) as (s' & _ & E' & Hd & _).
    assert (s = s') as -> by congruence. by rewrite Hd.
  - intros Hin. exists (dayOfMonth s), (month s), (year s). split; [exact Hin|]. by apply ql_mk_date.
Qed.

Lemma working_weekends_distinct : NoDup working_weekends ∧ length working_weekends = 97.
Proof. split; [apply (bool_decide_unpack _); vm_compute; exact I|reflexivity]. Qed.

(** C39. The table of working weekends lists 97 different days.  Each is a day of the
    calendar and a Saturday or a Sunday, on which the two stock exchanges are closed and
    the interbank market is open; on every other day of the calendar the three markets
    agree. *)
Theorem ib_adds_working_weekends :
  NoDup working_weekends ∧ length working_weekends = 97 ∧
  (∀ d m y, (d, m, y) ∈ working_weekends →
   ∃ s, (min_date ≤ s ≤ max_date)%Z ∧ mk_date d m y = s ∧ dmy s = (d, m, y) ∧ isWeekend (weekday s) = true ∧
     ExChina SSE s = false ∧ ExChina SZSE s = false ∧ ExChina IB s = true) ∧
  (∀ s, (min_date ≤ s ≤ max_date)%Z → dmy s ∉ working_weekends →
   ExChina IB s = ExChina SSE s ∧ ExChina SZSE s = ExChina SSE s).
Proof.
  split; [apply working_weekends_distinct|]. split; [apply working_weekends_distinct|]. split.
  - intros d m y Hin. destruct (working_weekend_serial d m y Hin) as (s & Hs & E & Hd & Hw). exists s.
    pose proof (weekend_closed s Hw) as Hc. unfold ExChina, szse_isBusinessDay, ib_isBusinessDay. rewrite Hc.
    do 6 (split; [done|]). apply ib_listed_serial; [done|]. by rewrite Hd.
  - intros s Hs Hin. split; [|done]. unfold ExChina, ib_isBusinessDay.
    destruct (existsb _ _) eqn:E; [by apply ib_listed_serial in E|]. apply orb_false_r.
Qed.

(** From any day of the years that the tables cover, each market is open on
    some day within the next twelve; [adjust] returns the first such day, and that
    day is no weekend unless it is a listed working weekend of the interbank
    market. *)
Lemma market_reopens m s :
  (data_first ≤ s ≤ data_last - 12)%Z →
  ∃ n, (0 ≤ n ≤ 12)%Z ∧ adjust (ExChina m) s = (s + n)%Z ∧
    ExChina m (s + n)%Z = true ∧ (∀ k, (0 ≤ k < n)%Z → ExChina m (s + k)%Z = false) ∧
    (isWeekend (weekday (s + n)) = true → m = IB ∧ dmy (s + n) ∈ working_weekends).
Proof.
  intros Hs. destruct (adjust_business m s Hs) as (n & Hn & Ha & Hb & Hno).
  exists n. split_and!; [lia|lia|done|done|done|]. intros Hw.
  pose proof (weekend_closed _ Hw) as Hc. destruct m; [unfold ExChina in Hb; congruence| |].
  - unfold ExChina, szse_isBusinessDay in Hb. congruence.
  - split; [done|]. unfold ExChina, ib_isBusinessDay in Hb. rewrite Hc, orb_false_l in Hb.
    apply ib_listed in Hb as (d & mm & y & Hin & E).
    destruct (working_weekend_serial d mm y Hin) as (s' & _ & E' & Hd & _). rewrite <-E, E', Hd. done.
Qed.
End markets.

(** Sunday, September 29th, 2019 is listed; Tuesday, October 1st is not. *)
Example ib_adds_working_weekends_witness :
  (∃ s, mk_date 29 September 2019 = s ∧ isWeekend (weekday s) = true ∧ ExChina SSE s = false ∧ ExChina IB s = true) ∧
  ExChina IB 43739 = ExChina SSE 43739.
Proof.
  destruct ib_adds_working_weekends as (_ & _ & Hlisted & Hothers). split.
  - destruct (Hlisted 29%Z September 2019%Z) as (s & _ & E & _ & Hw & Hs & _ & Hi).
    + apply (bool_decide_unpack _). vm_compute. exact I.
    + exists s. split; [exact E|]. split; [exact Hw|]. split; [exact Hs|exact Hi].
  - assert (Hr : (min_date ≤ 43739 ≤ max_date)%Z) by (unfold min_date, max_date; lia).
    assert (Hn : dmy 43739 ∉ working_weekends) by (apply (bool_decide_unpack _); vm_compute; exact I).
    exact (proj1 (Hothers 43739%Z Hr Hn)).
Defined.

(** Tuesday, October 1st, 2019. *)
Example market_reopens_witness :
  (data_first ≤ 43739 ≤ data_last - 12)%Z ∧
  ∃ n, (0 ≤ n ≤ 12)%Z ∧ adjust (ExChina IB) 43739 = (43739 + n)%Z ∧
    ExChina IB (43739 + n)%Z = true ∧ (∀ k, (0 ≤ k < n)%Z → ExChina IB (43739 + k)%Z = false) ∧
    (isWeekend (weekday (43739 + n)) = true → IB = IB ∧ dmy (43739 + n) ∈ working_weekends).
Proof.
  assert (H : (data_first ≤ 43739 ≤ data_last - 12)%Z) by (unfold data_first, data_last; lia).
  split; [exact H|]. exact (market_reopens IB 43739 H).
Defined.
