(* ===== verification/Dict.v ===== *)
(** * Repo products of the exchanges

    Languages/cpp/19_quantlib_demo/dict_def.hpp: the enumerations of the pledged
    and outright repo products, the product of a term in days and the printed
    names.  The names of the two stock exchanges are the ones their comments
    document; the table of the interbank market is shifted by one. *)

From S2P Require Import Prelude.
From Stdlib Require Import ZArith Lia.

(** [enum ClearSpeed] and its values *)
Inductive ClearSpeed := T0 | T1.
Definition speed_days (s : ClearSpeed) : Z := match s with T0 => 0 | T1 => 1 end.

(** [type < len ? dict[type] : dict[0]] *)
Definition dict_name (dict : list string) (type : nat) : string :=
  match dict !! type with Some s => s | None => dict !!! 0 end.

(** ** [Exchange::SSE] *)
Module SSE.
Inductive PLEDGE_BOND_REPO :=
  | UNKNOWN_REPO | GC001 | GC002 | GC003 | GC004 | GC007 | GC014 | GC028 | GC091 | GC182.

Definition value (type : PLEDGE_BOND_REPO) : nat :=
  match type with
  | UNKNOWN_REPO => 0 | GC001 => 1 | GC002 => 2 | GC003 => 3 | GC004 => 4
  | GC007 => 5 | GC014 => 6 | GC028 => 7 | GC091 => 8 | GC182 => 9
  end.

Definition pledge_bond_repo_to_string (type : PLEDGE_BOND_REPO) : string :=
  dict_name ["UNKNOWN"; "GC001"; "GC002"; "GC003"; "GC004"; "GC007"; "GC014"; "GC028"; "GC091"; "GC182"]
    (value type).

Definition convert_days_to_enum (days : Z) : PLEDGE_BOND_REPO :=
  match days with
  | 1 => GC001 | 2 => GC002 | 3 => GC003 | 4 => GC004 | 7 => GC007
  | 14 => GC014 | 28 => GC028 | 91 => GC091 | 182 => GC182
  | _ => UNKNOWN_REPO
  end%Z.
End SSE.

(** ** [Exchange::SZSE] *)
Module SZSE.
Inductive PLEDGE_BOND_REPO :=
  | UNKNOWN_REPO | R_001 | R_002 | R_003 | R_004 | R_007 | R_014 | R_028 | R_091 | R_182.

Definition value (type : PLEDGE_BOND_REPO) : nat :=
  match type with
  | UNKNOWN_REPO => 0 | R_001 => 1 | R_002 => 2 | R_003 => 3 | R_004 => 4
  | R_007 => 5 | R_014 => 6 | R_028 => 7 | R_091 => 8 | R_182 => 9
  end.

Definition pledge_bond_repo_to_string (type : PLEDGE_BOND_REPO) : string :=
  dict_name ["UNKNOWN"; "R-001"; "R-002"; "R-003"; "R-004"; "R-007"; "R-014"; "R-028"; "R-091"; "R-182"]
    (value type).

Definition convert_days_to_enum (days : Z) : PLEDGE_BOND_REPO :=
  match days with
  | 1 => R_001 | 2 => R_002 | 3 => R_003 | 4 => R_004 | 7 => R_007
  | 14 => R_014 | 28 => R_028 | 91 => R_091 | 182 => R_182
  | _ => UNKNOWN_REPO
  end%Z.
End SZSE.

(** ** [Exchange::IB] *)
Module IB.
Inductive OUTRIGHT_REPO :=
  | UNKNOWN_KIND | R001 | R007 | R014 | R021 | R1M | R2M | R3M | R4M | R6M | R9M | R1Y.

Definition value (type : OUTRIGHT_REPO) : nat :=
  match type with
  | UNKNOWN_KIND => 0 | R001 => 1 | R007 => 2 | R014 => 3 | R021 => 4 | R1M => 5
  | R2M => 6 | R3M => 7 | R4M => 8 | R6M => 9 | R9M => 10 | R1Y => 11
  end.

Definition outright_repo_to_string (type : OUTRIGHT_REPO) : string :=
  dict_name ["UNKNOWN"; "R001"; "R007"; "R014"; "R004"; "R021"; "R1M"; "R2M"; "R3M"; "R4M"; "R6M"; "R9M"; "R1Y"]
    (value type).

Definition convert_days_to_enum (days : Z) : OUTRIGHT_REPO :=
  if (days =? 1)%Z then R001
  else if (1 <? days)%Z && (days <=? 7)%Z then R007
  else if (7 <? days)%Z && (days <=? 14)%Z then R014
  else if (14 <? days)%Z && (days <=? 21)%Z then R021
  else if (21 <? days)%Z && (days <=? 30)%Z then R1M
  else if (30 <? days)%Z && (days <=? 60)%Z then R2M
  else if (60 <? days)%Z && (days <=? 90)%Z then R3M
  else if (90 <? days)%Z && (days <=? 120)%Z then R4M
  else if (120 <? days)%Z && (days <=? 180)%Z then R6M
  else if (180 <? days)%Z && (days <=? 270)%Z then R9M
  else if (270 <? days)%Z && (days <=? 365)%Z then R1Y
  else UNKNOWN_KIND.
End IB.

(** ** What the comments document *)

(** The terms traded on the two exchanges. *)
Definition terms : list Z := [1; 2; 3; 4; 7; 14; 28; 91; 182]%Z.

(** A term in three decimal digits. *)
Definition digit (n : Z) : string := String (Ascii.ascii_of_N (Z.to_N (48 + n mod 10))) "".
Definition three_digits (n : Z) : string := digit (n / 100) +:+ digit (n / 10) +:+ digit n.

(** The documented products of the interbank market: enumerator, its name, first
    and last term. *)
Definition ib_products : list (IB.OUTRIGHT_REPO * string * Z * Z) :=
  [(IB.R001, "R001", 1, 1); (IB.R007, "R007", 2, 7); (IB.R014, "R014", 8, 14);
   (IB.R021, "R021", 15, 21); (IB.R1M, "R1M", 22, 30); (IB.R2M, "R2M", 31, 60);
   (IB.R3M, "R3M", 61, 90); (IB.R4M, "R4M", 91, 120); (IB.R6M, "R6M", 121, 180);
   (IB.R9M, "R9M", 181, 270); (IB.R1Y, "R1Y", 271, 365)]%Z.

Lemma not_term_cases d :
  d ∉ terms → (∀ A (a1 a2 a3 a4 a7 a14 a28 a91 a182 dflt : A),
    match d with 1 => a1 | 2 => a2 | 3 => a3 | 4 => a4 | 7 => a7 | 14 => a14 | 28 => a28
    | 91 => a91 | 182 => a182 | _ => dflt end%Z = dflt).
Proof.
  intros Hd A **. repeat (case_match; try reflexivity); exfalso; apply Hd; unfold terms; set_solver.
Qed.

(** The name that the product of a term is printed with determines the term; other
    terms have no product. *)
Lemma pledge_names d :
  SSE.pledge_bond_repo_to_string (SSE.convert_days_to_enum d)
    = (if decide (d ∈ terms) then "GC" +:+ three_digits d else "UNKNOWN") ∧
  SZSE.pledge_bond_repo_to_string (SZSE.convert_days_to_enum d)
    = (if decide (d ∈ terms) then "R-" +:+ three_digits d else "UNKNOWN").
Proof.
  case_decide as Hd.
  - unfold terms in Hd. rewrite !elem_of_cons in Hd.
    destruct Hd as [->|[->|[->|[->|[->|[->|[->|[->|[->|Hd]]]]]]]]]; [split; vm_compute; reflexivity..|].
    by apply elem_of_nil in Hd.
  - unfold SSE.convert_days_to_enum, SZSE.convert_days_to_enum. by rewrite !not_term_cases.
Qed.

(** The interbank products partition the terms from 1 to 365 days as documented. *)
Lemma outright_products d k :
  (IB.convert_days_to_enum d = k ∧ k ≠ IB.UNKNOWN_KIND) ↔
  ∃ name lo hi, (k, name, lo, hi) ∈ ib_products ∧ (lo ≤ d ≤ hi)%Z.
Proof.
  unfold IB.convert_days_to_enum, ib_products. split.
  - intros [<- Hk]. repeat case_match; bool_props; try done;
      do 3 eexists; (split; [rewrite !elem_of_cons; naive_solver|simpl; lia]).
  - intros (name & lo & hi & Hin & Hd). rewrite !elem_of_cons in Hin.
    destruct_or!; try (by apply elem_of_nil in Hin); simplify_eq;
      (split; [|done]); repeat case_match; bool_props; lia || done.
Qed.

(** The printed name of an interbank product is the documented one for the terms
    up to 14 days only: the table has an entry R004 that the enumeration lacks, so
    every later product is printed with the name of its predecessor. *)
Lemma outright_names_shifted k name lo hi :
  (k, name, lo, hi) ∈ ib_products → (IB.outright_repo_to_string k = name ↔ (hi ≤ 14)%Z).
Proof.
  unfold ib_products. rewrite !elem_of_cons. intros Hin.
  destruct_or!; try (by apply elem_of_nil in Hin); simplify_eq; vm_compute; naive_solver.
Qed.

Example outright_names_shifted_witness :
  (IB.R1M, "R1M", 22, 30)%Z ∈ ib_products ∧ (IB.outright_repo_to_string IB.R1M = "R1M" ↔ (30 ≤ 14)%Z).
Proof.
  assert (H : (IB.R1M, "R1M", 22, 30)%Z ∈ ib_products) by (unfold ib_products; set_solver).
  split; [exact H|]. exact (outright_names_shifted _ _ _ _ H).
Defined.
