(* ===== verification/Repo.v ===== *)
(** * Pledged and outright repos

    Languages/cpp/19_quantlib_demo/pledge_repo.hpp and outright_repo.hpp: settlement
    dates, the product of a term, the days the money is occupied and the interest.
    A [Decimal] is a binary64 number, with the arithmetic of SpecFloat.  The
    theorems bound the occupied days and check the tables that [run] prints. *)

From S2P Require Import Prelude ExChina QlInstance ExMarkets Dict.
From Stdlib Require Import ZArith Lia.

(** ** [PledgeRepo] *)
Module PledgeRepo.
Section pledge.
Context `{!QuantLib}.

Definition CalcFirstSettlementDate (trade_date : Z) (tn : ClearSpeed) : Z :=
  match tn with
  | T0 => trade_date
  | _ => adjust (ExChina SSE) (trade_date + speed_days tn)
  end.

Definition CalcExpireSettlementDate (trade_date repo_days : Z) (speed : ClearSpeed) : Z :=
  let expire_date := (trade_date + repo_days)%Z in
  adjust (ExChina SSE) expire_date.

Definition GetRepoByDays (days : Z) : SSE.PLEDGE_BOND_REPO := SSE.convert_days_to_enum days.

Definition CapitalOccupationDays (trade_date repo_days : Z) : Z :=
  let ib_calender := ExChina SSE in
  let entry_date := adjust ib_calender (trade_date + 1) in
  let expired_date := (trade_date + repo_days)%Z in
  let expired_liquidate := adjust ib_calender expired_date in
  let entry_date_back := advance1 ib_calender expired_liquidate in
  (entry_date_back - entry_date)%Z.

Definition CalcRepurchaseInterest (trade_date : Z) (turnover rate : double) (repo_days : Z)
    (speed : ClearSpeed) : double :=
  let occupation_days := CapitalOccupationDays trade_date repo_days in
  double_div (double_mul (double_mul turnover rate) (double_of_Z occupation_days)) (double_of_Z 360).

(** The comparison of [run] for one trade date: the computed days and whether they
    are the expected ones. *)
Definition run_case (trade_date : Z) (short_repo ans : list Z) : list (Z * bool) :=
  zip_with (λ days a, let diff_days := CapitalOccupationDays trade_date days in
                      (diff_days, (a =? diff_days)%Z)) short_repo ans.

Definition run_days : list (list (Z * bool)) :=
  [run_case (mk_date 25 September 2019) terms [1; 4; 12; 12; 13; 14; 28; 91; 182]%Z;
   run_case (mk_date 26 September 2019) terms [3; 11; 11; 11; 12; 14; 28; 91; 182]%Z;
   run_case (mk_date 27 September 2019) terms [8; 8; 8; 9; 9; 14; 28; 91; 182]%Z].
End pledge.
End PledgeRepo.

(** ** [OutRightRepo] *)
Module OutRightRepo.
Section outright.
Context `{!QuantLib}.

Definition CalcFirstSettlementDate (trade_date : Z) (speed : ClearSpeed) : Z :=
  adjust (ExChina IB) (trade_date + speed_days speed).

Definition CalcExpireSettlementDate (first_settlement_date repo_days : Z) : Z :=
  adjust (ExChina IB) (first_settlement_date + repo_days).

Definition get_InnerBank_kind (days : Z) : IB.OUTRIGHT_REPO := IB.convert_days_to_enum days.

Definition CapitalOccupationDays (trade_date repo_days : Z) (speed : ClearSpeed) : Z :=
  let first_settlement_date := CalcFirstSettlementDate trade_date speed in
  let expired_date := CalcExpireSettlementDate first_settlement_date repo_days in
  (expired_date - first_settlement_date)%Z.

(** What [run] prints: first and last settlement date, name of the product, days. *)
Definition run : Z * Z * string * Z :=
  let trade_date := mk_date 14 March 2019 in
  let repo_days := 30%Z in
  let first_settlement_date := CalcFirstSettlementDate trade_date T1 in
  let expired := CalcExpireSettlementDate first_settlement_date repo_days in
  let type := get_InnerBank_kind repo_days in
  let repo_kind := IB.outright_repo_to_string type in
  let diff_days := CapitalOccupationDays trade_date repo_days T1 in
  (first_settlement_date, expired, repo_kind, diff_days).
End outright.
End OutRightRepo.

(** ** Business days and order *)

Section order.
Context `{!QuantLib}.

(** [d] is the first business day not before [s]. *)
Definition first_business (m : Market) (s d : Z) : Prop :=
  (s ≤ d)%Z ∧ ExChina m d = true ∧ ∀ k, (s ≤ k < d)%Z → ExChina m k = false.

Lemma first_business_mono m s s' d d' :
  first_business m s d → first_business m s' d' → (s ≤ s')%Z → (d ≤ d')%Z.
Proof.
  intros (_ & _ & Hno) (Hs' & Hb' & _) Hs. destruct (decide (d ≤ d')%Z); [done|].
  rewrite Hno in Hb' by lia. done.
Qed.

Lemma next_business_first m s n : (0 ≤ n)%Z → next_business (ExChina m) s n → first_business m s (s + n).
Proof.
  intros Hn [Hb Hno]. split_and!; [lia|done|]. intros k Hk. replace k with (s + (k - s))%Z by lia.
  apply Hno. lia.
Qed.

Lemma adjust_first m s :
  (data_first ≤ s ≤ data_last - 12)%Z →
  first_business m s (adjust (ExChina m) s) ∧ (adjust (ExChina m) s ≤ s + 12)%Z.
Proof.
  intros Hs. destruct (adjust_business m s Hs) as (n & Hn & -> & Hb).
  split; [|lia]. apply next_business_first; [lia|done].
Qed.

Lemma advance_first m s :
  (data_first ≤ s ≤ data_last - 13)%Z →
  first_business m (s + 1) (advance1 (ExChina m) s) ∧ (advance1 (ExChina m) s ≤ s + 13)%Z.
Proof.
  intros Hs. destruct (advance_business m s Hs) as (n & Hn & -> & Hb). split; [|lia].
  replace (s + n)%Z with (s + 1 + (n - 1))%Z by lia. apply next_business_first; [lia|done].
Qed.

Lemma first_business_unique m s d d' : first_business m s d → first_business m s d' → d = d'.
Proof.
  intros Hd Hd'. pose proof (first_business_mono _ _ _ _ _ Hd Hd').
  pose proof (first_business_mono _ _ _ _ _ Hd' Hd). lia.
Qed.

(** A trade date whose repo of at most [r] days settles within the covered years. *)
Definition covered (t r : Z) : Prop := (data_first ≤ t ∧ 1 ≤ r ∧ t + r ≤ data_last - 25)%Z.

(** The occupied days of a covered trade. *)
Lemma pledge_days t r :
  covered t r →
  ∃ entry liquidate back,
    first_business SSE (t + 1) entry ∧ first_business SSE (t + r) liquidate ∧
    first_business SSE (liquidate + 1) back ∧
    PledgeRepo.CapitalOccupationDays t r = (back - entry)%Z ∧
    (1 ≤ back - entry)%Z ∧ (r - 12 ≤ back - entry ≤ r + 24)%Z.
Proof.
  intros (Ht & Hr & Htr).
  destruct (adjust_first SSE (t + 1)) as [He He']; [lia|].
  destruct (adjust_first SSE (t + r)) as [Hl Hl']; [lia|]. set (l := adjust _ (t + r)) in *.
  destruct (advance_first SSE l) as [Hb Hb']; [destruct Hl; lia|].
  exists (adjust (ExChina SSE) (t + 1)), l, (advance1 (ExChina SSE) l).
  split_and!; [done|done|done|reflexivity| | |];
    pose proof (first_business_mono SSE _ _ _ _ He Hl ltac:(lia)); destruct He, Hl, Hb; lia.
Qed.

Lemma pledge_days_range t r :
  covered t r → (1 ≤ PledgeRepo.CapitalOccupationDays t r)%Z ∧ (PledgeRepo.CapitalOccupationDays t r ≤ r + 24)%Z.
Proof. intros Hc. destruct (pledge_days t r Hc) as (? & ? & ? & _ & _ & _ & -> & ? & ?). lia. Qed.

(** The money of a pledged repo of [r] days is occupied from the first SSE
    business day after the trade (included) to the first SSE business day after the
    liquidation day (excluded); it is at least one day, and differs from the term by
    at most 12 days less or 24 days more. *)
Lemma pledge_occupation t r :
  covered t r →
  ∃ entry liquidate back,
    first_business SSE (t + 1) entry ∧ first_business SSE (t + r) liquidate ∧
    first_business SSE (liquidate + 1) back ∧
    PledgeRepo.CapitalOccupationDays t r = (back - entry)%Z ∧
    (1 ≤ back - entry)%Z ∧ (r - 12 ≤ back - entry ≤ r + 24)%Z.
Proof. exact (pledge_days t r). Qed.

(** A longer pledged repo never occupies the money for fewer days. *)
Lemma pledge_occupation_mono t r r' :
  covered t r → covered t r' → (r ≤ r')%Z →
  (PledgeRepo.CapitalOccupationDays t r ≤ PledgeRepo.CapitalOccupationDays t r')%Z.
Proof.
  intros (Ht & Hr & Htr) (_ & _ & Htr') Hrr. unfold PledgeRepo.CapitalOccupationDays.
  destruct (adjust_first SSE (t + r)) as [Hl Hl']; [lia|]. set (l := adjust _ (t + r)) in *.
  destruct (adjust_first SSE (t + r')) as [Hm Hm']; [lia|]. set (l' := adjust _ (t + r')) in *.
  assert (l ≤ l')%Z as Hll by (eapply first_business_mono; [done|done|lia]).
  destruct (advance_first SSE l) as [Hb _]; [destruct Hl; lia|].
  destruct (advance_first SSE l') as [Hb' _]; [destruct Hm; lia|].
  pose proof (first_business_mono SSE _ _ _ _ Hb Hb' ltac:(lia)). lia.
Qed.

(** Both settlement days of an outright repo are interbank business days, the
    second is the first one not before the end of the term, and the money is
    occupied for the term or up to twelve days more. *)
Lemma outright_occupation t r speed :
  covered t r →
  let first := OutRightRepo.CalcFirstSettlementDate t speed in
  let expire := OutRightRepo.CalcExpireSettlementDate first r in
  first_business IB (t + speed_days speed) first ∧ first_business IB (first + r) expire ∧
  OutRightRepo.CapitalOccupationDays t r speed = (expire - first)%Z ∧
  (r ≤ OutRightRepo.CapitalOccupationDays t r speed ≤ r + 12)%Z.
Proof.
  intros (Ht & Hr & Htr) first expire.
  assert (0 ≤ speed_days speed ≤ 1)%Z by (destruct speed; simpl; lia).
  destruct (adjust_first IB (t + speed_days speed)) as [Hf Hf']; [lia|].
  change (adjust _ _) with first in Hf, Hf'.
  destruct (adjust_first IB (first + r)) as [He He']; [destruct Hf; lia|].
  change (adjust _ _) with expire in He, He'.
  split_and!; [done|done|reflexivity|..]; change (OutRightRepo.CapitalOccupationDays t r speed) with (expire - first)%Z;
    destruct He; lia.
Qed.
End order.

(** ** Evaluating the calendar *)

(** Days until the first SSE business day not before day [c], at most [fuel]. *)
Fixpoint wait (closed : day → bool) (fuel : nat) (c : day) : Z :=
  match fuel with
  | O => 0
  | S fuel => if closed c then (1 + wait closed fuel (step c))%Z else 0%Z
  end.

Definition after (c : day) (n : Z) : day := Nat.iter (Z.to_nat n) step c.

(** The interbank market is closed. *)
Definition ib_closed (c : day) : bool :=
  let '(y, m, d, w) := c in
  holiday_at c && negb (existsb (λ '(d', m', y'), (d' =? d)%Z && (m' =? m)%Z && (y' =? y)%Z) working_weekends).

Definition closed_at (m : Market) : day → bool := match m with IB => ib_closed | _ => holiday_at end.

Definition occupation_at (c : day) (r : Z) : Z :=
  let entry := (1 + wait holiday_at 13 (after c 1))%Z in
  let liquidate := (r + wait holiday_at 13 (after c r))%Z in
  let back := (liquidate + 1 + wait holiday_at 13 (after c (liquidate + 1)))%Z in
  (back - entry)%Z.

Lemma wait_first closed fuel : ∀ c n,
  (n < fuel)%nat → closed (Nat.iter n step c) = false → (∀ k, k < n → closed (Nat.iter k step c) = true) →
  wait closed fuel c = Z.of_nat n.
Proof.
  induction fuel as [|fuel IH]; intros c n Hn Hb Hno; [lia|]. cbn [wait]. destruct n as [|n].
  - simpl in Hb. by rewrite Hb.
  - pose proof (Hno 0 ltac:(lia)) as H0. simpl in H0. rewrite H0. rewrite (IH (step c) n); [lia|lia| |].
    + by rewrite <-Nat.iter_succ_r.
    + intros k Hk. rewrite <-Nat.iter_succ_r. apply Hno. lia.
Qed.

Section evaluate.
Context `{!QuantLib}.

Lemma day_of_after s n :
  (min_date ≤ s)%Z → (0 ≤ n)%Z → (s + n ≤ max_date)%Z → day_of (s + n) = after (day_of s) n.
Proof.
  intros Hs Hn Hm. rewrite !day_of_serial by lia. unfold after, day_at. rewrite <-Nat.iter_add.
  f_equal. lia.
Qed.

Lemma market_closed m s :
  (min_date ≤ s ≤ max_date)%Z → ExChina m s = negb (closed_at m (day_of s)).
Proof.
  intros Hs. destruct m; [done|done|]. cbn [closed_at ExChina]. unfold ib_isBusinessDay.
  rewrite sse_holiday_at. unfold ib_closed, day_of. rewrite negb_andb, negb_involutive. f_equal. apply eq_true_iff_eq. rewrite ib_listed, existsb_exists. split.
  - intros (d & m & y & Hin & E). exists (d, m, y). split; [by apply list_elem_of_In|].
    destruct (working_weekend_serial d m y Hin) as (s' & _ & E' & Hd & _).
    assert (s = s') as <- by congruence. unfold dmy in Hd. injection Hd as -> -> ->. rewrite !andb_true_iff, !Z.eqb_eq. done.
  - intros ([[d m] y] & Hin & E). bool_props. subst. do 3 eexists. split; [by apply list_elem_of_In|].
    by apply ql_mk_date.
Qed.

Lemma adjust_at m s :
  (data_first ≤ s ≤ data_last - 12)%Z →
  adjust (ExChina m) s = (s + wait (closed_at m) 13 (day_of s))%Z.
Proof.
  intros Hs. destruct (adjust_business m s Hs) as (n & Hn & -> & Hb & Hno). f_equal.
  assert (Hat : ∀ k : nat, (Z.of_nat k ≤ n)%Z →
    closed_at m (Nat.iter k step (day_of s)) = negb (ExChina m (s + Z.of_nat k))).
  { intros k Hk. unfold data_first, data_last in Hs.
    rewrite market_closed, negb_involutive, day_of_after by (unfold min_date, max_date; lia).
    unfold after. by rewrite Nat2Z.id. }
  rewrite (wait_first (closed_at m) 13 (day_of s) (Z.to_nat n)); [lia|lia| |].
  - rewrite Hat by lia. rewrite Z2Nat.id by lia. by rewrite Hb.
  - intros k Hk. rewrite Hat by lia. rewrite Hno by lia. done.
Qed.

Lemma advance_adjust m s :
  (data_first ≤ s ≤ data_last - 13)%Z → advance1 (ExChina m) s = adjust (ExChina m) (s + 1).
Proof.
  intros Hs. apply (first_business_unique m (s + 1)).
  - apply advance_first. lia.
  - apply adjust_first. lia.
Qed.

Lemma wait_range closed fuel c : (0 ≤ wait closed fuel c ≤ Z.of_nat fuel)%Z.
Proof. revert c. induction fuel as [|fuel IH]; intros c; cbn [wait]; [lia|]. specialize (IH (step c)). case_match; lia. Qed.

Lemma adjust_after m t n :
  (data_first ≤ t)%Z → (0 ≤ n)%Z → (t + n ≤ data_last - 12)%Z →
  adjust (ExChina m) (t + n) = (t + (n + wait (closed_at m) 13 (after (day_of t) n)))%Z.
Proof.
  intros Ht Hn Htn. rewrite adjust_at by lia. unfold data_first, data_last in *.
  rewrite day_of_after by (unfold min_date, max_date; lia). lia.
Qed.

Lemma pledge_occupation_at t r :
  covered t r → PledgeRepo.CapitalOccupationDays t r = occupation_at (day_of t) r.
Proof.
  intros (Ht & Hr & Htr). unfold PledgeRepo.CapitalOccupationDays, occupation_at.
  destruct (adjust_first SSE (t + r)) as [[Hl _] Hl']; [lia|].
  rewrite advance_adjust by lia. rewrite (adjust_after SSE t 1), (adjust_after SSE t r) in * by lia.
  cbn [closed_at] in *. set (l := (r + wait _ _ _)%Z) in *.
  replace (t + l + 1)%Z with (t + (l + 1))%Z by lia. rewrite (adjust_after SSE t (l + 1)) by lia.
  cbn [closed_at]. lia.
Qed.

Lemma outright_settlement_at t r speed :
  covered t r →
  let first := (speed_days speed + wait ib_closed 13 (after (day_of t) (speed_days speed)))%Z in
  let expire := (first + r + wait ib_closed 13 (after (day_of t) (first + r)))%Z in
  OutRightRepo.CalcFirstSettlementDate t speed = (t + first)%Z ∧
  OutRightRepo.CalcExpireSettlementDate (t + first) r = (t + expire)%Z.
Proof.
  intros (Ht & Hr & Htr) first expire.
  assert (0 ≤ speed_days speed ≤ 1)%Z by (destruct speed; simpl; lia).
  destruct (adjust_first IB (t + speed_days speed)) as [[Hf _] Hf']; [lia|].
  unfold OutRightRepo.CalcFirstSettlementDate, OutRightRepo.CalcExpireSettlementDate.
  rewrite (adjust_after IB t (speed_days speed)) in * by lia. cbn [closed_at] in *. fold first in Hf, Hf'.
  split; [done|]. replace (t + first + r)%Z with (t + (first + r))%Z by lia.
  rewrite (adjust_after IB t (first + r)) by lia. done.
Qed.
End evaluate.

(** ** The test dates of the two files *)

Lemma sep_25_2019 : day_at (Z.to_nat (43733 - min_date)) = (2019, September, 25, 4)%Z.
Proof. vm_compute. reflexivity. Qed.

Lemma mar_14_2019 : day_at (Z.to_nat (43538 - min_date)) = (2019, March, 14, 5)%Z.
Proof. vm_compute. reflexivity. Qed.

Section runs.
Context `{!QuantLib}.

(** The serial number of a day found [n] days after a known day. *)
Lemma mk_date_after s n y m d w :
  (min_date ≤ s)%Z → (0 ≤ n)%Z → (s + n ≤ max_date)%Z → after (day_of s) n = (y, m, d, w) →
  mk_date d m y = (s + n)%Z ∧ day_of (s + n) = (y, m, d, w).
Proof.
  intros Hs Hn Hm Hd. rewrite <-day_of_after in Hd by done. split; [|done].
  unfold day_of in Hd. simplify_eq. apply ql_mk_date. lia.
Qed.

Lemma day_of_sep_25 : day_of 43733 = (2019, September, 25, 4)%Z.
Proof. rewrite day_of_serial by (unfold min_date, max_date; lia). apply sep_25_2019. Qed.

Lemma day_of_mar_14 : day_of 43538 = (2019, March, 14, 5)%Z.
Proof. rewrite day_of_serial by (unfold min_date, max_date; lia). apply mar_14_2019. Qed.

Lemma run_case_at t l ans :
  Forall (covered t) l →
  PledgeRepo.run_case t l ans =
    zip_with (λ days a, (occupation_at (day_of t) days, (a =? occupation_at (day_of t) days)%Z)) l ans.
Proof.
  unfold PledgeRepo.run_case. intros Hl. revert ans. induction Hl as [|r l Hr Hl IH]; intros [|a ans]; try done.
  cbn [zip_with]. rewrite IH, pledge_occupation_at by done. done.
Qed.

Lemma covered_terms t : (data_first ≤ t ≤ data_last - 207)%Z → Forall (covered t) terms.
Proof. intros Ht. unfold terms, covered. repeat constructor; lia. Qed.

Lemma test_date n y m d w :
  (0 ≤ n ≤ 2)%Z → after (2019, September, 25, 4)%Z n = (y, m, d, w) →
  mk_date d m y = (43733 + n)%Z ∧ day_of (43733 + n) = (y, m, d, w) ∧ Forall (covered (43733 + n)) terms.
Proof.
  intros Hn Hd. rewrite <-day_of_sep_25 in Hd.
  destruct (mk_date_after 43733 n y m d w) as [E1 E2]; [unfold min_date, max_date; lia..|done|].
  split_and!; [done|done|]. apply covered_terms. unfold data_first, data_last. lia.
Qed.

(** All 27 comparisons that [run] of the pledged repos prints are true: the
    computed days are the expected ones around the October holidays of 2019. *)
Lemma pledge_run_expected :
  PledgeRepo.run_days = map (map (λ a, (a, true)))
    [[1; 4; 12; 12; 13; 14; 28; 91; 182]; [3; 11; 11; 11; 12; 14; 28; 91; 182];
     [8; 8; 8; 9; 9; 14; 28; 91; 182]]%Z.
Proof.
  unfold PledgeRepo.run_days.
  destruct (test_date 0 2019 September 25 4) as (-> & E0 & H0); [lia|reflexivity|].
  destruct (test_date 1 2019 September 26 5) as (-> & E1 & H1); [lia|reflexivity|].
  destruct (test_date 2 2019 September 27 6) as (-> & E2 & H2); [lia|reflexivity|].
  rewrite !run_case_at, E0, E1, E2 by done. vm_compute. reflexivity.
Qed.

(** [run] of the outright repos: a repo of 30 days traded on March 14th, 2019
    settles on March 15th and, April 14th being a Sunday, on April 15th, after 31
    days; the product is printed as R021, where R1M is documented. *)
Lemma outright_run_printed :
  OutRightRepo.run = (mk_date 15 March 2019, mk_date 15 April 2019, "R021", 31%Z).
Proof.
  pose proof day_of_mar_14 as E.
  destruct (mk_date_after 43538 0 2019 March 14 5) as [E0 _]; [unfold min_date, max_date; lia..|by rewrite E|].
  destruct (mk_date_after 43538 1 2019 March 15 6) as [E1 _]; [unfold min_date, max_date; lia..|by rewrite E|].
  destruct (mk_date_after 43538 32 2019 April 15 2) as [E2 _]; [unfold min_date, max_date; lia..|by rewrite E|].
  assert (covered 43538 30) as Hc by (unfold covered, data_first, data_last; lia).
  destruct (outright_settlement_at 43538 30 T1 Hc) as [F1 F2]. rewrite E in F1, F2.
  unfold OutRightRepo.run, OutRightRepo.CapitalOccupationDays. rewrite E0, E1, E2, Z.add_0_r.
  rewrite F1, F2. vm_compute. reflexivity.
Qed.
End runs.

(** ** Witnesses: trades of September 2019 and of March 2019 *)

Lemma covered_sep_2019 : covered 43733 7.
Proof. unfold covered, data_first, data_last. lia. Qed.

Example pledge_occupation_witness :
  covered 43733 7 ∧
  ∃ entry liquidate back,
    first_business SSE (43733 + 1) entry ∧ first_business SSE (43733 + 7) liquidate ∧
    first_business SSE (liquidate + 1) back ∧
    PledgeRepo.CapitalOccupationDays 43733 7 = (back - entry)%Z ∧
    (1 ≤ back - entry)%Z ∧ (7 - 12 ≤ back - entry ≤ 7 + 24)%Z.
Proof. split; [exact covered_sep_2019|]. exact (pledge_occupation 43733 7 covered_sep_2019). Defined.

Example outright_occupation_witness :
  covered 43733 7 ∧
  (7 ≤ OutRightRepo.CapitalOccupationDays 43733 7 T1 ≤ 7 + 12)%Z.
Proof.
  split; [exact covered_sep_2019|].
  destruct (outright_occupation 43733 7 T1 covered_sep_2019) as (_ & _ & _ & Hr). exact Hr.
Defined.

Example pledge_run_expected_witness :
  (PledgeRepo.run_days (H := gregorian)) = map (map (λ a, (a, true)))
    [[1; 4; 12; 12; 13; 14; 28; 91; 182]; [3; 11; 11; 11; 12; 14; 28; 91; 182];
     [8; 8; 8; 9; 9; 14; 28; 91; 182]]%Z.
Proof. exact pledge_run_expected. Defined.

Example outright_run_printed_witness :
  OutRightRepo.run (H := gregorian) = (43539%Z, 43570%Z, "R021", 31%Z).
Proof. rewrite (outright_run_printed (H := gregorian)). reflexivity. Defined.
