(* ===== verification/Bond.v ===== *)
(** * Cash bonds

    Languages/cpp/19_quantlib_demo/cash_bond.hpp: settlement dates, coupon dates,
    accrued interest and interest to maturity of a fixed rate bond.  The theorems also
    cover the interest of pledged repos.  QuantLib's bonds
    are the class [Bonds]: functions of the bond's description and of the library's
    global evaluation date. *)

From S2P Require Import Prelude Doubles ExChina QlInstance ExMarkets Dict Repo.
From Stdlib Require Import ZArith Lia SpecFloat.

(** ** QuantLib's bonds *)

(** Coupons per year. *)
Inductive Frequency := Annual | Semiannual | Quarterly | Monthly.
Inductive Convention := Unadjusted | Following.
Inductive DayCounter := Actual365Fixed.
Inductive Compounding := Simple | Compounded.

(** The calendars the code passes on: ex_china.cpp's, or QuantLib's own for the SSE. *)
Inductive calendar := CalExChina (m : Market) | CalChinaSSE.

(** [Schedule(effective, termination, Period(freq), calendar, convention,
    terminationConvention, DateGeneration::Forward, endOfMonth)] *)
Record Schedule := MkSchedule {
  effectiveDate : Z;
  terminationDate : Z;
  tenor : Frequency;
  s_calendar : calendar;
  s_convention : Convention;
  terminationConvention : Convention;
  endOfMonth : bool;
}.

Record FixedRateBond := MkBond {
  settlementDays : Z;
  faceAmount : double;
  schedule : Schedule;
  coupons : list double;
  accrualDayCounter : DayCounter;
  paymentConvention : Convention;
  redemption : double;
  issueDate : Z;
}.

(** The second argument is the evaluation date. *)
Class Bonds := {
  nextCashFlowDate : FixedRateBond → Z → Z;
  previousCashFlowDate : FixedRateBond → Z → Z;
  settlementDate : FixedRateBond → Z → Z;
  accruedAmount : FixedRateBond → Z → double;
  CashFlows_yield : FixedRateBond → double → DayCounter → Compounding → Frequency → bool → Z → double;
  CashFlows_duration : FixedRateBond → double → DayCounter → Compounding → Frequency → bool → Z → double;
  CashFlows_convexity : FixedRateBond → double → DayCounter → Compounding → Frequency → bool → Z → double;
  CashFlows_npv : FixedRateBond → double → DayCounter → Compounding → Frequency → bool → Z → double;
}.

(** ** cash_bond.hpp *)

(** The literals 0.0329, 100.0 and 103.0. *)
Definition rate_0329 : double := double_div (double_of_Z 329) (double_of_Z 10000).
Definition double_add : double → double → double := SFadd 53 1024.

Section cash_bond.
Context `{!QuantLib, !Bonds}.

(** The bond that four of the functions build. *)
Definition coupon_bond (cal : calendar) (issue_date maturity_date : Z) (freq : Frequency) (settlement_days : Z)
    : FixedRateBond :=
  MkBond settlement_days (double_of_Z 100)
    (MkSchedule issue_date maturity_date freq cal Unadjusted Unadjusted false)
    [rate_0329] Actual365Fixed Following (double_of_Z 100) issue_date.

Definition BondNextCashFlowDate (today : Z) (mkt : Market) (issue_date maturity_date : Z) (freq : Frequency)
    (speed : ClearSpeed) : Z :=
  let settlement_days := speed_days speed in
  nextCashFlowDate (coupon_bond (CalExChina mkt) issue_date maturity_date freq settlement_days) today.

Definition BondPrevCashFlowDate (today : Z) (mkt : Market) (issue_date maturity_date : Z) (freq : Frequency)
    (speed : ClearSpeed) : Z :=
  let settlement_days := speed_days speed in
  previousCashFlowDate (coupon_bond (CalExChina mkt) issue_date maturity_date freq settlement_days) today.

(** What [case2_duration_convexity] prints: accrued amount, settlement date, yield,
    duration, convexity and net present value. *)
Definition case2_duration_convexity (today : Z) : double * Z * double * double * double * double :=
  let issue_date := mk_date 23 May 2019 in
  let maturity_date := mk_date 23 May 2029 in
  let comp := Compounded in
  let freq := Semiannual in
  let bond := coupon_bond (CalExChina SSE) issue_date maturity_date freq 0 in
  let settlement_date := settlementDate bond today in
  let accrued := accruedAmount bond today in
  let npv := double_add (double_of_Z 103) accrued in
  let yield := CashFlows_yield bond npv Actual365Fixed comp freq false settlement_date in
  let duration := CashFlows_duration bond yield Actual365Fixed comp freq false settlement_date in
  let convexity := CashFlows_convexity bond yield Actual365Fixed comp freq false settlement_date in
  let calcnpv := CashFlows_npv bond yield Actual365Fixed comp freq false settlement_date in
  (accrued, settlement_date, yield, duration, convexity, calcnpv).

Definition CalcExpiredRate (today : Z) (comp : Compounding) : double :=
  let issue_date := mk_date 23 May 2019 in
  let maturity_date := mk_date 23 May 2029 in
  let freq := Semiannual in
  let bond := coupon_bond CalChinaSSE issue_date maturity_date freq 0 in
  let accrued := accruedAmount bond today in
  let npv := double_add (double_of_Z 103) accrued in
  CashFlows_yield bond npv Actual365Fixed comp freq false (settlementDate bond today).

Definition CalcSettlementDate (cal : Market) (trade_date : Z) (speed : ClearSpeed) : Z :=
  adjust (ExChina cal) (trade_date + speed_days speed).

(** [money * rate * days / 365.0] *)
Definition interest_365 (money rate : double) (days : Z) : double :=
  double_div (double_mul (double_mul money rate) (double_of_Z days)) (double_of_Z 365).

(** The days that [BondAccruedInterest] prints, and its result. *)
Definition BondAccruedInterest (today : Z) (mkt : Market) (trade_date : Z) (money : double)
    (issue_date maturity_date : Z) (freq : Frequency) (rate : double) (speed : ClearSpeed) : Z * double :=
  let settle_date := CalcSettlementDate mkt trade_date speed in
  let prev_date := BondPrevCashFlowDate today mkt issue_date maturity_date freq speed in
  let interest_days := (settle_date - prev_date)%Z in
  (interest_days, interest_365 money rate interest_days).

Definition CalcExpiredInterest (mkt : Market) (trade_date : Z) (money : double) (maturity_date : Z) (rate : double)
    (speed : ClearSpeed) : Z * double :=
  let settle_date := CalcSettlementDate mkt trade_date speed in
  let days := (maturity_date - settle_date)%Z in
  (days, interest_365 money rate days).

(** The literal 0.10. *)
Definition rate_10 : double := double_div (double_of_Z 10) (double_of_Z 100).

(** What [run] prints: the next and the previous coupon date, the accrued interest and the
    interest to maturity, each with its days, and the results of the last two calls. *)
Record printed := MkPrinted {
  next_date : Z;
  prev_date : Z;
  accrued_interest : Z * double;
  expired_interest : Z * double;
  duration_convexity : double * Z * double * double * double * double;
  expired_rate : double;
}.

Definition run (today : Z) : printed :=
  let issue_date := mk_date 23 May 2019 in
  let maturity_date := mk_date 23 May 2029 in
  let freq := Monthly in
  let trade_date := mk_date 14 October 2019 in
  let money := double_of_Z 100000 in
  MkPrinted (BondNextCashFlowDate today SSE issue_date maturity_date freq T0)
    (BondPrevCashFlowDate today SSE issue_date maturity_date freq T0)
    (BondAccruedInterest today SSE trade_date money issue_date maturity_date freq rate_10 T0)
    (CalcExpiredInterest SSE trade_date money maturity_date rate_10 T0)
    (case2_duration_convexity today)
    (CalcExpiredRate today Compounded).
End cash_bond.

(** ** Interest *)

Section interest.
Context `{!QuantLib, !Bonds}.

Lemma interest_nonneg money rate days base :
  double_nonneg money → double_pos rate → (1 ≤ days < 2 ^ 53)%Z → (0 < base < 2 ^ 53)%Z →
  double_nonneg (double_div (double_mul (double_mul money rate) (double_of_Z days)) (double_of_Z base)).
Proof.
  intros Hm Hr Hd Hb. apply double_div_nonneg; [|apply double_of_Z_pos; lia].
  apply double_mul_nonneg; [by apply double_mul_nonneg|]. apply double_of_Z_pos. lia.
Qed.

(** The interest of a pledged repo is never negative and never NaN, for every
    non-negative turnover and every positive rate, rounding and overflow included. *)
Lemma repo_interest_nonneg t r speed turnover rate :
  covered t r → double_nonneg turnover → double_pos rate →
  double_nonneg (PledgeRepo.CalcRepurchaseInterest t turnover rate r speed).
Proof.
  intros Hc Ht Hr. unfold PledgeRepo.CalcRepurchaseInterest.
  destruct (pledge_days_range t r Hc) as [H1 H2].
  apply interest_nonneg; [done|done|split; [done|]|lia].
  destruct Hc as (? & ? & ?). unfold data_first, data_last in *. lia.
Qed.

(** A bond that matures at least two weeks after the trade settles on the first
    business day from the trade date plus the clearing speed, and its interest to
    maturity counts the days from there: at least one, so the interest is never
    negative and never NaN. *)
Lemma bond_expired_interest mkt t money maturity rate speed :
  (data_first ≤ t ≤ data_last - 13)%Z → (t + 14 ≤ maturity ≤ max_date)%Z →
  double_nonneg money → double_pos rate →
  ∃ settle, first_business mkt (t + speed_days speed) settle ∧
    (CalcExpiredInterest mkt t money maturity rate speed).1 = (maturity - settle)%Z ∧
    (1 ≤ maturity - settle)%Z ∧
    double_nonneg (CalcExpiredInterest mkt t money maturity rate speed).2.
Proof.
  intros Ht Hm Hmoney Hrate. assert (0 ≤ speed_days speed ≤ 1)%Z by (destruct speed; simpl; lia).
  destruct (adjust_first mkt (t + speed_days speed)) as [Hf Hf']; [lia|].
  exists (adjust (ExChina mkt) (t + speed_days speed)). split; [done|]. split; [done|]. split; [lia|].
  destruct Hf as [Hf _]. apply interest_nonneg; [done|done| |lia].
  unfold CalcSettlementDate, data_first, max_date in *. lia.
Qed.

(** The interest to maturity that [run] prints: October 14th, 2019, was a business day, and
    the bond then has 3509 days to run. *)
Lemma run_expired_interest today :
  expired_interest (run today) = (3509%Z, interest_365 (double_of_Z 100000) rate_10 3509).
Proof.
  destruct (mk_date_after 43733 19 2019 October 14 2) as [E1 D1]; [unfold min_date, max_date; lia..|rewrite day_of_sep_25; by vm_compute|].
  destruct (mk_date_after 43733 3528 2029 May 23 4) as [E2 _]; [unfold min_date, max_date; lia..|rewrite day_of_sep_25; by vm_compute|].
  cbn [run expired_interest]. unfold CalcExpiredInterest, CalcSettlementDate. rewrite E1, E2. cbn [speed_days]. rewrite Z.add_0_r.
  rewrite adjust_at by (unfold data_first, data_last; lia). rewrite D1. reflexivity.
Qed.
End interest.

(** ** Witnesses *)

Definition one_percent : double := double_div (double_of_Z 1) (double_of_Z 100).

Lemma one_percent_pos : double_pos one_percent.
Proof. by eexists _, _. Qed.

Lemma hundred_nonneg : double_nonneg (double_of_Z 100).
Proof. right. right. by eexists _, _. Qed.

Example repo_interest_nonneg_witness :
  double_nonneg (PledgeRepo.CalcRepurchaseInterest 43733 (double_of_Z 100) one_percent 7 T0).
Proof. exact (repo_interest_nonneg 43733 7 T0 _ _ covered_sep_2019 hundred_nonneg one_percent_pos). Defined.

Example bond_expired_interest_witness :
  ∃ settle, first_business SSE (43733 + speed_days T1) settle ∧
    (CalcExpiredInterest SSE 43733 (double_of_Z 100) 47261 one_percent T1).1 = (47261 - settle)%Z ∧
    (1 ≤ 47261 - settle)%Z ∧
    double_nonneg (CalcExpiredInterest SSE 43733 (double_of_Z 100) 47261 one_percent T1).2.
Proof.
  apply bond_expired_interest;
    [unfold data_first, data_last; lia|unfold max_date; lia|exact hundred_nonneg|exact one_percent_pos].
Defined.
