(* ===== verification/ZkIds.v ===== *)
(** * Client ids and passwords of the ZooKeeper wrapper as text

    The conversions of Languages/cpp/0_libuv/uv_zookeeper_wrapper/uv-node-zk.cpp:
    a session password of sixteen bytes is shown to JavaScript as 32 hexadecimal
    digits, a session id as the hexadecimal digits that [sprintf("%llx")] prints.
    Both come back unchanged when they are passed to [init] again. *)

From S2P Require Import Prelude.
From Stdlib Require Import ZArith Lia.

(** ** Bytes and hexadecimal digits *)

Definition fourBitsToHex (c : Z) : Z := i8 (if (c <=? 9)%Z then 48 + c else 55 + c)%Z.
Definition hexToFourBits (h : Z) : Z := u8 (if (h <=? 57)%Z then h - 48 else h - 55)%Z.

Definition ucharToHex (c : Z) : list Z :=
  [fourBitsToHex (Z.shiftr (Z.land c 240) 4); fourBitsToHex (Z.land c 15)].
Definition hexToUchar (h0 h1 : Z) : Z :=
  u8 (Z.lor (Z.shiftl (hexToFourBits h0) 4) (hexToFourBits h1)).

Abbreviation ZOOKEEPER_PASSWORD_BYTE_COUNT := 16.

(** The loops over the bytes of a password; reading past the end is a fault. *)
Fixpoint to_hex_loop (n : nat) (p : list Z) : result (list Z) :=
  match n, p with
  | O, _ => Ok []
  | S n, c :: p => b ← to_hex_loop n p; Ok (ucharToHex c ++ b)
  | S _, [] => Err Fault
  end.
Definition PasswordToHexString (p : list Z) : result (list Z) :=
  to_hex_loop ZOOKEEPER_PASSWORD_BYTE_COUNT p.

Fixpoint from_hex_loop (n : nat) (hex : list Z) : result (list Z) :=
  match n, hex with
  | O, _ => Ok []
  | S n, h0 :: h1 :: hex => p ← from_hex_loop n hex; Ok (hexToUchar h0 h1 :: p)
  | S _, _ => Err Fault
  end.
Definition HexStringToPassword (hex : list Z) : result (list Z) :=
  from_hex_loop ZOOKEEPER_PASSWORD_BYTE_COUNT hex.

(** ** [sprintf] and [sscanf] with ["%llx"] *)

Definition lower_digit (d : Z) : Z := if (d <=? 9)%Z then (48 + d)%Z else (87 + d)%Z.

Fixpoint print_hex (fuel : nat) (n : Z) : list Z :=
  match fuel with
  | O => []
  | S fuel => (if (n <? 16)%Z then [] else print_hex fuel (n / 16)) ++ [lower_digit (n mod 16)]
  end.

Definition idAsString (id : Z) : list Z := print_hex 16 (u64 id).

Definition digit_value (c : Z) : option Z :=
  if (48 <=? c)%Z && (c <=? 57)%Z then Some (c - 48)%Z
  else if (97 <=? c)%Z && (c <=? 102)%Z then Some (c - 87)%Z
  else if (65 <=? c)%Z && (c <=? 70)%Z then Some (c - 55)%Z
  else None.

(** The longest prefix of digits, [acc] the value so far. *)
Fixpoint scan_digits (s : list Z) (acc : Z) : Z :=
  match s with
  | [] => acc
  | c :: s => match digit_value c with Some d => scan_digits s (acc * 16 + d) | None => acc end
  end.

Definition is_space (c : Z) : bool := (c =? 32)%Z || ((9 <=? c)%Z && (c <=? 13)%Z).

Fixpoint skip_space (s : list Z) : list Z :=
  match s with
  | c :: s' => if is_space c then skip_space s' else s
  | [] => []
  end.

Definition skip_sign (s : list Z) : bool * list Z :=
  match s with
  | 45%Z :: s => (true, s)
  | 43%Z :: s => (false, s)
  | _ => (false, s)
  end.

Definition skip_0x (s : list Z) : list Z :=
  match s with
  | 48%Z :: c :: s' => if (c =? 120)%Z || (c =? 88)%Z then s' else s
  | _ => s
  end.

(** The converted value; [None] when there is no digit to convert. *)
Definition scan_llx (s : list Z) : option Z :=
  let '(neg, s) := skip_sign (skip_space s) in
  let s := skip_0x s in
  match s with
  | c :: _ =>
      match digit_value c with
      | Some _ =>
          let v := Z.min (scan_digits s 0) (2 ^ 64 - 1) in
          Some (i64 (if neg then - v else v)%Z)
      | None => None
      end
  | [] => None
  end.

(** [*id] keeps its value when nothing is converted. *)
Definition StringToId (s : list Z) (id : Z) : Z := default id (scan_llx s).

(** ** Round trips *)

Lemma nibble_hex c : (0 ≤ c < 16)%Z → hexToFourBits (fourBitsToHex c) = c.
Proof.
  intros Hc. unfold hexToFourBits, fourBitsToHex. destruct (Z.leb_spec c 9).
  - rewrite sgn_small by lia. rewrite (proj2 (Z.leb_le _ _)) by lia. rewrite wrap_small; lia.
  - rewrite sgn_small by lia. rewrite (proj2 (Z.leb_gt _ _)) by lia. rewrite wrap_small; lia.
Qed.

Lemma byte_high c : is_byte c → Z.shiftr (Z.land c 240) 4 = (c / 16)%Z.
Proof.
  intros Hc. rewrite Z.shiftr_land. change (Z.shiftr 240 4) with (Z.ones 4).
  rewrite Z.land_ones, Z.shiftr_div_pow2 by lia. unfold is_byte in Hc. apply Z.mod_small.
  change (2 ^ 4)%Z with 16%Z. split; [apply Z.div_pos; lia|apply Z.div_lt_upper_bound; lia].
Qed.

Lemma byte_low c : Z.land c 15 = (c mod 16)%Z.
Proof. change 15%Z with (Z.ones 4). by rewrite Z.land_ones by lia. Qed.

Lemma nibbles_join_all :
  forallb (λ a, forallb (λ b, (u8 (Z.lor (Z.shiftl a 4) b) =? a * 16 + b)%Z) (seqZ 0 16)) (seqZ 0 16) = true.
Proof. vm_compute. reflexivity. Qed.

Lemma nibbles_join a b : (0 ≤ a < 16)%Z → (0 ≤ b < 16)%Z → u8 (Z.lor (Z.shiftl a 4) b) = (a * 16 + b)%Z.
Proof.
  intros Ha Hb. pose proof nibbles_join_all as H. rewrite forallb_forall in H.
  specialize (H a). rewrite forallb_forall in H. apply Z.eqb_eq, H; apply list_elem_of_In, elem_of_seqZ; lia.
Qed.

Lemma uchar_hex_uchar c :
  is_byte c → ∃ h0 h1, ucharToHex c = [h0; h1] ∧ hexToUchar h0 h1 = c.
Proof.
  intros Hc. do 2 eexists. split; [reflexivity|]. unfold hexToUchar.
  rewrite byte_high, byte_low by done. unfold is_byte in Hc.
  assert (0 ≤ c / 16 < 16)%Z by (split; [apply Z.div_pos; lia|apply Z.div_lt_upper_bound; lia]).
  pose proof (Z.mod_pos_bound c 16 ltac:(lia)).
  rewrite !nibble_hex, nibbles_join by lia. pose proof (Z.div_mod c 16 ltac:(lia)). lia.
Qed.

Lemma hex_loops n : ∀ p,
  length p = n → Forall is_byte p →
  ∃ s, to_hex_loop n p = Ok s ∧ length s = 2 * n ∧ from_hex_loop n s = Ok p.
Proof.
  induction n as [|n IH]; intros [|c p] Hlen Hp; try done.
  { by exists []. }
  apply Forall_cons_1 in Hp as [Hc Hp]. destruct (IH p) as (s & E & Hs & E'); [simpl in Hlen; lia|done|].
  destruct (uchar_hex_uchar c Hc) as (h0 & h1 & Eh & Ec).
  exists (h0 :: h1 :: s). cbn [to_hex_loop from_hex_loop]. rewrite E, Eh. split_and!; [done|simpl; lia|].
  rewrite E'. simpl. by rewrite Ec.
Qed.

(** An upper case hexadecimal digit. *)
Definition is_hex (h : Z) : Prop := (48 ≤ h ≤ 57)%Z ∨ (65 ≤ h ≤ 70)%Z.

Lemma hex_nibble h :
  is_hex h → (0 ≤ hexToFourBits h < 16)%Z ∧ fourBitsToHex (hexToFourBits h) = h.
Proof.
  intros Hh. unfold hexToFourBits, fourBitsToHex. destruct (Z.leb_spec h 57).
  - assert (48 ≤ h)%Z by (destruct Hh; lia). rewrite wrap_small by lia.
    rewrite (proj2 (Z.leb_le _ _)) by lia. rewrite sgn_small by lia. lia.
  - assert (65 ≤ h ≤ 70)%Z by (destruct Hh; lia). rewrite wrap_small by lia.
    rewrite (proj2 (Z.leb_gt _ _)) by lia. rewrite sgn_small by lia. lia.
Qed.

Lemma hex_uchar_hex h0 h1 :
  is_hex h0 → is_hex h1 → is_byte (hexToUchar h0 h1) ∧ ucharToHex (hexToUchar h0 h1) = [h0; h1].
Proof.
  intros H0 H1. destruct (hex_nibble h0 H0) as [R0 E0], (hex_nibble h1 H1) as [R1 E1].
  unfold hexToUchar. rewrite nibbles_join by done. set (a := hexToFourBits h0) in *.
  set (b := hexToFourBits h1) in *. assert (Hb : is_byte (a * 16 + b)) by (unfold is_byte; lia).
  split; [done|]. unfold ucharToHex. rewrite byte_high, byte_low by done.
  rewrite Z.div_add_l, Z.div_small, Z.add_0_r by lia.
  rewrite Z.add_comm, Z.mod_add, Z.mod_small by lia. by rewrite E0, E1.
Qed.

Lemma hex_loops_back n : ∀ s,
  length s = 2 * n → Forall is_hex s →
  ∃ p, from_hex_loop n s = Ok p ∧ length p = n ∧ Forall is_byte p ∧ to_hex_loop n p = Ok s.
Proof.
  induction n as [|n IH]; intros s Hlen Hs.
  { destruct s; [|done]. by exists []. }
  destruct s as [|h0 [|h1 s]]; [done|simpl in Hlen; lia|].
  apply Forall_cons_1 in Hs as [H0 Hs]. apply Forall_cons_1 in Hs as [H1 Hs].
  destruct (IH s) as (p & E & Hp & Hb & E'); [simpl in Hlen; lia|done|].
  destruct (hex_uchar_hex h0 h1 H0 H1) as [Hc Eh]. exists (hexToUchar h0 h1 :: p).
  cbn [to_hex_loop from_hex_loop]. rewrite E. split_and!; [done|simpl; lia|by constructor|].
  rewrite E', Eh. done.
Qed.

(** A digit as [sprintf] prints it. *)
Definition is_lower_hex (c : Z) : Prop := (48 ≤ c ≤ 57)%Z ∨ (97 ≤ c ≤ 102)%Z.

Lemma lower_digit_ok d :
  (0 ≤ d < 16)%Z → is_lower_hex (lower_digit d) ∧ digit_value (lower_digit d) = Some d.
Proof.
  intros Hd. unfold is_lower_hex, lower_digit, digit_value.
  destruct (Z.leb_spec d 9); split; [lia| |lia|]; repeat case_match; bool_props; f_equal; lia.
Qed.

Lemma digit_value_lower c : is_lower_hex c → ∃ d, digit_value c = Some d.
Proof.
  intros Hc. unfold digit_value. destruct Hc.
  - rewrite (proj2 (Z.leb_le 48 _)), (proj2 (Z.leb_le _ 57)) by lia. by eexists.
  - rewrite (proj2 (Z.leb_gt _ 57)), andb_false_r by lia.
    rewrite (proj2 (Z.leb_le 97 _)), (proj2 (Z.leb_le _ 102)) by lia. by eexists.
Qed.

Lemma print_hex_lower fuel n : Forall is_lower_hex (print_hex fuel n).
Proof.
  revert n. induction fuel as [|fuel IH]; intros n; [constructor|]. cbn [print_hex].
  apply Forall_app. split; [case_match; [constructor|apply IH]|]. constructor; [|constructor].
  apply lower_digit_ok, Z.mod_pos_bound. lia.
Qed.

Lemma scan_digits_app l r acc :
  Forall is_lower_hex l → scan_digits (l ++ r) acc = scan_digits r (scan_digits l acc).
Proof.
  intros Hl. revert acc. induction Hl as [|c l Hc Hl IH]; intros acc; [done|]. simpl.
  destruct (digit_value_lower c Hc) as [d ->]. apply IH.
Qed.

Lemma scan_print_hex fuel : ∀ n,
  (0 ≤ n < 16 ^ Z.of_nat fuel)%Z → fuel ≠ 0 → scan_digits (print_hex fuel n) 0 = n.
Proof.
  induction fuel as [|fuel IH]; intros n Hn Hf; [done|]. cbn [print_hex].
  pose proof (Z.mod_pos_bound n 16 ltac:(lia)) as Hm. destruct (lower_digit_ok _ Hm) as [_ Hd].
  destruct (Z.ltb_spec n 16) as [Hl|Hl].
  - simpl. rewrite Hd. apply Z.mod_small. lia.
  - rewrite scan_digits_app by apply print_hex_lower. rewrite Nat2Z.inj_succ, Z.pow_succ_r in Hn by lia.
    rewrite IH.
    + simpl. rewrite Hd. pose proof (Z.div_mod n 16 ltac:(lia)). lia.
    + split; [apply Z.div_pos; lia|apply Z.div_lt_upper_bound; lia].
    + intros ->. simpl in Hn. lia.
Qed.

Lemma print_hex_cons fuel n : fuel ≠ 0 → ∃ c s, print_hex fuel n = c :: s.
Proof.
  destruct fuel as [|fuel]; [done|]. intros _. cbn [print_hex].
  destruct ((if (n <? 16)%Z then [] else print_hex fuel (n / 16)) ++ _) as [|c s] eqn:E; [|by eauto].
  by apply app_nil in E as [_ ?].
Qed.

Lemma skip_none c s :
  is_lower_hex c → Forall is_lower_hex s →
  skip_space (c :: s) = c :: s ∧ skip_sign (c :: s) = (false, c :: s) ∧ skip_0x (c :: s) = c :: s.
Proof.
  intros Hc Hs. split_and!.
  - simpl. unfold is_space. rewrite (proj2 (Z.eqb_neq c 32)), (proj2 (Z.leb_gt c 13)) by (destruct Hc; lia).
    by rewrite andb_false_r.
  - unfold skip_sign. repeat case_match; try done; destruct Hc; lia.
  - unfold skip_0x. destruct s as [|x s]; [repeat case_match; done|].
    apply Forall_cons_1 in Hs as [Hx _].
    rewrite (proj2 (Z.eqb_neq x 120)), (proj2 (Z.eqb_neq x 88)) by (destruct Hx; lia).
    by repeat case_match.
Qed.

Lemma sgn_wrap w z : (0 < w)%Z → sgn w (wrap w z) = sgn w z.
Proof. intros Hw. unfold sgn, wrap. rewrite Z.mod_mod; [done|]. apply Z.pow_nonzero; lia. Qed.

Lemma scan_id id : scan_llx (idAsString id) = Some (i64 id).
Proof.
  unfold idAsString. destruct (print_hex_cons 16 (u64 id)) as (c & s & E); [done|].
  pose proof (print_hex_lower 16 (u64 id)) as Hl. pose proof (wrap_range 64 id ltac:(lia)) as Hr.
  pose proof (scan_print_hex 16 (u64 id) Hr ltac:(done)) as Hscan. rewrite E in *.
  apply Forall_cons_1 in Hl as [Hc Hs]. destruct (skip_none c s Hc Hs) as (E1 & E2 & E3).
  unfold scan_llx. rewrite E1, E2, E3, Hscan. destruct (digit_value_lower c Hc) as [d ->].
  rewrite Z.min_l by lia. f_equal. by apply sgn_wrap.
Qed.
