(* ===== verification/ZkSession.v ===== *)
(** * The ZooKeeper wrapper: one session on the libuv loop

    The life of a [ZooKeeper] object of uv-node-zk.cpp: [init], the callbacks of
    its poll handle and its timer, the main watcher and [close].  The state is the
    object's fields together with what it owns in libuv and in the C client.
    libuv's handles are modelled as documented (a handle is used until [uv_close],
    its close callback comes later); the answers of the C client are inputs of the
    steps.  Event types, session states and return codes that the code tells apart
    are constructors. *)

From S2P Require Import Prelude ZkIds.
From Stdlib Require Import ZArith Lia.

(** ** Data *)

(** Event types, session states and return codes of the C client. *)
Inductive ev_type :=
  | SESSION_EVENT | CREATED_EVENT | DELETED_EVENT | CHANGED_EVENT | CHILD_EVENT
  | NOTWATCHING_EVENT | OTHER_EVENT.
Inductive zstate :=
  | CONNECTED_STATE | CONNECTING_STATE | AUTH_FAILED_STATE | EXPIRED_SESSION_STATE | OTHER_STATE.
Inductive zrc := ZOK | ZNOTHING | ZERR.

(** The code of a close event: [close()] from JavaScript, or a session state. *)
Inductive close_code := CloseRequested | CloseState (s : zstate).

Inductive emit :=
  | EmitPath (event_name : string) (path : option (list Z))
  | EmitClose (event_name : string) (code : close_code).

(** [clientid_t] *)
Record clientid := MkId { client_id : Z; passwd : list Z }.
Definition zero_id : clientid := MkId 0 (replicate 16 0%Z).

(** A [uv_poll_t] and a [uv_timer_t]. *)
Record uv_poll := MkPoll { p_fd : Z; p_active : bool; p_events : bool * bool }.
Record uv_timer := MkTimer { t_active : bool; t_due : Z; t_repeat : Z }.

(** The object and the resources behind it. *)
Record world := MkWorld {
  zhandle : option nat; (* the handle of the C client *)
  myid : clientid; (* the session *)
  zk_io_poll_hdl : option nat; (* the poll handle of the current socket *)
  zk_timer : uv_timer;
  fd : Z;
  interest : bool * bool; (* read, write *)
  tv : Z * Z; (* seconds, microseconds *)
  last_activity : Z;
  is_closed : bool;
  refs : Z; (* [Ref]/[Unref] of the wrapped object *)
  now : Z; (* [uv_now] of the default loop *)
  polls : gmap nat uv_poll; (* the poll handles that are not closed *)
  closing : gset nat; (* poll handles whose [delete_on_close] is pending *)
  next_poll : nat;
  timer_open : bool; (* [zk_timer] has been initialised and not closed since *)
  timer_closing : nat; (* pending [timer_closed] callbacks *)
  open_zh : gset nat; (* handles of the C client that are not closed *)
  emitted : list emit; (* events emitted to JavaScript, latest first *)
}.

Definition set_zhandle (x : option nat) (w : world) : world :=
  MkWorld x (myid w) (zk_io_poll_hdl w) (zk_timer w) (fd w) (interest w) (tv w) (last_activity w) (is_closed w) (refs w) (now w) (polls w) (closing w) (next_poll w) (timer_open w) (timer_closing w) (open_zh w) (emitted w).
Definition set_myid (x : clientid) (w : world) : world :=
  MkWorld (zhandle w) x (zk_io_poll_hdl w) (zk_timer w) (fd w) (interest w) (tv w) (last_activity w) (is_closed w) (refs w) (now w) (polls w) (closing w) (next_poll w) (timer_open w) (timer_closing w) (open_zh w) (emitted w).
Definition set_zk_io_poll_hdl (x : option nat) (w : world) : world :=
  MkWorld (zhandle w) (myid w) x (zk_timer w) (fd w) (interest w) (tv w) (last_activity w) (is_closed w) (refs w) (now w) (polls w) (closing w) (next_poll w) (timer_open w) (timer_closing w) (open_zh w) (emitted w).
Definition set_zk_timer (x : uv_timer) (w : world) : world :=
  MkWorld (zhandle w) (myid w) (zk_io_poll_hdl w) x (fd w) (interest w) (tv w) (last_activity w) (is_closed w) (refs w) (now w) (polls w) (closing w) (next_poll w) (timer_open w) (timer_closing w) (open_zh w) (emitted w).
Definition set_fd (x : Z) (w : world) : world :=
  MkWorld (zhandle w) (myid w) (zk_io_poll_hdl w) (zk_timer w) x (interest w) (tv w) (last_activity w) (is_closed w) (refs w) (now w) (polls w) (closing w) (next_poll w) (timer_open w) (timer_closing w) (open_zh w) (emitted w).
Definition set_interest (x : bool * bool) (w : world) : world :=
  MkWorld (zhandle w) (myid w) (zk_io_poll_hdl w) (zk_timer w) (fd w) x (tv w) (last_activity w) (is_closed w) (refs w) (now w) (polls w) (closing w) (next_poll w) (timer_open w) (timer_closing w) (open_zh w) (emitted w).
Definition set_tv (x : Z * Z) (w : world) : world :=
  MkWorld (zhandle w) (myid w) (zk_io_poll_hdl w) (zk_timer w) (fd w) (interest w) x (last_activity w) (is_closed w) (refs w) (now w) (polls w) (closing w) (next_poll w) (timer_open w) (timer_closing w) (open_zh w) (emitted w).
Definition set_last_activity (x : Z) (w : world) : world :=
  MkWorld (zhandle w) (myid w) (zk_io_poll_hdl w) (zk_timer w) (fd w) (interest w) (tv w) x (is_closed w) (refs w) (now w) (polls w) (closing w) (next_poll w) (timer_open w) (timer_closing w) (open_zh w) (emitted w).
Definition set_is_closed (x : bool) (w : world) : world :=
  MkWorld (zhandle w) (myid w) (zk_io_poll_hdl w) (zk_timer w) (fd w) (interest w) (tv w) (last_activity w) x (refs w) (now w) (polls w) (closing w) (next_poll w) (timer_open w) (timer_closing w) (open_zh w) (emitted w).
Definition set_refs (x : Z) (w : world) : world :=
  MkWorld (zhandle w) (myid w) (zk_io_poll_hdl w) (zk_timer w) (fd w) (interest w) (tv w) (last_activity w) (is_closed w) x (now w) (polls w) (closing w) (next_poll w) (timer_open w) (timer_closing w) (open_zh w) (emitted w).
Definition set_now (x : Z) (w : world) : world :=
  MkWorld (zhandle w) (myid w) (zk_io_poll_hdl w) (zk_timer w) (fd w) (interest w) (tv w) (last_activity w) (is_closed w) (refs w) x (polls w) (closing w) (next_poll w) (timer_open w) (timer_closing w) (open_zh w) (emitted w).
Definition set_polls (x : gmap nat uv_poll) (w : world) : world :=
  MkWorld (zhandle w) (myid w) (zk_io_poll_hdl w) (zk_timer w) (fd w) (interest w) (tv w) (last_activity w) (is_closed w) (refs w) (now w) x (closing w) (next_poll w) (timer_open w) (timer_closing w) (open_zh w) (emitted w).
Definition set_closing (x : gset nat) (w : world) : world :=
  MkWorld (zhandle w) (myid w) (zk_io_poll_hdl w) (zk_timer w) (fd w) (interest w) (tv w) (last_activity w) (is_closed w) (refs w) (now w) (polls w) x (next_poll w) (timer_open w) (timer_closing w) (open_zh w) (emitted w).
Definition set_next_poll (x : nat) (w : world) : world :=
  MkWorld (zhandle w) (myid w) (zk_io_poll_hdl w) (zk_timer w) (fd w) (interest w) (tv w) (last_activity w) (is_closed w) (refs w) (now w) (polls w) (closing w) x (timer_open w) (timer_closing w) (open_zh w) (emitted w).
Definition set_timer_closing (x : nat) (w : world) : world :=
  MkWorld (zhandle w) (myid w) (zk_io_poll_hdl w) (zk_timer w) (fd w) (interest w) (tv w) (last_activity w) (is_closed w) (refs w) (now w) (polls w) (closing w) (next_poll w) (timer_open w) x (open_zh w) (emitted w).
Definition set_timer_open (x : bool) (w : world) : world :=
  MkWorld (zhandle w) (myid w) (zk_io_poll_hdl w) (zk_timer w) (fd w) (interest w) (tv w) (last_activity w) (is_closed w) (refs w) (now w) (polls w) (closing w) (next_poll w) x (timer_closing w) (open_zh w) (emitted w).
Definition set_open_zh (x : gset nat) (w : world) : world :=
  MkWorld (zhandle w) (myid w) (zk_io_poll_hdl w) (zk_timer w) (fd w) (interest w) (tv w) (last_activity w) (is_closed w) (refs w) (now w) (polls w) (closing w) (next_poll w) (timer_open w) (timer_closing w) x (emitted w).
Definition set_emitted (x : list emit) (w : world) : world :=
  MkWorld (zhandle w) (myid w) (zk_io_poll_hdl w) (zk_timer w) (fd w) (interest w) (tv w) (last_activity w) (is_closed w) (refs w) (now w) (polls w) (closing w) (next_poll w) (timer_open w) (timer_closing w) (open_zh w) x.

(** [ZooKeeper::ZooKeeper()] on a loop whose time is [t]. *)
Definition ZooKeeper_new (t : Z) : world :=
  MkWorld None zero_id None (MkTimer false 0 0) (-1) (false, false) (0, 0)%Z 0 false 0
    t ∅ ∅ 0 false 0 ∅ [].

(** ** libuv *)

(** The handle must exist and not be closed. *)
Definition with_poll (h : option nat) (f : nat → uv_poll → world → world) (w : world) : result world :=
  match h with
  | Some id => match polls w !! id with Some p => Ok (f id p w) | None => Err Fault end
  | None => Err Fault
  end.

Definition uv_poll_is_active (h : option nat) (w : world) : bool :=
  match h with
  | Some id => match polls w !! id with Some p => p_active p | None => false end
  | None => false
  end.

Definition uv_poll_start (h : option nat) (events : bool * bool) : world → result world :=
  with_poll h (λ id p w, set_polls (<[id := MkPoll (p_fd p) true events]> (polls w)) w).

Definition uv_poll_stop (h : option nat) : world → result world :=
  with_poll h (λ id p w, set_polls (<[id := MkPoll (p_fd p) false (p_events p)]> (polls w)) w).

(** [uv_close(handle, delete_on_close)] *)
Definition uv_close_poll (h : option nat) : world → result world :=
  with_poll h (λ id p w, set_closing ({[id]} ∪ closing w) (set_polls (delete id (polls w)) w)).

(** [malloc] and [uv_poll_init] *)
Definition uv_poll_new (f : Z) (w : world) : world :=
  let id := next_poll w in
  set_zk_io_poll_hdl (Some id)
    (set_polls (<[id := MkPoll f false (false, false)]> (polls w)) (set_next_poll (S id) w)).

(** The timer is used only between [uv_timer_init] and [uv_close], and initialised again only
    after its close callback has run: before that it is in the loop's list of handles. *)
Definition uv_timer_start (timeout repeat : Z) (w : world) : result world :=
  if timer_open w then Ok (set_zk_timer (MkTimer true (now w + timeout) repeat) w) else Err Fault.
Definition uv_timer_stop (w : world) : result world :=
  if timer_open w then Ok (set_zk_timer (MkTimer false (t_due (zk_timer w)) (t_repeat (zk_timer w))) w) else Err Fault.
Definition uv_timer_init (w : world) : result world :=
  if timer_open w || (0 <? timer_closing w)%nat then Err Fault
  else Ok (set_timer_open true (set_zk_timer (MkTimer false 0 0) w)).
(** [uv_close(&zk_timer, timer_closed)], which stops it. *)
Definition uv_close_timer (w : world) : result world :=
  w ← uv_timer_stop w;
  Ok (set_timer_open false (set_timer_closing (S (timer_closing w)) w)).

(** ** The object's functions *)

(** What [zookeeper_interest] returns and stores, and whether [malloc] succeeds. *)
Record interest_answer := MkAnswer {
  a_rc : zrc;
  a_fd : Z;
  a_interest : bool * bool;
  a_tv : Z * Z;
  a_malloc : bool;
}.

(** [tv.tv_sec * 1000 + tv.tv_usec / 1000.], as [int64_t] *)
Definition delay_ms (t : Z * Z) : Z := (t.1 * 1000 + t.2 / 1000)%Z.

Definition drop_poll (w : world) : result world :=
  match zk_io_poll_hdl w with
  | Some id => w ← uv_close_poll (Some id) w; Ok (set_zk_io_poll_hdl None w)
  | None => Ok w
  end.

(** The end of [yield]: arm the poll handle and the timer. *)
Definition arm (events : bool * bool) (delay : Z) (w : world) : result world :=
  w ← uv_poll_start (zk_io_poll_hdl w) events w;
  uv_timer_start delay delay w.

Definition yield (a : interest_answer) (w : world) : result world :=
  if is_closed w then Ok w else
  let w := set_last_activity (now w) w in
  let oldFd := fd w in
  let w := set_tv (a_tv a) (set_interest (a_interest a) (set_fd (a_fd a) w)) in
  w ← (if uv_poll_is_active (zk_io_poll_hdl w) w then uv_poll_stop (zk_io_poll_hdl w) w else Ok w);
  match a_rc a with
  | ZOK =>
      if (fd w =? -1)%Z then drop_poll w else
      let delay := delay_ms (tv w) in
      let events := interest w in
      if negb (oldFd =? fd w)%Z then
        w ← drop_poll w;
        if a_malloc a then arm events delay (uv_poll_new (fd w) w) else Ok w
      else arm events delay w
  | _ => Ok w
  end.

Definition DoEmitPath (event_name : string) (path : option (list Z)) (w : world) : world :=
  set_emitted (EmitPath event_name path :: emitted w) w.
Definition DoEmitClose (event_name : string) (code : close_code) (w : world) : world :=
  set_emitted (EmitClose event_name code :: emitted w) w.

(** [zookeeper_close] *)
Definition zookeeper_close (h : nat) (w : world) : world := set_open_zh (open_zh w ∖ {[h]}) w.

Definition realClose (code : close_code) (w : world) : result world :=
  if is_closed w then Ok w else
  let w := set_is_closed true w in
  w ← (if t_active (zk_timer w) then uv_timer_stop w else Ok w);
  match zhandle w with
  | None => Ok w
  | Some h =>
      let w := set_zhandle None (zookeeper_close h w) in
      w ← match zk_io_poll_hdl w with
          | Some id =>
              w ← uv_poll_stop (Some id) w;
              w ← uv_close_poll (Some id) w;
              Ok (set_zk_io_poll_hdl None w)
          | None => Ok w
          end;
      w ← uv_close_timer w;
      Ok (DoEmitClose "close" code w)
  end.

(** [cid] is what [zoo_client_id] returns for the handle. *)
Definition main_watcher (type : ev_type) (state : zstate) (path : option (list Z)) (cid : clientid)
    (w : world) : result world :=
  match type with
  | SESSION_EVENT =>
      match state with
      | CONNECTED_STATE => Ok (DoEmitPath "connect" path (set_myid cid w))
      | CONNECTING_STATE => Ok (DoEmitPath "connecting" path w)
      | AUTH_FAILED_STATE => realClose (CloseState AUTH_FAILED_STATE) w
      | EXPIRED_SESSION_STATE => realClose (CloseState EXPIRED_SESSION_STATE) w
      | OTHER_STATE => Ok w
      end
  | CREATED_EVENT => Ok (DoEmitPath "created" path w)
  | DELETED_EVENT => Ok (DoEmitPath "deleted" path w)
  | CHANGED_EVENT => Ok (DoEmitPath "changed" path w)
  | CHILD_EVENT => Ok (DoEmitPath "child" path w)
  | NOTWATCHING_EVENT => Ok (DoEmitPath "notwatching" path w)
  | OTHER_EVENT => Ok w
  end.

(** What [zookeeper_process] calls back before it returns: the main watcher, or
    JavaScript code that calls [close()]. *)
Inductive reentry :=
  | RWatch (type : ev_type) (state : zstate) (path : option (list Z)) (cid : clientid)
  | RClose.

Definition reenter (r : reentry) (w : world) : result world :=
  match r with
  | RWatch type state path cid => main_watcher type state path cid w
  | RClose => realClose CloseRequested w
  end.

Fixpoint reenter_all (rs : list reentry) (w : world) : result world :=
  match rs with
  | [] => Ok w
  | r :: rs => w ← reenter r w; reenter_all rs w
  end.

(** [process] is [zookeeper_process]: from the events (read, write) to what it calls
    back and its return code. *)
Definition zk_io_cb (status : Z) (revents : bool * bool) (process : bool * bool → list reentry * zrc)
    (a : interest_answer) (w : world) : result world :=
  let events := if (status <? 0)%Z then (true, true) else revents in
  let '(rs, rc) := process events in
  w ← reenter_all rs w;
  match rc with
  | ZNOTHING => realClose (CloseState EXPIRED_SESSION_STATE) w
  | _ => yield a w
  end.

Definition zk_timer_cb (a : interest_answer) (w : world) : result world :=
  let timeout := (last_activity w + delay_ms (tv w))%Z in
  if (timeout <? now w)%Z then yield a w
  else
    let delay := (timeout - now w + 1)%Z in
    uv_timer_start delay delay w.

(** [h] is the result of [zookeeper_init]. *)
Definition realInit (h : option nat) (cid : clientid) (a : interest_answer) (w : world) : result (bool * world) :=
  w ← match zhandle w with Some _ => uv_timer_stop w | None => Ok w end;
  let w := set_zhandle h (set_myid cid w) in
  match h with
  | None => Ok (false, w)
  | Some h =>
      let w := set_open_zh ({[h]} ∪ open_zh w) w in
      let w := set_refs (refs w + 1) w in
      w ← uv_timer_init w;
      w ← yield a w; Ok (true, w)
  end.

(** The argument of [init]; [None] stands for [undefined]. *)
Record init_arg := MkArg {
  i_connect : list Z;
  i_timeout : Z;
  i_client_id : option (list Z);
  i_client_password : option (list Z);
}.

Inductive js_result := Throw (text : string) | InitFailed | This.

(** The session that [Init] asks for. *)
Definition init_session (arg : init_arg) : result (string + clientid) :=
  match i_client_id arg, i_client_password arg with
  | None, None => Ok (inr zero_id)
  | Some i, Some p =>
      if (length p =? 2 * ZOOKEEPER_PASSWORD_BYTE_COUNT)%nat then
        pw ← HexStringToPassword p; Ok (inr (MkId (StringToId i 0) pw))
      else Ok (inl "ZK init: password does not have correct length")
  | _, _ => Ok (inl "ZK init: client id and password must either be both specified or unspecified")
  end.

Definition session_timeout (arg : init_arg) : Z := if (i_timeout arg =? 0)%Z then 20000%Z else i_timeout arg.

(** [args] are the call's arguments, an argument that is no object being [None];
    [zookeeper_init] is given the hosts, the timeout and the session. *)
Definition Init (args : list (option init_arg)) (zookeeper_init : list Z → Z → clientid → option nat)
    (a : interest_answer) (w : world) : result (js_result * world) :=
  match args with
  | [] => Ok (Throw "Must pass ZK init object", w)
  | None :: _ => Ok (Throw "Init argument must be an object", w)
  | Some arg :: _ =>
      s ← init_session arg;
      match s with
      | inl text => Ok (Throw text, w)
      | inr cid =>
          '(ok, w) ← realInit (zookeeper_init (i_connect arg) (session_timeout arg) cid) cid a w;
          Ok (if (ok : bool) then This else InitFailed, w)
      end
  end.

Definition Close (w : world) : result world := realClose CloseRequested w.

(** [delete_on_close] and [timer_closed], called by the loop. *)
Definition delete_on_close (id : nat) (w : world) : world := set_closing (closing w ∖ {[id]}) w.
Definition timer_closed (w : world) : result world :=
  if (0 <? refs w)%Z
  then Ok (set_refs (refs w - 1) (set_timer_closing (pred (timer_closing w)) w))
  else Err AssertFail.

(** The properties that JavaScript reads; the first arguments are what the C client
    returns for the handle. *)
Definition ClientidPropertyGetter (zoo_client_id : nat → clientid) (w : world) : list Z :=
  idAsString match zhandle w with Some h => client_id (zoo_client_id h) | None => client_id (myid w) end.
Definition ClientPasswordPropertyGetter (zoo_client_id : nat → clientid) (w : world) : result (list Z) :=
  PasswordToHexString match zhandle w with Some h => passwd (zoo_client_id h) | None => passwd (myid w) end.
Definition StatePropertyGetter (zoo_state : nat → Z) (w : world) : Z :=
  match zhandle w with Some h => zoo_state h | None => 0%Z end.
Definition SessionTimeoutPropertyGetter (zoo_recv_timeout : nat → Z) (w : world) : Z :=
  match zhandle w with Some h => zoo_recv_timeout h | None => (-1)%Z end.
Definition IsUnrecoverablePropertyGetter (is_unrecoverable : nat → Z) (w : world) : Z :=
  match zhandle w with Some h => is_unrecoverable h | None => 0%Z end.

(** ** The loop *)

Inductive event :=
  | EInit (args : list (option init_arg)) (h : option nat) (a : interest_answer)
  | EClose
  | EIo (id : nat) (status : Z) (revents : bool * bool) (rs : list reentry) (rc : zrc) (a : interest_answer)
  | ETimer (a : interest_answer)
  | EPollClosed (id : nat)
  | ETimerClosed
  | ETick (t : Z).

(** libuv calls back for active handles, due timers and pending closes only. *)
Definition enabled (e : event) (w : world) : bool :=
  match e with
  | EInit _ _ _ | EClose => true
  | EIo id _ _ _ _ _ => uv_poll_is_active (Some id) w
  | ETimer _ => t_active (zk_timer w) && (t_due (zk_timer w) <=? now w)%Z
  | EPollClosed id => bool_decide (id ∈ closing w)
  | ETimerClosed => (0 <? timer_closing w)%nat
  | ETick t => (0 <=? t)%Z
  end.

(** A due timer is stopped and, when it repeats, started again before its callback
    runs. *)
Definition timer_fires (w : world) : world :=
  if (0 <? t_repeat (zk_timer w))%Z
  then set_zk_timer (MkTimer true (now w + t_repeat (zk_timer w)) (t_repeat (zk_timer w))) w
  else set_zk_timer (MkTimer false (t_due (zk_timer w)) (t_repeat (zk_timer w))) w.

Definition exec (e : event) (w : world) : result world :=
  match e with
  | EInit args h a => '(_, w) ← Init args (λ _ _ _, h) a w; Ok w
  | EClose => Close w
  | EIo _ status revents rs rc a => zk_io_cb status revents (λ _, (rs, rc)) a w
  | ETimer a => zk_timer_cb a (timer_fires w)
  | EPollClosed id => Ok (delete_on_close id w)
  | ETimerClosed => timer_closed w
  | ETick t => Ok (set_now (now w + t) w)
  end.
