(* ===== verification/ZkSafe.v ===== *)
(** * The ZooKeeper wrapper: what it owns

    Invariants of the sessions of ZkSession.v over arbitrary interleavings of calls
    from JavaScript, callbacks of the loop and callbacks of the C client: libuv
    handles are used only while they are open, no poll handle is lost, and a session
    that is opened once releases everything after [close]. *)

From S2P Require Import Prelude ZkIds ZkSession.
From Stdlib Require Import ZArith Lia.

(** ** The invariant *)

(** The object's poll handle is the only one that is not closed. *)
Definition owns_poll (h : option nat) (w : world) : Prop :=
  match h with
  | Some id => id < next_poll w ∧ ∃ p, polls w = {[id := p]}
  | None => polls w = ∅
  end.

Definition b2z (b : bool) : Z := if b then 1%Z else 0%Z.

Record inv (w : world) : Prop := {
  inv_poll : owns_poll (zk_io_poll_hdl w) w;
  inv_timer : is_Some (zk_io_poll_hdl w) ∨ t_active (zk_timer w) = true ∨ is_Some (zhandle w) → timer_open w = true;
  inv_refs : refs w = (Z.of_nat (timer_closing w) + b2z (timer_open w))%Z;
  inv_once : timer_open w = true → timer_closing w = 0;
}.

(** [zookeeper_interest] asks for the descriptor that [fd] has already, while there is no
    poll handle: [yield] starts a null handle. *)
Definition null_poll (a : interest_answer) (w : world) : bool :=
  negb (is_closed w) && match a_rc a with ZOK => true | _ => false end && negb (a_fd a =? -1)%Z &&
  (fd w =? a_fd a)%Z && negb (bool_decide (is_Some (zk_io_poll_hdl w))).

(** The answers after which this cannot happen: on an error the socket is the old one or
    none, and [malloc] does not fail. *)
Definition answer_ok (a : interest_answer) (w : world) : Prop :=
  a_malloc a = true ∧ (a_rc a ≠ ZOK → a_fd a = (-1)%Z ∨ a_fd a = fd w).

Definition event_ok (e : event) (w : world) : Prop :=
  match e with
  | EInit _ _ a | EIo _ _ _ _ _ a | ETimer a => answer_ok a w
  | _ => True
  end.

(** Without a poll handle there is no descriptor. *)
Definition fd_ok (w : world) : Prop := zk_io_poll_hdl w = None → is_closed w = false → fd w = (-1)%Z.

Lemma fd_ok_no_null a w : fd_ok w → null_poll a w = false.
Proof.
  intros Hf. unfold null_poll. destruct (is_closed w) eqn:Hc; [done|]. destruct (a_rc a); try done. cbn [negb andb].
  destruct (zk_io_poll_hdl w) as [id|] eqn:E; [by rewrite bool_decide_true, andb_false_r by by eexists|].
  rewrite (Hf E Hc). destruct (Z.eqb_spec (a_fd a) (-1)) as [->|]; [done|].
  by rewrite (proj2 (Z.eqb_neq (-1) _)) by congruence.
Qed.

(** What [yield] leaves alone. *)
Definition same_session (w w' : world) : Prop :=
  zhandle w' = zhandle w ∧ myid w' = myid w ∧ is_closed w' = is_closed w ∧ refs w' = refs w ∧
  timer_closing w' = timer_closing w ∧ open_zh w' = open_zh w ∧ emitted w' = emitted w ∧ now w' = now w ∧
  timer_open w' = timer_open w.

(** ** Operations on the owned handle *)

Lemma poll_stop_owned id p w :
  polls w = {[id := p]} →
  uv_poll_stop (Some id) w = Ok (set_polls {[id := MkPoll (p_fd p) false (p_events p)]} w).
Proof. intros E. unfold uv_poll_stop, with_poll. rewrite E, lookup_singleton_eq. by rewrite insert_singleton_eq. Qed.

Lemma poll_start_owned id p ev w :
  polls w = {[id := p]} → uv_poll_start (Some id) ev w = Ok (set_polls {[id := MkPoll (p_fd p) true ev]} w).
Proof. intros E. unfold uv_poll_start, with_poll. rewrite E, lookup_singleton_eq. by rewrite insert_singleton_eq. Qed.

Lemma poll_close_owned id p w :
  polls w = {[id := p]} →
  uv_close_poll (Some id) w = Ok (set_closing ({[id]} ∪ closing w) (set_polls ∅ w)).
Proof. intros E. unfold uv_close_poll, with_poll. rewrite E, lookup_singleton_eq. by rewrite delete_singleton_eq. Qed.

(** Closing the poll handle, if there is one. *)
Lemma drop_poll_ok w :
  owns_poll (zk_io_poll_hdl w) w →
  ∃ c, drop_poll w = Ok (set_zk_io_poll_hdl None (set_closing c (set_polls ∅ w))).
Proof.
  unfold drop_poll, owns_poll. destruct (zk_io_poll_hdl w) as [id|] eqn:E; intros Hw.
  - destruct Hw as [_ [p Hp]]. erewrite poll_close_owned by done. simpl. by eexists.
  - exists (closing w). destruct w; simpl in *; by subst.
Qed.

(** A timer that runs from now. *)
Definition started (d : Z) (w : world) : world := set_zk_timer (MkTimer true (now w + d) d) w.

Lemma arm_ok ev d w id p :
  zk_io_poll_hdl w = Some id → polls w = {[id := p]} → timer_open w = true →
  arm ev d w = Ok (started d (set_polls {[id := MkPoll (p_fd p) true ev]} w)).
Proof.
  intros E1 E2 Ht. unfold arm. rewrite E1. erewrite poll_start_owned by done. cbn [mbind result_bind].
  unfold uv_timer_start, started. cbn [timer_open set_polls]. by rewrite Ht.
Qed.

(** The first part of [yield]. *)
Lemma stop_active_ok w :
  owns_poll (zk_io_poll_hdl w) w →
  ∃ ps, (if uv_poll_is_active (zk_io_poll_hdl w) w then uv_poll_stop (zk_io_poll_hdl w) w else Ok w)
          = Ok (set_polls ps w) ∧ owns_poll (zk_io_poll_hdl w) (set_polls ps w).
Proof.
  intros Hw. case_match.
  - unfold owns_poll in *. destruct (zk_io_poll_hdl w) as [id|] eqn:E; [|done].
    destruct Hw as [Hid [p Hp]]. erewrite poll_stop_owned by done. eexists. split; [done|].
    split; [done|]. by eexists.
  - exists (polls w). by destruct w.
Qed.

(** ** [yield] *)

(** The result of [yield] on an open object. *)
Definition yielded (a : interest_answer) (w w' : world) : Prop :=
  same_session w w' ∧ fd w' = a_fd a ∧ tv w' = a_tv a ∧ last_activity w' = now w ∧
  match a_rc a with
  | ZOK =>
      if (a_fd a =? -1)%Z then zk_io_poll_hdl w' = None ∧ zk_timer w' = zk_timer w
      else if a_malloc a || (fd w =? a_fd a)%Z then
        uv_poll_is_active (zk_io_poll_hdl w') w' = true ∧
        zk_timer w' = MkTimer true (now w + delay_ms (a_tv a)) (delay_ms (a_tv a))
      else zk_io_poll_hdl w' = None ∧ zk_timer w' = zk_timer w
  | _ => zk_io_poll_hdl w' = zk_io_poll_hdl w ∧ zk_timer w' = zk_timer w
  end.

(** A new poll handle, armed. *)
Lemma arm_new_ok ev d f w :
  polls w = ∅ → timer_open w = true →
  arm ev d (uv_poll_new f w) =
    Ok (started d (set_polls {[next_poll w := MkPoll f true ev]}
         (set_zk_io_poll_hdl (Some (next_poll w)) (set_next_poll (S (next_poll w)) w)))).
Proof.
  intros E Ht. erewrite (arm_ok ev d _ (next_poll w)); [|done|simpl; by rewrite E, insert_empty|done].
  by destruct w.
Qed.

Lemma poll_active_owned id w f ev :
  polls w = {[id := MkPoll f true ev]} → uv_poll_is_active (Some id) w = true.
Proof. intros E. unfold uv_poll_is_active. by rewrite E, lookup_singleton_eq. Qed.

(** [yield] on an open object: it starts a null handle, or does what it should. *)
Lemma yield_cases a w :
  inv w → is_closed w = false → timer_open w = true →
  if null_poll a w then yield a w = Err Fault else ∃ w', yield a w = Ok w' ∧ inv w' ∧ yielded a w w'.
Proof.
  intros [Hp Hi Hr Ho] Hc Ht. unfold yield, null_poll. rewrite Hc. cbn [negb andb].
  set (w1 := set_tv _ _). assert (Hw1 : owns_poll (zk_io_poll_hdl w1) w1) by done.
  destruct (stop_active_ok w1 Hw1) as (ps & -> & Hw2). cbn [mbind result_bind]. unfold yielded.
  set (w2 := set_polls ps w1) in *.
  change (owns_poll (zk_io_poll_hdl w) w2) in Hw2.
  change (fd (set_last_activity _ w)) with (fd w).
  change (fd w2) with (a_fd a). change (tv w2) with (a_tv a). change (interest w2) with (a_interest a).
  assert (Hi2 : inv w2) by (by split).
  destruct (a_rc a) eqn:Erc; cbn [andb]; [|by exists w2..].
  destruct (Z.eqb_spec (a_fd a) (-1)) as [Efd|Efd]; cbn [negb andb].
  { destruct (drop_poll_ok w2 Hw2) as [c Hd]. eexists. split; [exact Hd|]. split; [|done]. by split. }
  destruct (Z.eqb_spec (fd w) (a_fd a)) as [Eq|Eq]; cbn [negb andb].
  - destruct (zk_io_poll_hdl w) as [id|] eqn:E; [rewrite bool_decide_true by by eexists|].
    + cbn [negb]. destruct Hw2 as [Hid [p' Hp']]. eexists. split; [exact (arm_ok _ _ w2 id p' E Hp' Ht)|]. split; [split; try done|].
      * change (zk_io_poll_hdl _) with (zk_io_poll_hdl w). rewrite E. split; [done|]. by eexists.
      * rewrite orb_true_r. split_and!; [done..| |done]. change (zk_io_poll_hdl _) with (zk_io_poll_hdl w).
        rewrite E. by eapply poll_active_owned.
    + rewrite bool_decide_false by by intros [? ?]. cbn [negb]. unfold arm. change (zk_io_poll_hdl w2) with (zk_io_poll_hdl w). by rewrite E.
  - destruct (drop_poll_ok w2 Hw2) as [c ->]. cbn [mbind result_bind]. destruct (a_malloc a); cbn [orb].
    + rewrite arm_new_ok by done. eexists. split; [done|]. split; [split; [|done..]|].
      * split; [simpl; lia|]. by eexists.
      * split_and!; [done..| |done]. by eapply poll_active_owned.
    + eexists. split; [done|]. split; [by split|done].
Qed.

(** An answer as expected keeps [fd] and the poll handle together. *)
Lemma yield_fd_ok a w w' :
  inv w → is_closed w = false → timer_open w = true → fd_ok w → answer_ok a w → yield a w = Ok w' → fd_ok w'.
Proof.
  intros Hw Hc Ht Hf [Hm Ha] E. pose proof (yield_cases a w Hw Hc Ht) as H. rewrite (fd_ok_no_null a w Hf), E in H.
  destruct H as (w1 & [= <-] & Hi & (_ & _ & Hc' & _) & Hfd & _ & _ & H). unfold fd_ok. rewrite Hfd.
  destruct (a_rc a); cycle 1.
  1, 2: destruct H as [-> _]; destruct (Ha ltac:(done)) as [->| ->]; [done|]; intros E' _; by apply Hf.
  rewrite Hm in H. destruct (Z.eqb_spec (a_fd a) (-1)) as [->|Hne]; [done|]. destruct H as [H _]. intros E'. by rewrite E' in H.
Qed.

(** ** [realClose] *)

Definition closed_by (code : close_code) (w w' : world) : Prop :=
  is_closed w' = true ∧ zhandle w' = None ∧ t_active (zk_timer w') = false ∧
  fd w' = fd w ∧ myid w' = myid w ∧ refs w' = refs w ∧ now w' = now w ∧
  match zhandle w with
  | None =>
      timer_closing w' = timer_closing w ∧ open_zh w' = open_zh w ∧ emitted w' = emitted w ∧
      zk_io_poll_hdl w' = zk_io_poll_hdl w ∧ polls w' = polls w ∧ closing w' = closing w ∧
      timer_open w' = timer_open w
  | Some h =>
      timer_closing w' = S (timer_closing w) ∧ open_zh w' = open_zh w ∖ {[h]} ∧
      emitted w' = EmitClose "close" code :: emitted w ∧
      zk_io_poll_hdl w' = None ∧ polls w' = ∅ ∧ timer_open w' = false
  end.

(** Stopping the timer changes nothing else. *)
Lemma timer_off_same w :
  (t_active (zk_timer w) = true → timer_open w = true) →
  ∃ t, t_active t = false ∧ (if t_active (zk_timer w) then uv_timer_stop w else Ok w) = Ok (set_zk_timer t w).
Proof.
  intros H. destruct (t_active (zk_timer w)) eqn:E.
  - exists (MkTimer false (t_due (zk_timer w)) (t_repeat (zk_timer w))). split; [done|]. unfold uv_timer_stop. by rewrite H.
  - exists (zk_timer w). by destruct w.
Qed.

(** [uv_poll_stop] and [uv_close] of the poll handle, if there is one. *)
Lemma close_poll_ok w :
  owns_poll (zk_io_poll_hdl w) w →
  ∃ c, (match zk_io_poll_hdl w with
        | Some id => w ← uv_poll_stop (Some id) w; w ← uv_close_poll (Some id) w; Ok (set_zk_io_poll_hdl None w)
        | None => Ok w
        end) = Ok (set_zk_io_poll_hdl None (set_closing c (set_polls ∅ w))).
Proof.
  unfold owns_poll. destruct (zk_io_poll_hdl w) as [id|] eqn:E; intros Hp.
  - destruct Hp as [_ [p Hp]]. rewrite (poll_stop_owned _ p) by done. cbn [mbind result_bind].
    erewrite poll_close_owned by done. by eexists.
  - exists (closing w). destruct w; simpl in *. by subst.
Qed.

Lemma realClose_ok code w :
  inv w → is_closed w = false → ∃ w', realClose code w = Ok w' ∧ inv w' ∧ closed_by code w w'.
Proof.
  intros [Hp Hi Hr Ho] Hc. unfold realClose. rewrite Hc.
  destruct (timer_off_same (set_is_closed true w)) as (t & Ht & ->); [by intros Ha; apply Hi; auto|]. cbn [mbind result_bind].
  set (w1 := set_zk_timer t _). change (zhandle w1) with (zhandle w). unfold closed_by.
  destruct (zhandle w) as [h|] eqn:Eh; cycle 1.
  { exists w1. split; [done|]. split; [|repeat (split; [done || exact Ht || exact Eh|]); done].
    split; [done| |done|done]. change (zk_io_poll_hdl w1) with (zk_io_poll_hdl w). change (zhandle w1) with (zhandle w).
    change (timer_open w1) with (timer_open w). change (t_active (zk_timer w1)) with (t_active t). rewrite Ht, Eh.
    intros [H|[H|[? H]]]; [apply Hi; auto|done..]. }
  assert (Hopen : timer_open w = true) by (apply Hi; right; right; by eexists).
  set (w2 := set_zhandle _ _). destruct (close_poll_ok w2) as [c ->]; [done|]. cbn [mbind result_bind].
  unfold uv_close_timer, uv_timer_stop. cbn [timer_open set_zk_io_poll_hdl set_closing set_polls]. change (timer_open w2) with (timer_open w).
  rewrite Hopen. cbn [mbind result_bind]. eexists. split; [done|]. split; [|done].
  split; [done| |simpl; rewrite Hr, Hopen; simpl; lia|done]. intros [[? H]|[H|[? H]]]; done.
Qed.

(** What every callback keeps. *)
Definition keeps (w w' : world) : Prop :=
  inv w' ∧ fd w' = fd w ∧
  (is_closed w' = false → is_closed w = false ∧ timer_open w' = timer_open w ∧ zk_io_poll_hdl w' = zk_io_poll_hdl w).

Lemma keeps_trans w1 w2 w3 : keeps w1 w2 → keeps w2 w3 → keeps w1 w3.
Proof. unfold keeps. intuition congruence. Qed.

Lemma keeps_null a w w' : keeps w w' → is_closed w' = false → null_poll a w' = null_poll a w.
Proof. intros (_ & Hf & H) Hc. destruct (H Hc) as (Hc' & _ & Hp). unfold null_poll. by rewrite Hf, Hc, Hc', Hp. Qed.

Lemma keeps_fd_ok w w' : keeps w w' → fd_ok w → fd_ok w'.
Proof. intros (_ & Hf & H) Hw Hp Hc. destruct (H Hc) as (Hc' & _ & Hp'). rewrite Hf. apply Hw; congruence. Qed.

Lemma realClose_keeps code w : inv w → ∃ w', realClose code w = Ok w' ∧ keeps w w'.
Proof.
  intros Hw. destruct (is_closed w) eqn:Hc.
  - exists w. unfold realClose. rewrite Hc. split; [done|]. split; [done|]. split; [done|congruence].
  - destruct (realClose_ok code w Hw Hc) as (w' & E & Hi & H). exists w'. split; [done|].
    split; [done|]. unfold closed_by in H. intuition congruence.
Qed.

Lemma main_watcher_keeps type state path cid w :
  inv w → ∃ w', main_watcher type state path cid w = Ok w' ∧ keeps w w'.
Proof.
  intros Hw. destruct type; try destruct state; cbn [main_watcher]; try (by apply realClose_keeps);
    eexists; (split; [done|]); (split; [|done]); by destruct Hw.
Qed.

Lemma reenter_all_keeps rs : ∀ w, inv w → ∃ w', reenter_all rs w = Ok w' ∧ keeps w w'.
Proof.
  induction rs as [|r rs IH]; intros w Hw; cbn [reenter_all]; [by exists w|].
  assert (∃ w1, reenter r w = Ok w1 ∧ keeps w w1) as (w1 & -> & Hk).
  { destruct r; [by apply main_watcher_keeps|by apply realClose_keeps]. }
  destruct (IH w1) as (w2 & E & Hk'); [apply Hk|]. exists w2. split; [done|]. by eapply keeps_trans.
Qed.

(** [yield] wherever it is called. *)
Lemma yield_inv a w :
  inv w → (is_closed w = false → timer_open w = true) →
  if null_poll a w then yield a w = Err Fault else ∃ w', yield a w = Ok w' ∧ inv w'.
Proof.
  intros Hw Ht. destruct (is_closed w) eqn:Hc.
  - unfold null_poll, yield. rewrite Hc. by exists w.
  - pose proof (yield_cases a w Hw Hc (Ht eq_refl)) as H. destruct (null_poll a w); [done|].
    destruct H as (w' & E & Hi & _). by exists w'.
Qed.

(** ** Every step *)

Lemma from_hex_total n : ∀ s, length s = 2 * n → ∃ p, from_hex_loop n s = Ok p.
Proof.
  induction n as [|n IH]; intros s Hs; [by eexists|].
  destruct s as [|h0 [|h1 s]]; [done|simpl in Hs; lia|]. cbn [from_hex_loop].
  destruct (IH s) as [p ->]; [simpl in Hs; lia|]. by eexists.
Qed.

Lemma init_session_total arg : ∃ s, init_session arg = Ok s.
Proof.
  unfold init_session. repeat case_match; try (by eexists).
  destruct (from_hex_total 16 l0) as [p E]; [by apply Nat.eqb_eq|].
  unfold HexStringToPassword. rewrite E. by eexists.
Qed.

(** The state in which [realInit] calls [yield], and the state when [zookeeper_init] fails. *)
Definition init_world (h : nat) (cid : clientid) (w : world) : world :=
  let w := set_zhandle (Some h) (set_myid cid w) in
  set_timer_open true (set_zk_timer (MkTimer false 0 0) (set_refs (refs w + 1) (set_open_zh ({[h]} ∪ open_zh w) w))).
Definition failed_world (cid : clientid) (w : world) : world :=
  let w := match zhandle w with
           | Some _ => set_zk_timer (MkTimer false (t_due (zk_timer w)) (t_repeat (zk_timer w))) w
           | None => w
           end in
  set_zhandle None (set_myid cid w).

(** The timer of an earlier session is still open, or its close callback is pending. *)
Definition timer_busy (w : world) : bool := timer_open w || (0 <? timer_closing w).

Lemma uv_timer_init_eq w w' : timer_open w' = timer_open w → timer_closing w' = timer_closing w →
  uv_timer_init w' = if timer_busy w then Err Fault else Ok (set_timer_open true (set_zk_timer (MkTimer false 0 0) w')).
Proof. intros E1 E2. unfold uv_timer_init, timer_busy. by rewrite E1, E2. Qed.

Lemma realInit_busy h cid a w : inv w → timer_busy w = true → realInit (Some h) cid a w = Err Fault.
Proof.
  intros Hw Hb. unfold realInit. destruct (zhandle w) as [h'|] eqn:E.
  - unfold uv_timer_stop. rewrite (inv_timer w Hw) by (right; right; by eexists). cbn [mbind result_bind].
    by rewrite (uv_timer_init_eq w), Hb by done.
  - cbn [mbind result_bind]. by rewrite (uv_timer_init_eq w), Hb by done.
Qed.

Lemma realInit_eq h cid a w : inv w → timer_busy w = false →
  realInit (Some h) cid a w = (w' ← yield a (init_world h cid w); Ok (true, w')).
Proof.
  intros Hw Hb. unfold realInit. destruct (zhandle w) as [h'|] eqn:E.
  - assert (Ho : timer_open w = true) by (apply Hw; right; right; by eexists). unfold timer_busy in Hb. by rewrite Ho in Hb.
  - cbn [mbind result_bind]. by rewrite (uv_timer_init_eq w), Hb by done.
Qed.

Lemma realInit_failed cid a w : inv w → realInit None cid a w = Ok (false, failed_world cid w).
Proof.
  intros Hw. unfold realInit, failed_world. destruct (zhandle w) as [h|] eqn:E; [|done].
  unfold uv_timer_stop. by rewrite (inv_timer w Hw) by (right; right; by eexists).
Qed.

Lemma init_world_inv h cid w : inv w → timer_busy w = false → inv (init_world h cid w).
Proof.
  intros [Hp Hi Hr Ho] [Hb1 Hb2]%orb_false_iff. apply Nat.ltb_ge in Hb2. split; cbn; [done|done| |lia].
  rewrite Hr, Hb1. simpl. lia.
Qed.

Lemma failed_world_inv cid w : inv w → inv (failed_world cid w).
Proof.
  intros [Hp Hi Hr Ho]. unfold failed_world. destruct (zhandle w); (split; [done| |done|done]); simpl;
    intros [H|[H|[? H]]]; try done; apply Hi; auto.
Qed.

(** ** The steps that fault *)

(** The session that [init] is given, when it gets as far as [zookeeper_init]. *)
Definition accepted (args : list (option init_arg)) : option clientid :=
  match args with
  | Some arg :: _ => match init_session arg with Ok (inr cid) => Some cid | _ => None end
  | _ => None
  end.

(** Misuse of libuv: [init] while the timer of an earlier session is open or being closed,
    and any call of [yield] that starts a null handle. *)
Definition misuse (e : event) (w : world) : bool :=
  match e with
  | EInit args (Some h) a =>
      match accepted args with Some cid => timer_busy w || null_poll a (init_world h cid w) | None => false end
  | EIo _ _ _ rs rc a =>
      match rc, reenter_all rs w with
      | ZNOTHING, _ | _, Err _ => false
      | _, Ok w1 => null_poll a w1
      end
  | ETimer a => (last_activity w + delay_ms (tv w) <? now w)%Z && null_poll a w
  | _ => false
  end.

Definition exec_spec (e : event) (w : world) (r : result world) : Prop :=
  if misuse e w then r = Err Fault else ∃ w', r = Ok w' ∧ inv w'.

Lemma init_inv args h a w : inv w →
  exec_spec (EInit args h a) w (exec (EInit args h a) w).
Proof.
  intros Hw. unfold exec_spec. cbn [exec misuse]. destruct args as [|[arg|] args]; cbn [Init accepted].
  1, 3: assert (H : ∃ w', Ok w = Ok w' ∧ inv w') by (by exists w); by destruct h.
  destruct (init_session_total arg) as [[text|cid] ->]; cbn [mbind result_bind].
  { assert (H : ∃ w', Ok w = Ok w' ∧ inv w') by (by exists w). by destruct h. }
  destruct h as [h|]; cycle 1.
  { rewrite realInit_failed by done. eexists. split; [done|]. by apply failed_world_inv. }
  destruct (timer_busy w) eqn:Hb; cbn [orb]; [by rewrite realInit_busy|].
  rewrite realInit_eq by done. pose proof (yield_inv a _ (init_world_inv h cid w Hw Hb)) as H.
  destruct (null_poll a _); [rewrite H by done; done|]. destruct H as (w' & -> & Hi); [done|]. by exists w'.
Qed.

Lemma timer_fires_same w : ∃ t, timer_fires w = set_zk_timer t w.
Proof. unfold timer_fires. case_match; by eexists. Qed.

Lemma io_inv st rev rs rc a w : inv w → timer_open w = true →
  exec_spec (EIo 0 st rev rs rc a) w (zk_io_cb st rev (λ _, (rs, rc)) a w).
Proof.
  intros Hw Ht. unfold exec_spec, zk_io_cb. cbn [misuse]. destruct (reenter_all_keeps rs w Hw) as (w1 & E & Hk). rewrite E. cbn [mbind result_bind].
  pose proof Hk as (Hi & _ & H). assert (Hy : is_closed w1 = false → timer_open w1 = true) by (intros Hc; destruct (H Hc) as (_ & -> & _); done).
  destruct rc; [by apply yield_inv| |by apply yield_inv].
  destruct (realClose_keeps (CloseState EXPIRED_SESSION_STATE) w1 Hi) as (w' & E' & Hk'). exists w'. split; [done|apply Hk'].
Qed.

Lemma poll_active_open id w : inv w → uv_poll_is_active (Some id) w = true → zk_io_poll_hdl w = Some id.
Proof.
  intros Hw H. pose proof (inv_poll w Hw) as Hp. unfold uv_poll_is_active, owns_poll in *.
  destruct (zk_io_poll_hdl w) as [id'|]; [destruct Hp as (_ & p & E)|rewrite Hp, lookup_empty in H; done]. rewrite E in H.
  destruct (decide (id' = id)) as [->|]; [done|]. by rewrite lookup_singleton_ne in H.
Qed.

Lemma exec_inv e w : inv w → enabled e w = true → exec_spec e w (exec e w).
Proof.
  intros Hw He. destruct e as [args h a| |id st rev rs rc a|a|id| |t]; cbn [exec enabled] in *.
  - by apply init_inv.
  - destruct (realClose_keeps CloseRequested w Hw) as (w' & E & Hk). exists w'. split; [done|apply Hk].
  - apply io_inv; [done|]. apply Hw. left. eexists. by apply poll_active_open.
  - apply andb_true_iff in He as [Ha _]. assert (Ht : timer_open w = true) by (apply Hw; auto). unfold exec_spec. cbn [misuse].
    destruct (timer_fires_same w) as [t ->]. assert (Hi : inv (set_zk_timer t w)) by (by destruct Hw; split).
    unfold zk_timer_cb. cbn [last_activity tv now set_zk_timer]. destruct (_ <? now w)%Z; cbn [andb].
    + pose proof (yield_inv a _ Hi ltac:(done)) as H. exact H.
    + unfold uv_timer_start. cbn [timer_open set_zk_timer]. rewrite Ht. eexists. split; [done|]. by destruct Hi; split.
  - exists (delete_on_close id w). split; [done|]. by destruct Hw.
  - destruct Hw as [Hp Hi Hr Ho]. unfold exec_spec, timer_closed. cbn [misuse]. apply Nat.ltb_lt in He.
    destruct (timer_open w) eqn:Et; [rewrite Ho in He by done; lia|].
    rewrite (proj2 (Z.ltb_lt _ _)) by (rewrite Hr; simpl; lia).
    eexists. split; [done|]. split; [done|by intros H; apply Hi in H; simpl in *; congruence| |intros ?; simpl in *; congruence].
    simpl. rewrite Et, Nat2Z.inj_pred by lia. simpl in *. lia.
  - eexists. split; [done|]. by destruct Hw; split.
Qed.

(** ** The states that an object can get into, by events that satisfy [P] *)

Inductive reachable_by (P : event → world → Prop) (t : Z) : world → Prop :=
  | reachable_new : reachable_by P t (ZooKeeper_new t)
  | reachable_step e w w' :
      reachable_by P t w → enabled e w = true → P e w → exec e w = Ok w' → reachable_by P t w'.

Definition any (e : event) (w : world) : Prop := True.
Abbreviation reachable := (reachable_by any).

Lemma new_inv t : inv (ZooKeeper_new t).
Proof. split; [done| |done|done]. by intros [[? H]|[H|[? H]]]. Qed.

Lemma exec_ok_inv e w w' : inv w → enabled e w = true → exec e w = Ok w' → inv w'.
Proof.
  intros Hw He E. pose proof (exec_inv e w Hw He) as H. unfold exec_spec in H. rewrite E in H.
  destruct (misuse e w); [done|]. by destruct H as (? & [= <-] & ?).
Qed.

Lemma reachable_inv P t w : reachable_by P t w → inv w.
Proof. induction 1 as [|e w w' _ IH He _ Hex]; [apply new_inv|]. by eapply exec_ok_inv. Qed.

(** With answers as expected there is never a descriptor without a poll handle. *)
Lemma yield_keeps_fd a w w' :
  inv w → (is_closed w = false → timer_open w = true) → fd_ok w → answer_ok a w → yield a w = Ok w' → fd_ok w'.
Proof.
  intros Hw Ht Hf Ha E. destruct (is_closed w) eqn:Hc; [|by eapply yield_fd_ok; eauto].
  unfold yield in E. rewrite Hc in E. by injection E as <-.
Qed.

Lemma init_fd_ok args h a w w' :
  inv w → fd_ok w → answer_ok a w → exec (EInit args h a) w = Ok w' → fd_ok w'.
Proof.
  intros Hw Hf Ha E. cbn [exec] in E. destruct args as [|[arg|] args]; cbn [Init mbind result_bind] in E; [by simplify_eq| |by simplify_eq].
  destruct (init_session_total arg) as [[text|cid] Es]; rewrite Es in E; cbn [mbind result_bind] in E; [by simplify_eq|].
  destruct h as [h|]; cycle 1.
  { rewrite realInit_failed in E by done. simplify_eq/=. unfold failed_world. by destruct (zhandle w). }
  destruct (timer_busy w) eqn:Hb; [by rewrite realInit_busy in E|]. rewrite realInit_eq in E by done.
  destruct (yield a (init_world h cid w)) as [w1|] eqn:Ey; [|done]. simplify_eq/=.
  eapply (yield_keeps_fd a (init_world h cid w)); [by apply init_world_inv|done|done|done|exact Ey].
Qed.

Lemma exec_fd_ok e w w' : inv w → fd_ok w → enabled e w = true → event_ok e w → exec e w = Ok w' → fd_ok w'.
Proof.
  intros Hw Hf He Hok E. destruct e as [args h a| |id st rev rs rc a|a|id| |t]; cbn [event_ok] in Hok; [by apply (init_fd_ok args h a w w')|..]; cbn [exec enabled] in *.
  - destruct (realClose_keeps CloseRequested w Hw) as (w1 & E1 & Hk). unfold Close in E. rewrite E1 in E. simplify_eq. by eapply keeps_fd_ok.
  - unfold zk_io_cb in E. destruct (reenter_all_keeps rs w Hw) as (w1 & E1 & Hk). rewrite E1 in E. cbn [mbind result_bind] in E.
    pose proof (keeps_fd_ok _ _ Hk Hf) as Hf1. destruct Hk as (Hi1 & Hfd & H).
    assert (Hy : is_closed w1 = false → timer_open w1 = true).
    { intros Hc. destruct (H Hc) as (_ & -> & _). apply Hw. left. eexists. by apply poll_active_open. }
    assert (Ha : answer_ok a w1) by (unfold answer_ok in *; by rewrite Hfd).
    destruct rc; [by eapply yield_keeps_fd| |by eapply yield_keeps_fd].
    destruct (realClose_keeps (CloseState EXPIRED_SESSION_STATE) w1 Hi1) as (w2 & E2 & Hk2). rewrite E2 in E. simplify_eq. by eapply keeps_fd_ok.
  - apply andb_true_iff in He as [Ha _]. assert (Ht : timer_open w = true) by (apply Hw; auto).
    destruct (timer_fires_same w) as [t Et]. rewrite Et in E. assert (Hi : inv (set_zk_timer t w)) by (by destruct Hw; split).
    unfold zk_timer_cb in E. case_match; [by eapply (yield_keeps_fd a (set_zk_timer t w))|].
    unfold uv_timer_start in E. case_match; [|done]. by simplify_eq.
  - by simplify_eq.
  - unfold timer_closed in E. case_match; [|done]. by simplify_eq.
  - by simplify_eq.
Qed.
