(* ===== verification/ZkLife.v ===== *)
(** * The ZooKeeper wrapper: the life of a session

    Theorems about the sessions of ZkSession.v: safety of every interleaving, what a
    session that is opened once has released after [close], and the runs in which
    the wrapper loses its handle, dereferences a null handle or stops polling. *)

From S2P Require Import Prelude ZkIds ZkSession ZkSafe.
From Stdlib Require Import ZArith Lia.

(** ** Sessions opened once *)

Definition is_close (m : emit) : bool := match m with EmitClose _ _ => true | _ => false end.
Definition closes (w : world) : nat := length (filter (λ m, is_close m = true) (emitted w)).

Record life (w : world) : Prop := {
  life_timer : timer_open w = bool_decide (is_Some (zhandle w));
  life_open : open_zh w = match zhandle w with Some h => {[h]} | None => ∅ end;
  life_idle : zhandle w = None → zk_io_poll_hdl w = None ∧ t_active (zk_timer w) = false;
  life_closed : is_closed w = true → zhandle w = None;
  life_pending : is_closed w = false → timer_closing w = 0;
  life_emit : closes w ≤ (if is_closed w then 1 else 0);
}.

Lemma new_life t : life (ZooKeeper_new t).
Proof. by split. Qed.

Lemma life_timer_open w : life w → is_Some (zhandle w) → timer_open w = true.
Proof. intros Hl H. rewrite (life_timer w Hl). by apply bool_decide_eq_true. Qed.

(** [yield] on an object with a handle. *)
Lemma yield_life a w w' :
  life w → inv w → (is_closed w = false → is_Some (zhandle w)) → yield a w = Ok w' → life w'.
Proof.
  intros Hl Hw Hz E. pose proof Hl as [Ht Ho Hi Hc Hp He]. destruct (is_closed w) eqn:Ec.
  - unfold yield in E. rewrite Ec in E. by simplify_eq.
  - pose proof (yield_cases a w Hw Ec (life_timer_open w Hl (Hz eq_refl))) as H. rewrite E in H. destruct (null_poll a w); [done|].
    destruct H as (w1 & [= <-] & _ & Hs & _).
    destruct Hs as (Ez & _ & Ecl & Er & Et & Eo & Ee & _ & Eto). destruct (Hz eq_refl) as [h Hh].
    split; rewrite ?Ez, ?Eto, ?Et, ?Eo, ?Ecl; [by rewrite Ht|done|congruence|congruence|by rewrite Ec|].
    unfold closes in *. by rewrite Ee, Ec.
Qed.

Lemma realClose_life code w w' : life w → inv w → realClose code w = Ok w' → life w'.
Proof.
  intros Hl Hw E. pose proof Hl as [Ht Ho Hi Hc Hp He]. destruct (is_closed w) eqn:Ec.
  - unfold realClose in E. rewrite Ec in E. by simplify_eq.
  - destruct (realClose_ok code w Hw Ec) as (w1 & E1 & _ & Hcl). rewrite E1 in E. simplify_eq.
    destruct Hcl as (Ecl & Ez & Hta & _ & _ & Er & _ & Hm). unfold closes in *.
    destruct (zhandle w) as [h|] eqn:Eh.
    + destruct Hm as (Et & Eo & Ee & Ep & _ & Eto).
      split; rewrite ?Ez, ?Eto, ?Et, ?Eo, ?Ecl; [done|by rewrite Ho, difference_diag_L|done|done|done|].
      unfold closes. rewrite Ee, filter_cons_True by done. simpl. lia.
    + destruct Hm as (Et & Eo & Ee & Ep & _ & _ & Eto).
      split; rewrite ?Ez, ?Eto, ?Et, ?Eo, ?Ecl; [done|done|rewrite Ep; destruct (Hi eq_refl); done|done|done|].
      unfold closes. rewrite Ee. lia.
Qed.

Lemma emit_life name path w : life w → life (DoEmitPath name path w).
Proof. intros [Ht Ho Hi Hc Hp He]. by split. Qed.

Lemma reenter_life r w w' : life w → inv w → reenter r w = Ok w' → life w'.
Proof.
  intros Hl Hw E. destruct r as [type state path cid|]; [|by eapply realClose_life].
  destruct type; try destruct state; simpl in E; try (by eapply realClose_life); simplify_eq; try done;
    try (by apply emit_life). apply emit_life. by destruct Hl.
Qed.

(** What is open stays open until [realClose]. *)
Lemma realClose_zhandle code w w' :
  inv w → realClose code w = Ok w' → is_closed w' = false → zhandle w' = zhandle w ∧ is_closed w = false.
Proof.
  intros Hw E Hc'. destruct (is_closed w) eqn:Ec.
  - unfold realClose in E. rewrite Ec in E. simplify_eq. congruence.
  - destruct (realClose_ok code w Hw Ec) as (w1 & E1 & _ & Hcl & _). rewrite E1 in E. simplify_eq. congruence.
Qed.

Lemma reenter_zhandle r w w' :
  inv w → reenter r w = Ok w' → is_closed w' = false → zhandle w' = zhandle w ∧ is_closed w = false.
Proof.
  intros Hw E. destruct r as [type state path cid|]; [|by eapply realClose_zhandle].
  destruct type; try destruct state; simpl in E; try (by eapply realClose_zhandle); by simplify_eq.
Qed.

Lemma reenter_all_life rs : ∀ w w',
  life w → inv w → reenter_all rs w = Ok w' →
  life w' ∧ (is_closed w' = false → zhandle w' = zhandle w ∧ is_closed w = false).
Proof.
  induction rs as [|r rs IH]; intros w w' Hl Hw E; cbn [reenter_all] in E; [by simplify_eq|].
  destruct (reenter r w) as [w1|] eqn:E1; [|done]. cbn [mbind result_bind] in E.
  destruct (reenter_all_keeps [r] w Hw) as (w1' & E1' & Hk & _). cbn [reenter_all] in E1'. rewrite E1 in E1'.
  simplify_eq/=. destruct (IH w1' w') as [Hl' Hz]; [by eapply reenter_life|done|done|]. split; [done|].
  intros Hc. destruct (Hz Hc) as [-> Hc1]. by eapply reenter_zhandle.
Qed.

(** [init] is called only when there is no session and the object is not closed. *)
Definition once (e : event) (w : world) : Prop :=
  match e with
  | EInit _ _ _ => zhandle w = None ∧ is_closed w = false
  | _ => True
  end.

Lemma once_timer_free w : life w → zhandle w = None → is_closed w = false → timer_busy w = false.
Proof.
  intros Hl Hz Hc. unfold timer_busy. rewrite (life_timer w Hl), Hz, (life_pending w Hl Hc). done.
Qed.

Lemma init_life args h a w w' r :
  life w → inv w → zhandle w = None → is_closed w = false →
  Init args (λ _ _ _, h) a w = Ok (r, w') → life w'.
Proof.
  intros Hl Hw Hz Hc E. destruct args as [|[arg|] args]; cbn [Init] in E; [by simplify_eq| |by simplify_eq].
  destruct (init_session_total arg) as [[text|cid] Es]; rewrite Es in E; cbn [mbind result_bind] in E;
    [by simplify_eq|].
  pose proof (once_timer_free w Hl Hz Hc) as Hb. destruct Hl as [Ht Ho Hi Hcl Hp He]. rewrite Hz in *. destruct h as [h|].
  - rewrite realInit_eq in E by done. destruct (yield a (init_world h cid w)) as [w1|] eqn:Ey; [|done].
    cbn [mbind result_bind] in E. simplify_eq.
    eapply (yield_life a (init_world h cid w)); [|by apply init_world_inv|by eexists|done].
    split; simpl in *; [done|by rewrite Ho, union_empty_r_L|done|congruence|done|done].
  - rewrite realInit_failed in E by done. unfold failed_world in E. rewrite Hz in E. simplify_eq/=. by split.
Qed.

Lemma poll_idle w id : life w → inv w → zhandle w = None → uv_poll_is_active (Some id) w = false.
Proof.
  intros Hl Hw Hz. destruct (life_idle _ Hl Hz) as [Ep _]. pose proof (inv_poll _ Hw) as Hp.
  rewrite Ep in Hp. simpl in Hp. unfold uv_poll_is_active. by rewrite Hp, lookup_empty.
Qed.

Lemma exec_life e w w' :
  life w → inv w → enabled e w = true → once e w → exec e w = Ok w' → life w'.
Proof.
  intros Hl Hw He Honce E.
  destruct e as [args h a| |id st rev rs rc a|a|id| |t]; cbn [exec enabled once] in *.
  - destruct (Init args _ a w) as [[r w1]|] eqn:Ei; [|done]. simplify_eq/=. destruct Honce. by eapply init_life.
  - by eapply realClose_life.
  - unfold zk_io_cb in E. destruct (reenter_all_keeps rs w Hw) as (w1 & E1 & Hi & Hf & _).
    rewrite E1 in E. cbn [mbind result_bind] in E.
    destruct (reenter_all_life rs w w1 Hl Hw E1) as [Hl1 Hz].
    assert (is_closed w1 = false → is_Some (zhandle w1)).
    { intros Hc. destruct (Hz Hc) as [-> _]. destruct (zhandle w) eqn:Ez; [by eexists|].
      by rewrite (poll_idle w id) in He. }
    destruct rc; [by eapply yield_life|by eapply realClose_life|by eapply yield_life].
  - destruct (timer_fires_same w) as [t Et]. rewrite Et in E.
    assert (Hz : is_Some (zhandle w)).
    { destruct (zhandle w) eqn:Ez; [by eexists|]. destruct (life_idle _ Hl Ez) as [_ Ht].
      by rewrite Ht in He. }
    assert (Hl1 : life (set_zk_timer t w)).
    { destruct Hl, Hz as [h Hh]. split; try done. simpl. congruence. }
    unfold zk_timer_cb in E. case_match.
    + pose proof (life_timer_open w Hl Hz). eapply yield_life; [done|by destruct Hw; split|done|done].
    + unfold uv_timer_start in E. case_match; [|done]. simplify_eq. destruct Hl1, Hz as [h Hh]. split; try done. simpl in *. congruence.
  - simplify_eq. by destruct Hl.
  - unfold timer_closed in E. case_match; [|done]. simplify_eq. apply Nat.ltb_lt in He.
    destruct Hl as [Ht Ho Hi Hcl Hp Hemit]. split; try done. simpl. intros Hc. by rewrite Hp.
  - simplify_eq. by destruct Hl.
Qed.

Abbreviation reachable_once := (reachable_by once).

Lemma once_inv t w : reachable_once t w → inv w ∧ life w.
Proof.
  induction 1 as [|e w w' _ [IHi IHl] He Ho Hex]; [split; [apply new_inv|apply new_life]|].
  split; [by eapply exec_ok_inv|by eapply exec_life].
Qed.

(** Runs from an arbitrary state whose events satisfy [P]. *)
Inductive steps (P : event → world → Prop) : world → world → Prop :=
  | steps_refl w : steps P w w
  | steps_step e w w1 w2 :
      enabled e w = true → P e w → exec e w = Ok w1 → steps P w1 w2 → steps P w w2.

Definition no_init (e : event) : Prop := match e with EInit _ _ _ => False | _ => True end.

(** ** The closed object that gets a handle *)

(** Once closed, [yield] and [realClose] do nothing. *)
Definition stuck (h : nat) (w : world) : Prop :=
  is_closed w = true ∧ zhandle w = Some h ∧ h ∈ open_zh w ∧
  (Z.of_nat (timer_closing w) + 1 ≤ refs w)%Z.

Lemma reenter_stuck h r w w' : stuck h w → reenter r w = Ok w' → stuck h w'.
Proof.
  intros (Hc & Hz & Ho & Hr) E. destruct r as [type state path cid|].
  - destruct type; try destruct state; simpl in E; unfold realClose in E; rewrite ?Hc in E;
      simplify_eq; done.
  - simpl in E. unfold realClose in E. rewrite Hc in E. by simplify_eq.
Qed.

Lemma reenter_all_stuck h rs : ∀ w w', stuck h w → reenter_all rs w = Ok w' → stuck h w'.
Proof.
  induction rs as [|r rs IH]; intros w w' Hs E; cbn [reenter_all] in E; [by simplify_eq|].
  destruct (reenter r w) as [w1|] eqn:E1; [|done]. eapply IH; [by eapply reenter_stuck|done].
Qed.

Lemma exec_stuck h e w w' :
  stuck h w → enabled e w = true → no_init e → exec e w = Ok w' → stuck h w'.
Proof.
  intros Hs He Hn E. pose proof Hs as (Hc & Hz & Ho & Hr).
  destruct e as [args hh a| |id st rev rs rc a|a|id| |t]; cbn [exec enabled no_init] in *.
  - done.
  - unfold Close, realClose in E. rewrite Hc in E. by simplify_eq.
  - unfold zk_io_cb in E. destruct (reenter_all rs w) as [w1|] eqn:E1; [|done].
    cbn [mbind result_bind] in E. pose proof (reenter_all_stuck h rs w w1 Hs E1) as Hs1.
    pose proof Hs1 as [Hc1 _]. unfold yield, realClose in E. rewrite Hc1 in E. by destruct rc; simplify_eq.
  - destruct (timer_fires_same w) as [t Et]. rewrite Et in E. unfold zk_timer_cb, yield, uv_timer_start in E.
    simpl in E. rewrite Hc in E. repeat case_match; by simplify_eq.
  - by simplify_eq.
  - unfold timer_closed in E. case_match; [|done]. simplify_eq. apply Nat.ltb_lt in He.
    split_and!; [done|done|done|]. simpl. rewrite Nat2Z.inj_pred by lia. lia.
  - by simplify_eq.
Qed.

Lemma steps_stuck h w w' : stuck h w → steps (λ e _, no_init e) w w' → stuck h w'.
Proof.
  intros Hs Hw. induction Hw as [w|e w w1 w2 He Hp E Hw IH]; [done|]. apply IH. by eapply exec_stuck.
Qed.

(** ** The timer *)

Definition armed (w : world) : Prop := t_active (zk_timer w) = true ∧ (0 < t_repeat (zk_timer w))%Z.

(** Events other than [init] whose answers wait for a positive time. *)
Definition waits (e : event) (w : world) : Prop :=
  match e with
  | EInit _ _ _ => False
  | EIo _ _ _ _ _ a | ETimer a => (0 < delay_ms (a_tv a))%Z
  | _ => True
  end.

Definition open_armed (w : world) : Prop := is_closed w = true ∨ armed w.

Lemma yield_armed a w w' :
  inv w → (0 < delay_ms (a_tv a))%Z → open_armed w → yield a w = Ok w' → open_armed w'.
Proof.
  intros Hw Hd Hoa E. destruct (is_closed w) eqn:Ec.
  - unfold yield in E. rewrite Ec in E. simplify_eq. by left.
  - destruct Hoa as [Hc|Hoa]; [congruence|]. assert (Ht : timer_open w = true) by (apply Hw; right; left; apply Hoa).
    pose proof (yield_cases a w Hw Ec Ht) as H. rewrite E in H. destruct (null_poll a w); [done|].
    destruct H as (w1 & [= <-] & _ & _ & _ & _ & _ & H). right. unfold armed in *.
    destruct (a_rc a); [repeat case_match|..]; destruct H as [_ ->]; done.
Qed.

Lemma realClose_armed code w w' : inv w → open_armed w → realClose code w = Ok w' → open_armed w'.
Proof.
  intros Hw Hoa E. left. destruct (is_closed w) eqn:Ec.
  - unfold realClose in E. rewrite Ec in E. by simplify_eq.
  - destruct (realClose_ok code w Hw Ec) as (w1 & E1 & _ & Hc & _). rewrite E1 in E. by simplify_eq.
Qed.

Lemma reenter_armed r w w' : inv w → open_armed w → reenter r w = Ok w' → open_armed w'.
Proof.
  intros Hw Hoa E. destruct r as [type state path cid|]; [|by eapply realClose_armed].
  destruct type; try destruct state; simpl in E; try (by eapply realClose_armed); by simplify_eq.
Qed.

Lemma reenter_all_armed rs : ∀ w w', inv w → open_armed w → reenter_all rs w = Ok w' → open_armed w'.
Proof.
  induction rs as [|r rs IH]; intros w w' Hw Ha E; cbn [reenter_all] in E; [by simplify_eq|].
  destruct (reenter r w) as [w1|] eqn:E1; [|done]. cbn [mbind result_bind] in E.
  destruct (reenter_all_keeps [r] w Hw) as (w1' & E1' & Hk & _). cbn [reenter_all] in E1'. rewrite E1 in E1'.
  injection E1' as ->. eapply IH; [done|exact (reenter_armed r w w1' Hw Ha E1)|done].
Qed.

Lemma exec_armed e w w' :
  inv w → open_armed w → enabled e w = true → waits e w → exec e w = Ok w' → open_armed w'.
Proof.
  intros Hw Hoa He Hd E.
  destruct e as [args h a| |id st rev rs rc a|a|id| |t]; cbn [exec enabled waits] in *; [done| | | |by simplify_eq| |by simplify_eq].
  - by eapply realClose_armed.
  - unfold zk_io_cb in E. destruct (reenter_all_keeps rs w Hw) as (w1 & E1 & Hi & Hf & _).
    rewrite E1 in E. cbn [mbind result_bind] in E. pose proof (reenter_all_armed rs w w1 Hw Hoa E1) as Ha1.
    destruct rc; [by eapply yield_armed|by eapply realClose_armed|by eapply yield_armed].
  - assert (Hoa' : open_armed (timer_fires w)).
    { destruct Hoa as [Hc|[Ha Hr]]; [left; by destruct (timer_fires_same w) as [t ->]|].
      right. unfold timer_fires. rewrite (proj2 (Z.ltb_lt _ _)) by done. by split. }
    destruct (timer_fires_same w) as [t Et]. unfold zk_timer_cb in E. rewrite Et in *. case_match.
    + eapply (yield_armed a (set_zk_timer t w)); [|done|done|done]. apply andb_true_iff in He as [He _].
      assert (timer_open w = true) by (apply Hw; auto). by destruct Hw; split.
    + unfold uv_timer_start in E. case_match; [|done]. simplify_eq. right. split; [done|]. bool_props. simpl in *. lia.
  - unfold timer_closed in E. case_match; [|done]. by simplify_eq.
Qed.

Lemma steps_armed w w' : inv w → open_armed w → steps waits w w' → open_armed w'.
Proof.
  intros Hi Ha Hw. induction Hw as [w|e w w1 w2 He Hp E Hw IH]; [done|].
  apply IH; [by eapply exec_ok_inv|]. exact (exec_armed e w _ Hi Ha He Hp E).
Qed.

(** ** Sessions as expected *)

Definition expected (e : event) (w : world) : Prop := once e w ∧ event_ok e w.

Lemma expected_inv t w : reachable_by expected t w → inv w ∧ life w ∧ fd_ok w.
Proof.
  induction 1 as [|e w w' _ (Hi & Hl & Hf) He [Ho Hok] Hex]; [split_and!; [apply new_inv|apply new_life|done]|].
  split_and!; [by eapply exec_ok_inv|by eapply exec_life|by eapply exec_fd_ok].
Qed.

Lemma expected_no_misuse e w :
  inv w → life w → fd_ok w → enabled e w = true → expected e w → misuse e w = false.
Proof.
  intros Hi Hl Hf He [Ho Hok]. destruct e as [args [h|] a| |id st rev rs rc a|a|id| |t]; cbn [misuse]; try done.
  - destruct Ho as [Hz Hc]. destruct (accepted args) as [cid|]; [|done]. rewrite once_timer_free by done. by apply fd_ok_no_null.
  - destruct (reenter_all_keeps rs w Hi) as (w1 & -> & Hk). pose proof (keeps_fd_ok _ _ Hk Hf) as Hf1.
    destruct rc; [by apply fd_ok_no_null|done|by apply fd_ok_no_null].
  - rewrite fd_ok_no_null by done. apply andb_false_r.
Qed.

(** ** The theorems *)

(** C29. The id and the password that JavaScript reads from an open session, passed
    to [init] again, ask for that same session: every 64-bit id and every password of
    sixteen bytes survives the trip through text. *)
Theorem session_restored zoo_client_id w h :
  zhandle w = Some h → (- 2 ^ 63 ≤ client_id (zoo_client_id h) < 2 ^ 63)%Z →
  length (passwd (zoo_client_id h)) = 16 → Forall is_byte (passwd (zoo_client_id h)) →
  ∃ pw, ClientPasswordPropertyGetter zoo_client_id w = Ok pw ∧
    ∀ connect timeout,
      init_session (MkArg connect timeout (Some (ClientidPropertyGetter zoo_client_id w)) (Some pw))
        = Ok (inr (zoo_client_id h)).
Proof.
  intros Hz Hid Hlen Hb. unfold ClientPasswordPropertyGetter, ClientidPropertyGetter. rewrite Hz.
  destruct (hex_loops 16 _ Hlen Hb) as (s & E & Hs & E'). exists s. split; [done|]. intros connect timeout.
  unfold init_session. cbn [i_client_id i_client_password]. rewrite Hs. cbn [Nat.eqb].
  unfold HexStringToPassword. rewrite E'. cbn [mbind result_bind]. unfold StringToId.
  rewrite scan_id, sgn_small by lia. by destruct (zoo_client_id h).
Qed.

(** A password of 32 upper case hexadecimal digits is accepted, is stored as
    sixteen bytes, and is shown again digit by digit. *)
Lemma password_text_kept s :
  length s = 32 → Forall is_hex s →
  ∃ p, HexStringToPassword s = Ok p ∧ length p = 16 ∧ Forall is_byte p ∧ PasswordToHexString p = Ok s.
Proof. intros Hlen Hs. exact (hex_loops_back 16 s Hlen Hs). Qed.

(** C27. In every state that an object can reach, by any interleaving of calls from
    JavaScript, libuv callbacks and watcher callbacks, and whatever [zookeeper_interest] and
    [malloc] answer: the object's poll handle is the only open one, and the next event
    either runs to its end, without touching a null or closed handle and without dropping a
    reference that is not held, or is one of two misuses, at which it faults: [init] while
    the timer of an earlier session is still open or being closed, and [yield] for a
    descriptor that has not changed while there is no poll handle, as after a failed
    [malloc].  Neither can happen when [init] is called only while the object has no session
    and is not closed, [malloc] succeeds and an error of [zookeeper_interest] leaves the old
    descriptor or none. *)
Theorem zk_step_safe t :
  (∀ w e, reachable t w → enabled e w = true →
     (if misuse e w then exec e w = Err Fault else ∃ w', exec e w = Ok w') ∧
     (∀ id, is_Some (polls w !! id) ↔ zk_io_poll_hdl w = Some id)) ∧
  (∀ w e, reachable_by expected t w → enabled e w = true → expected e w → misuse e w = false).
Proof.
  split.
  - intros w e Hr He. pose proof (reachable_inv _ t w Hr) as Hi. split.
    + pose proof (exec_inv e w Hi He) as H. unfold exec_spec in H. destruct (misuse e w); [done|].
      destruct H as (w' & E & _). by exists w'.
    + intros id. pose proof (inv_poll w Hi) as Hp. unfold owns_poll in Hp.
      destruct (zk_io_poll_hdl w) as [id'|]; [destruct Hp as [_ [p ->]]|rewrite Hp].
      * rewrite lookup_singleton_is_Some. naive_solver.
      * rewrite lookup_empty. split; [by intros [? ?]|done].
  - intros w e Hr He Hx. destruct (expected_inv t w Hr) as (Hi & Hl & Hf). by apply expected_no_misuse.
Qed.

(** C28. An object on which [init] is called only while it has no session and is not
    closed, whatever [zookeeper_interest] and [malloc] answer: once it is closed and its pending close callbacks have run, the session is
    closed in the C client, no libuv handle is open or active, the reference that kept
    the object alive is dropped, and at most one close event was emitted. *)
Theorem zk_session_releases t w :
  reachable_once t w → is_closed w = true → timer_closing w = 0 → 
  zhandle w = None ∧ open_zh w = ∅ ∧ polls w = ∅ ∧ t_active (zk_timer w) = false ∧ refs w = 0%Z ∧
  closes w ≤ 1.
Proof.
  intros Hr Hc Ht. destruct (once_inv t w Hr) as [Hi Hl].
  pose proof (life_closed w Hl Hc) as Hz. destruct (life_idle w Hl Hz) as [Hp Hta].
  pose proof (inv_poll w Hi) as Hpoll. rewrite Hp in Hpoll.
  pose proof (life_open w Hl) as Ho. pose proof (inv_refs w Hi) as Hrefs. pose proof (life_emit w Hl) as He.
  rewrite (life_timer w Hl), Hz, Ht in Hrefs. rewrite Hz in Ho. rewrite Hc in He. done.
Qed.

(** Once the timer of a session is armed it stays armed until the object is
    closed, whatever the socket and the C client report, so the object keeps asking
    the client for its next deadline. *)
Lemma zk_timer_armed t w w' :
  reachable t w → armed w → steps waits w w' → is_closed w' = true ∨ armed w'.
Proof.
  intros Hr Ha Hs. apply (steps_armed w w'); [by eapply reachable_inv|by right|done].
Qed.

(** [init] without an old session, and [yield] and [realClose] on a closed object. *)
Lemma Init_session arg zookeeper_init a w cid :
  init_session arg = Ok (inr cid) →
  Init [Some arg] zookeeper_init a w =
    ('(ok, w) ← realInit (zookeeper_init (i_connect arg) (session_timeout arg) cid) cid a w;
     Ok (if (ok : bool) then This else InitFailed, w)).
Proof. intros E. unfold Init. by rewrite E. Qed.

Lemma init_session_new arg :
  i_client_id arg = None → i_client_password arg = None → init_session arg = Ok (inr zero_id).
Proof. intros Hi Hp. unfold init_session. by rewrite Hi, Hp. Qed.

Lemma Init_new_session arg h a w :
  inv w → timer_busy w = false → i_client_id arg = None → i_client_password arg = None →
  Init [Some arg] (λ _ _ _, Some h) a w = (w' ← yield a (init_world h zero_id w); Ok (This, w')).
Proof.
  intros Hw Hb Hi Hp. rewrite (Init_session _ _ _ _ zero_id) by by apply init_session_new.
  rewrite realInit_eq by done. by destruct (yield a (init_world h zero_id w)).
Qed.

Lemma yield_closed a w : is_closed w = true → yield a w = Ok w.
Proof. intros Hc. unfold yield. by rewrite Hc. Qed.

(** [init] on an object that was closed opens a session that nothing can use or
    close: in every later state, as long as [init] is not called again, the handle is
    still open in the C client and the object is still referenced. *)
Lemma closed_init_leaks t args arg h a :
  args = [Some arg] → i_client_id arg = None → i_client_password arg = None →
  ∃ w1 w2, Close (ZooKeeper_new t) = Ok w1 ∧ Init args (λ _ _ _, Some h) a w1 = Ok (This, w2) ∧
    ∀ w, steps (λ e _, no_init e) w2 w →
      zhandle w = Some h ∧ h ∈ open_zh w ∧ (1 ≤ refs w)%Z ∧ is_closed w = true.
Proof.
  intros -> Hi Hp. set (w1 := set_is_closed true (ZooKeeper_new t)).
  exists w1, (init_world h zero_id w1). split; [done|]. split.
  { rewrite Init_new_session, yield_closed; try done. split; [done| |done|done]. by intros [[? H]|[H|[? H]]]. }
  intros w Hs. apply (steps_stuck h) in Hs as (Hc & Hz & Ho & Hr).
  - split_and!; [done|done|lia|done].
  - split_and!; [done|done| |done]. apply elem_of_union_l, elem_of_singleton. done.
Qed.

(** [yield] on an object without a poll handle. *)
Definition told (a : interest_answer) (w : world) : world :=
  set_tv (a_tv a) (set_interest (a_interest a) (set_fd (a_fd a) (set_last_activity (now w) w))).

Lemma yield_no_poll a w :
  is_closed w = false → zk_io_poll_hdl w = None → a_rc a = ZOK → a_fd a ≠ (-1)%Z →
  yield a w =
    if (fd w =? a_fd a)%Z then Err Fault
    else if a_malloc a then arm (a_interest a) (delay_ms (a_tv a)) (uv_poll_new (a_fd a) (told a w))
    else Ok (told a w).
Proof.
  intros Hc Hp Hrc Hfd. unfold yield. rewrite Hc. fold (told a w).
  assert (E1 : zk_io_poll_hdl (told a w) = None) by exact Hp.
  rewrite E1. cbn [uv_poll_is_active mbind result_bind]. rewrite Hrc.
  change (fd (told a w)) with (a_fd a). change (fd (set_last_activity _ w)) with (fd w).
  rewrite (proj2 (Z.eqb_neq (a_fd a) _)) by done. unfold drop_poll. rewrite E1. cbn [mbind result_bind].
  change (fd (told a w)) with (a_fd a). destruct (fd w =? a_fd a)%Z; cbn [negb]; [|done].
  unfold arm. by rewrite E1.
Qed.

Lemma yield_nothing a w :
  is_closed w = false → zk_io_poll_hdl w = None → a_rc a ≠ ZOK ∨ a_fd a = (-1)%Z → yield a w = Ok (told a w).
Proof.
  intros Hc Hp Hrc. unfold yield. rewrite Hc. fold (told a w).
  assert (E1 : zk_io_poll_hdl (told a w) = None) by exact Hp. rewrite E1.
  cbn [uv_poll_is_active mbind result_bind]. destruct (a_rc a); try done.
  destruct Hrc as [?|Hfd]; [done|]. change (fd (told a w)) with (a_fd a). rewrite Hfd.
  unfold drop_poll. by rewrite E1.
Qed.

(** When [malloc] fails for the poll handle of a new socket, the next [yield]
    with the same socket starts polling on a null handle. *)
Lemma zk_poll_null w a a' :
  fd_ok w → is_closed w = false → zk_io_poll_hdl w = None →
  a_rc a = ZOK → a_malloc a = false → a_fd a ≠ (-1)%Z →
  a_rc a' = ZOK → a_fd a' = a_fd a →
  ∃ w', yield a w = Ok w' ∧ yield a' w' = Err Fault.
Proof.
  intros Hw Hc Hp Hrc Hm Hfd Hrc' Hfd'. pose proof (Hw Hp Hc) as Hf.
  exists (told a w). rewrite (yield_no_poll a w) by done. rewrite Hm, Hf.
  rewrite (proj2 (Z.eqb_neq (-1) _)) by congruence. split; [done|].
  rewrite yield_no_poll by (done || congruence). change (fd (told a w)) with (a_fd a).
  by rewrite Hfd', Z.eqb_refl.
Qed.

(** When the first [zookeeper_interest] of a session fails, or has no socket
    yet, [init] succeeds but arms neither a poll handle nor the timer: no libuv
    callback can run any more, and only [close] or another [init] changes that. *)
Lemma zk_init_stalls t arg h a :
  i_client_id arg = None → i_client_password arg = None → a_rc a ≠ ZOK ∨ a_fd a = (-1)%Z →
  ∃ w, Init [Some arg] (λ _ _ _, Some h) a (ZooKeeper_new t) = Ok (This, w) ∧
    zhandle w = Some h ∧ is_closed w = false ∧
    ∀ e, enabled e w = true → match e with EInit _ _ _ | EClose | ETick _ => True | _ => False end.
Proof.
  intros Hi Hp Hrc. set (w1 := init_world h zero_id (ZooKeeper_new t)). exists (told a w1).
  split_and!; [|done|done|].
  - rewrite Init_new_session by (apply new_inv || done). fold w1. rewrite yield_nothing by done. done.
  - intros [| | | | | |]; simpl; done.
Qed.

(** ** Witnesses: one session *)

Definition sample_id : clientid := MkId (-81985529216486896) (Z.of_nat <$> seq 240 16).
Definition sample_arg : init_arg := MkArg (ascii_bytes "localhost:2181") 0 None None.
Definition sample_answer : interest_answer := MkAnswer ZOK 5 (true, true) (3, 0)%Z true.
Definition sample_init : event := EInit [Some sample_arg] (Some 7) sample_answer.

(** The object after [init], and after an expired session. *)
Definition or_new (r : result world) : world := match r with Ok w => w | Err _ => ZooKeeper_new 0 end.
Definition sample_open : world := or_new (exec sample_init (ZooKeeper_new 0)).
Definition sample_expired : event :=
  EIo 0 0 (true, false) [RWatch SESSION_EVENT EXPIRED_SESSION_STATE None zero_id] ZERR sample_answer.
Definition sample_closing : world := or_new (exec sample_expired sample_open).
Definition sample_closed : world := or_new (exec ETimerClosed sample_closing).

Lemma sample_answer_ok w : answer_ok sample_answer w.
Proof. split; [done|]. intros H. by destruct H. Qed.

Lemma sample_open_reachable (P : event → world → Prop) : P sample_init (ZooKeeper_new 0) → reachable_by P 0 sample_open.
Proof.
  intros H. apply (reachable_step P 0 sample_init (ZooKeeper_new 0)); [constructor|done|exact H|].
  vm_compute. reflexivity.
Qed.

Lemma sample_closed_reachable : reachable_once 0 sample_closed.
Proof.
  apply (reachable_step once 0 ETimerClosed sample_closing); [|vm_compute; reflexivity|done|vm_compute; reflexivity].
  apply (reachable_step once 0 sample_expired sample_open);
    [|vm_compute; reflexivity|done|vm_compute; reflexivity].
  by apply sample_open_reachable.
Qed.

Example session_restored_witness :
  ∃ pw, ClientPasswordPropertyGetter (λ _, sample_id) sample_open = Ok pw ∧
    ∀ connect timeout,
      init_session (MkArg connect timeout (Some (ClientidPropertyGetter (λ _, sample_id) sample_open)) (Some pw))
        = Ok (inr sample_id).
Proof.
  apply (session_restored (λ _, sample_id) sample_open 7); [vm_compute; reflexivity|simpl; lia|reflexivity|].
  vm_compute. repeat constructor; discriminate.
Defined.

Example password_text_kept_witness :
  ∃ p, HexStringToPassword (ascii_bytes "0123456789ABCDEFFEDCBA9876543210") = Ok p ∧ length p = 16 ∧
    Forall is_byte p ∧ PasswordToHexString p = Ok (ascii_bytes "0123456789ABCDEFFEDCBA9876543210").
Proof.
  apply password_text_kept; [reflexivity|].
  simpl. repeat first [apply Forall_cons; split; [unfold is_hex; lia|] | apply Forall_nil; exact I].
Defined.

Example zk_step_safe_witness :
  exec sample_init sample_open = Err Fault ∧ (∃ w', exec sample_expired sample_open = Ok w') ∧
  misuse sample_expired sample_open = false.
Proof.
  destruct (zk_step_safe 0) as [H1 H2]. split_and!.
  - apply (H1 sample_open sample_init); [by apply sample_open_reachable|vm_compute; reflexivity].
  - apply (H1 sample_open sample_expired); [by apply sample_open_reachable|vm_compute; reflexivity].
  - apply H2; [|vm_compute; reflexivity|].
    + apply sample_open_reachable. split; [done|apply sample_answer_ok].
    + split; [done|apply sample_answer_ok].
Defined.

Example zk_session_releases_witness :
  zhandle sample_closed = None ∧ open_zh sample_closed = ∅ ∧ polls sample_closed = ∅ ∧
  t_active (zk_timer sample_closed) = false ∧ refs sample_closed = 0%Z ∧ closes sample_closed ≤ 1.
Proof.
  apply (zk_session_releases 0); [exact sample_closed_reachable|vm_compute; reflexivity|vm_compute; reflexivity].
Defined.

Example zk_timer_armed_witness :
  is_closed (set_now 3000 sample_open) = true ∨ armed (set_now 3000 sample_open).
Proof.
  apply (zk_timer_armed 0 sample_open); [by apply sample_open_reachable|vm_compute; split; reflexivity|].
  apply (steps_step waits (ETick 3000) _ (set_now 3000 sample_open)); [reflexivity|done|vm_compute; reflexivity|].
  apply steps_refl.
Defined.

Example closed_init_leaks_witness :
  ∃ w1 w2, Close (ZooKeeper_new 0) = Ok w1 ∧
    Init [Some sample_arg] (λ _ _ _, Some 7) sample_answer w1 = Ok (This, w2) ∧
    ∀ w, steps (λ e _, no_init e) w2 w →
      zhandle w = Some 7 ∧ 7 ∈ open_zh w ∧ (1 ≤ refs w)%Z ∧ is_closed w = true.
Proof. exact (closed_init_leaks 0 _ sample_arg 7 sample_answer eq_refl eq_refl eq_refl). Defined.

Example zk_poll_null_witness :
  ∃ w', yield (MkAnswer ZOK 5 (true, true) (3, 0)%Z false) (ZooKeeper_new 0) = Ok w' ∧
    yield sample_answer w' = Err Fault.
Proof.
  apply (zk_poll_null (ZooKeeper_new 0)); [done|reflexivity|reflexivity|reflexivity|reflexivity| |reflexivity|reflexivity].
  simpl. lia.
Defined.

Example zk_init_stalls_witness :
  ∃ w, Init [Some sample_arg] (λ _ _ _, Some 7) (MkAnswer ZERR (-1) (false, false) (0, 0)%Z true) (ZooKeeper_new 0)
         = Ok (This, w) ∧
    zhandle w = Some 7 ∧ is_closed w = false ∧
    ∀ e, enabled e w = true → match e with EInit _ _ _ | EClose | ETick _ => True | _ => False end.
Proof. apply zk_init_stalls; [reflexivity|reflexivity|left; discriminate]. Defined.
