(* ===== verification/ZkCalls.v ===== *)
(** * The ZooKeeper wrapper: requests and their completions

    The asynchronous methods of uv-node-zk.cpp ([a_create], [aw_get], ...), what they
    allocate and hand to the C client, and the completion functions that call back
    into JavaScript and free it.  V8's conversions are parameters (class [V8]), the
    client's return codes and results are inputs. *)

From S2P Require Import Prelude ZkIds ZkSession.
From Stdlib Require Import ZArith Lia.

(** ** Values of JavaScript *)

Inductive jsval :=
  | JUndefined
  | JNull
  | JBool (b : bool)
  | JNum (n : double)
  | JDate (seconds : double)
  | JStr (s : list Z)
  | JBuffer (data : list Z)
  | JFun (f : nat)
  | JArr (l : list jsval)
  | JObj (fields : list (string * jsval)).

(** The fields of [obj]. *)
Definition field (name : string) (obj : jsval) : jsval :=
  match obj with
  | JObj fs => match list_find (λ p, p.1 = name) fs with Some (_, (_, v)) => v | None => JUndefined end
  | _ => JUndefined
  end.
Definition elements (arr : jsval) : list jsval := match arr with JArr l => l | _ => [] end.

(** V8's conversions. *)
Class V8 := {
  ToString : jsval → list Z;
  Uint32Value : jsval → Z;
  BooleanValue : jsval → bool;
}.

(** An argument that was not passed is [undefined]. *)
Definition arg (info : list jsval) (i : nat) : jsval := default JUndefined (info !! i).

(** ** What a request allocates and what the client is given *)

Record acl := MkAcl { perms : Z; scheme : list Z; auth : list Z }.

Inductive op := ZOO_DELETE_OP | ZOO_SETACL_OP | ZOO_SETAUTH_OP.
Record completion_data := MkCd { cd_cb : nat; cd_type : op; cd_data : option nat }.

(** A [Nan::Callback] of function [f], a [completion_data], an [ACL_vector]. *)
Inductive cell :=
  | CCallback (f : nat)
  | CData (d : completion_data)
  | CAcl (l : list acl).

Inductive completion :=
  | string_completion | void_completion | stat_completion | data_completion
  | strings_completion | strings_stat_completion | acl_completion.

#[global] Instance completion_eq_dec : EqDecision completion.
Proof. solve_decision. Defined.

(** The asynchronous functions of the C client, without the completion. *)
Inductive zoo_call :=
  | zoo_acreate (path data : list Z) (flags : Z)
  | zoo_adelete (path : list Z) (version : Z)
  | zoo_aexists (path : list Z) (watch : bool)
  | zoo_awexists (path : list Z) (watcherCtx : nat)
  | zoo_aget (path : list Z) (watch : bool)
  | zoo_awget (path : list Z) (watcherCtx : nat)
  | zoo_aset (path data : list Z) (version : Z)
  | zoo_aget_children (path : list Z) (watch : bool)
  | zoo_awget_children (path : list Z) (watcherCtx : nat)
  | zoo_aget_children2 (path : list Z) (watch : bool)
  | zoo_awget_children2 (path : list Z) (watcherCtx : nat)
  | zoo_aget_acl (path : list Z)
  | zoo_aset_acl (path : list Z) (version : Z) (aclv : nat)
  | zoo_async (path : list Z)
  | zoo_add_auth (scheme cert : list Z).

Record request := MkRequest { rq_call : zoo_call; rq_completion : completion; rq_data : nat }.

(** The heap of the wrapper, the requests the client has accepted, and the calls of
    JavaScript functions, latest first. *)
Record calls := MkCalls {
  heap : gmap nat cell;
  next : nat;
  pending : list request;
  jscalls : list (nat * list jsval);
}.

Definition no_calls : calls := MkCalls ∅ 0 [] [].

Definition alloc (c : cell) (s : calls) : nat * calls :=
  (next s, MkCalls (<[next s := c]> (heap s)) (S (next s)) (pending s) (jscalls s)).
Definition free (id : nat) (s : calls) : result calls :=
  match heap s !! id with
  | Some _ => Ok (MkCalls (delete id (heap s)) (next s) (pending s) (jscalls s))
  | None => Err Fault
  end.

(** ** The methods *)

Inductive reply := Throws (text : string) | Returns (ret : Z).
Definition method := calls → result (reply * calls).

(** [zoo] is the client: the return code of a call, 0 being [ZOK]. *)
Section methods.
Context `{!V8} (zoo : request → Z).

Definition METHOD_EPILOG (call : zoo_call) (c : completion) (data : nat) : method := λ s,
  let rq := MkRequest call c data in
  let ret := zoo rq in
  Ok (Returns ret,
      if (ret =? 0)%Z then MkCalls (heap s) (next s) (pending s ++ [rq]) (jscalls s) else s).

(** ["expected "#nargs" arguments"] *)
Definition nargs_digit (nargs : nat) : string := String (Ascii.ascii_of_nat (48 + nargs)) "".

Definition A_METHOD_PROLOG (nargs : nat) (info : list jsval) (body : nat → method) : method := λ s,
  if (length info <? nargs)%nat then Ok (Throws ("expected " +:+ nargs_digit nargs +:+ " arguments"), s) else
  match arg info (nargs - 1) with
  | JFun f => let '(cb, s) := alloc (CCallback f) s in body cb s
  | _ => Err AssertFail
  end.

Definition AW_METHOD_PROLOG (nargs : nat) (info : list jsval) (body : nat → nat → method) : method := λ s,
  if (length info <? nargs)%nat then 
    Ok (Throws ("expected at least " +:+ nargs_digit nargs +:+ " arguments"), s)
  else
  match arg info (nargs - 1) with
  | JFun f =>
      let '(cb, s) := alloc (CCallback f) s in
      match arg info (nargs - 2) with
      | JFun g => let '(cbw, s) := alloc (CCallback g) s in body cb cbw s
      | _ => Err AssertFail
      end
  | _ => Err AssertFail
  end.

(** The bytes of an argument that is a buffer or is converted to a string. *)
Definition data_bytes (v : jsval) : list Z := match v with JBuffer d => d | _ => ToString v end.

Definition ACreate (info : list jsval) : method :=
  A_METHOD_PROLOG 4 info (λ cb,
    let path := ToString (arg info 0) in
    let flags := Uint32Value (arg info 2) in
    METHOD_EPILOG (zoo_acreate path (data_bytes (arg info 1)) (i32 flags)) string_completion cb).

Definition ADelete (info : list jsval) : method :=
  A_METHOD_PROLOG 3 info (λ cb s,
    let path := ToString (arg info 0) in
    let version := Uint32Value (arg info 1) in
    let '(data, s) := alloc (CData (MkCd cb ZOO_DELETE_OP None)) s in
    METHOD_EPILOG (zoo_adelete path (i32 version)) void_completion data s).

Definition AExists (info : list jsval) : method :=
  A_METHOD_PROLOG 3 info (λ cb,
    METHOD_EPILOG (zoo_aexists (ToString (arg info 0)) (BooleanValue (arg info 1))) stat_completion cb).

Definition AWExists (info : list jsval) : method :=
  AW_METHOD_PROLOG 3 info (λ cb cbw,
    METHOD_EPILOG (zoo_awexists (ToString (arg info 0)) cbw) stat_completion cb).

Definition AGet (info : list jsval) : method :=
  A_METHOD_PROLOG 3 info (λ cb,
    METHOD_EPILOG (zoo_aget (ToString (arg info 0)) (BooleanValue (arg info 1))) data_completion cb).

Definition AWGet (info : list jsval) : method :=
  AW_METHOD_PROLOG 3 info (λ cb cbw,
    METHOD_EPILOG (zoo_awget (ToString (arg info 0)) cbw) data_completion cb).

Definition ASet (info : list jsval) : method :=
  A_METHOD_PROLOG 4 info (λ cb,
    let path := ToString (arg info 0) in
    let version := Uint32Value (arg info 2) in
    METHOD_EPILOG (zoo_aset path (data_bytes (arg info 1)) (i32 version)) stat_completion cb).

Definition AGetChildren (info : list jsval) : method :=
  A_METHOD_PROLOG 3 info (λ cb,
    METHOD_EPILOG (zoo_aget_children (ToString (arg info 0)) (BooleanValue (arg info 1))) strings_completion cb).

Definition AWGetChildren (info : list jsval) : method :=
  AW_METHOD_PROLOG 3 info (λ cb cbw,
    METHOD_EPILOG (zoo_awget_children (ToString (arg info 0)) cbw) strings_completion cb).

Definition AGetChildren2 (info : list jsval) : method :=
  A_METHOD_PROLOG 3 info (λ cb,
    METHOD_EPILOG (zoo_aget_children2 (ToString (arg info 0)) (BooleanValue (arg info 1)))
      strings_stat_completion cb).

Definition AWGetChildren2 (info : list jsval) : method :=
  AW_METHOD_PROLOG 3 info (λ cb cbw,
    METHOD_EPILOG (zoo_awget_children2 (ToString (arg info 0)) cbw) strings_stat_completion cb).

Definition AGetAcl (info : list jsval) : method :=
  A_METHOD_PROLOG 2 info (λ cb, METHOD_EPILOG (zoo_aget_acl (ToString (arg info 0))) acl_completion cb).

(** [createAclVector]: perms is stored in an [int32_t]. *)
Definition createAclVector (arr : jsval) : list acl :=
  (λ obj, MkAcl (i32 (Uint32Value (field "perms" obj))) (ToString (field "scheme" obj))
                (ToString (field "auth" obj))) <$> elements arr.

Definition ASetAcl (info : list jsval) : method :=
  A_METHOD_PROLOG 4 info (λ cb s,
    let path := ToString (arg info 0) in
    let version := Uint32Value (arg info 1) in
    let '(aclv, s) := alloc (CAcl (createAclVector (arg info 2))) s in
    let '(data, s) := alloc (CData (MkCd cb ZOO_SETACL_OP (Some aclv))) s in
    METHOD_EPILOG (zoo_aset_acl path (i32 version) aclv) void_completion data s).

Definition ASync (info : list jsval) : method :=
  A_METHOD_PROLOG 2 info (λ cb, METHOD_EPILOG (zoo_async (ToString (arg info 0))) string_completion cb).

Definition AddAuth (info : list jsval) : method :=
  A_METHOD_PROLOG 3 info (λ cb s,
    let '(data, s) := alloc (CData (MkCd cb ZOO_SETAUTH_OP None)) s in
    METHOD_EPILOG (zoo_add_auth (ToString (arg info 0)) (ToString (arg info 1))) void_completion data s).

(** The one synchronous request; [zoo_delete] is the client. *)
Definition Delete (zoo_delete : list Z → Z → Z) (info : list jsval) : method := λ s,
  let path := ToString (arg info 0) in
  let version := Uint32Value (arg info 1) in
  Ok (Returns (zoo_delete path (i32 version)), s).

(** [Initialize]: the asynchronous methods of the prototype. *)
Definition prototype (name : string) : option (list jsval → method) :=
  match name with
  | "a_create" => Some ACreate
  | "a_exists" => Some AExists
  | "aw_exists" => Some AWExists
  | "a_get" => Some AGet
  | "aw_get" => Some AWGet
  | "a_get_children" => Some AGetChildren
  | "aw_get_children" => Some AWGetChildren
  | "a_get_children2" => Some AGetChildren2
  | "aw_get_children2" => Some AWGetChildren2
  | "a_set" => Some ASet
  | "a_delete_" => Some ADelete
  | "a_get_acl" => Some AGetAcl
  | "a_set_acl" => Some ASetAcl
  | "add_auth" => Some AddAuth
  | "a_sync" => Some ASync
  | _ => None
  end%string.
End methods.

(** ** The completions *)

(** [struct Stat] *)
Record Stat := MkStat {
  czxid : Z; mzxid : Z; pzxid : Z; dataLength : Z; numChildren : Z; version : Z; cversion : Z;
  aversion : Z; ctime : Z; mtime : Z; ephemeralOwner : Z;
}.

(** What the client passes to a completion; [None] is a null pointer. *)
Record answer := MkReply {
  r_rc : Z;
  r_value : option (list Z);
  r_stat : option Stat;
  r_strings : option (list (list Z));
  r_acl : option (list acl);
}.

Definition int (z : Z) : jsval := JNum (double_of_Z z).
Definition lit (s : string) : list Z := ascii_bytes s.

Definition createStatObject (my : clientid) (stat : Stat) : jsval := JObj [
  ("czxid", int (czxid stat)); ("mzxid", int (mzxid stat)); ("pzxid", int (pzxid stat));
  ("dataLength", int (dataLength stat)); ("numChildren", int (numChildren stat));
  ("version", int (version stat)); ("cversion", int (cversion stat)); ("aversion", int (aversion stat));
  ("ctime", JDate (double_div (double_of_Z (ctime stat)) (double_of_Z 1000)));
  ("mtime", JDate (double_div (double_of_Z (mtime stat)) (double_of_Z 1000)));
  ("ephemeralOwner", JStr (idAsString (ephemeralOwner stat)));
  ("createdInThisSession", JBool (client_id my =? ephemeralOwner stat)%Z)].

Definition createAclObject (aclv : list acl) : jsval :=
  JArr ((λ a, JObj [("perms", int (perms a)); ("scheme", JStr (scheme a)); ("auth", JStr (auth a))]) <$> aclv).

(** [Initialize]: the ACLs that the constructor function carries, and the accessors. *)
Definition acl_object (perms : Z) (scheme auth : string) : jsval :=
  JObj [("perms", int perms); ("scheme", JStr (lit scheme)); ("auth", JStr (lit auth))].
Definition constructor_acls (ZOO_PERM_ALL ZOO_PERM_READ : Z) : list (string * jsval) :=
  [("ZOO_OPEN_ACL_UNSAFE", acl_object ZOO_PERM_ALL "world" "anyone");
   ("ZOO_READ_ACL_UNSAFE", acl_object ZOO_PERM_READ "world" "anyone");
   ("ZOO_CREATOR_ALL_ACL", acl_object ZOO_PERM_ALL "auth" "")].

Definition or_null {A} (f : A → jsval) (o : option A) : jsval := match o with Some a => f a | None => JNull end.

Section completions.
(** [zerror], what [deallocate_ACL_vector] does with a null pointer, and the session
    of the object. *)
Context (zerror : Z → list Z) (deallocate_null : result unit) (my : clientid).

(** [CALLBACK_PROLOG], [argv] filled in, [CALLBACK_EPILOG]: the callback is called
    and deleted. *)
Definition call_and_delete (cb : nat) (rc : Z) (argv : list jsval) (s : calls) : result calls :=
  match heap s !! cb with
  | Some (CCallback f) =>
      free cb (MkCalls (heap s) (next s) (pending s) ((f, int rc :: JStr (zerror rc) :: argv) :: jscalls s))
  | _ => Err Fault
  end.

(** [void_completion]: its data is a [completion_data]. *)
Definition run_void_completion (rc : Z) (data : nat) (s : calls) : result calls :=
  match heap s !! data with
  | Some (CData d) =>
      s ← match cd_type d, cd_data d with
          | ZOO_SETACL_OP, Some v => free v s
          | ZOO_SETACL_OP, None => Err Fault
          | _, _ => Ok s
          end;
      s ← call_and_delete (cd_cb d) rc [] s;
      free data s
  | _ => Err Fault
  end.

Definition run_string_completion (r : answer) (cb : nat) (s : calls) : result calls :=
  let value := default (lit "null") (r_value r) in
  call_and_delete cb (r_rc r) [JStr value] s.

Definition run_stat_completion (r : answer) (cb : nat) (s : calls) : result calls :=
  if (r_rc r =? 0)%Z then
    match r_stat r with
    | Some stat => call_and_delete cb (r_rc r) [createStatObject my stat] s
    | None => Err Fault
    end
  else call_and_delete cb (r_rc r) [JNull] s.

Definition run_data_completion (r : answer) (cb : nat) (s : calls) : result calls :=
  call_and_delete cb (r_rc r) [or_null (createStatObject my) (r_stat r); or_null JBuffer (r_value r)] s.

Definition run_strings_completion (r : answer) (cb : nat) (s : calls) : result calls :=
  call_and_delete cb (r_rc r) [or_null (λ l, JArr (JStr <$> l)) (r_strings r)] s.

Definition run_strings_stat_completion (r : answer) (cb : nat) (s : calls) : result calls :=
  call_and_delete cb (r_rc r) [or_null (λ l, JArr (JStr <$> l)) (r_strings r);
                               or_null (createStatObject my) (r_stat r)] s.

Definition run_acl_completion (r : answer) (cb : nat) (s : calls) : result calls :=
  _ ← match r_acl r with Some _ => Ok tt | None => deallocate_null end;
  call_and_delete cb (r_rc r) [or_null createAclObject (r_acl r); or_null (createStatObject my) (r_stat r)] s.

Definition run_completion (c : completion) (data : nat) (r : answer) (s : calls) : result calls :=
  match c with
  | string_completion => run_string_completion r data s
  | void_completion => run_void_completion (r_rc r) data s
  | stat_completion => run_stat_completion r data s
  | data_completion => run_data_completion r data s
  | strings_completion => run_strings_completion r data s
  | strings_stat_completion => run_strings_stat_completion r data s
  | acl_completion => run_acl_completion r data s
  end.

(** The client answers the [i]-th pending request. *)
Definition deliver (i : nat) (r : answer) (s : calls) : result calls :=
  match pending s !! i with
  | Some rq =>
      run_completion (rq_completion rq) (rq_data rq) r
        (MkCalls (heap s) (next s) (delete i (pending s)) (jscalls s))
  | None => Ok s
  end.

(** [watcher_fn]: an event for a watch; the callback is kept.  [same] says that the
    event is from the handle the object has now. *)
Definition watcher_fn (expired same : bool) (type state : Z) (path : list Z) (handback : option jsval)
    (watcherCtx : nat) (s : calls) : result calls :=
  if expired then Ok s else
  match heap s !! watcherCtx with
  | Some (CCallback f) =>
      if same then
        Ok (MkCalls (heap s) (next s) (pending s)
             ((f, [int type; int state; JStr path; default JUndefined handback]) :: jscalls s))
      else Err AssertFail
  | _ => Err Fault
  end.
End completions.
