(* ===== verification/ZkHeap.v ===== *)
(** * The ZooKeeper wrapper: the memory of the requests

    Every request of ZkCalls.v that the client accepts owns its callback and, for
    some requests, a completion record and an ACL vector; its completion calls the
    JavaScript function once and frees all of it.  The callbacks of watches and
    everything a rejected request allocated stay allocated. *)

From S2P Require Import Prelude ZkIds ZkSession ZkCalls.
From Stdlib Require Import ZArith Lia.

(** ** Ownership *)

(** The cells that a pending request owns, and the function of its callback. *)
Definition owns (h : gmap nat cell) (rq : request) (fp : list nat) (f : nat) : Prop :=
  match rq_completion rq with
  | void_completion =>
      ∃ d, h !! rq_data rq = Some (CData d) ∧ h !! cd_cb d = Some (CCallback f) ∧
        match cd_type d with
        | ZOO_SETACL_OP => ∃ v l, cd_data d = Some v ∧ h !! v = Some (CAcl l) ∧ fp = [rq_data rq; cd_cb d; v]
        | _ => fp = [rq_data rq; cd_cb d]
        end
  | _ => h !! rq_data rq = Some (CCallback f) ∧ fp = [rq_data rq]
  end.

Definition owned (h : gmap nat cell) (rq : request) (fp : list nat) : Prop := ∃ f, owns h rq fp f.

(** The cells are those of the pending requests and [W], which nothing will free. *)
Definition calls_inv (W : list nat) (s : calls) : Prop :=
  ∃ fps, Forall2 (owned (heap s)) (pending s) fps ∧ NoDup (concat fps ++ W) ∧
    (∀ id, id ∈ concat fps ++ W ↔ is_Some (heap s !! id)) ∧
    (∀ id, is_Some (heap s !! id) → id < next s).

Lemma no_calls_inv : calls_inv [] no_calls.
Proof.
  exists []. split_and!; [constructor|constructor| |].
  - intros id. simpl. rewrite lookup_empty. split; [by intros ?%elem_of_nil|by intros [? ?]].
  - intros id [? H]. simpl in H. by rewrite lookup_empty in H.
Qed.

(** Cells outside the footprint do not matter. *)
Lemma owns_agree h h' rq fp f :
  (∀ id, id ∈ fp → h' !! id = h !! id) → owns h rq fp f → owns h' rq fp f.
Proof.
  intros Hag Ho. unfold owns in *. destruct (rq_completion rq);
    try (destruct Ho as [Hd ->]; split; [|done]; rewrite Hag; [done|set_solver]).
  destruct Ho as (d & Hd & Hc & Hm). destruct (cd_type d) eqn:E;
    [subst; exists d; rewrite !Hag, E by set_solver; done|
     |subst; exists d; rewrite !Hag, E by set_solver; done].
  destruct Hm as (v & l & Ev & Hv & ->). exists d. rewrite !Hag, E by set_solver. split_and!; [done|done|].
  exists v, l. rewrite Hag by set_solver. done.
Qed.

(** The footprint is allocated. *)
Lemma owned_alloc h rq fp f id : owns h rq fp f → id ∈ fp → is_Some (h !! id).
Proof.
  intros Ho Hid. unfold owns in Ho. destruct (rq_completion rq);
    try (destruct Ho as [Hd ->]; apply list_elem_of_singleton in Hid; subst; by rewrite Hd).
  destruct Ho as (d & Hd & Hc & Hm). destruct (cd_type d); [| |].
  - subst. rewrite !elem_of_cons in Hid. destruct Hid as [->|[->|Hid]]; [by rewrite Hd|by rewrite Hc|by apply elem_of_nil in Hid].
  - destruct Hm as (v & l & _ & Hv & ->). rewrite !elem_of_cons in Hid.
    destruct Hid as [->|[->|[->|Hid]]]; [by rewrite Hd|by rewrite Hc|by rewrite Hv|by apply elem_of_nil in Hid].
  - subst. rewrite !elem_of_cons in Hid. destruct Hid as [->|[->|Hid]]; [by rewrite Hd|by rewrite Hc|by apply elem_of_nil in Hid].
Qed.

(** Growing the heap keeps what is owned, and a request owns one footprint. *)
Lemma owns_mono h h' rq fp f : h ⊆ h' → owns h rq fp f → owns h' rq fp f.
Proof.
  intros Hsub Ho. eapply owns_agree; [|exact Ho]. intros id Hid.
  destruct (owned_alloc _ _ _ _ _ Ho Hid) as [c Hc]. rewrite Hc. by eapply lookup_weaken.
Qed.

Lemma owns_unique h rq fp f fp' f' : owns h rq fp f → owns h rq fp' f' → f = f'.
Proof.
  unfold owns. intros Ho Ho'. destruct (rq_completion rq);
    try (destruct Ho as [E _], Ho' as [E' _]; congruence).
  destruct Ho as (d & Ed & Ec & _), Ho' as (d' & Ed' & Ec' & _). congruence.
Qed.

(** ** Submitting a request *)

(** The callback that a request leaves with the client for the events of its watch. *)
Definition watcher_of (call : zoo_call) : list nat :=
  match call with
  | zoo_awexists _ w | zoo_awget _ w | zoo_awget_children _ w | zoo_awget_children2 _ w => [w]
  | _ => []
  end.

(** [s1] is [s] with the new cells [N]. *)
Record extends (s s1 : calls) (N : list nat) : Prop := {
  ext_pending : pending s1 = pending s;
  ext_jscalls : jscalls s1 = jscalls s;
  ext_nodup : NoDup N;
  ext_new : ∀ id, id ∈ N → next s ≤ id;
  ext_old : ∀ id, id < next s → heap s1 !! id = heap s !! id;
  ext_dom : ∀ id, is_Some (heap s1 !! id) ↔ is_Some (heap s !! id) ∨ id ∈ N;
  ext_next : ∀ id, id ∈ N → id < next s1;
  ext_le : next s ≤ next s1;
}.

Lemma extends_refl s : extends s s [].
Proof. split; try done; [constructor|by intros ? ?%elem_of_nil| |by intros ? ?%elem_of_nil]. set_solver. Qed.

Lemma extends_alloc s s1 N c :
  extends s s1 N → extends s (alloc c s1).2 (next s1 :: N).
Proof.
  intros [Hp Hj Hnd Hnew Hold Hdom Hnx Hle]. split; cbn [alloc snd pending jscalls heap next]; try done.
  - constructor; [|done]. intros Hin. specialize (Hnx _ Hin). lia.
  - intros id [->|Hin]%elem_of_cons; [done|by apply Hnew].
  - intros id Hid. rewrite lookup_insert_ne by lia. by apply Hold.
  - intros id. rewrite lookup_insert_is_Some', Hdom, elem_of_cons. naive_solver.
  - intros id [->|Hin]%elem_of_cons; [lia|]. specialize (Hnx _ Hin). lia.
  - lia.
Qed.

Lemma extends_fps s s1 N fps :
  extends s s1 N → (∀ id, is_Some (heap s !! id) → id < next s) →
  Forall2 (owned (heap s)) (pending s) fps → Forall2 (owned (heap s1)) (pending s1) fps.
Proof.
  intros He Hb Hf. rewrite (ext_pending _ _ _ He). eapply Forall2_impl; [exact Hf|].
  intros rq fp [f Ho]. exists f. eapply owns_agree; [|exact Ho]. intros id Hid.
  apply (ext_old _ _ _ He), Hb. by eapply owned_alloc.
Qed.

(** The client rejects the request: its cells are lost. *)
Lemma rejected_inv W s s1 N :
  calls_inv W s → extends s s1 N → calls_inv (N ++ W) s1.
Proof.
  intros (fps & Hf & Hnd & Hdom & Hb) He. exists fps.
  assert (Hdisj : ∀ id, id ∈ N → id ∉ concat fps ++ W).
  { intros id Hid Hin. apply Hdom, Hb in Hin. pose proof (ext_new _ _ _ He id Hid). lia. }
  split_and!.
  - by eapply extends_fps.
  - apply NoDup_app in Hnd as (Hn1 & Hn2 & Hn3). apply NoDup_app. split_and!; [done| |].
    + intros id Hid. rewrite elem_of_app. intros [Hin|Hin]; [|by apply (Hn2 id)].
      apply (Hdisj id Hin). set_solver.
    + apply NoDup_app. split_and!; [by apply He| |done]. set_solver.
  - intros id. rewrite (ext_dom _ _ _ He), <-Hdom, !elem_of_app. naive_solver.
  - intros id [Hid|Hid]%(ext_dom _ _ _ He); [|by apply (ext_next _ _ _ He)].
    pose proof (Hb id Hid). pose proof (ext_le _ _ _ He). lia.
Qed.

(** The client accepts the request: it owns [fp], and [X] is never freed. *)
Lemma accepted_inv W s s1 N rq fp X :
  calls_inv W s → extends s s1 N → owned (heap s1) rq fp → N ≡ₚ fp ++ X →
  calls_inv (X ++ W) (MkCalls (heap s1) (next s1) (pending s1 ++ [rq]) (jscalls s1)).
Proof.
  intros Hs He Ho HN. destruct (rejected_inv W s s1 N Hs He) as (fps & Hf & Hnd & Hdom & Hb).
  exists (fps ++ [fp]). simpl.
  assert (HP : concat (fps ++ [fp]) ++ X ++ W ≡ₚ concat fps ++ N ++ W).
  { rewrite concat_app, HN. simpl. by rewrite app_nil_r, <-!app_assoc. }
  split_and!; [by apply Forall2_app; [|constructor]|by rewrite HP| |done].
  intros id. by rewrite HP.
Qed.

Lemma extends_sub W s s1 N : calls_inv W s → extends s s1 N → heap s ⊆ heap s1.
Proof.
  intros (_ & _ & _ & _ & Hb) He. apply map_subseteq_spec. intros id c E.
  rewrite (ext_old _ _ _ He); [done|]. apply Hb. by eexists.
Qed.

(** Callback cells of functions. *)
Definition callbacks (h : gmap nat cell) (ws gs : list nat) : Prop :=
  Forall2 (λ w g, h !! w = Some (CCallback g)) ws gs.

(** What a method called with the function [f] and the watch functions [gs] has done,
    having allocated [n] cells and returning the client's code [ret]. *)
Definition submitted (zoo : request → Z) (W : list nat) (s s' : calls) (f : nat) (gs : list nat) (n : nat) (ret : Z) : Prop :=
  jscalls s' = jscalls s ∧ heap s ⊆ heap s' ∧ ∃ rq, ret = zoo rq ∧
  if (ret =? 0)%Z then
    ∃ fp, pending s' = pending s ++ [rq] ∧ owns (heap s') rq fp f ∧
      callbacks (heap s') (watcher_of (rq_call rq)) gs ∧ calls_inv (watcher_of (rq_call rq) ++ W) s'
  else
    ∃ N, length N = n ∧ pending s' = pending s ∧ (∀ id, id ∈ N → heap s !! id = None) ∧ calls_inv (N ++ W) s'.

Section submit.
Context `{!V8} (zoo : request → Z).

Lemma epilog_ok W s s1 N f gs fp call c data :
  calls_inv W s → extends s s1 N → owns (heap s1) (MkRequest call c data) fp f →
  callbacks (heap s1) (watcher_of call) gs → N ≡ₚ fp ++ watcher_of call →
  ∃ ret s', METHOD_EPILOG zoo call c data s1 = Ok (Returns ret, s') ∧ submitted zoo W s s' f gs (length N) ret.
Proof.
  intros Hs He Ho Hg HN. do 2 eexists. split; [reflexivity|]. unfold submitted.
  pose proof (extends_sub _ _ _ _ Hs He) as Hsub.
  destruct (zoo _ =? 0)%Z eqn:E; (split; [apply He|]); (split; [exact Hsub|]);
    exists (MkRequest call c data); (split; [done|]).
  - exists fp. split_and!; [simpl; by rewrite (ext_pending _ _ _ He)|exact Ho|exact Hg|].
    eapply accepted_inv; [done|done|by exists f|done].
  - exists N. split_and!; [done|apply He| |by eapply rejected_inv].
    intros id Hid. destruct (heap s !! id) as [cl|] eqn:Eid; [|done].
    destruct Hs as (_ & _ & _ & _ & Hb). pose proof (Hb id ltac:(by eexists)).
    pose proof (ext_new _ _ _ He id Hid). lia.
Qed.

(** The argument lists that the prologs accept. *)
Definition good_args (nargs : nat) (info : list jsval) (f : nat) : Prop :=
  nargs ≤ length info ∧ arg info (nargs - 1) = JFun f.

Lemma prolog_ok nargs info f body s :
  good_args nargs info f →
  A_METHOD_PROLOG nargs info body s = body (next s) (alloc (CCallback f) s).2.
Proof.
  intros [Hlen Hf]. unfold A_METHOD_PROLOG. rewrite (proj2 (Nat.ltb_ge _ _)) by done. by rewrite Hf.
Qed.

Lemma aw_prolog_ok nargs info f g body s :
  good_args nargs info f → arg info (nargs - 2) = JFun g →
  AW_METHOD_PROLOG nargs info body s =
    body (next s) (S (next s)) (alloc (CCallback g) (alloc (CCallback f) s).2).2.
Proof.
  intros [Hlen Hf] Hg. unfold AW_METHOD_PROLOG. rewrite (proj2 (Nat.ltb_ge _ _)) by done. by rewrite Hf, Hg.
Qed.

(** Requests that carry the callback itself. *)
Lemma plain_method W s nargs info f call c :
  calls_inv W s → good_args nargs info f → c ≠ void_completion → watcher_of call = [] →
  ∃ ret s', A_METHOD_PROLOG nargs info (λ cb, METHOD_EPILOG zoo call c cb) s = Ok (Returns ret, s') ∧
    submitted zoo W s s' f [] 1 ret.
Proof.
  intros Hs Hg Hc Hw. rewrite (prolog_ok _ _ f) by done.
  eapply (epilog_ok W s _ [next s] f [] [next s]); [done|apply extends_alloc, extends_refl| | |by rewrite Hw].
  - unfold owns. destruct c; try done; (split; [apply lookup_insert_eq|done]).
  - rewrite Hw. constructor.
Qed.

Lemma watch_method W s nargs info f g (call : nat → zoo_call) c :
  calls_inv W s → good_args nargs info f → arg info (nargs - 2) = JFun g → c ≠ void_completion →
  (∀ w, watcher_of (call w) = [w]) →
  ∃ ret s', AW_METHOD_PROLOG nargs info (λ cb cbw, METHOD_EPILOG zoo (call cbw) c cb) s = Ok (Returns ret, s') ∧
    submitted zoo W s s' f [g] 2 ret.
Proof.
  intros Hs Hg Hf Hc Hw. rewrite (aw_prolog_ok _ _ f g) by done.
  eapply (epilog_ok W s _ [S (next s); next s] f [g] [next s]);
    [done|apply (extends_alloc _ (alloc (CCallback f) s).2), extends_alloc, extends_refl| | |
     rewrite Hw; apply Permutation_swap].
  - unfold owns. destruct c; try done;
      (split; [simpl; rewrite lookup_insert_ne by lia; apply lookup_insert_eq|done]).
  - rewrite Hw. constructor; [apply lookup_insert_eq|constructor].
Qed.

(** Requests that carry a completion record. *)
Lemma record_method W s nargs info f call o :
  calls_inv W s → good_args nargs info f → o ≠ ZOO_SETACL_OP → watcher_of call = [] →
  ∃ ret s',
    A_METHOD_PROLOG nargs info (λ cb s,
      let '(data, s) := alloc (CData (MkCd cb o None)) s in METHOD_EPILOG zoo call void_completion data s) s
      = Ok (Returns ret, s') ∧ submitted zoo W s s' f [] 2 ret.
Proof.
  intros Hs Hg Ho Hw. rewrite (prolog_ok _ _ f) by done.
  eapply (epilog_ok W s _ [S (next s); next s] f [] [S (next s); next s]);
    [done|apply (extends_alloc _ (alloc (CCallback f) s).2), extends_alloc, extends_refl| | |
     by rewrite Hw, app_nil_r].
  - unfold owns. simpl. eexists. split_and!; [apply lookup_insert_eq| |by destruct o].
    simpl. rewrite lookup_insert_ne by lia. apply lookup_insert_eq.
  - rewrite Hw. constructor.
Qed.

Lemma setacl_method W s info f :
  calls_inv W s → good_args 4 info f →
  ∃ ret s', ASetAcl zoo info s = Ok (Returns ret, s') ∧ submitted zoo W s s' f [] 3 ret.
Proof.
  intros Hs Hg. unfold ASetAcl. rewrite (prolog_ok _ _ f) by done.
  eapply (epilog_ok W s _ [S (S (next s)); S (next s); next s] f [] [S (S (next s)); next s; S (next s)]).
  - done.
  - apply (extends_alloc _ (alloc _ (alloc (CCallback f) s).2).2),
      (extends_alloc _ (alloc (CCallback f) s).2), extends_alloc, extends_refl.
  - unfold owns. simpl. eexists. split_and!; [apply lookup_insert_eq| |].
    + simpl. rewrite !lookup_insert_ne by lia. apply lookup_insert_eq.
    + simpl. do 2 eexists. split_and!; [done| |done]. rewrite lookup_insert_ne by lia. apply lookup_insert_eq.
  - constructor.
  - rewrite app_nil_r. apply perm_skip, perm_swap.
Qed.

(** The number of arguments of a method, and whether one of them is a watcher. *)
Definition arity (name : string) : nat * bool :=
  match name with
  | "a_create" | "a_set" | "a_set_acl" => (4, false)
  | "a_get_acl" | "a_sync" => (2, false)
  | "aw_exists" | "aw_get" | "aw_get_children" | "aw_get_children2" => (3, true)
  | _ => (3, false)
  end%string.

(** [name] is called with enough arguments, with the function [f] last and the watch
    functions [gs] before it. *)
Definition well_called (name : string) (info : list jsval) (f : nat) (gs : list nat) : Prop :=
  let '(nargs, watch) := arity name in
  good_args nargs info f ∧
  if watch then ∃ g, arg info (nargs - 2) = JFun g ∧ gs = [g] else gs = [].

(** The cells that a method allocates: a callback, one more for a watch, a completion
    record, an ACL vector. *)
Definition cost (name : string) : nat :=
  match name with
  | "aw_exists" | "aw_get" | "aw_get_children" | "aw_get_children2" | "a_delete_" | "add_auth" => 2
  | "a_set_acl" => 3
  | _ => 1
  end%string.

(** The names of the prototype. *)
Definition method_names : list string :=
  ["a_create"; "a_exists"; "aw_exists"; "a_get"; "aw_get"; "a_get_children"; "aw_get_children";
   "a_get_children2"; "aw_get_children2"; "a_set"; "a_delete_"; "a_get_acl"; "a_set_acl"; "add_auth"; "a_sync"].

Lemma prototype_names name m : prototype zoo name = Some m → name ∈ method_names.
Proof.
  unfold prototype, method_names. intros Hm. repeat (case_match; try done); set_solver.
Qed.

Lemma method_ok W s name m info f gs :
  calls_inv W s → prototype zoo name = Some m → well_called name info f gs →
  ∃ ret s', m info s = Ok (Returns ret, s') ∧ submitted zoo W s s' f gs (cost name) ret.
Proof.
  intros Hs Hm Hw. pose proof (prototype_names _ _ Hm) as Hin. unfold method_names in Hin.
  rewrite !elem_of_cons in Hin.
  destruct Hin as [->|[->|[->|[->|[->|[->|[->|[->|[->|[->|[->|[->|[->|[->|[->|Hin]]]]]]]]]]]]]]];
    try (by apply elem_of_nil in Hin); injection Hm as <-; destruct Hw as [Hg Hwa];
    first [destruct Hwa as (g & Hg' & ->) | subst gs].
  all: first [by apply plain_method | by eapply watch_method | by apply record_method | by apply setacl_method].
Qed.
End submit.

(** ** Answering a request *)

Section answer.
Context (zerror : Z → list Z) (deallocate_null : result unit) (my : clientid).

(** What the client passes to a completion: a [Stat] with every success, an ACL
    vector unless the deallocation of a null pointer is harmless. *)
Definition reply_ok (c : completion) (r : answer) : Prop :=
  match c with
  | stat_completion => r_rc r = 0%Z → is_Some (r_stat r)
  | acl_completion => is_Some (r_acl r) ∨ deallocate_null = Ok tt
  | _ => True
  end.

Definition js_call (f : nat) (rc : Z) (argv : list jsval) : nat * list jsval :=
  (f, int rc :: JStr (zerror rc) :: argv).

Lemma call_and_delete_ok cb f rc argv s :
  heap s !! cb = Some (CCallback f) →
  call_and_delete zerror cb rc argv s =
    Ok (MkCalls (delete cb (heap s)) (next s) (pending s) (js_call f rc argv :: jscalls s)).
Proof. intros E. unfold call_and_delete. rewrite E. unfold free. simpl. by rewrite E. Qed.

Lemma free_ok id c s :
  heap s !! id = Some c → free id s = Ok (MkCalls (delete id (heap s)) (next s) (pending s) (jscalls s)).
Proof. intros E. unfold free. by rewrite E. Qed.

(** Exactly the cells of [fp] are freed. *)
Definition freed (h h' : gmap nat cell) (fp : list nat) : Prop :=
  ∀ id, h' !! id = if decide (id ∈ fp) then None else h !! id.

Lemma freed_one h id : freed h (delete id h) [id].
Proof.
  intros j. case_decide as Hj; [apply list_elem_of_singleton in Hj; subst; apply lookup_delete_eq|].
  apply lookup_delete_ne. set_solver.
Qed.

Lemma freed_cons h h' id fp : freed h h' fp → freed h (delete id h') (id :: fp).
Proof.
  intros Hf j. destruct (decide (j = id)) as [->|Hne].
  - rewrite lookup_delete_eq, decide_True by set_solver. done.
  - rewrite lookup_delete_ne by done. rewrite Hf. do 2 case_decide; set_solver.
Qed.

Lemma void_completion_ok rq fp f rc s :
  owns (heap s) rq fp f → rq_completion rq = void_completion → NoDup fp →
  ∃ s', run_void_completion zerror rc (rq_data rq) s = Ok s' ∧
    freed (heap s) (heap s') fp ∧ next s' = next s ∧ pending s' = pending s ∧
    jscalls s' = js_call f rc [] :: jscalls s.
Proof.
  intros Ho Hc Hnd. unfold owns in Ho. rewrite Hc in Ho. destruct Ho as (d & Hd & Hcb & Hm).
  unfold run_void_completion. rewrite Hd. destruct (cd_type d) eqn:Ht.
  1, 3: subst; apply NoDup_cons in Hnd as [Hne _]; rewrite list_elem_of_singleton in Hne;
    cbn [mbind result_bind]; rewrite (call_and_delete_ok _ f) by done; cbn [mbind result_bind];
    rewrite (free_ok _ (CData d)) by (simpl; by rewrite lookup_delete_ne);
    eexists; split_and!; [done|apply freed_cons, freed_one|done|done|done].
  destruct Hm as (v & l & Ev & Hv & ->). rewrite Ev.
  apply NoDup_cons in Hnd as [Hn1 Hnd]. apply NoDup_cons in Hnd as [Hn2 _].
  rewrite not_elem_of_cons in Hn1. rewrite list_elem_of_singleton in Hn1, Hn2. destruct Hn1 as [Hn1 Hn3].
  rewrite (free_ok _ (CAcl l)) by done. cbn [mbind result_bind].
  rewrite (call_and_delete_ok _ f) by (simpl; by rewrite lookup_delete_ne). cbn [mbind result_bind].
  rewrite (free_ok _ (CData d)) by (simpl; by rewrite !lookup_delete_ne).
  eexists. split_and!; [done|apply freed_cons, freed_cons, freed_one|done|done|done].
Qed.

Lemma run_completion_ok rq fp f r s :
  owns (heap s) rq fp f → NoDup fp → reply_ok (rq_completion rq) r →
  ∃ argv s', run_completion zerror deallocate_null my (rq_completion rq) (rq_data rq) r s = Ok s' ∧
    freed (heap s) (heap s') fp ∧ next s' = next s ∧ pending s' = pending s ∧
    jscalls s' = js_call f (r_rc r) argv :: jscalls s.
Proof.
  intros Ho Hnd Hr. destruct (decide (rq_completion rq = void_completion)) as [Hv|Hv].
  { destruct (void_completion_ok rq fp f (r_rc r) s Ho Hv Hnd) as (s' & E & H). exists [], s'.
    rewrite Hv. done. }
  assert (Hc : ∃ argv, run_completion zerror deallocate_null my (rq_completion rq) (rq_data rq) r s
                 = call_and_delete zerror (rq_data rq) (r_rc r) argv s).
  { unfold run_completion, run_string_completion, run_stat_completion, run_data_completion,
      run_strings_completion, run_strings_stat_completion, run_acl_completion.
    destruct (rq_completion rq); try done; try (by eexists).
    - destruct (Z.eqb_spec (r_rc r) 0) as [E0|E0]; [|by eexists]. destruct (Hr E0) as [st ->]. by eexists.
    - destruct Hr as [[l ->]| ->]; [by eexists|]. destruct (r_acl r); by eexists. }
  destruct Hc as [argv ->]. exists argv.
  assert (heap s !! rq_data rq = Some (CCallback f) ∧ fp = [rq_data rq]) as [Hcb ->].
  { unfold owns in Ho. by destruct (rq_completion rq). }
  rewrite (call_and_delete_ok _ f) by done. eexists. split_and!; [done|apply freed_one|done|done|done].
Qed.

Lemma delivered W s i rq r :
  calls_inv W s → pending s !! i = Some rq → reply_ok (rq_completion rq) r →
  ∃ f fp argv s',
    owns (heap s) rq fp f ∧ deliver zerror deallocate_null my i r s = Ok s' ∧ calls_inv W s' ∧
    freed (heap s) (heap s') fp ∧ pending s' = delete i (pending s) ∧
    jscalls s' = js_call f (r_rc r) argv :: jscalls s.
Proof.
  intros (fps & Hf & Hnd & Hdom & Hb) Hi Hr. unfold deliver. rewrite Hi.
  destruct (Forall2_lookup_l _ _ _ _ _ Hf Hi) as (fp & Hfp & f & Ho).
  assert (HP : concat fps ≡ₚ fp ++ concat (delete i fps)).
  { rewrite (delete_Permutation fps i fp Hfp) at 1. done. }
  assert (Hndfp : NoDup (fp ++ concat (delete i fps) ++ W)) by (by rewrite app_assoc, <-HP).
  destruct (NoDup_app fp (concat (delete i fps) ++ W)) as [[Hn1 [Hn2 Hn3]] _]; [done|].
  set (s0 := MkCalls (heap s) (next s) (delete i (pending s)) (jscalls s)).
  destruct (run_completion_ok rq fp f r s0 Ho Hn1 Hr) as (argv & s' & -> & Hfr & Hnx & Hp & Hj).
  exists f, fp, argv, s'. split_and!; [done|done| |done|done|done].
  exists (delete i fps). rewrite Hp. split_and!; [|done| |].
  - change (pending s0) with (delete i (pending s)). apply Forall2_same_length_lookup. split.
    + pose proof (Forall2_length _ _ _ Hf).
      rewrite !length_delete by (eexists; eassumption). lia.
    + intros j rq' fp' Hj1 Hj2.
      assert (∃ k, pending s !! k = Some rq' ∧ fps !! k = Some fp' ∧ k ≠ i) as (k & Hk1 & Hk2 & Hki).
      { destruct (decide (j < i)).
        - exists j. rewrite list_lookup_delete_lt in Hj1 by done. rewrite list_lookup_delete_lt in Hj2 by done. split_and!; [done|done|lia].
        - exists (S j). rewrite list_lookup_delete_ge in Hj1 by lia. rewrite list_lookup_delete_ge in Hj2 by lia. split_and!; [done|done|lia]. }
      destruct (Forall2_lookup_lr _ _ _ _ _ _ Hf Hk1 Hk2) as [f' Ho']. exists f'.
      eapply owns_agree; [|exact Ho']. intros id Hid. rewrite Hfr, decide_False; [done|].
      intros Hin. apply (Hn2 id Hin). apply elem_of_app. left. apply list_elem_of_In, in_concat.
      exists fp'. rewrite <-!list_elem_of_In. split; [by apply list_elem_of_lookup_2 with j|done].
  - intros id. rewrite Hfr. split.
    + intros Hin. rewrite decide_False by (intros Hin'; by apply (Hn2 id Hin')).
      apply Hdom. rewrite HP, <-app_assoc. set_solver.
    + case_decide as Hin; [by intros [? ?]|]. intros Hs. apply Hdom in Hs.
      rewrite HP, <-app_assoc in Hs. set_solver.
  - intros id. rewrite Hfr, Hnx. case_decide; [by intros [? ?]|apply Hb].
Qed.
End answer.
