(* ===== verification/ZkRequests.v ===== *)
(** * The ZooKeeper wrapper: requests from call to callback

    Theorems about runs of the methods and completions of ZkCalls.v: the answer to an
    accepted request calls the function that was given with that request, exactly once;
    an event calls the function of its watch; what is left in memory are the callbacks
    of the watches and everything that the requests rejected by the client allocated. *)

From S2P Require Import Prelude ZkIds ZkSession ZkCalls ZkHeap.
From Stdlib Require Import ZArith Lia.

(** ** The history of a run

    The functions of the calls that the client accepted, of those that wait for their
    answer (in the order of [pending]) and of those answered; the watches the client
    holds with their functions; every call of a JavaScript function with its first
    arguments, latest first; the cells allocated by rejected requests. *)
Record history := MkHistory {
  accepted : list nat;
  waiting : list nat;
  answered : list nat;
  watched : list (nat * nat);
  called : list (nat * list jsval);
  lost : nat;
}.

Definition no_history : history := MkHistory [] [] [] [] [] 0.

(** A method returned [ret] in state [s']. *)
Definition note_call (name : string) (f : nat) (gs : list nat) (ret : Z) (s' : calls) (h : history) : history :=
  if (ret =? 0)%Z then
    let ws := default [] ((watcher_of ∘ rq_call) <$> last (pending s')) in
    MkHistory (accepted h ++ [f]) (waiting h ++ [f]) (answered h) (zip ws gs ++ watched h) (called h) (lost h)
  else MkHistory (accepted h) (waiting h) (answered h) (watched h) (called h) (cost name + lost h).

Definition note_answer (zerror : Z → list Z) (i f : nat) (rc : Z) (h : history) : history :=
  MkHistory (accepted h) (delete i (waiting h)) (f :: answered h) (watched h)
    ((f, [int rc; JStr (zerror rc)]) :: called h) (lost h).

Definition note_event (g : nat) (args : list jsval) (h : history) : history :=
  MkHistory (accepted h) (waiting h) (answered h) (watched h) ((g, args) :: called h) (lost h).

Section runs.
Context `{!V8} (zoo : request → Z) (zerror : Z → list Z) (deallocate_null : result unit) (my : clientid).

(** A method is called, the client answers a request, the client reports an event of
    a watch (on the object's handle; nothing is called once the session is expired). *)
Inductive run : history → calls → Prop :=
  | run_nil : run no_history no_calls
  | run_call h s name m info f gs ret s' :
      run h s → prototype zoo name = Some m → well_called name info f gs →
      m info s = Ok (Returns ret, s') → run (note_call name f gs ret s' h) s'
  | run_answer h s i f rq r s' :
      run h s → waiting h !! i = Some f → pending s !! i = Some rq →
      reply_ok deallocate_null (rq_completion rq) r →
      deliver zerror deallocate_null my i r s = Ok s' → run (note_answer zerror i f (r_rc r) h) s'
  | run_event h s w g type state path handback s' :
      run h s → (w, g) ∈ watched h →
      watcher_fn false true type state path handback w s = Ok s' →
      run (note_event g [int type; int state; JStr path; default JUndefined handback] h) s'
  | run_expired h s w same type state path handback s' :
      run h s → watcher_fn true same type state path handback w s = Ok s' → run h s'.

(** ** The invariant *)

Definition call_of (c e : nat * list jsval) : Prop := c.1 = e.1 ∧ e.2 `prefix_of` c.2.
Definition request_of (hp : gmap nat cell) (rq : request) (f : nat) : Prop := ∃ fp, owns hp rq fp f.

Record run_inv (W : list nat) (h : history) (s : calls) : Prop := {
  inv_cells : calls_inv W s;
  inv_waiting : Forall2 (request_of (heap s)) (pending s) (waiting h);
  inv_watched : Forall (λ p, p.1 ∈ W ∧ heap s !! p.1 = Some (CCallback p.2)) (watched h);
  inv_kept : length W = length (watched h) + lost h;
  inv_answered : accepted h ≡ₚ answered h ++ waiting h;
  inv_called : Forall2 call_of (jscalls s) (called h);
}.

Lemma waiting_mono (hp hp' : gmap nat cell) rqs fs :
  hp ⊆ hp' → Forall2 (request_of hp) rqs fs → Forall2 (request_of hp') rqs fs.
Proof. intros Hs Hf. eapply Forall2_impl; [exact Hf|]. intros rq f [fp Ho]. exists fp. by eapply owns_mono. Qed.

(** A smaller heap that still owns the requests calls the same functions. *)
Lemma waiting_anti (hp hp' : gmap nat cell) rqs fs :
  hp' ⊆ hp → Forall2 (request_of hp) rqs fs → (∀ rq, rq ∈ rqs → ∃ f, request_of hp' rq f) →
  Forall2 (request_of hp') rqs fs.
Proof.
  intros Hs. induction 1 as [|rq f rqs fs [fp Ho] _ IH]; intros Hall; [constructor|]. constructor.
  - destruct (Hall rq ltac:(left)) as (f' & fp' & Ho').
    rewrite (owns_unique hp rq fp f fp' f' Ho); [by exists fp'|by eapply owns_mono].
  - apply IH. intros rq' Hin. apply Hall. by right.
Qed.

Lemma cells_waiting W s rq : calls_inv W s → rq ∈ pending s → ∃ f, request_of (heap s) rq f.
Proof.
  intros (fps & Hf & _) [i Hi]%list_elem_of_lookup.
  destruct (Forall2_lookup_l _ _ _ _ _ Hf Hi) as (fp & _ & f & Ho). by exists f, fp.
Qed.

Lemma watched_mono (W W' : list nat) (hp hp' : gmap nat cell) ps :
  hp ⊆ hp' → W ⊆ W' → Forall (λ p : nat * nat, p.1 ∈ W ∧ hp !! p.1 = Some (CCallback p.2)) ps →
  Forall (λ p : nat * nat, p.1 ∈ W' ∧ hp' !! p.1 = Some (CCallback p.2)) ps.
Proof.
  intros Hs HW Hf. eapply Forall_impl; [exact Hf|]. intros p [Hp E]. split; [by apply HW|by eapply lookup_weaken].
Qed.

Lemma callbacks_zip hp (W : list nat) ws gs :
  callbacks hp ws gs →
  Forall (λ p : nat * nat, p.1 ∈ ws ++ W ∧ hp !! p.1 = Some (CCallback p.2)) (zip ws gs) ∧
  length (zip ws gs) = length ws.
Proof.
  unfold callbacks. induction 1 as [|w g ws gs E _ [IH IHl]]; [by split; [constructor|]|].
  simpl. split; [|by rewrite IHl]. constructor; [split; [left|done]|].
  eapply Forall_impl; [exact IH|]. intros p [Hp Ep]. split; [by right|done].
Qed.

Lemma watcher_fn_same expired same type state path handback w s s' :
  watcher_fn expired same type state path handback w s = Ok s' → heap s' = heap s ∧ next s' = next s ∧ pending s' = pending s.
Proof. unfold watcher_fn. intros E. repeat case_match; by simplify_eq. Qed.

Lemma watcher_fn_calls type state path handback w g s :
  heap s !! w = Some (CCallback g) →
  watcher_fn false true type state path handback w s =
    Ok (MkCalls (heap s) (next s) (pending s)
         ((g, [int type; int state; JStr path; default JUndefined handback]) :: jscalls s)).
Proof. intros E. unfold watcher_fn. by rewrite E. Qed.

Lemma nil_inv : run_inv [] no_history no_calls.
Proof. split; try constructor. apply no_calls_inv. Qed.

Lemma call_inv W h s name m info f gs ret s' :
  run_inv W h s → prototype zoo name = Some m → well_called name info f gs → m info s = Ok (Returns ret, s') →
  ∃ W', run_inv W' (note_call name f gs ret s' h) s'.
Proof.
  intros [Hc Hw Hwt Hk Ha Hj] Hm Hwc E.
  destruct (method_ok zoo W s name m info f gs Hc Hm Hwc) as (ret' & s'' & E' & Hjs & Hsub & rq & _ & Hs).
  rewrite E in E'. simplify_eq. unfold note_call. destruct (_ =? 0)%Z.
  - destruct Hs as (fp & Hp & Ho & Hcb & Hi). exists (watcher_of (rq_call rq) ++ W).
    rewrite Hp, last_snoc. change (default [] _) with (watcher_of (rq_call rq)).
    destruct (callbacks_zip _ W _ _ Hcb) as [Hz Hzl]. split; cbn [waiting accepted answered watched called lost].
    + done.
    + rewrite Hp. apply Forall2_app; [by eapply waiting_mono|]. constructor; [by exists fp|constructor].
    + apply Forall_app. split; [done|]. eapply watched_mono; [done| |done]. set_solver.
    + rewrite !length_app, Hzl, Hk. lia.
    + by rewrite Ha, app_assoc.
    + by rewrite Hjs.
  - destruct Hs as (N & HN & Hp & _ & Hi). exists (N ++ W). split; cbn [waiting accepted answered watched called lost].
    + done.
    + rewrite Hp. by eapply waiting_mono.
    + eapply watched_mono; [done| |done]. set_solver.
    + rewrite length_app. lia.
    + done.
    + by rewrite Hjs.
Qed.

(** The answer to a waiting request succeeds and calls its function. *)
Lemma answer_ok W h s i f rq r :
  run_inv W h s → waiting h !! i = Some f → pending s !! i = Some rq →
  reply_ok deallocate_null (rq_completion rq) r →
  ∃ argv s', deliver zerror deallocate_null my i r s = Ok s' ∧ pending s' = delete i (pending s) ∧
    jscalls s' = js_call zerror f (r_rc r) argv :: jscalls s ∧
    run_inv W (note_answer zerror i f (r_rc r) h) s'.
Proof.
  intros [Hc Hw Hwt Hk Ha Hj] Hi Hp Hr.
  destruct (Forall2_lookup_lr _ _ _ _ _ _ Hw Hp Hi) as [fp0 Ho0].
  destruct (delivered zerror deallocate_null my W s i rq r Hc Hp Hr)
    as (f' & fp & argv & s' & Ho & E & Hinv & Hfr & Hpe & Hjs).
  assert (f' = f) as -> by (by eapply owns_unique).
  assert (Hsub : heap s' ⊆ heap s).
  { apply map_subseteq_spec. intros id c Eid. rewrite Hfr in Eid. by case_decide. }
  exists argv, s'. split_and!; [done|done|done|].
  split; cbn [waiting accepted answered watched called lost note_answer].
  - done.
  - rewrite Hpe. eapply waiting_anti; [exact Hsub|by apply Forall2_delete|].
    intros rq' Hin. rewrite <-Hpe in Hin. by eapply cells_waiting.
  - apply Forall_forall. intros p Hin. rewrite Forall_forall in Hwt. destruct (Hwt p Hin) as [HpW Ep].
    split; [done|]. destruct Hinv as (fps & _ & _ & Hdom & _).
    destruct (proj1 (Hdom p.1)) as [c Ec]; [set_solver|]. rewrite Ec. f_equal.
    eapply lookup_weaken in Ec; [|exact Hsub]. congruence.
  - done.
  - etrans; [exact Ha|]. pose proof (delete_Permutation (waiting h) i f Hi) as HP.
    rewrite HP at 1. by rewrite <-Permutation_middle.
  - rewrite Hjs. constructor; [|done]. split; [done|]. by exists argv.
Qed.

Lemma event_ok W h s w g type state path handback :
  run_inv W h s → (w, g) ∈ watched h →
  ∃ s', watcher_fn false true type state path handback w s = Ok s' ∧
    jscalls s' = (g, [int type; int state; JStr path; default JUndefined handback]) :: jscalls s ∧
    run_inv W (note_event g [int type; int state; JStr path; default JUndefined handback] h) s'.
Proof.
  intros [Hc Hw Hwt Hk Ha Hj] Hin. pose proof (proj1 (Forall_forall _ _) Hwt (w, g) Hin) as [_ Ew].
  eexists. split; [by apply watcher_fn_calls|]. split; [done|]. split; try done.
  constructor; [|done]. split; [done|]. simpl. done.
Qed.

Lemma run_run_inv h s : run h s → ∃ W, run_inv W h s.
Proof.
  induction 1 as [|h s name m info f gs ret s' _ [W Hi] Hm Hwc E
                  |h s i f rq r s' _ [W Hi] Hw Hp Hr E
                  |h s w g ty st pa hb s' _ [W Hi] Hin E
                  |h s w sa ty st pa hb s' _ [W Hi] E].
  - exists []. apply nil_inv.
  - by eapply call_inv.
  - destruct (answer_ok W h s i f rq r Hi Hw Hp Hr) as (argv & s'' & E' & _ & _ & Hi'). rewrite E in E'.
    simplify_eq. by exists W.
  - destruct (event_ok W h s w g ty st pa hb Hi Hin) as (s'' & E' & _ & Hi'). rewrite E in E'.
    simplify_eq. by exists W.
  - unfold watcher_fn in E. simplify_eq. by exists W.
Qed.

Lemma inv_no_pending W s : calls_inv W s → pending s = [] → size (heap s) = length W.
Proof.
  intros (fps & Hf & Hnd & Hdom & _) Hp. rewrite Hp in Hf. apply Forall2_nil_inv_l in Hf. subst. simpl in *.
  rewrite <-size_dom, <-(size_list_to_set (C := gset nat)) by done. f_equal.
  apply set_eq. intros id. rewrite elem_of_dom, elem_of_list_to_set. by rewrite Hdom.
Qed.

(** ** The theorems *)

(** C30. After any calls of the asynchronous methods (each with enough arguments, the
    functions it asks for at their places), answers (a [Stat] with every success of
    [exists] and [set]; an ACL vector with every answer of [get_acl], unless
    deallocating a null pointer is harmless) and events of watches on the object's
    handle, when every allocation succeeds and whatever the client accepts or rejects:
    a further such call returns the client's code to JavaScript; the answer to any
    waiting request is delivered, and calls the very function that was given with that
    request, with the client's return code and its text first; an event calls the
    function of its watch with the event; every accepted call was answered or is still
    waiting, and JavaScript functions were called for nothing else; and when nothing is
    waiting, the cells still allocated are one callback for each watch and all that the
    rejected requests had allocated. *)
Theorem requests_balanced h s :
  run h s →
  (∀ name m info f gs, prototype zoo name = Some m → well_called name info f gs →
     ∃ rq s', m info s = Ok (Returns (zoo rq), s')) ∧
  (∀ i f rq r, waiting h !! i = Some f → pending s !! i = Some rq →
     reply_ok deallocate_null (rq_completion rq) r →
     ∃ argv s', deliver zerror deallocate_null my i r s = Ok s' ∧ pending s' = delete i (pending s) ∧
       jscalls s' = (f, int (r_rc r) :: JStr (zerror (r_rc r)) :: argv) :: jscalls s) ∧
  (∀ w g type state path handback, (w, g) ∈ watched h →
     ∃ s', watcher_fn false true type state path handback w s = Ok s' ∧
       jscalls s' = (g, [int type; int state; JStr path; default JUndefined handback]) :: jscalls s) ∧
  length (pending s) = length (waiting h) ∧ accepted h ≡ₚ answered h ++ waiting h ∧
  Forall2 call_of (jscalls s) (called h) ∧
  (pending s = [] → size (heap s) = length (watched h) + lost h).
Proof.
  intros Hr. destruct (run_run_inv _ _ Hr) as [W Hi]. split_and!.
  - intros name m info f gs Hm Hw.
    destruct (method_ok zoo W s name m info f gs (inv_cells _ _ _ Hi) Hm Hw) as (ret & s' & E & _ & _ & rq & -> & _).
    by exists rq, s'.
  - intros i f rq r Hwt Hp Hro. destruct (answer_ok W h s i f rq r Hi Hwt Hp Hro) as (argv & s' & E & Hpe & Hj & _).
    by exists argv, s'.
  - intros w g ty st pa hb Hin. destruct (event_ok W h s w g ty st pa hb Hi Hin) as (s' & E & Hj & _). by exists s'.
  - eapply Forall2_length, Hi.
  - apply Hi.
  - apply Hi.
  - intros Hp. rewrite (inv_no_pending W s); [apply Hi|apply Hi|done].
Qed.

(** A method whose request the client rejects returns the client's code and loses
    what it allocated: no later call, answer or event frees it. *)
Lemma rejected_request_leaks h s name m info f gs :
  run h s → prototype zoo name = Some m → well_called name info f gs → (∀ rq, zoo rq ≠ 0%Z) →
  ∃ ret s', m info s = Ok (Returns ret, s') ∧ ret ≠ 0%Z ∧ pending s' = pending s ∧
    run (note_call name f gs ret s' h) s' ∧ lost (note_call name f gs ret s' h) = cost name + lost h.
Proof.
  intros Hr Hm Hw Hz. destruct (run_run_inv _ _ Hr) as [W Hi].
  destruct (method_ok zoo W s name m info f gs (inv_cells _ _ _ Hi) Hm Hw) as (ret & s' & E & _ & _ & rq & Eret & Hs).
  assert (Hret : ret ≠ 0%Z) by (rewrite Eret; apply Hz).
  rewrite (proj2 (Z.eqb_neq _ _) Hret) in Hs. destruct Hs as (N & _ & Hp & _ & _).
  exists ret, s'. split_and!; [done|done|done|by eapply run_call|].
  unfold note_call. by rewrite (proj2 (Z.eqb_neq _ _) Hret).
Qed.
End runs.

(** ** A witness: one [aw_get] answered, its watch still set *)

(** Conversions of strings, small numbers and booleans. *)
#[local] Instance simple_v8 : V8 := {|
  ToString v := match v with JStr s => s | _ => [] end;
  Uint32Value v := match v with JNum (SpecFloat.S754_finite false m e) => u32 (Z.shiftl (Zpos m) e) | _ => 0%Z end;
  BooleanValue v := match v with JBool b => b | _ => false end;
|}.

Definition accept (rq : request) : Z := 0%Z.
Definition sample_info : list jsval := [JStr (ascii_bytes "/node"); JFun 1; JFun 2].
Definition sample_reply : answer := MkReply 0 (Some (ascii_bytes "data")) (Some (MkStat 1 1 1 4 0 0 0 0 0 0 0)) None None.
Definition no_text (rc : Z) : list Z := [].

Definition sample_sent : calls := MkCalls {[0 := CCallback 2; 1 := CCallback 1]} 2
  [MkRequest (zoo_awget (ascii_bytes "/node") 1) data_completion 0] [].
Definition sample_history : history := MkHistory [2] [2] [] [(1, 1)] [] 0.

Lemma sample_called : AWGet accept sample_info no_calls = Ok (Returns 0, sample_sent).
Proof. vm_compute. reflexivity. Qed.

Lemma sample_well_called : well_called "aw_get" sample_info 2 [1].
Proof. split; [split; [simpl; lia|done]|]. by exists 1. Qed.

Lemma sample_run : run accept no_text (Ok tt) zero_id sample_history sample_sent.
Proof.
  exact (run_call _ _ _ _ no_history no_calls "aw_get" _ _ _ _ _ _ (run_nil _ _ _ _) eq_refl
           sample_well_called sample_called).
Qed.

(** The function given last is called with the code and the data, the watch function
    with its event, and one cell is left. *)
Example requests_balanced_witness :
  ∃ argv s', deliver no_text (Ok tt) zero_id 0 sample_reply sample_sent = Ok s' ∧ pending s' = [] ∧
    jscalls s' = (2, int 0 :: JStr [] :: argv) :: [].
Proof.
  destruct (requests_balanced accept no_text (Ok tt) zero_id sample_history sample_sent sample_run)
    as (_ & Hanswer & _).
  exact (Hanswer 0 2 _ sample_reply eq_refl eq_refl I).
Defined.
