(* ===== verification/StrSplit.v ===== *)
(** * Splitting strings

    Languages/cpp/15_zookeeper_multi_thread_demo/str_utils.h: [StrUtils::Split] with
    its two search loops.  The parts, joined by the delimiter, are the string again,
    and none of them contains the delimiter. *)

From S2P Require Import Prelude.
From Stdlib Require Import ZArith Lia.

(** ** [basic_string::find] *)

Fixpoint is_prefix (d l : list Z) : bool :=
  match d, l with
  | [], _ => true
  | x :: d, y :: l => (x =? y)%Z && is_prefix d l
  | _ :: _, [] => false
  end.

(** First position of the string [d], or of the character [c], in [l]. *)
Fixpoint find_sub (d l : list Z) : option nat :=
  if is_prefix d l then Some 0
  else match l with [] => None | _ :: l => S <$> find_sub d l end.

Fixpoint find_char (c : Z) (l : list Z) : option nat :=
  match l with
  | [] => None
  | x :: l => if (x =? c)%Z then Some 0 else S <$> find_char c l
  end.

Definition find_from (f : list Z → option nat) (s : list Z) (start : nat) : option nat :=
  if (start <=? length s)%nat then (λ p, start + p) <$> f (drop start s) else None.

(** ** [Split] *)

(** [slist.insert(slist.end(), part)] under its condition. *)
Definition push_part (keepEmptyParts : bool) (part : list Z) (slist : list (list Z)) : list (list Z) :=
  if (0 <? length part)%nat || keepEmptyParts then slist ++ [part] else slist.

(** The two loops differ in the search only; the result is the list and [start]. *)
Fixpoint split_loop (fuel : nat) (find : nat → option nat) (s : list Z) (dlen : nat) (keepEmptyParts : bool)
    (start : nat) (slist : list (list Z)) : result (list (list Z) * nat) :=
  match fuel with
  | O => Err OutOfFuel
  | S fuel =>
      match find start with
      | Some pos =>
          let part := slice start (pos - start) s in
          split_loop fuel find s dlen keepEmptyParts (pos + dlen) (push_part keepEmptyParts part slist)
      | None => Ok (slist, start)
      end
  end.

Definition Split (s delimiter : list Z) (keepEmptyParts : bool) : result (list (list Z)) :=
  match delimiter with
  | [] => Ok (if (0 <? length s)%nat || keepEmptyParts then [s] else [])
  | ch :: rest =>
      let f := match rest with [] => find_char ch | _ => find_sub delimiter end in
      '(slist, start) ← split_loop (S (length s)) (find_from f s) s (length delimiter) keepEmptyParts 0 [];
      Ok (if negb (start =? length s)%nat || keepEmptyParts then slist ++ [drop start s] else slist)
  end.

(** ** Correctness *)

Lemma find_char_sub c l : find_char c l = find_sub [c] l.
Proof.
  induction l as [|x l IH]; [done|]. simpl. rewrite IH, andb_true_r, Z.eqb_sym. done.
Qed.

Lemma is_prefix_spec d l : is_prefix d l = true ↔ ∃ r, l = d ++ r.
Proof.
  revert l. induction d as [|x d IH]; intros l; simpl; [by split; [exists l|]|].
  destruct l as [|y l]; [split; [done|by intros [? ?]]|]. rewrite andb_true_iff, IH, Z.eqb_eq. split.
  - intros [-> [r ->]]. by exists r.
  - intros [r ?]. simplify_eq. split; [done|by exists r].
Qed.

(** [d] does not occur in [l]. *)
Definition lacks (d l : list Z) : Prop := ∀ a b, l ≠ a ++ d ++ b.

Lemma find_sub_None d l : d ≠ [] → find_sub d l = None → lacks d l.
Proof.
  intros Hd. induction l as [|x l IH]; simpl; intros Hf a b E.
  - destruct a, d; done.
  - destruct (is_prefix d (x :: l)) eqn:Ep; [done|]. destruct (find_sub d l) eqn:Es; [done|].
    destruct a as [|y a]; simpl in E.
    + assert (is_prefix d (x :: l) = true) by (apply is_prefix_spec; by exists b). congruence.
    + injection E as _ E. by apply (IH eq_refl a b).
Qed.

Lemma find_sub_Some d l p :
  d ≠ [] → find_sub d l = Some p →
  p + length d ≤ length l ∧ l = take p l ++ d ++ drop (p + length d) l ∧ lacks d (take p l).
Proof.
  intros Hd. revert p. induction l as [|x l IH]; intros p; simpl.
  - destruct d; [done|]. simpl. done.
  - destruct (is_prefix d (x :: l)) eqn:Ep; simpl; intros Hf.
    + simplify_eq. apply is_prefix_spec in Ep as [r E]. change (S (length l)) with (length (x :: l)).
      rewrite E, length_app. cbn [Nat.add take app]. rewrite drop_app_length, take_0.
      split_and!; [lia|done|]. intros a b E'. destruct a, d; done.
    + destruct (find_sub d l) as [q|] eqn:Es; [|done]. injection Hf as <-.
      destruct (IH q eq_refl) as (Hl & E & Hn). cbn [Nat.add take drop app length].
      split_and!; [lia|by rewrite <-E|]. intros a b E'. destruct a as [|y a]; simpl in E'.
      * assert (is_prefix d (x :: l) = true); [|congruence]. apply is_prefix_spec.
        exists (b ++ drop q l). rewrite app_assoc, <-E'. simpl. by rewrite take_drop.
      * injection E' as _ E'. by apply (Hn a b).
Qed.

Fixpoint join (d : list Z) (l : list (list Z)) : list Z :=
  match l with
  | [] => []
  | [x] => x
  | x :: l => x ++ d ++ join d l
  end.

Definition nonempty (part : list Z) : Prop := part ≠ [].
#[global] Instance nonempty_dec part : Decision (nonempty part).
Proof. unfold nonempty. solve_decision. Defined.

(** The parts that are kept. *)
Definition kept (keep : bool) (parts : list (list Z)) : list (list Z) :=
  if keep then parts else filter nonempty parts.

Lemma push_part_kept keep part slist : push_part keep part slist = slist ++ kept keep [part].
Proof.
  unfold push_part, kept. destruct keep; rewrite ?orb_true_r, ?orb_false_r; [done|].
  destruct part as [|x part]; simpl; [by rewrite app_nil_r|done].
Qed.

Lemma kept_cons keep part parts : kept keep (part :: parts) = kept keep [part] ++ kept keep parts.
Proof. unfold kept. destruct keep; [done|]. by rewrite <-filter_app. Qed.

(** What the loop returns from [start]: the parts before the last delimiter. *)
Lemma split_loop_ok d s keep : d ≠ [] → ∀ fuel start slist,
  start ≤ length s → length s - start < fuel →
  ∃ parts start', split_loop fuel (find_from (find_sub d) s) s (length d) keep start slist
      = Ok (slist ++ kept keep parts, start') ∧
    start' ≤ length s ∧ Forall (lacks d) parts ∧ lacks d (drop start' s) ∧
    drop start s = join d (parts ++ [drop start' s]).
Proof.
  intros Hd. induction fuel as [|fuel IH]; intros start slist Hs Hf; [lia|]. cbn [split_loop].
  unfold find_from. rewrite (proj2 (Nat.leb_le _ _)) by done.
  destruct (find_sub d (drop start s)) as [p|] eqn:E; cbn [fmap option_fmap option_map].
  - destruct (find_sub_Some _ _ _ Hd E) as (Hp & Heq & Hn). rewrite length_drop in Hp.
    assert (length d ≠ 0) by (destruct d; simpl; [done|lia]).
    fold (find_from (find_sub d) s). replace (start + p - start) with p by lia.
    destruct (IH (start + p + length d) (push_part keep (slice start p s) slist)) as (parts & start' & El & H1 & H2 & H3 & H4);
      [lia|lia|].
    exists (slice start p s :: parts), start'. split_and!; [|done| |done|].
    + rewrite El, push_part_kept, (kept_cons keep _ parts). by rewrite app_assoc.
    + by constructor.
    + transitivity (take p (drop start s) ++ d ++ drop (p + length d) (drop start s)); [exact Heq|].
      rewrite drop_drop. replace (start + (p + length d)) with (start + p + length d) by lia.
      rewrite H4. by destruct parts.
  - exists [], start. split_and!; [|lia|constructor|by apply find_sub_None|done].
    unfold kept. destruct keep; simpl; by rewrite app_nil_r.
Qed.

Lemma find_from_ext f g s start : (∀ l, f l = g l) → find_from f s start = find_from g s start.
Proof. intros H. unfold find_from. by rewrite H. Qed.

Lemma split_loop_ext fuel f g s n keep : (∀ i, f i = g i) → ∀ start slist,
  split_loop fuel f s n keep start slist = split_loop fuel g s n keep start slist.
Proof.
  intros H. induction fuel as [|fuel IH]; intros start slist; [done|]. cbn [split_loop].
  rewrite H. case_match; [apply IH|done].
Qed.

Lemma split_ok s d keep :
  d ≠ [] →
  ∃ parts, join d parts = s ∧ Forall (lacks d) parts ∧ Split s d keep = Ok (kept keep parts).
Proof.
  intros Hd. destruct (split_loop_ok d s keep Hd (S (length s)) 0 []) as (parts & start & E & H1 & H2 & H3 & H4);
    [lia|lia|].
  exists (parts ++ [drop start s]). split_and!; [by rewrite <-H4|by apply Forall_app; split; [|constructor]|].
  unfold Split. destruct d as [|c r]; [done|].
  rewrite (split_loop_ext _ _ (find_from (find_sub (c :: r)) s)).
  2:{ intros i. apply find_from_ext. intros l. destruct r; [apply find_char_sub|done]. }
  rewrite E. cbn [mbind result_bind app]. f_equal. unfold kept. destruct keep; rewrite ?orb_true_r, ?orb_false_r; [done|].
  rewrite filter_app. destruct (Nat.eqb_spec start (length s)) as [->|Hne]; cbn [negb].
  - rewrite drop_all, filter_cons_False by (by intros ?). by rewrite app_nil_r.
  - rewrite filter_cons_True; [done|]. intros Hn. apply (f_equal length) in Hn. rewrite length_drop in Hn. simpl in Hn. lia.
Qed.

(** [Split] with a delimiter cuts the string at every delimiter: the parts joined
    by it are the string again, no part contains it, and without [keepEmptyParts]
    exactly the empty parts are left out. *)
Lemma split_joins s d keep :
  d ≠ [] →
  ∃ parts, join d parts = s ∧ Forall (lacks d) parts ∧
    Split s d keep = Ok (if keep then parts else filter nonempty parts).
Proof. intros Hd. exact (split_ok s d keep Hd). Qed.

Example split_joins_witness :
  ∃ parts, join (ascii_bytes "/") parts = ascii_bytes "/xunce//adc/" ∧ Forall (lacks (ascii_bytes "/")) parts ∧
    Split (ascii_bytes "/xunce//adc/") (ascii_bytes "/") false = Ok (filter nonempty parts).
Proof. apply (split_joins _ _ false). discriminate. Defined.
