(* ===== verification/Cluster.v ===== *)
(** * The cluster manager

    Languages/cpp/15_zookeeper_multi_thread_demo/cluster_manager.cpp: a process
    registers itself under a path in ZooKeeper and is told, when the children of the
    path change, whether it is the master.  The ZooKeeper client is the class
    [ZkService]: its calls transform a state of the service that the model does not
    look into.  Methods of the manager that hold the same mutex are atomic steps. *)

From S2P Require Import Prelude StrSplit.
From Stdlib Require Import ZArith Lia.

(** ** The ZooKeeper client *)

Abbreviation ZOK := 0%Z.
Abbreviation ZNONODE := (-101)%Z.

(** [zoo_exists], [zoo_create] (the flag says ephemeral) and [zoo_get_children]. *)
Class ZkService (S : Type) := {
  zoo_exists : list Z → S → Z * S;
  zoo_create : list Z → list Z → bool → S → Z * S;
  zoo_get_children : list Z → S → Z * list (list Z) * S;
}.

(** ** The manager *)

(** [EN_State] and [EN_NodeMode] *)
Inductive EN_State := UnKnown | Initialized | Started | Running | Stopped.
Inductive EN_NodeMode := Leader | Follower | Other.

#[global] Instance EN_State_eq_dec : EqDecision EN_State.
Proof. solve_decision. Defined.
#[global] Instance EN_NodeMode_eq_dec : EqDecision EN_NodeMode.
Proof. solve_decision. Defined.

(** The fields of [CClusterManager]; the sessions that are open in the client are
    [sessions].  An event handler is a number. *)
Record manager := MkManager {
  m_runState : EN_State;
  m_nodeMode : EN_NodeMode;
  m_zkhandlePtr : option nat;
  m_hosts : list Z;
  m_tag : list Z;
  m_path : list Z;
  m_node : list Z;
  m_timeout : Z;
  m_eventHandlers : list nat;
  sessions : gset nat;
}.

Definition CClusterManager : manager :=
  MkManager UnKnown Other None [] (ascii_bytes "xunce tech adc") [] [] 10 [] ∅.

Definition set_runState (x : EN_State) (m : manager) : manager :=
  MkManager x (m_nodeMode m) (m_zkhandlePtr m) (m_hosts m) (m_tag m) (m_path m) (m_node m) (m_timeout m)
    (m_eventHandlers m) (sessions m).
Definition set_nodeMode (x : EN_NodeMode) (m : manager) : manager :=
  MkManager (m_runState m) x (m_zkhandlePtr m) (m_hosts m) (m_tag m) (m_path m) (m_node m) (m_timeout m)
    (m_eventHandlers m) (sessions m).
Definition set_handlers (x : list nat) (m : manager) : manager :=
  MkManager (m_runState m) (m_nodeMode m) (m_zkhandlePtr m) (m_hosts m) (m_tag m) (m_path m) (m_node m)
    (m_timeout m) x (sessions m).

(** [m_zkhandlePtr.reset()]: the deleter closes the session. *)
Definition reset (m : manager) : manager :=
  MkManager (m_runState m) (m_nodeMode m) None (m_hosts m) (m_tag m) (m_path m) (m_node m) (m_timeout m)
    (m_eventHandlers m) match m_zkhandlePtr m with Some h => sessions m ∖ {[h]} | None => sessions m end.

(** [zk_handle] is the result of [zookeeper_init]. *)
Definition Initialize (hosts path node : list Z) (timeout : Z) (zk_handle : option nat) (m : manager) : Z * manager :=
  if decide (m_runState m = Initialized ∨ m_runState m = Running ∨ m_runState m = Started) then (0%Z, m) else
  if (length hosts =? 0)%nat || (length path =? 0)%nat then ((-1)%Z, m) else
  match zk_handle with
  | None => ((-2)%Z, m)
  | Some h =>
      let m := MkManager (m_runState m) (m_nodeMode m) (m_zkhandlePtr m) hosts (m_tag m) path node timeout
                 (m_eventHandlers m) ({[h]} ∪ sessions m) in
      let m := reset m in
      (0%Z, MkManager Initialized (m_nodeMode m) (Some h) (m_hosts m) (m_tag m) (m_path m) (m_node m)
              (m_timeout m) (m_eventHandlers m) (sessions m))
  end.

Section service.
Context {S : Type} `{!ZkService S}.

Abbreviation slash := [47%Z].

(** The loop of [createNode] over the parts of the path. *)
Fixpoint create_parents (tag : list Z) (res : Z) (nodes : list (list Z)) (zkPath : list Z) (sv : S) : Z * S :=
  match nodes with
  | [] => (res, sv)
  | n :: nodes =>
      let zkPath := zkPath ++ slash ++ n in
      let '(res, sv) := zoo_exists zkPath sv in
      if (res =? ZNONODE)%Z then
        let '(res, sv) := zoo_create zkPath tag false sv in
        if (res =? ZOK)%Z then create_parents tag res nodes zkPath sv else ((-2)%Z, sv)
      else create_parents tag res nodes zkPath sv
  end.

Definition createNode (path node : list Z) (m : manager) (sv : S) : result (Z * S) :=
  if bool_decide (is_Some (m_zkhandlePtr m)) && (0 <? length path)%nat && (0 <? length node)%nat then
    let '(res, sv) := zoo_exists path sv in
    '(res, sv) ← (if (res =? ZNONODE)%Z
                  then nodes ← Split path slash false; Ok (create_parents (m_tag m) res nodes [] sv)
                  else Ok (res, sv));
    let '(rc, _, sv) := zoo_get_children (m_path m) sv in
    let res := Z.lor res rc in
    let zkPath := path ++ slash ++ node in
    let '(res, sv) := zoo_exists zkPath sv in
    if (res =? ZNONODE)%Z then Ok (zoo_create zkPath (m_tag m) true sv) else Ok (res, sv)
  else Ok ((-1)%Z, sv).

Definition Start (m : manager) (sv : S) : result (Z * manager * S) :=
  if decide (m_runState m = Initialized) then
    '(res, sv) ← createNode (m_path m) (m_node m) m sv;
    Ok (res, (if (res =? ZOK)%Z then set_runState Running (set_runState Started m) else m), sv)
  else Ok ((-1)%Z, m, sv).

Definition Register (eventHandlerPtr : nat) (m : manager) : Z * manager :=
  (0%Z, set_handlers (m_eventHandlers m ++ [eventHandlerPtr]) m).

Definition clearEventHandlers (m : manager) : manager := set_handlers [] m.
Definition Stop (m : manager) : Z * manager := (0%Z, set_runState Stopped (reset (clearEventHandlers m))).
Definition DeInitialize (m : manager) : Z * manager := (0%Z, set_runState UnKnown (reset (clearEventHandlers m))).
Definition getMode (m : manager) : EN_NodeMode := m_nodeMode m.

(** The loop of [triggerMasterEvent]: [throws h k] says whether handler [h] throws when
    it is called as the [k]-th call; the result lists the handlers whose call returned, and
    says whether the loop has ended after at most [fuel] rounds. *)
Fixpoint triggerMasterEvent (fuel : nat) (throws : nat → nat → bool) (k : nat) (citer : list nat)
    (told : list nat) : list nat * bool :=
  match citer with
  | [] => (told, true)
  | h :: rest =>
      match fuel with
      | O => (told, false)
      | Datatypes.S fuel =>
          if throws h k then triggerMasterEvent fuel throws (Datatypes.S k) citer told
          else triggerMasterEvent fuel throws (Datatypes.S k) rest (told ++ [h])
      end
  end.

(** [onZOO_CHILD_EVENT]: the new mode, and the event for the handlers if there is one. *)
Definition onZOO_CHILD_EVENT (path : list Z) (m : manager) (sv : S) : manager * option bool * S :=
  let '(res, children, sv) := zoo_get_children path sv in
  if (res =? ZOK)%Z then
    match children with
    | first :: _ =>
        let isMaster := bool_decide (m_node m = first) in
        (set_nodeMode (if isMaster then Leader else Follower) m, Some isMaster, sv)
    | [] => (m, None, sv)
    end
  else (m, None, sv).

(** One turn of the reconnection loop: the result of [zookeeper_init], and the mode
    that another thread stores meanwhile. *)
Record attempt := MkAttempt { at_handle : option nat; at_mode : option EN_NodeMode }.

(** The [do ... while] loop: the last component is false while it is still looping. *)
Fixpoint reconnect (atts : list attempt) (m : manager) (sv : S) : result (manager * S * bool) :=
  match atts with
  | [] => Ok (m, sv, false)
  | a :: atts =>
      if decide (m_nodeMode m ≠ Other) then Ok (m, sv, true) else
      let m := set_runState UnKnown m in
      let '(_, m) := Initialize (m_hosts m) (m_path m) (m_node m) (m_timeout m) (at_handle a) m in
      '(_, m, sv) ← Start m sv;
      let m := match at_mode a with Some x => set_nodeMode x m | None => m end in
      if decide (m_runState m = Running) then reconnect atts m sv else Ok (m, sv, true)
  end.

Inductive session_state := EXPIRED_SESSION_STATE | AUTH_FAILED_STATE | STATE_999 | OTHER_STATE.

Definition onZOO_SESSION_EVENT (state : session_state) (atts : list attempt) (m : manager) (sv : S)
    : result (manager * S * bool) :=
  let m := match state with OTHER_STATE => m | _ => set_nodeMode Other m end in
  match state with
  | EXPIRED_SESSION_STATE => reconnect atts m sv
  | _ => Ok (m, sv, true)
  end.

(** [watcher] *)
Inductive watch_event :=
  | SessionEvent (state : session_state) (atts : list attempt)
  | ChildEvent (path : list Z)
  | OtherEvent.

Definition watcher (e : watch_event) (m : manager) (sv : S) : result (manager * S * option bool) :=
  match e with
  | SessionEvent state atts => '(m, sv, _) ← onZOO_SESSION_EVENT state atts m sv; Ok (m, sv, None)
  | ChildEvent path => let '(m, told, sv) := onZOO_CHILD_EVENT path m sv in Ok (m, sv, told)
  | OtherEvent => Ok (m, sv, None)
  end.
End service.
