(* ===== verification/ClusterSpec.v ===== *)
(** * The cluster manager: registration, sessions and elections

    Theorems about Cluster.v against the interface [Healthy], which states what the
    ZooKeeper service documents about its calls; [tree_service] is an instance. *)

From S2P Require Import Prelude StrSplit Cluster.
From Stdlib Require Import ZArith Lia.

Abbreviation slash := [47%Z].

(** ** Paths *)

(** "/a/b" from its parts, and the paths "/a", "/a/b", ... below [q]. *)
Definition path_of (parts : list (list Z)) : list Z := concat ((λ n, slash ++ n) <$> parts).

Fixpoint prefixes (q : list Z) (parts : list (list Z)) : list (list Z) :=
  match parts with
  | [] => []
  | n :: parts => (q ++ slash ++ n) :: prefixes (q ++ slash ++ n) parts
  end.

Definition is_part (n : list Z) : Prop := n ≠ [] ∧ 47%Z ∉ n.

Lemma lacks_char c l : lacks [c] l ↔ c ∉ l.
Proof.
  split.
  - intros Hl Hin. apply list_elem_of_split in Hin as (a & b & ->). by apply (Hl a b).
  - intros Hn a b ->. apply Hn. set_solver.
Qed.

Lemma cut_unique (c : Z) (x y r r' : list Z) :
  c ∉ x → c ∉ y → x ++ c :: r = y ++ c :: r' → x = y ∧ r = r'.
Proof.
  revert y. induction x as [|a x IH]; intros [|b y] Hx Hy E; simpl in E; simplify_eq; [done|set_solver|set_solver|].
  destruct (IH y) as [-> ->]; [set_solver|set_solver|done|done].
Qed.

Lemma join_unique c P : ∀ Q,
  Forall (λ p, c ∉ p) P → Forall (λ p, c ∉ p) Q → P ≠ [] → Q ≠ [] → join [c] P = join [c] Q → P = Q.
Proof.
  induction P as [|x P IH]; intros [|y Q] HP HQ Hp Hq E; try done.
  apply Forall_cons_1 in HP as [Hx HP]. apply Forall_cons_1 in HQ as [Hy HQ].
  destruct P as [|x' P], Q as [|y' Q].
  - simpl in E. by subst.
  - simpl in E. subst. set_solver.
  - simpl in E. subst. set_solver.
  - change (x ++ c :: join [c] (x' :: P) = y ++ c :: join [c] (y' :: Q)) in E.
    destruct (cut_unique c x y _ _ Hx Hy E) as [-> E']. f_equal. by apply IH.
Qed.

Lemma path_of_join parts : parts ≠ [] → path_of parts = join slash ([] :: parts).
Proof.
  intros Hne. destruct parts as [|n parts]; [done|]. clear Hne. unfold path_of. revert n.
  induction parts as [|n' parts IH]; intros n; simpl; [by rewrite app_nil_r|].
  do 2 f_equal. specialize (IH n'). simpl in IH. injection IH as ->. done.
Qed.

Lemma filter_parts parts : Forall is_part parts → filter nonempty parts = parts.
Proof.
  induction 1 as [|n parts [Hn _] _ IH]; [done|]. by rewrite filter_cons_True, IH.
Qed.

Lemma split_path parts :
  parts ≠ [] → Forall is_part parts → Split (path_of parts) slash false = Ok parts.
Proof.
  intros Hne Hp. destruct (split_ok (path_of parts) slash false) as (P & HP & HlP & ->); [done|].
  f_equal. rewrite path_of_join in HP by done.
  assert (P = [] :: parts) as ->.
  { apply (join_unique 47%Z); [| | |done|done].
    - eapply Forall_impl; [exact HlP|]. intros p. apply lacks_char.
    - constructor; [set_solver|]. eapply Forall_impl; [exact Hp|]. by intros p [_ ?].
    - intros ->. destruct parts; done. }
  unfold kept. rewrite filter_cons_False by (by intros ?). by apply filter_parts.
Qed.

Lemma path_in_prefixes q parts : parts ≠ [] → q ++ path_of parts ∈ prefixes q parts.
Proof.
  revert q. induction parts as [|n parts IH]; intros q Hne; [done|].
  destruct parts as [|n' parts].
  - unfold path_of. simpl. rewrite app_nil_r. set_solver.
  - apply list_elem_of_further. replace (q ++ path_of (n :: n' :: parts))
      with ((q ++ slash ++ n) ++ path_of (n' :: parts)); [by apply IH|].
    unfold path_of. simpl. by rewrite <-!app_assoc.
Qed.

(** ** A working service *)

Abbreviation ZNODEEXISTS := (-110)%Z.
Abbreviation ZNOCHILDRENFOREPHEMERALS := (-108)%Z.

(** "/a/b", and the empty path, of which "/a" is a child. *)
Definition valid_path (q : list Z) : Prop := ∃ parts, q = path_of parts ∧ Forall is_part parts.

(** What the client documents of a service that is connected: its nodes, each persistent
    ([false]) or ephemeral ([true]).  [zoo_create] puts a node under an existing parent
    that is not ephemeral, and fails otherwise. *)
Class Healthy (S : Type) `{!ZkService S} := {
  tree : S → gmap (list Z) bool;
  exists_spec q n sv :
    valid_path q → is_part n →
    zoo_exists (q ++ slash ++ n) sv = (if decide (is_Some (tree sv !! (q ++ slash ++ n))) then ZOK else ZNONODE, sv);
  create_spec q n data e sv :
    valid_path q → is_part n → tree sv !! (q ++ slash ++ n) = None → q = [] ∨ tree sv !! q = Some false →
    ∃ sv', zoo_create (q ++ slash ++ n) data e sv = (ZOK, sv') ∧ tree sv' = <[q ++ slash ++ n := e]> (tree sv);
  create_orphan q n data e sv :
    valid_path q → is_part n → q ≠ [] → tree sv !! q = None →
    zoo_create (q ++ slash ++ n) data e sv = (ZNONODE, sv);
  create_under_ephemeral q n data e sv :
    valid_path q → is_part n → q ≠ [] → tree sv !! q = Some true →
    zoo_create (q ++ slash ++ n) data e sv = (ZNOCHILDRENFOREPHEMERALS, sv);
  children_spec p sv : ∃ rc l sv', zoo_get_children p sv = (rc, l, sv') ∧ tree sv' = tree sv;
}.


(** A service whose state is its tree. *)
Fixpoint after_slash (l : list Z) : list Z :=
  match l with [] => [] | c :: l => if (c =? 47)%Z then l else after_slash l end.
Definition parent_of (p : list Z) : list Z := reverse (after_slash (reverse p)).

Definition name_of (p : list Z) : list Z := drop (S (length (parent_of p))) p.

Lemma after_slash_app n q : 47%Z ∉ n → after_slash (n ++ 47%Z :: q) = q.
Proof.
  induction n as [|c n IH]; intros Hn; [done|]. rewrite not_elem_of_cons in Hn. destruct Hn as [Hc Hn].
  cbn [app after_slash]. rewrite (proj2 (Z.eqb_neq _ _)) by congruence. by apply IH.
Qed.

Lemma parent_of_child q n : is_part n → parent_of (q ++ slash ++ n) = q.
Proof.
  intros [_ Hn]. unfold parent_of. rewrite !reverse_app, <-app_assoc. simpl.
  rewrite after_slash_app by (by rewrite elem_of_reverse). apply reverse_involutive.
Qed.

#[global] Instance tree_zk : ZkService (gmap (list Z) bool) := {|
  zoo_exists p t := (if decide (is_Some (t !! p)) then ZOK else ZNONODE, t);
  zoo_create p _ e t :=
    let q := parent_of p in
    match (if decide (q = []) then Some false else t !! q), t !! p with
    | None, _ => (ZNONODE, t)
    | Some true, _ => (ZNOCHILDRENFOREPHEMERALS, t)
    | Some false, Some _ => (ZNODEEXISTS, t)
    | Some false, None => (ZOK, <[p := e]> t)
    end;
  zoo_get_children p t :=
    (if decide (is_Some (t !! p)) then ZOK else ZNONODE, name_of <$> filter (λ x, parent_of x = p) (map_to_list t).*1, t);
|}.

#[global] Program Instance tree_service : Healthy (gmap (list Z) bool) := {| tree t := t |}.
Next Obligation. done. Qed.
Next Obligation.
  intros q n data e t Hq Hn Hnone Hp. cbn [zoo_create tree_zk]. rewrite parent_of_child, Hnone by done.
  destruct Hp as [-> | ->]; [rewrite decide_True by done|case_decide]; by eexists.
Qed.
Next Obligation. intros q n data e t Hq Hn Hne Hnone. cbn [zoo_create tree_zk]. by rewrite parent_of_child, decide_False, Hnone. Qed.
Next Obligation. intros q n data e t Hq Hn Hne Hnone. cbn [zoo_create tree_zk]. by rewrite parent_of_child, decide_False, Hnone. Qed.
Next Obligation. intros. by do 3 eexists. Qed.

(** ** Registration *)

Lemma path_of_snoc parts n : path_of (parts ++ [n]) = path_of parts ++ slash ++ n.
Proof. unfold path_of. by rewrite fmap_app, concat_app, fmap_cons, concat_cons, app_nil_r. Qed.

Lemma valid_root : valid_path [].
Proof. by exists []. Qed.

Lemma valid_child q n : valid_path q → is_part n → valid_path (q ++ slash ++ n).
Proof.
  intros (parts & -> & Hp) Hn. exists (parts ++ [n]). rewrite path_of_snoc. split; [done|].
  apply Forall_app. split; [done|by constructor].
Qed.


Lemma prefixes_length q parts p : p ∈ prefixes q parts → length q < length p ≤ length (q ++ path_of parts).
Proof.
  revert q. induction parts as [|n parts IH]; intros q; [by intros ?%elem_of_nil|]. cbn [prefixes].
  replace (q ++ path_of (n :: parts)) with ((q ++ slash ++ n) ++ path_of parts) by (unfold path_of; simpl; by rewrite <-!app_assoc).
  intros [->|Hp]%elem_of_cons.
  - rewrite !length_app. simpl. lia.
  - apply IH in Hp. rewrite !length_app in *. simpl in *. lia.
Qed.




(** [t] with the nodes [ps] added as persistent ones where they are missing. *)
Definition with_parents (ps : list (list Z)) (t : gmap (list Z) bool) (p : list Z) : option bool :=
  match t !! p with Some e => Some e | None => if decide (p ∈ ps) then Some false else None end.

Section registration.
Context {S : Type} `{!ZkService S, !Healthy S}.

Lemma create_parents_ok tag parts : ∀ res q sv,
  valid_path q → Forall is_part parts → q = [] ∨ tree sv !! q = Some false →
  (∀ p, p ∈ prefixes q parts → tree sv !! p ≠ Some true) →
  ∃ res' sv', create_parents tag res parts q sv = (res', sv') ∧
    ∀ p, tree sv' !! p = with_parents (prefixes q parts) (tree sv) p.
Proof.
  unfold with_parents. induction parts as [|n parts IH]; intros res q sv Hv Hparts Hq He; cbn [create_parents prefixes].
  { exists res, sv. split; [done|]. intros p. by destruct (tree sv !! p). }
  apply Forall_cons in Hparts as [Hn Hparts]. rewrite exists_spec by done.
  pose proof (He (q ++ slash ++ n) ltac:(left)) as Hhead.
  destruct (tree sv !! (q ++ slash ++ n)) as [e|] eqn:E.
  - rewrite decide_True by (by eexists). change (ZOK =? ZNONODE)%Z with false. cbn iota.
    destruct (IH 0%Z (q ++ slash ++ n) sv) as (res' & sv' & -> & Et);
      [by apply valid_child|done|right; rewrite E; by destruct e|intros p Hp; apply He; by right|].
    exists res', sv'. split; [done|]. intros p. rewrite Et. destruct (tree sv !! p) eqn:Ep; [done|].
    assert (p ≠ q ++ slash ++ n) by congruence. do 2 case_decide; set_solver.
  - rewrite decide_False by (by intros []). rewrite Z.eqb_refl.
    destruct (create_spec q n tag false sv Hv Hn E Hq) as (sv1 & -> & E1). rewrite Z.eqb_refl.
    destruct (IH 0%Z (q ++ slash ++ n) sv1) as (res' & sv' & -> & Et); [by apply valid_child|done|..].
    + right. by rewrite E1, lookup_insert_eq.
    + intros p Hp. rewrite E1. destruct (decide (p = q ++ slash ++ n)) as [->|Hne]; [by rewrite lookup_insert_eq|].
      rewrite lookup_insert_ne by done. apply He. by right.
    + exists res', sv'. split; [done|]. intros p. rewrite Et, E1. destruct (decide (p = q ++ slash ++ n)) as [->|Hne].
      * rewrite lookup_insert_eq, E, decide_True by set_solver. done.
      * rewrite lookup_insert_ne by done. destruct (tree sv !! p); [done|]. do 2 case_decide; set_solver.
Qed.


(** The node of the process. *)
Definition own_path (parts : list (list Z)) (node : list Z) : list Z := path_of parts ++ slash ++ node.

(** What [createNode] needs to find. *)
Record open_path (parts : list (list Z)) (sv : S) : Prop := {
  op_persistent : ∀ p, p ∈ prefixes [] parts → tree sv !! p ≠ Some true;
  op_parents : is_Some (tree sv !! path_of parts) → ∀ p, p ∈ prefixes [] parts → is_Some (tree sv !! p);
}.

(** The tree with the path and the ephemeral node of the process. *)
Definition registered (parts : list (list Z)) (node : list Z) (t : gmap (list Z) bool) (p : list Z) : option bool :=
  match t !! p with
  | Some e => Some e
  | None => if decide (p = own_path parts node) then Some true else if decide (p ∈ prefixes [] parts) then Some false else None
  end.

Lemma own_not_prefix parts node : own_path parts node ∉ prefixes [] parts.
Proof. intros Hin%prefixes_length. unfold own_path in Hin. rewrite !length_app in Hin. simpl in Hin. lia. Qed.

Lemma path_exists_spec parts sv :
  parts ≠ [] → Forall is_part parts →
  zoo_exists (path_of parts) sv = (if decide (is_Some (tree sv !! path_of parts)) then ZOK else ZNONODE, sv).
Proof.
  intros Hne Hp. destruct (exists_last Hne) as (qs & n & ->). rewrite path_of_snoc.
  apply Forall_app in Hp as [Hqs Hn]. apply Forall_cons in Hn as [Hn _]. apply exists_spec; [by exists qs|done].
Qed.

(** [createNode] up to the creation of the node itself. *)
Lemma createNode_parents parts node m sv sv1 res :
  parts ≠ [] → Forall is_part parts → is_part node → is_Some (m_zkhandlePtr m) →
  (if decide (is_Some (tree sv !! path_of parts)) then (ZOK, sv)
   else create_parents (m_tag m) ZNONODE parts [] sv) = (res, sv1) →
  ∃ sv2, tree sv2 = tree sv1 ∧
    createNode (path_of parts) node m sv =
      if decide (is_Some (tree sv1 !! own_path parts node)) then Ok (ZOK, sv2)
      else Ok (zoo_create (own_path parts node) (m_tag m) true sv2).
Proof.
  intros Hne Hp Hnode Hh E. unfold createNode. rewrite bool_decide_true by done.
  assert (Hlen : length (path_of parts) ≠ 0) by (destruct parts as [|? ?]; [done|simpl; lia]).
  assert (length node ≠ 0) by (destruct Hnode; by destruct node).
  rewrite !(proj2 (Nat.ltb_lt _ _)) by lia. cbn [andb]. rewrite path_exists_spec by done.
  destruct (children_spec (m_path m) sv1) as (rc & l & sv2 & Ec & E2). exists sv2. split; [done|].
  assert (Hx : zoo_exists (own_path parts node) sv2 = (if decide (is_Some (tree sv1 !! own_path parts node)) then ZOK else ZNONODE, sv2)).
  { unfold own_path. rewrite exists_spec, E2; [done|by exists parts|done]. }
  fold (own_path parts node). destruct (decide (is_Some (tree sv !! path_of parts))).
  - change (ZOK =? ZNONODE)%Z with false. injection E as <- <-. cbn [mbind result_bind]. rewrite Ec, Hx.
    by case_decide; [change (ZOK =? ZNONODE)%Z with false|rewrite Z.eqb_refl].
  - rewrite Z.eqb_refl, split_path by done. cbn [mbind result_bind]. rewrite E, Ec, Hx.
    by case_decide; [change (ZOK =? ZNONODE)%Z with false|rewrite Z.eqb_refl].
Qed.

Lemma createNode_ok parts node m sv :
  parts ≠ [] → Forall is_part parts → is_part node → is_Some (m_zkhandlePtr m) → open_path parts sv →
  ∃ sv', createNode (path_of parts) node m sv = Ok (ZOK, sv') ∧ ∀ p, tree sv' !! p = registered parts node (tree sv) p.
Proof.
  intros Hne Hp Hnode Hh [Hper Hpar].
  assert (∃ res sv1, (if decide (is_Some (tree sv !! path_of parts)) then (ZOK, sv)
      else create_parents (m_tag m) ZNONODE parts [] sv) = (res, sv1) ∧
    ∀ p, tree sv1 !! p = with_parents (prefixes [] parts) (tree sv) p) as (res & sv1 & E & E1).
  { case_decide as Hs.
    - do 2 eexists. split; [done|]. intros p. unfold with_parents. destruct (tree sv !! p) eqn:Ep; [done|].
      rewrite decide_False; [done|]. intros Hin. destruct (Hpar Hs p Hin). congruence.
    - apply (create_parents_ok _ _ _ [] sv); [apply valid_root|done|by left|done]. }
  assert (Hq : tree sv1 !! path_of parts = Some false).
  { pose proof (path_in_prefixes [] parts Hne) as Hin. simpl in Hin. rewrite E1. unfold with_parents. rewrite decide_True by done.
    specialize (Hper _ Hin). by destruct (tree sv !! path_of parts) as [[]|]. }
  destruct (createNode_parents parts node m sv sv1 res Hne Hp Hnode Hh E) as (sv2 & E2 & ->).
  pose proof (own_not_prefix parts node) as Hown. unfold registered.
  destruct (tree sv1 !! own_path parts node) as [e|] eqn:Eo.
  - rewrite decide_True by (by eexists). exists sv2. split; [done|]. intros p. rewrite E2, E1. rewrite E1 in Eo. unfold with_parents in *.
    destruct (tree sv !! p) eqn:Ep; [done|]. destruct (decide (p = own_path parts node)) as [->|]; [|done].
    rewrite Ep, decide_False in Eo by done. done.
  - rewrite decide_False by (by intros []).
    destruct (create_spec (path_of parts) node (m_tag m) true sv2) as (sv3 & E4 & E3);
      [by exists parts|done|by rewrite E2|right; by rewrite E2|]. fold (own_path parts node) in E4, E3.
    exists sv3. split; [by rewrite E4|]. intros p. rewrite E3, E2. rewrite E1 in Eo. unfold with_parents in *.
    destruct (decide (p = own_path parts node)) as [->|Hpo].
    + rewrite lookup_insert_eq. by destruct (tree sv !! own_path parts node).
    + rewrite lookup_insert_ne by done. rewrite E1. done.
Qed.

End registration.

(** ** Sessions *)

(** The manager's session is the only open one, and there is one from [Initialize] on. *)
Record owns_session (m : manager) : Prop := {
  own_sessions : sessions m = match m_zkhandlePtr m with Some h => {[h]} | None => ∅ end;
  own_running : m_runState m = Initialized ∨ m_runState m = Started ∨ m_runState m = Running →
    is_Some (m_zkhandlePtr m);
}.

Lemma new_owns : owns_session CClusterManager.
Proof. split; [done|]. intros [?|[?|?]]; done. Qed.

(** [zookeeper_init] returns a handle that is not in use. *)
Definition fresh_handle (zk : option nat) (m : manager) : Prop := ∀ h, zk = Some h → m_zkhandlePtr m ≠ Some h.

Lemma reset_owns m : owns_session m → sessions (reset m) = ∅ ∧ m_zkhandlePtr (reset m) = None.
Proof. intros [Hs _]. simpl. rewrite Hs. destruct (m_zkhandlePtr m); [split; [set_solver|done]|done]. Qed.

Lemma Initialize_owns hosts path node timeout zk m :
  owns_session m → fresh_handle zk m →
  let m' := (Initialize hosts path node timeout zk m).2 in
  owns_session m' ∧ (m_zkhandlePtr m' = m_zkhandlePtr m ∨ m_zkhandlePtr m' = zk).
Proof.
  intros Ho Hf. unfold Initialize. case_decide; [by split; [|left]|].
  destruct (_ || _); [by split; [|left]|]. destruct zk as [h|]; [|by split; [|left]]. simpl.
  split; [|by right]. destruct Ho as [Hs Hr]. split; simpl; [|by eexists]. specialize (Hf h eq_refl).
  rewrite Hs. destruct (m_zkhandlePtr m) as [h'|]; [|set_solver].
  assert (h ≠ h') by congruence. apply set_eq. intros x. set_solver.
Qed.

Lemma set_runState_owns x m : owns_session m → is_Some (m_zkhandlePtr m) ∨ x = UnKnown ∨ x = Stopped →
  owns_session (set_runState x m).
Proof.
  intros [Hs Hr] Hx. split; simpl; [done|]. intros Hst. destruct Hx as [?|[->| ->]]; [done|..];
    destruct Hst as [?|[?|?]]; done.
Qed.

Lemma set_nodeMode_owns x m : owns_session m → owns_session (set_nodeMode x m).
Proof. intros [Hs Hr]. by split. Qed.

Lemma close_owns x m :
  owns_session m → x = UnKnown ∨ x = Stopped → owns_session (set_runState x (reset (clearEventHandlers m))).
Proof.
  intros [Hs Hr] Hx. split; simpl; [rewrite Hs; destruct (m_zkhandlePtr m); set_solver|].
  intros Hst. destruct Hx as [->| ->], Hst as [?|[?|?]]; done.
Qed.

Section sessions.
Context {S : Type} `{!ZkService S}.

Lemma createNode_total path node m (sv : S) : ∃ r, createNode path node m sv = Ok r.
Proof.
  unfold createNode. destruct (_ && _); [|by eexists]. destruct (zoo_exists path sv) as [res sv1].
  destruct (split_ok path slash false) as (parts & _ & _ & E); [done|].
  destruct (_ =? _)%Z; [rewrite E|]; cbn [mbind result_bind]; [destruct (create_parents _ _ _ _ _)|];
    destruct (zoo_get_children _ _) as [[? ?] ?]; destruct (zoo_exists _ _); case_match; by eexists.
Qed.

Lemma Start_owns m (sv : S) :
  owns_session m →
  ∃ res m' sv', Start m sv = Ok (res, m', sv') ∧ owns_session m' ∧ m_zkhandlePtr m' = m_zkhandlePtr m.
Proof.
  intros Ho. unfold Start. case_decide as Hi; [|by do 3 eexists].
  destruct (createNode_total (m_path m) (m_node m) m sv) as [[res sv'] ->]. cbn [mbind result_bind].
  do 3 eexists. split; [done|]. case_match; [|done]. split; [|done].
  assert (is_Some (m_zkhandlePtr m)) by (apply Ho; by left).
  apply set_runState_owns; [apply set_runState_owns; [done|by left]|by left].
Qed.

(** The handles of the reconnection attempts are new. *)
Definition fresh_attempts (atts : list attempt) (m : manager) : Prop :=
  NoDup (option_list (m_zkhandlePtr m) ++ omap at_handle atts).

Lemma fresh_attempts_cons a atts m :
  fresh_attempts (a :: atts) m →
  fresh_handle (at_handle a) m ∧
  ∀ m', m_zkhandlePtr m' = m_zkhandlePtr m ∨ m_zkhandlePtr m' = at_handle a → fresh_attempts atts m'.
Proof.
  unfold fresh_attempts, fresh_handle. intros Hnd.
  change (omap at_handle (a :: atts)) with
    (match at_handle a with Some h => h :: omap at_handle atts | None => omap at_handle atts end) in Hnd.
  split.
  - intros h Hh Hm. rewrite Hh, Hm in Hnd. simpl in Hnd. apply NoDup_cons in Hnd as [Hn _]. set_solver.
  - intros m' [-> | ->].
    + destruct (at_handle a), (m_zkhandlePtr m); simpl in *;
        rewrite ?NoDup_cons, ?not_elem_of_cons in *; naive_solver.
    + destruct (at_handle a), (m_zkhandlePtr m); simpl in *;
        rewrite ?NoDup_cons, ?not_elem_of_cons in *; naive_solver.
Qed.

Lemma reconnect_owns atts : ∀ m (sv : S),
  owns_session m → fresh_attempts atts m →
  ∃ m' sv' b, reconnect atts m sv = Ok (m', sv', b) ∧ owns_session m'.
Proof.
  induction atts as [|a atts IH]; intros m sv Ho Hf; cbn [reconnect]; [by do 3 eexists|].
  case_decide; [by do 3 eexists|].
  destruct (fresh_attempts_cons a atts m Hf) as [Hfr Hrest].
  assert (Ho1 : owns_session (set_runState UnKnown m)) by (apply set_runState_owns; [done|right; by left]).
  destruct (Initialize _ _ _ _ (at_handle a) (set_runState UnKnown m)) as [r m1] eqn:Ei.
  destruct (Initialize_owns (m_hosts m) (m_path m) (m_node m) (m_timeout m) (at_handle a) _ Ho1 Hfr) as [Ho2 Hh].
  simpl in Ei, Ho2, Hh. rewrite Ei in Ho2, Hh. simpl in Ho2, Hh.
  destruct (Start_owns m1 sv Ho2) as (res & m2 & sv2 & -> & Ho3 & Eh). cbn [mbind result_bind].
  set (m3 := match at_mode a with Some x => set_nodeMode x m2 | None => m2 end).
  assert (Ho4 : owns_session m3) by (unfold m3; case_match; [by apply set_nodeMode_owns|done]).
  assert (Eh3 : m_zkhandlePtr m3 = m_zkhandlePtr m2) by (unfold m3; by case_match).
  case_decide; [|by do 3 eexists]. apply IH; [done|]. apply Hrest. rewrite Eh3, Eh. done.
Qed.

(** Calls of the manager and events of its session. *)
Inductive mop :=
  | MInitialize (hosts path node : list Z) (timeout : Z) (zk : option nat)
  | MStart | MStop | MDeInitialize
  | MRegister (h : nat)
  | MWatch (e : watch_event).

Definition mexec (o : mop) (m : manager) (sv : S) : result (manager * S) :=
  match o with
  | MInitialize hosts path node timeout zk => Ok ((Initialize hosts path node timeout zk m).2, sv)
  | MStart => '(_, m, sv) ← Start m sv; Ok (m, sv)
  | MStop => Ok ((Stop m).2, sv)
  | MDeInitialize => Ok ((DeInitialize m).2, sv)
  | MRegister h => Ok ((Register h m).2, sv)
  | MWatch e => '(m, sv, _) ← watcher e m sv; Ok (m, sv)
  end.

Definition fresh_op (o : mop) (m : manager) : Prop :=
  match o with
  | MInitialize _ _ _ _ zk => fresh_handle zk m
  | MWatch (SessionEvent _ atts) => fresh_attempts atts m
  | _ => True
  end.

Lemma session_event_owns state atts m (sv : S) :
  owns_session m → fresh_attempts atts m →
  ∃ m' sv' b, onZOO_SESSION_EVENT state atts m sv = Ok (m', sv', b) ∧ owns_session m'.
Proof.
  intros Ho Hf. unfold onZOO_SESSION_EVENT.
  assert (owns_session (set_nodeMode Other m)) by (by apply set_nodeMode_owns).
  destruct state; [by apply reconnect_owns|by do 3 eexists..].
Qed.

Lemma mexec_owns o m (sv : S) :
  owns_session m → fresh_op o m → ∃ m' sv', mexec o m sv = Ok (m', sv') ∧ owns_session m'.
Proof.
  intros Ho Hf. destruct o as [hosts path node timeout zk| | | |h|e]; cbn [mexec fresh_op] in *.
  - do 2 eexists. split; [done|]. by apply Initialize_owns.
  - destruct (Start_owns m sv Ho) as (res & m' & sv' & -> & Ho' & _). by do 2 eexists.
  - do 2 eexists. split; [done|]. apply close_owns; [done|by right].
  - do 2 eexists. split; [done|]. apply close_owns; [done|by left].
  - do 2 eexists. split; [done|]. by destruct Ho.
  - destruct e as [state atts|path|]; cbn [watcher].
    + destruct (session_event_owns state atts m sv Ho Hf) as (m' & sv' & b & -> & Ho'). by do 2 eexists.
    + unfold onZOO_CHILD_EVENT. destruct (zoo_get_children path sv) as [[res children] sv'].
      destruct (_ =? _)%Z; [|by do 2 eexists]. destruct children; [by do 2 eexists|].
      do 2 eexists. split; [done|]. by apply set_nodeMode_owns.
    + by do 2 eexists.
Qed.

Inductive managed : manager → S → Prop :=
  | managed_new sv : managed CClusterManager sv
  | managed_step o m sv m' sv' :
      managed m sv → fresh_op o m → mexec o m sv = Ok (m', sv') → managed m' sv'.

Lemma managed_owns m sv : managed m sv → owns_session m.
Proof.
  induction 1 as [|o m sv m' sv' _ IH Hf E]; [apply new_owns|].
  destruct (mexec_owns o m sv IH Hf) as (m1 & sv1 & E' & Ho). rewrite E in E'. by simplify_eq.
Qed.
End sessions.

(** ** Notifying the handlers *)

(** Calls up to the first one that does not throw. *)
Lemma trigger_retry throws h rest told : ∀ n k,
  (∀ j, k ≤ j < k + n → throws h j = true) → throws h (k + n) = false → ∀ fuel,
  triggerMasterEvent (S n + fuel) throws k (h :: rest) told
    = triggerMasterEvent fuel throws (S (k + n)) rest (told ++ [h]).
Proof.
  induction n as [|n IH]; intros k Ht Hf fuel.
  - rewrite Nat.add_0_r in *. cbn [Nat.add triggerMasterEvent]. by rewrite Hf.
  - change (S (S n) + fuel) with (S (S n + fuel)). cbn [triggerMasterEvent].
    rewrite Ht by lia. rewrite (IH (S k)); [by rewrite Nat.add_succ_r| |].
    + intros j Hj. apply Ht. lia.
    + by rewrite Nat.add_succ_r in Hf.
Qed.

Lemma first_false (f : nat → bool) m : ∀ k,
  f (k + m) = false → ∃ n, f (k + n) = false ∧ ∀ i, k ≤ i < k + n → f i = true.
Proof.
  induction m as [|m IH]; intros k Hf; [exists 0; split; [done|lia]|].
  destruct (f k) eqn:Ek; [|exists 0; rewrite Nat.add_0_r; split; [done|lia]].
  destruct (IH (S k)) as (n & Hn & Hb); [by rewrite Nat.add_succ_r in Hf|].
  exists (S n). rewrite Nat.add_succ_r. split; [done|]. intros i Hi.
  destruct (decide (i = k)) as [->|Hne]; [done|]. apply Hb. lia.
Qed.

(** A handler that returns again and again. *)
Definition returns (throws : nat → nat → bool) (h : nat) : Prop := ∀ i, ∃ j, i ≤ j ∧ throws h j = false.

(** The handlers that return are told in order; then the loop goes on with the rest. *)
Lemma trigger_through throws hs : ∀ k told,
  Forall (returns throws) hs →
  ∃ fuel k', k ≤ k' ∧ ∀ more rest,
    triggerMasterEvent (fuel + more) throws k (hs ++ rest) told = triggerMasterEvent more throws k' rest (told ++ hs).
Proof.
  induction hs as [|h hs IH]; intros k told Hok.
  - exists 0, k. split; [done|]. intros more rest. by rewrite app_nil_r.
  - apply Forall_cons in Hok as [Hh Hok]. destruct (Hh k) as (j & Hj & Hfj).
    destruct (first_false (throws h) (j - k) k) as (n & Hn & Hbefore); [by replace (k + (j - k)) with j by lia|].
    destruct (IH (S (k + n)) (told ++ [h]) Hok) as (fuel & k' & Hk & Hfuel). exists (S n + fuel), k'. split; [lia|].
    intros more rest. rewrite <-Nat.add_assoc. cbn [app]. rewrite trigger_retry by done. by rewrite Hfuel, <-app_assoc.
Qed.

(** The loop does not get past a handler that keeps throwing. *)
Lemma trigger_stuck throws h after fuel : ∀ before k told,
  (∀ j, k ≤ j → throws h j = true) →
  ∃ told', triggerMasterEvent fuel throws k (before ++ h :: after) told = (told ++ told', false) ∧ told' `prefix_of` before.
Proof.
  induction fuel as [|fuel IH]; intros before k told Ht.
  { exists []. rewrite app_nil_r. split; [by destruct before|apply prefix_nil]. }
  assert (Ht' : ∀ j, S k ≤ j → throws h j = true) by (intros j Hj; apply Ht; lia).
  destruct before as [|g before]; cbn [app triggerMasterEvent].
  - rewrite Ht by lia. by apply (IH [] (S k)).
  - destruct (throws g k); [by apply (IH (g :: before))|].
    destruct (IH before (S k) (told ++ [g]) Ht') as (told' & -> & Hp). exists (g :: told').
    split; [by rewrite <-app_assoc|by apply prefix_cons].
Qed.

(** ** The theorems *)

Section theorems.
Context {S : Type} `{!ZkService S, !Healthy S}.


(** Through any sequence of calls, session events with reconnections and child
    events, the manager holds at most one open session, the one of its handle, it has
    one while it is initialised or running, and every call and event completes. *)
Lemma manager_one_session (m : manager) (sv : S) o :
  managed m sv → fresh_op o m →
  sessions m = match m_zkhandlePtr m with Some h => {[h]} | None => ∅ end ∧
  (m_runState m = Initialized ∨ m_runState m = Running → is_Some (m_zkhandlePtr m)) ∧
  ∃ m' sv', mexec o m sv = Ok (m', sv').
Proof.
  intros Hm Hf. pose proof (managed_owns m sv Hm) as Ho. split_and!; [apply Ho| |].
  - intros Hst. apply Ho. naive_solver.
  - destruct (mexec_owns o m sv Ho Hf) as (m' & sv' & E & _). by exists m', sv'.
Qed.

(** When the managers of a cluster see the same list of children, exactly one of
    them becomes the leader: the one whose node comes first. *)
Lemma election_unique path (sv sv' : S) first rest ms :
  zoo_get_children path sv = (ZOK, first :: rest, sv') →
  NoDup (m_node <$> ms) → first ∈ m_node <$> ms →
  length (filter (λ m, getMode m = Leader) ((λ m, (onZOO_CHILD_EVENT path m sv).1.1) <$> ms)) = 1.
Proof.
  intros Hch Hnd Hin.
  assert (Hmode : ∀ m, getMode (onZOO_CHILD_EVENT path m sv).1.1 = Leader ↔ m_node m = first).
  { intros m. unfold onZOO_CHILD_EVENT. rewrite Hch. simpl. case_bool_decide; naive_solver. }
  induction ms as [|m ms IH]; [by apply elem_of_nil in Hin|]. rewrite !fmap_cons in *.
  apply NoDup_cons in Hnd as [Hm Hnd]. rewrite filter_cons. case_decide as Hl.
  - apply Hmode in Hl. cbn [length]. f_equal. apply length_zero_iff_nil.
    destruct (filter _ _) as [|x l] eqn:E; [done|]. exfalso.
    assert (Hx : x ∈ x :: l) by set_solver. rewrite <-E in Hx. apply list_elem_of_filter in Hx as [Hx Hxl].
    apply list_elem_of_fmap in Hxl as (m' & -> & Hm'). apply Hmode in Hx.
    apply Hm. rewrite Hl, <-Hx. by apply list_elem_of_fmap_2.
  - apply IH; [done|]. rewrite elem_of_cons in Hin. destruct Hin as [->|Hin]; [|done].
    exfalso. by apply Hl, Hmode.
Qed.
End theorems.

(** C36. The handlers registered with the manager.  When each of them returns again and
    again, each is told, once and in order: a call that throws is repeated.  A handler that
    keeps throwing, wherever it stands, keeps the loop for ever: those before it are told,
    once and in order, if they return again and again, and none from it on, however many
    rounds the loop makes. *)
Theorem handlers_told_or_stuck throws hs k :
  (Forall (returns throws) hs →
   ∃ fuel, ∀ more, triggerMasterEvent (fuel + more) throws k hs [] = (hs, true)) ∧
  (∀ before h after, hs = before ++ h :: after → (∀ j, k ≤ j → throws h j = true) →
   (∀ fuel, ∃ told, triggerMasterEvent fuel throws k hs [] = (told, false) ∧ told `prefix_of` before) ∧
   (Forall (returns throws) before →
    ∃ fuel, ∀ more, triggerMasterEvent (fuel + more) throws k hs [] = (before, false))).
Proof.
  split.
  - intros Hok. destruct (trigger_through throws hs k [] Hok) as (fuel & k' & _ & E). exists fuel. intros more.
    rewrite <-(app_nil_r hs) at 1. rewrite E. by destruct more.
  - intros before h after -> Ht. split; [intros fuel; exact (trigger_stuck throws h after fuel before k [] Ht)|].
    intros Hok. destruct (trigger_through throws before k [] Hok) as (fuel & k' & Hk & E). exists fuel. intros more.
    rewrite E. destruct (trigger_stuck throws h after more [] k' before) as (told & Es & Hp); [intros j Hj; apply Ht; lia|].
    apply prefix_nil_inv in Hp as ->. by rewrite app_nil_r in Es.
Qed.

Section reconnection.
Context {S : Type} `{!ZkService S}.

(** A failed attempt ends the loop. *)
Lemma reconnect_fails a atts m (sv : S) :
  at_handle a = None →
  ∃ m', onZOO_SESSION_EVENT EXPIRED_SESSION_STATE (a :: atts) m sv = Ok (m', sv, true) ∧
    m_runState m' = UnKnown.
Proof.
  intros Ha. unfold onZOO_SESSION_EVENT. cbn [reconnect]. rewrite decide_False by (simpl; naive_solver).
  rewrite Ha. unfold Initialize. rewrite decide_False by (simpl; naive_solver).
  destruct (_ || _); unfold Start; rewrite decide_False by (simpl; naive_solver); cbn [mbind result_bind];
    rewrite decide_False by (destruct (at_mode a); simpl; naive_solver); eexists; (split; [done|]);
    by destruct (at_mode a).
Qed.

Context `{!Healthy S}.

(** A manager that [Start] can register. *)
Record registrable (parts : list (list Z)) (m : manager) (sv : S) : Prop := {
  reg_path : m_path m = path_of parts;
  reg_parts : parts ≠ [] ∧ Forall is_part parts;
  reg_node : is_part (m_node m);
  reg_hosts : m_hosts m ≠ [];
  reg_tree : open_path parts sv;
}.

(** One successful turn of the loop. *)
Lemma reconnect_turn parts m sv a h atts :
  registrable parts m sv → m_nodeMode m = Other → at_handle a = Some h → at_mode a = None →
  ∃ m' sv', reconnect (a :: atts) m sv = reconnect atts m' sv' ∧ registrable parts m' sv' ∧ m_nodeMode m' = Other.
Proof.
  intros [Hp [Hne Hparts] Hnode Hhosts Hcl] Hmode Ha Hm. cbn [reconnect].
  rewrite decide_False by (rewrite Hmode; naive_solver). rewrite Ha, Hm. unfold Initialize.
  rewrite decide_False by (simpl; naive_solver).
  assert (length (m_hosts m) ≠ 0) by (by destruct (m_hosts m)).
  assert (length (m_path m) ≠ 0) by (rewrite Hp; destruct parts; [done|simpl; lia]).
  cbn [m_hosts m_path m_node m_timeout set_runState].
  rewrite !(proj2 (Nat.eqb_neq _ _)) by done. cbn [orb]. set (m1 := MkManager Initialized _ _ _ _ _ _ _ _ _).
  unfold Start. rewrite decide_True by done. change (m_path m1) with (m_path m). rewrite Hp.
  destruct (createNode_ok parts (m_node m) m1 sv) as (sv' & E & En); [done|done|done|by eexists|done|].
  change (m_node m1) with (m_node m). rewrite E. cbn [mbind result_bind]. rewrite Z.eqb_refl, decide_True by done.
  do 2 eexists. split; [done|]. split; [split|done]; [done|done|done|done|].
  destruct Hcl as [Hper Hpar]. assert (Hin : ∀ p, p ∈ prefixes [] parts → tree sv' !! p = Some false).
  { intros p Hin. rewrite En. unfold registered. specialize (Hper p Hin). destruct (tree sv !! p) as [[]|]; [done|done|].
    rewrite decide_False by (intros ->; by apply (own_not_prefix parts (m_node m))). by rewrite decide_True. }
  split; [intros p Hp'|intros Hs p Hp']; rewrite Hin by done; [done|by eexists].
Qed.

Lemma reconnect_succeeds parts atts m sv :
  registrable parts m sv → Forall (λ a, is_Some (at_handle a) ∧ at_mode a = None) atts →
  ∃ m' sv', onZOO_SESSION_EVENT EXPIRED_SESSION_STATE atts m sv = Ok (m', sv', false).
Proof.
  intros Hreg Hatts. unfold onZOO_SESSION_EVENT.
  assert (Hreg' : registrable parts (set_nodeMode Other m) sv) by (by destruct Hreg).
  assert (Hmode : m_nodeMode (set_nodeMode Other m) = Other) by done.
  revert Hreg' Hmode. generalize (set_nodeMode Other m). clear m Hreg. revert sv.
  induction Hatts as [|a atts [[h Ha] Hm] _ IH]; intros sv m Hreg Hmode; [by do 2 eexists|].
  destruct (reconnect_turn parts m sv a h atts Hreg Hmode Ha Hm) as (m' & sv' & -> & Hreg' & Hmode').
  by apply IH.
Qed.

(** Reconnection after an expired session ends on failure and repeats on success.
    One failed attempt ends the loop, whatever attempts could follow, and leaves the
    manager in the unknown state; while every attempt succeeds and no child event sets
    the mode, the loop opens a new session on every turn and does not end. *)
Lemma reconnect_inverted parts atts m sv :
  registrable parts m sv →
  (∀ a, at_handle a = None →
   ∃ m', onZOO_SESSION_EVENT EXPIRED_SESSION_STATE (a :: atts) m sv = Ok (m', sv, true) ∧
     m_runState m' = UnKnown) ∧
  (Forall (λ a, is_Some (at_handle a) ∧ at_mode a = None) atts →
   ∃ m' sv', onZOO_SESSION_EVENT EXPIRED_SESSION_STATE atts m sv = Ok (m', sv', false)).
Proof.
  intros Hreg. split; [intros a Ha; by apply reconnect_fails|]. by apply (reconnect_succeeds parts).
Qed.
End reconnection.

(** ** Witnesses: a cluster at "/xunce/adc" *)

Definition sample_parts : list (list Z) := [ascii_bytes "xunce"; ascii_bytes "adc"].
Definition sample_manager (node : list Z) : manager :=
  (Initialize (ascii_bytes "127.0.0.1:2181") (path_of sample_parts) node 10 (Some 1) CClusterManager).2.
Definition node_a : list Z := ascii_bytes "a".
Definition node_b : list Z := ascii_bytes "b".

Lemma sample_parts_ok : Forall is_part sample_parts.
Proof.
  apply Forall_cons; split; [|apply Forall_cons; split; [|apply Forall_nil; done]];
    (split; [done|intros Hin; apply list_elem_of_In in Hin; vm_compute in Hin; intuition discriminate]).
Qed.


Lemma sample_node_ok : is_part node_a.
Proof. split; [done|]. intros Hin. apply list_elem_of_In in Hin. vm_compute in Hin. intuition discriminate. Qed.

Abbreviation no_nodes := (∅ : gmap (list Z) bool).


Lemma sample_registrable : registrable sample_parts (sample_manager node_a) no_nodes.
Proof.
  split; [done|split; [done|exact sample_parts_ok]|exact sample_node_ok|done|].
  split; cbn [tree tree_service]; [intros p _; by rewrite lookup_empty|]. intros [e H]. by rewrite lookup_empty in H.
Qed.



Example manager_one_session_witness :
  sessions CClusterManager = ∅ ∧ ∃ m' sv', mexec MStart CClusterManager no_nodes = Ok (m', sv').
Proof.
  destruct (manager_one_session CClusterManager no_nodes MStart (managed_new _) I) as (H1 & _ & H2).
  split; [exact H1|exact H2].
Defined.

Definition one_child : gmap (list Z) bool := {[ascii_bytes "/xunce" := false; ascii_bytes "/xunce/a" := true]}.

Example election_unique_witness :
  length (filter (λ m, getMode m = Leader)
    ((λ m, (onZOO_CHILD_EVENT (ascii_bytes "/xunce") m one_child).1.1) <$> [sample_manager node_b; sample_manager node_a])) = 1.
Proof.
  apply (election_unique (ascii_bytes "/xunce") one_child one_child node_a []); [vm_compute; reflexivity| |].
  - change (NoDup [node_b; node_a]). apply NoDup_cons. split; [|apply NoDup_singleton].
    rewrite list_elem_of_singleton. discriminate.
  - change (node_a ∈ [node_b; node_a]). set_solver.
Defined.

(** Handlers that throw on the first two calls, and one that always throws. *)
Example handlers_told_or_stuck_witness :
  (∃ fuel, ∀ more, triggerMasterEvent (fuel + more) (λ _ k, k <? 2)%nat 0 [7; 8] [] = ([7; 8], true)) ∧
  ∃ fuel, ∀ more, triggerMasterEvent (fuel + more) (λ h _, h =? 7)%nat 0 [6; 7; 8] [] = ([6], false).
Proof.
  split.
  - apply handlers_told_or_stuck. repeat constructor; intros i; exists (i + 2); (split; [lia|apply Nat.ltb_ge; lia]).
  - apply (proj2 (handlers_told_or_stuck (λ h _, h =? 7)%nat [6; 7; 8] 0) [6] 7 [8]); [reflexivity|intros j _; reflexivity|].
    repeat constructor. intros i. exists i. split; [lia|reflexivity].
Defined.

Example reconnect_inverted_witness :
  (∃ m', onZOO_SESSION_EVENT EXPIRED_SESSION_STATE [MkAttempt None None; MkAttempt (Some 2) None; MkAttempt (Some 3) None]
           (sample_manager node_a) no_nodes = Ok (m', ∅, true) ∧ m_runState m' = UnKnown) ∧
  ∃ m' sv', onZOO_SESSION_EVENT EXPIRED_SESSION_STATE [MkAttempt (Some 2) None; MkAttempt (Some 3) None]
              (sample_manager node_a) no_nodes = Ok (m', sv', false).
Proof.
  destruct (reconnect_inverted sample_parts [MkAttempt (Some 2) None; MkAttempt (Some 3) None] (sample_manager node_a) ∅
    sample_registrable) as [Hfail Hok].
  split; [apply (Hfail (MkAttempt None None)); reflexivity|]. apply Hok.
  apply Forall_cons. split; [split; [by eexists|reflexivity]|].
  apply Forall_cons. split; [split; [by eexists|reflexivity]|]. apply Forall_nil. exact I.
Defined.
