(* ===== verification/HttpRequest.v ===== *)
(** * The HTTP client: requests

    Languages/cpp/0_libuv/learn_uv/uv_http_req/request.h and the sending side of
    http_request_call.cpp: a [Method] is parsed from a URI, a [Request] has headers
    and a body and is written as text.  The theorems: the parts of a URI are
    recovered, and what the Content-Length header says about the body. *)

From S2P Require Import Prelude StrSplit.
From Stdlib Require Import ZArith Lia.

Abbreviation bytes := (list Z).
Definition lit (s : string) : bytes := ascii_bytes s.

(** ** [Method] *)

Record Method := MkMethod {
  m_get_post : bytes;
  m_fulluri : bytes;
  m_host : bytes;
  m_port : Z;
  m_uri : bytes;
}.

(** The loop of [ParseUri] over host and port: [find_pos] and [tmp_port] at its end. *)
Fixpoint port_loop (hostport : bytes) (i : Z) (find_pos tmp_port : Z) : result (Z * Z) :=
  match hostport with
  | [] => Ok (find_pos, tmp_port)
  | c :: rest =>
      let next (tmp_port : Z) :=
        if (c =? 58)%Z then port_loop rest (i + 1) i 0 else port_loop rest (i + 1) find_pos tmp_port in
      if (0 <? find_pos)%Z then
        if (i8 c <? 48)%Z || (57 <? i8 c)%Z then Ok (find_pos, tmp_port)
        else
          let tmp_port := (tmp_port * 10 + (i8 c - 48))%Z in
          if (tmp_port <? 2 ^ 31)%Z then next tmp_port else Err Fault (* signed overflow *)
      else next tmp_port
  end.

(** [s.substr(0, find_pos)], -1 standing for [npos]. *)
Definition substr0 (s : bytes) (n : Z) : bytes := if (n <? 0)%Z then s else take (Z.to_nat n) s.

(** [None] when the URI has no "://". *)
Definition ParseUri (uri : bytes) : result (option (bytes * Z * bytes)) :=
  match find_from (find_sub (lit "://")) uri 0 with
  | Some ibegin =>
      let slash := find_from (find_char 47) uri (ibegin + 3) in
      let m_uri := match slash with Some nlen => drop nlen uri | None => [] end in
      let hostport := match slash with
                      | Some nlen => slice (ibegin + 3) (nlen - ibegin - 3) uri
                      | None => drop (ibegin + 3) uri
                      end in
      '(find_pos, tmp_port) ← port_loop hostport 0 (-1) 0;
      Ok (Some (substr0 hostport find_pos, (if (0 <? tmp_port)%Z then tmp_port else 80%Z), m_uri))
  | None => Ok None
  end.

(** The constructor asserts that the URI can be parsed. *)
Definition Method_new (type uri : bytes) : result Method :=
  r ← ParseUri uri;
  match r with
  | Some (host, port, path) => Ok (MkMethod type uri host port path)
  | None => Err AssertFail
  end.

(** ** [Request] *)

Record Request := MkRequest {
  method : Method;
  m_post_data : bytes;
  headers : list (bytes * bytes);
}.

(** [unordered_map::insert] keeps the entry that is there. *)
Fixpoint header (name : bytes) (hs : list (bytes * bytes)) : option bytes :=
  match hs with
  | [] => None
  | (k, v) :: hs => if decide (k = name) then Some v else header name hs
  end.
Definition insert_header (name value : bytes) (hs : list (bytes * bytes)) : list (bytes * bytes) :=
  match header name hs with Some _ => hs | None => hs ++ [(name, value)] end.

Definition Request_new (mth : Method) : Request :=
  let hs := insert_header (lit "User-Agent") (lit "UvHttpClient/1.0") [] in
  let hs := insert_header (lit "Accept") (lit "text/html,application/json,*/*") hs in
  let hs := insert_header (lit "Accept-Encoding") (lit "gzip, deflate, br") hs in
  let hs := insert_header (lit "Accept-Language") (lit "zh-CN,zh;q=0.9,en;q=0.8") hs in
  let hs := insert_header (lit "Content-Type") (lit "text/plain;charset=UTF-8") hs in
  let hs := insert_header (lit "Connection") (lit "Keep-Alive") hs in
  let hs := match header (lit "User-Agent") hs with
            | None => insert_header (lit "User-Agent") (lit "libuv_http_client") hs
            | Some _ => hs
            end in
  let hs := match header (lit "Accept") hs with
            | None => insert_header (lit "Accept")
                (lit "text/html,application/json,application/xhtml+xml,application/xml;q=0.9,*/*;q=0.8") hs
            | Some _ => hs
            end in
  MkRequest mth [] hs.

(** [std::to_string] of a size. *)
Fixpoint print_dec (fuel : nat) (n : Z) : bytes :=
  match fuel with
  | O => []
  | S fuel => (if (n <? 10)%Z then [] else print_dec fuel (n / 10)) ++ [(48 + n mod 10)%Z]
  end.
Definition to_string_size (n : nat) : bytes := print_dec 20 (Z.of_nat n).

Definition setPostData (post_str : bytes) (r : Request) : Request :=
  MkRequest (method r) post_str
    (insert_header (lit "Content-Length") (to_string_size (length post_str)) (headers r)).

Definition crlf : bytes := [13; 10]%Z.

(** [to_string] for one iteration order [it] of the headers. *)
Definition to_string (it : list (bytes * bytes)) (r : Request) : bytes :=
  m_get_post (method r) ++ lit " " ++ m_uri (method r) ++ lit " HTTP/1.1" ++ crlf ++
  lit "Host: " ++ m_host (method r) ++ crlf ++
  concat ((λ '(k, v), k ++ lit ": " ++ v ++ crlf) <$> it) ++
  crlf ++ m_post_data r.

(** ** Sending *)

(** [strcpy] and [strlen]: up to the first zero byte. *)
Fixpoint c_str (s : bytes) : bytes :=
  match s with
  | [] => []
  | c :: s => if (c =? 0)%Z then [] else c :: c_str s
  end.

(** [HttpRequestCall::send]: host, port and the message to send; [None] without a
    method. *)
Definition send (it : list (bytes * bytes)) (r : option Request) : option (bytes * Z * bytes) :=
  match r with
  | Some r => Some (m_host (method r), m_port (method r), c_str (to_string it r))
  | None => None
  end.

(** ** Decimal numbers *)

Lemma print_dec_digits fuel n : (0 ≤ n)%Z → Forall (λ c, 48 ≤ c ≤ 57)%Z (print_dec fuel n).
Proof.
  revert n. induction fuel as [|fuel IH]; intros n Hn; [constructor|]. cbn [print_dec].
  pose proof (Z.mod_pos_bound n 10 ltac:(lia)).
  apply Forall_app. split; [case_match; [constructor|apply IH, Z.div_pos; lia]|].
  constructor; [lia|constructor].
Qed.

Lemma port_loop_digit c rest i fp v :
  (48 ≤ c ≤ 57)%Z → (0 < fp)%Z → (v * 10 + (c - 48) < 2 ^ 31)%Z →
  port_loop (c :: rest) i fp v = port_loop rest (i + 1) fp (v * 10 + (c - 48)).
Proof.
  intros Hc Hfp Hv. cbn [port_loop]. rewrite (proj2 (Z.ltb_lt 0 fp)) by done.
  rewrite sgn_small by lia. rewrite (proj2 (Z.ltb_ge c 48)), (proj2 (Z.ltb_ge 57 c)) by lia. cbn [orb].
  rewrite (proj2 (Z.ltb_lt _ (2 ^ 31))) by done. by rewrite (proj2 (Z.eqb_neq c 58)) by lia.
Qed.

(** The digits of [n] are read back. *)
Lemma port_loop_print fuel : ∀ n i fp,
  (0 ≤ n < 10 ^ Z.of_nat fuel)%Z → (n < 2 ^ 31)%Z → (0 < fp)%Z → fuel ≠ 0 → ∀ rest,
  ∃ i', port_loop (print_dec fuel n ++ rest) i fp 0 = port_loop rest i' fp n.
Proof.
  induction fuel as [|fuel IH]; intros n i fp Hn Hb Hfp Hf rest; [done|]. cbn [print_dec].
  pose proof (Z.mod_pos_bound n 10 ltac:(lia)) as Hm. pose proof (Z.div_mod n 10 ltac:(lia)) as Hdm.
  destruct (Z.ltb_spec n 10) as [Hl|Hl]; cbn [app].
  - rewrite port_loop_digit by lia. exists (i + 1)%Z. f_equal. rewrite Z.mod_small by lia. lia.
  - rewrite Nat2Z.inj_succ, Z.pow_succ_r in Hn by lia. rewrite <-app_assoc.
    destruct (IH (n / 10)%Z i fp) with (rest := [(48 + n mod 10)%Z] ++ rest) as [i' E].
    + split; [apply Z.div_pos; lia|apply Z.div_lt_upper_bound; lia].
    + apply Z.div_lt_upper_bound; lia.
    + done.
    + intros ->. simpl in Hn. lia.
    + rewrite E. cbn [app]. rewrite port_loop_digit by lia. exists (i' + 1)%Z. f_equal. lia.
Qed.

(** ** URIs *)

Lemma find_scheme scheme rest :
  58%Z ∉ scheme → find_sub (lit "://") (scheme ++ lit "://" ++ rest) = Some (length scheme).
Proof.
  change (lit "://") with [58; 47; 47]%Z.
  induction scheme as [|c scheme IH]; intros Hs; [done|].
  rewrite <-app_comm_cons. cbn [find_sub is_prefix].
  rewrite (proj2 (Z.eqb_neq 58 c)) by set_solver. cbn [andb]. rewrite IH by set_solver. done.
Qed.

Lemma find_char_app c l rest : c ∉ l → find_char c (l ++ c :: rest) = Some (length l).
Proof.
  induction l as [|x l IH]; intros Hl; cbn [app find_char]; [by rewrite Z.eqb_refl|].
  rewrite (proj2 (Z.eqb_neq x c)) by set_solver. rewrite IH by set_solver. done.
Qed.

Lemma find_char_None c l : c ∉ l → find_char c l = None.
Proof.
  induction l as [|x l IH]; intros Hl; [done|]. cbn [find_char].
  rewrite (proj2 (Z.eqb_neq x c)) by set_solver. rewrite IH by set_solver. done.
Qed.

Lemma port_loop_host host : ∀ i fp v rest,
  58%Z ∉ host → (fp ≤ 0)%Z →
  port_loop (host ++ rest) i fp v = port_loop rest (i + Z.of_nat (length host)) fp v.
Proof.
  induction host as [|c host IH]; intros i fp v rest Hh Hfp; [f_equal; simpl; lia|]. cbn [app port_loop].
  rewrite (proj2 (Z.ltb_ge 0 fp)) by done. rewrite (proj2 (Z.eqb_neq c 58)) by set_solver.
  rewrite IH by (done || set_solver). f_equal. simpl. lia.
Qed.

(** An optional port as text. *)
Definition port_text (port : option Z) : bytes :=
  match port with Some p => lit ":" ++ print_dec 5 p | None => [] end.

Lemma port_text_no_slash port : (∀ p, port = Some p → 0 ≤ p)%Z → 47%Z ∉ port_text port.
Proof.
  intros Hp. destruct port as [p|]; [|set_solver]. simpl. rewrite elem_of_cons. intros [?|Hin]; [lia|].
  pose proof (print_dec_digits 5 p (Hp p eq_refl)) as Hd. rewrite Forall_forall in Hd. specialize (Hd _ Hin). lia.
Qed.

Lemma hostport_parsed host port :
  host ≠ [] → 58%Z ∉ host → (∀ p, port = Some p → 0 < p < 65536)%Z →
  port_loop (host ++ port_text port) 0 (-1) 0 =
    Ok (match port with Some _ => Z.of_nat (length host) | None => (-1)%Z end, default 0%Z port).
Proof.
  intros Hne Hh Hp. rewrite port_loop_host by done. destruct port as [p|]; [|done].
  specialize (Hp p eq_refl). cbn [port_text lit ascii_bytes app]. change (Z.of_N _) with 58%Z.
  assert (0 < length host) by (destruct host; simpl; [done|lia]).
  cbn [port_loop]. change (0 <? -1)%Z with false. change (58 =? 58)%Z with true. cbn iota.
  destruct (port_loop_print 5 p (0 + Z.of_nat (length host) + 1) (0 + Z.of_nat (length host))) with (rest := @nil Z)
    as [i' E]; [change (10 ^ Z.of_nat 5)%Z with 100000%Z; lia|lia|lia|done|].
  rewrite app_nil_r in E. by rewrite E.
Qed.

(** A path is empty or starts with a slash. *)
Definition is_path (path : bytes) : Prop := path = [] ∨ ∃ p, path = 47%Z :: p.

Lemma find_path pre hp path :
  47%Z ∉ hp → is_path path →
  find_from (find_char 47) (pre ++ hp ++ path) (length pre) =
    match path with [] => None | _ => Some (length pre + length hp) end.
Proof.
  intros Hn Hp. unfold find_from. rewrite (proj2 (Nat.leb_le _ _)) by (rewrite length_app; lia).
  rewrite drop_app_length. destruct Hp as [->|[p ->]].
  - rewrite app_nil_r, find_char_None by done. done.
  - by rewrite find_char_app by done.
Qed.

Lemma uri_recovered type scheme host port path :
  58%Z ∉ scheme → host ≠ [] → 58%Z ∉ host → 47%Z ∉ host → (∀ p, port = Some p → 0 < p < 65536)%Z → is_path path →
  let uri := scheme ++ lit "://" ++ host ++ port_text port ++ path in
  Method_new type uri = Ok (MkMethod type uri host (default 80%Z port) path).
Proof.
  intros Hs Hne Hh Hh' Hp Hpath uri. unfold Method_new, ParseUri.
  assert (E1 : find_from (find_sub (lit "://")) uri 0 = Some (length scheme)).
  { unfold find_from. simpl (0 <=? _)%nat. rewrite drop_0. unfold uri. by rewrite find_scheme. }
  rewrite E1. set (hp := host ++ port_text port).
  assert (Euri : uri = (scheme ++ lit "://") ++ hp ++ path) by (unfold uri, hp; by rewrite <-!app_assoc).
  assert (Hhp : 47%Z ∉ hp).
  { unfold hp. rewrite elem_of_app. intros [?|Hin]; [done|]. revert Hin. apply port_text_no_slash.
    intros p Ep. specialize (Hp p Ep). lia. }
  assert (El : length scheme + 3 = length (scheme ++ lit "://")) by (by rewrite length_app).
  rewrite Euri, El, find_path by done.
  assert (E2 : match match path with [] => None | _ :: _ => Some (length (scheme ++ lit "://") + length hp) end with
    | Some nlen => slice (length (scheme ++ lit "://")) (nlen - length scheme - 3) ((scheme ++ lit "://") ++ hp ++ path)
    | None => drop (length (scheme ++ lit "://")) ((scheme ++ lit "://") ++ hp ++ path) end = hp).
  { destruct path as [|x path]; [rewrite drop_app_length, app_nil_r; done|].
    apply slice_app_mid; [done|lia]. }
  pose proof (hostport_parsed host port Hne Hh Hp) as E2'. fold hp in E2'.
  rewrite E2, E2'. cbn [mbind result_bind].
  assert (E3 : substr0 hp (match port with Some _ => Z.of_nat (length host) | None => (-1)%Z end) = host).
  { unfold substr0, hp. destruct port as [p|]; cbn [port_text].
    - rewrite (proj2 (Z.ltb_ge _ 0)) by lia. rewrite Nat2Z.id. apply take_app_length.
    - apply app_nil_r. }
  assert (E4 : (if (0 <? default 0 port)%Z then default 0%Z port else 80%Z) = default 80%Z port).
  { destruct port as [p|]; [|done]. specialize (Hp p eq_refl). simpl. by rewrite (proj2 (Z.ltb_lt 0 p)) by lia. }
  assert (E5 : match match path with [] => None | _ :: _ => Some (length (scheme ++ lit "://") + length hp) end with
    | Some nlen => drop nlen ((scheme ++ lit "://") ++ hp ++ path) | None => [] end = path).
  { destruct path as [|x path]; [done|]. rewrite app_assoc, <-length_app. apply drop_app_length. }
  by rewrite E3, E4, E5.
Qed.

(** C40. [Method] takes a URI apart.  From a scheme without colons, "://", a host that is not
    empty and has neither colon nor slash, no port or one from 1 to 65535 in decimal, and
    a path that is empty or starts with a slash (and may hold anything after it, colons
    and slashes too), it recovers the host, the port, 80 when none is written, and the
    path; a URI without "://" fails the assertion of the constructor. *)
Theorem uri_parts type :
  (∀ scheme host port path,
    58%Z ∉ scheme → host ≠ [] → 58%Z ∉ host → 47%Z ∉ host → (∀ p, port = Some p → 0 < p < 65536)%Z → is_path path →
    let uri := scheme ++ lit "://" ++ host ++ port_text port ++ path in
    Method_new type uri = Ok (MkMethod type uri host (default 80%Z port) path)) ∧
  (∀ uri, lacks (lit "://") uri → Method_new type uri = Err AssertFail).
Proof.
  split; [intros scheme host port path; apply uri_recovered|].
  intros uri Hl. unfold Method_new, ParseUri. unfold find_from. simpl (0 <=? _)%nat. rewrite drop_0.
  destruct (find_sub (lit "://") uri) as [q|] eqn:E; [|done].
  apply find_sub_Some in E as (_ & E & _); [|done]. by destruct (Hl _ _ E).
Qed.

(** ** The announced length *)

Lemma header_insert_new name value hs :
  header name hs = None → header name (insert_header name value hs) = Some value.
Proof.
  intros Hn. unfold insert_header. rewrite Hn. revert Hn.
  induction hs as [|[k v] hs IH]; simpl; intros Hn; [by rewrite decide_True|].
  case_decide; [done|]. by apply IH.
Qed.

Lemma header_insert_old name value value' hs :
  header name hs = Some value → insert_header name value' hs = hs.
Proof. intros Hn. unfold insert_header. by rewrite Hn. Qed.

Definition content_length (r : Request) : option bytes := header (lit "Content-Length") (headers r).

Lemma new_no_length mth : content_length (Request_new mth) = None.
Proof. vm_compute. reflexivity. Qed.

Lemma first_length mth p : content_length (setPostData p (Request_new mth)) = Some (to_string_size (length p)).
Proof. apply header_insert_new. exact (new_no_length mth). Qed.

Lemma later_length r v p : content_length r = Some v → content_length (setPostData p r) = Some v.
Proof. intros Hr. unfold content_length, setPostData. simpl. by rewrite (header_insert_old _ v). Qed.

Definition post_all (ps : list bytes) (r : Request) : Request := foldl (λ r p, setPostData p r) r ps.

Lemma post_all_length ps : ∀ r v, content_length r = Some v → content_length (post_all ps r) = Some v.
Proof. induction ps as [|p ps IH]; intros r v Hr; [done|]. apply IH. by apply later_length. Qed.

Lemma post_all_data ps p r : m_post_data (post_all (ps ++ [p]) r) = p.
Proof. unfold post_all. by rewrite foldl_app. Qed.

(** The Content-Length header is the length of the first body that was set and
    stays so: it is the length of the body that is sent when [setPostData] is called
    once, and it is stale when a later call sets a body of another length. *)
Lemma content_length_first mth p ps q :
  content_length (setPostData p (Request_new mth)) = Some (to_string_size (length p)) ∧
  m_post_data (setPostData p (Request_new mth)) = p ∧
  content_length (post_all (p :: ps ++ [q]) (Request_new mth)) = Some (to_string_size (length p)) ∧
  m_post_data (post_all (p :: ps ++ [q]) (Request_new mth)) = q.
Proof.
  split_and!; [apply first_length|done| |].
  - apply (post_all_length (ps ++ [q])), first_length.
  - apply (post_all_data (p :: ps)).
Qed.

Example uri_parts_witness :
  Method_new (lit "GET") (lit "http" ++ lit "://" ++ lit "github.com" ++ port_text (Some 8080%Z) ++ lit "/master/src")
    = Ok (MkMethod (lit "GET")
        (lit "http" ++ lit "://" ++ lit "github.com" ++ port_text (Some 8080%Z) ++ lit "/master/src")
        (lit "github.com") 8080 (lit "/master/src")).
Proof.
  apply (proj1 (uri_parts (lit "GET")) (lit "http") (lit "github.com") (Some 8080%Z) (lit "/master/src")).
  - intros Hin. apply list_elem_of_In in Hin. vm_compute in Hin. intuition discriminate.
  - discriminate.
  - intros Hin. apply list_elem_of_In in Hin. vm_compute in Hin. intuition discriminate.
  - intros Hin. apply list_elem_of_In in Hin. vm_compute in Hin. intuition discriminate.
  - intros p [= <-]. lia.
  - right. by eexists.
Defined.

(** ** main.cpp *)

(** The request that [main] sends. *)
Definition post_data : bytes := lit "cpu,host=serverCode,region=china_code value=0.111 1520320877369812809".
Definition main_request : result Request :=
  method ← Method_new (lit "POST") (lit "http://192.168.4.61:8086/write?u=toptrade&p=toptrade&db=sunquan");
  Ok (setPostData post_data (Request_new method)).

(** Where it goes, and that the body is whole: its length is the one in the header. *)
Example main_sends :
  match main_request with
  | Ok r =>
      ∃ m, send (headers r) (Some r) = Some (lit "192.168.4.61", 8086%Z, m) ∧ drop (length m - 69) m = post_data ∧
        content_length r = Some (lit "69") ∧ m_uri (method r) = lit "/write?u=toptrade&p=toptrade&db=sunquan"
  | Err _ => False
  end.
Proof. vm_compute. eexists. split_and!; reflexivity. Qed.
