(* ===== verification/HttpCall.v ===== *)
(** * The HTTP client: one call on the libuv loop

    Languages/cpp/0_libuv/learn_uv/uv_http_req/http_request_call.cpp: [send] resolves
    the host, connects, writes the request and feeds the response to the parser, each
    in a callback of libuv.  The state is the [HttpRequestCall] with the memory and the
    handle it uses; the parser's callbacks for a chunk are inputs. *)

From S2P Require Import Prelude StrSplit HttpRequest.
From Stdlib Require Import ZArith Lia.

(** ** State *)

(** The [uv_tcp_t]: not allocated, open, closing (the flag says that [on_close] will
    free it), closed and still allocated, freed. *)
Inductive tcp_state := TcpNone | TcpOpen | TcpClosing (frees : bool) | TcpClosed | TcpFreed.

(** What the loop waits for. *)
Inductive phase := Idle | Resolving | Connecting | Writing | Reading | Over.

Record call := MkCall {
  chunk_size : Z;
  response_buffer : bytes;
  handle_to_close : bool;                 (* set, or NULL *)
  message_to_send : option bytes;         (* None when freed or not set *)
  resolvers : nat;                        (* allocated uv_getaddrinfo_t *)
  connects : nat;                         (* allocated uv_connect_t *)
  writes : nat;                           (* allocated write_req_t *)
  tcp : tcp_state;
  waiting : phase;
  completed : list Z;                     (* status codes passed to on_message_complete *)
}.

Definition HttpRequestCall (chunk : Z) : call := MkCall chunk [] false None 0 0 0 TcpNone Idle [].

(** [HttpRequestCall::send] of a request with a method (without one it only prints an
    error), and [resolve_dns_and_send_request]. *)
Definition send_call (message : bytes) (c : call) : call :=
  MkCall (chunk_size c) (response_buffer c) (handle_to_close c) (Some message) (S (resolvers c)) (connects c)
    (writes c) (tcp c) Resolving (completed c).

(** [on_dns_resolved] and [send_request_to_ip4] *)
Definition on_dns_resolved (status : Z) (c : call) : call :=
  if (status <? 0)%Z then
    MkCall (chunk_size c) (response_buffer c) (handle_to_close c) (message_to_send c) (resolvers c) (connects c)
      (writes c) (tcp c) Over (completed c)
  else
    MkCall (chunk_size c) (response_buffer c) (handle_to_close c) (message_to_send c) (pred (resolvers c))
      (S (connects c)) (writes c) TcpOpen Connecting (completed c).

Definition on_connect (status : Z) (c : call) : result call :=
  if (status =? -1)%Z then
    Ok (MkCall (chunk_size c) (response_buffer c) (handle_to_close c) (message_to_send c) (resolvers c) (connects c)
          (writes c) (tcp c) Over (completed c))
  else
    match message_to_send c with
    | Some _ =>
        Ok (MkCall (chunk_size c) (response_buffer c) (handle_to_close c) (message_to_send c) (resolvers c)
              (connects c) (S (writes c)) (tcp c) Writing (completed c))
    | None => Err Fault
    end.

(** [uv_close(handle, on_close)] or [uv_close(handle, NULL)]: libuv asserts that the
    handle is not closing yet. *)
Definition uv_close (frees : bool) (c : call) : result call :=
  match tcp c with
  | TcpOpen =>
      Ok (MkCall (chunk_size c) (response_buffer c) (handle_to_close c) (message_to_send c) (resolvers c)
            (connects c) (writes c) (TcpClosing frees) Over (completed c))
  | _ => Err AssertFail
  end.

Definition uv_is_closing (c : call) : bool := match tcp c with TcpClosing _ | TcpClosed => true | _ => false end.

Definition after_write (status : Z) (c : call) : result call :=
  match message_to_send c with
  | None => Err Fault
  | Some _ =>
      let c := MkCall (chunk_size c) (response_buffer c) (handle_to_close c) None (resolvers c) (connects c)
                 (writes c) (tcp c) Reading (completed c) in
      if (status =? 0)%Z then Ok c else if uv_is_closing c then Ok c else uv_close true c
  end.

(** The size [alloc_buffer] gives to libuv. *)
Definition alloc_buffer (suggested_size : Z) (c : call) : Z :=
  if (0 <? chunk_size c)%Z then chunk_size c else suggested_size.

(** Callbacks of the parser that do something. *)
Inductive parsed := OnBody (p : bytes) | OnMessageComplete (status : Z).

Definition on_parsed (e : parsed) (c : call) : result call :=
  match e with
  | OnBody p =>
      Ok (MkCall (chunk_size c) (response_buffer c ++ p) (handle_to_close c) (message_to_send c) (resolvers c)
            (connects c) (writes c) (tcp c) (waiting c) (completed c))
  | OnMessageComplete status =>
      c ← (if handle_to_close c then
             c ← uv_close false c;
             Ok (MkCall (chunk_size c) (response_buffer c) false (message_to_send c) (resolvers c) (connects c)
                   (writes c) (tcp c) (waiting c) (completed c))
           else Ok c);
      Ok (MkCall (chunk_size c) (response_buffer c) (handle_to_close c) (message_to_send c) (resolvers c)
            (connects c) (writes c) (tcp c) (waiting c) (completed c ++ [status]))
  end.

(** [http_parser_execute] *)
Fixpoint parse_chunk (es : list parsed) (c : call) : result call :=
  match es with
  | [] => Ok c
  | e :: es => c ← on_parsed e c; parse_chunk es c
  end.

Definition receive_response (nread : Z) (es : list parsed) (c : call) : result call :=
  if (nread <? 0)%Z then uv_close true c
  else if (nread =? 0)%Z then uv_close false c
  else
    parse_chunk es
      (MkCall (chunk_size c) (response_buffer c) true (message_to_send c) (resolvers c) (connects c) (writes c)
         (tcp c) (waiting c) (completed c)).

(** The loop calls back for the close: [on_close] frees the handle. *)
Definition on_closed (c : call) : call :=
  let t := match tcp c with TcpClosing true => TcpFreed | TcpClosing false => TcpClosed | t => t end in
  MkCall (chunk_size c) (response_buffer c) (handle_to_close c) (message_to_send c) (resolvers c) (connects c)
    (writes c) t (waiting c) (completed c).

(** ** The loop *)

Inductive event :=
  | EDns (status : Z)
  | EConnect (status : Z)
  | EWritten (status : Z)
  | ERead (nread : Z) (es : list parsed)
  | EClosed.

Definition enabled (e : event) (c : call) : Prop :=
  match e with
  | EDns _ => waiting c = Resolving
  | EConnect _ => waiting c = Connecting
  | EWritten _ => waiting c = Writing
  | ERead _ _ => waiting c = Reading
  | EClosed => ∃ b, tcp c = TcpClosing b
  end.

Definition exec (e : event) (c : call) : result call :=
  match e with
  | EDns status => Ok (on_dns_resolved status c)
  | EConnect status => on_connect status c
  | EWritten status => after_write status c
  | ERead nread es => receive_response nread es c
  | EClosed => Ok (on_closed c)
  end.

Inductive reachable (chunk : Z) (message : bytes) : call → Prop :=
  | reachable_sent : reachable chunk message (send_call message (HttpRequestCall chunk))
  | reachable_step e c c' :
      reachable chunk message c → enabled e c → exec e c = Ok c' → reachable chunk message c'.

(** ** The invariant *)

(** Per phase: the handle, the message, and what is allocated. *)
Definition inv (c : call) : Prop :=
  match waiting c with
  | Idle => False
  | Resolving => tcp c = TcpNone ∧ is_Some (message_to_send c) ∧ resolvers c = 1 ∧ connects c = 0 ∧ writes c = 0
  | Connecting => tcp c = TcpOpen ∧ is_Some (message_to_send c) ∧ resolvers c = 0 ∧ connects c = 1 ∧ writes c = 0
  | Writing => tcp c = TcpOpen ∧ is_Some (message_to_send c) ∧ resolvers c = 0 ∧ connects c = 1 ∧ writes c = 1
  | Reading => tcp c = TcpOpen ∧ message_to_send c = None ∧ resolvers c = 0 ∧ connects c = 1 ∧ writes c = 1
  | Over =>
      match tcp c with
      | TcpNone => resolvers c = 1 ∧ connects c = 0 ∧ writes c = 0
      | TcpOpen => resolvers c = 0 ∧ connects c = 1 ∧ writes c = 0
      | _ => resolvers c = 0 ∧ connects c = 1 ∧ writes c = 1
      end
  end.

(** While a chunk is parsed: reading, or closed by a complete message. *)
Definition parsing (c : call) : Prop :=
  resolvers c = 0 ∧ connects c = 1 ∧ writes c = 1 ∧ message_to_send c = None ∧
  ((tcp c = TcpOpen ∧ waiting c = Reading) ∨
   (tcp c = TcpClosing false ∧ waiting c = Over ∧ handle_to_close c = false)).

Lemma on_parsed_ok e c : parsing c → ∃ c', on_parsed e c = Ok c' ∧ parsing c'.
Proof.
  intros (Hr & Hc & Hw & Hm & Hst). destruct e as [p|status]; cbn [on_parsed].
  { eexists. split; [done|]. by destruct c. }
  destruct (handle_to_close c) eqn:Eh; [|eexists; split; [done|]; unfold parsing; simpl; naive_solver].
  destruct Hst as [[Ht Hwait]|(_ & _ & ?)]; [|congruence].
  unfold uv_close. rewrite Ht. eexists. split; [done|]. split_and!; [done|done|done|done|]. by right.
Qed.

Lemma parse_chunk_ok es : ∀ c, parsing c → ∃ c', parse_chunk es c = Ok c' ∧ parsing c'.
Proof.
  induction es as [|e es IH]; intros c Hc; cbn [parse_chunk]; [by exists c|].
  destruct (on_parsed_ok e c Hc) as (c1 & -> & Hc1). by apply IH.
Qed.

Lemma parsing_inv c : parsing c → inv c.
Proof.
  intros (Hr & Hc & Hw & Hm & Hst). unfold inv.
  destruct Hst as [[Ht ->]|(Ht & -> & _)]; [done|]. by rewrite Ht.
Qed.

Lemma exec_ok e c : inv c → enabled e c → ∃ c', exec e c = Ok c' ∧ inv c'.
Proof.
  intros Hi He. destruct e as [status|status|status|nread es|]; cbn [exec enabled] in *.
  - unfold inv in Hi. rewrite He in Hi. destruct Hi as (Ht & Hm & Hr & Hc & Hw).
    eexists. split; [done|]. unfold on_dns_resolved, inv. destruct (status <? 0)%Z; simpl; [by rewrite Ht|].
    rewrite Hr, Hc, Hw. done.
  - unfold inv in Hi. rewrite He in Hi. destruct Hi as (Ht & [m Hm] & Hr & Hc & Hw). unfold on_connect.
    rewrite Hm. destruct (status =? -1)%Z; eexists; (split; [done|]); unfold inv; simpl; [by rewrite Ht|].
    rewrite Hw. split_and!; [done|by eexists|done|done|done].
  - unfold inv in Hi. rewrite He in Hi. destruct Hi as (Ht & [m Hm] & Hr & Hc & Hw). unfold after_write.
    rewrite Hm. simpl. destruct (status =? 0)%Z; [eexists; split; [done|]; done|]. unfold uv_is_closing, uv_close; simpl; rewrite !Ht.
    eexists. split; [done|]. done.
  - unfold inv in Hi. rewrite He in Hi. destruct Hi as (Ht & Hm & Hr & Hc & Hw). unfold receive_response.
    destruct (nread <? 0)%Z; [unfold uv_close; rewrite Ht; eexists; split; [done|]; done|].
    destruct (nread =? 0)%Z; [unfold uv_close; rewrite Ht; eexists; split; [done|]; done|].
    destruct (parse_chunk_ok es (MkCall (chunk_size c) (response_buffer c) true (message_to_send c) (resolvers c)
      (connects c) (writes c) (tcp c) (waiting c) (completed c))) as (c' & -> & Hp).
    + split_and!; [done|done|done|done|by left].
    + exists c'. split; [done|by apply parsing_inv].
  - destruct He as [b Hb]. eexists. split; [done|]. unfold inv, on_closed in *. simpl. rewrite Hb in *.
    destruct (waiting c); destruct b; try done; naive_solver.
Qed.

Lemma call_reachable_inv chunk message c : reachable chunk message c → inv c.
Proof.
  induction 1 as [|e c c' _ IH He Hex]; [unfold inv; simpl; split_and!; [done|by eexists|done|done|done]|].
  destruct (exec_ok e c IH He) as (c1 & E & Hi). rewrite Hex in E. by simplify_eq.
Qed.

(** C34. A call never closes its handle twice and never uses the message after it was
    freed, whatever the network and the parser report; but once the handle is closed,
    the connect request and the write request are still allocated. *)
Theorem http_call_safe chunk message c :
  reachable chunk message c →
  (∀ e, enabled e c → ∃ c', exec e c = Ok c') ∧
  (tcp c = TcpClosed ∨ tcp c = TcpFreed → connects c = 1 ∧ writes c = 1).
Proof.
  intros Hr. pose proof (call_reachable_inv chunk message c Hr) as Hi. split.
  - intros e He. destruct (exec_ok e c Hi He) as (c' & E & _). by exists c'.
  - intros Ht. unfold inv in Hi. destruct (waiting c); [done|intuition congruence..|]. destruct Ht as [Ht|Ht]; rewrite Ht in Hi; naive_solver.
Qed.

(** ** Witness: the whole response arrives in one chunk *)

Definition sample_message : bytes := lit "GET / HTTP/1.1".
Definition sample_over : call := MkCall 0 (lit "hi") false None 0 1 1 TcpClosed Over [200%Z].

Lemma sample_over_reachable : reachable 0 sample_message sample_over.
Proof.
  pose proof (reachable_sent 0 sample_message) as H0.
  pose proof (reachable_step _ _ (EDns 0) _ _ H0 eq_refl eq_refl) as H1.
  pose proof (reachable_step _ _ (EConnect 0) _ _ H1 eq_refl eq_refl) as H2.
  pose proof (reachable_step _ _ (EWritten 0) _ _ H2 eq_refl eq_refl) as H3.
  pose proof (reachable_step _ _ (ERead 60 [OnBody (lit "hi"); OnMessageComplete 200]) _ _ H3 eq_refl eq_refl) as H4.
  exact (reachable_step _ _ EClosed _ _ H4 (ex_intro _ false eq_refl) eq_refl).
Qed.

Example http_call_safe_witness :
  (∃ c', exec (EDns 0) (send_call sample_message (HttpRequestCall 0)) = Ok c') ∧
  connects sample_over = 1 ∧ writes sample_over = 1.
Proof.
  split.
  - apply (http_call_safe 0 sample_message); [apply reachable_sent|reflexivity].
  - apply (http_call_safe 0 sample_message sample_over sample_over_reachable). left. reflexivity.
Defined.
