(* ===== verification/Base64.v ===== *)
(** * Base64

    [base64_encode] of Languages/cpp/mail_wrapper/send_email.c, on the bytes of its two
    buffers: reading or writing outside a buffer, and overflow of an [int], are a
    [Fault].  The reference is the encoding of RFC 4648 with its decoder. *)

From S2P Require Import Prelude StrSplit HttpRequest.
From Stdlib Require Import ZArith Lia.

(** ** The code *)

(** [buf[i]] and [buf[i] = v]. *)
Definition get (buf : bytes) (i : Z) : result Z :=
  if (0 <=? i)%Z then match buf !! Z.to_nat i with Some v => Ok v | None => Err Fault end else Err Fault.
Definition put (buf : bytes) (i v : Z) : result bytes :=
  if (0 <=? i)%Z && (i <? Z.of_nat (length buf))%Z then Ok (<[Z.to_nat i := v]> buf) else Err Fault.

(** The result of an operation on [int]. *)
Definition int_arith (z : Z) : result Z :=
  if (- 2 ^ 31 <=? z)%Z && (z <? 2 ^ 31)%Z then Ok z else Err Fault.

Definition base64tab : bytes := lit "ABCDEFGHIJKLMNOPQRSTUVWXYZabcdefghijklmnopqrstuvwxyz0123456789+/" ++ [0%Z].
Definition pad : Z := 61.

(** The four indices into the table. *)
Definition index0 (a : Z) : Z := Z.shiftr a 2.
Definition index1 (a b : Z) : Z := Z.lor (Z.shiftl (Z.land a 3) 4) (Z.shiftr b 4).
Definition index2 (b c : Z) : Z := Z.lor (Z.shiftl (Z.land b 15) 2) (Z.shiftr c 6).
Definition index3 (c : Z) : Z := Z.land c 63.

(** [out[o] = base64tab[k]] *)
Definition put_tab (out : bytes) (o k : Z) : result bytes := c ← get base64tab k; put out o c.

(** [in] and [out] are the offsets of the two pointers. *)
Fixpoint base64_loop (fuel : nat) (inb : bytes) (i ilen : Z) (out : bytes) (o : Z) : result (Z * Z * bytes * Z) :=
  match fuel with
  | O => Err OutOfFuel
  | S fuel =>
      if (3 <=? ilen)%Z then
        a ← get inb i; b ← get inb (i + 1); c ← get inb (i + 2);
        out ← put_tab out o (index0 a);
        out ← put_tab out (o + 1) (index1 a b);
        out ← put_tab out (o + 2) (index2 b c);
        out ← put_tab out (o + 3) (index3 c);
        base64_loop fuel inb (i + 3) (ilen - 3) out (o + 4)
      else Ok (i, ilen, out, o)
  end.

(** The last one or two bytes, with padding, and the terminating NUL. *)
Definition base64_tail (inb : bytes) (i ilen : Z) (out : bytes) (o : Z) : result bytes :=
  if (ilen =? 0)%Z then put out o 0
  else
    a ← get inb i;
    out ← put_tab out o (index0 a);
    out ← (if (ilen =? 1)%Z then
             out ← put_tab out (o + 1) (Z.shiftl (Z.land a 3) 4);
             put out (o + 2) pad
           else
             b ← get inb (i + 1);
             out ← put_tab out (o + 1) (index1 a b);
             put_tab out (o + 2) (Z.shiftl (Z.land b 15) 2));
    out ← put out (o + 3) pad;
    put out (o + 4) 0.

Definition base64_encode (inb : bytes) (ilen : Z) (out : bytes) (outlen : Z) : result (Z * bytes) :=
  n ← int_arith (ilen + 2);
  convlen ← int_arith (Z.quot n 3 * 4);
  if (outlen <=? convlen)%Z then Ok ((-1)%Z, out)
  else
    '(i, ilen, out, o) ← base64_loop (S (Z.to_nat ilen)) inb 0 ilen out 0;
    out ← base64_tail inb i ilen out o;
    Ok (convlen, out).

(** ** The reference *)

(** The alphabet, and the digit at bit [k] of a 24-bit number. *)
Definition letter (d : Z) : Z :=
  if (d <? 26)%Z then (65 + d)%Z else if (d <? 52)%Z then (71 + d)%Z else if (d <? 62)%Z then (d - 4)%Z
  else if (d =? 62)%Z then 43%Z else 47%Z.
Definition digit (n k : Z) : Z := letter ((n / 2 ^ k) mod 64).
Definition pack (a b c : Z) : Z := (a * 2 ^ 16 + b * 2 ^ 8 + c)%Z.

Fixpoint b64 (l : bytes) : bytes :=
  match l with
  | [] => []
  | [a] => let n := pack a 0 0 in [digit n 18; digit n 12; pad; pad]
  | [a; b] => let n := pack a b 0 in [digit n 18; digit n 12; digit n 6; pad]
  | a :: b :: c :: l => let n := pack a b c in [digit n 18; digit n 12; digit n 6; digit n 0] ++ b64 l
  end.

Definition value (c : Z) : option Z :=
  if (65 <=? c)%Z && (c <=? 90)%Z then Some (c - 65)%Z
  else if (97 <=? c)%Z && (c <=? 122)%Z then Some (c - 71)%Z
  else if (48 <=? c)%Z && (c <=? 57)%Z then Some (c + 4)%Z
  else if (c =? 43)%Z then Some 62%Z else if (c =? 47)%Z then Some 63%Z else None.

(** Padding is accepted in the last group only. *)
Fixpoint unb64 (l : bytes) : option bytes :=
  match l with
  | [] => Some []
  | c0 :: c1 :: c2 :: c3 :: l =>
      v0 ← value c0; v1 ← value c1;
      if (c2 =? pad)%Z then
        match l with [] => if (c3 =? pad)%Z then Some [(v0 * 4 + v1 / 16)%Z] else None | _ => None end
      else
        v2 ← value c2;
        let x := (v0 * 4 + v1 / 16)%Z in
        let y := (v1 mod 16 * 16 + v2 / 4)%Z in
        if (c3 =? pad)%Z then match l with [] => Some [x; y] | _ => None end
        else v3 ← value c3; rest ← unb64 l; Some (x :: y :: (v2 mod 4 * 64 + v3)%Z :: rest)
  | _ => None
  end.

(** ** The indices are the digits *)

Lemma lor_disjoint x y k : (0 ≤ k)%Z → (0 ≤ y < 2 ^ k)%Z → Z.lor (Z.shiftl x k) y = (x * 2 ^ k + y)%Z.
Proof.
  intros Hk Hy. assert (E : Z.land (Z.shiftl x k) y = 0%Z).
  { apply Z.bits_inj'. intros n Hn. rewrite Z.land_spec, Z.bits_0. destruct (Z.ltb_spec n k).
    - by rewrite Z.shiftl_spec_low.
    - rewrite andb_comm, <-(Z.mod_small y (2 ^ k)) by done. by rewrite Z.mod_pow2_bits_high by lia. }
  pose proof (Z.add_lor_land (Z.shiftl x k) y) as Hs. rewrite E, Z.shiftl_mul_pow2 in Hs by done.
  rewrite Z.shiftl_mul_pow2 by done. lia.
Qed.

Lemma land_mod x k : (0 ≤ k)%Z → Z.land x (2 ^ k - 1) = (x mod 2 ^ k)%Z.
Proof. intros Hk. replace (2 ^ k - 1)%Z with (Z.ones k) by (by rewrite Z.ones_equiv, Z.sub_1_r). by apply Z.land_ones. Qed.

Section indices.
Context (a b c : Z) (Ha : is_byte a) (Hb : is_byte b) (Hc : is_byte c).

Lemma index0_digit : index0 a = ((pack a b c / 2 ^ 18) mod 64)%Z.
Proof.
  unfold index0, pack, is_byte in *. rewrite Z.shiftr_div_pow2 by lia.
  change (2 ^ 2)%Z with 4%Z. change (2 ^ 18)%Z with 262144%Z. change (2 ^ 16)%Z with 65536%Z. change (2 ^ 8)%Z with 256%Z.
  Z.div_mod_to_equations. lia.
Qed.

Lemma index1_digit : index1 a b = ((pack a b c / 2 ^ 12) mod 64)%Z.
Proof.
  unfold index1, pack, is_byte in *. change 3%Z with (2 ^ 2 - 1)%Z. rewrite land_mod by lia.
  rewrite Z.shiftr_div_pow2 by lia.
  change (2 ^ 2)%Z with 4%Z. change (2 ^ 4)%Z with 16%Z. change (2 ^ 12)%Z with 4096%Z.
  change (2 ^ 16)%Z with 65536%Z. change (2 ^ 8)%Z with 256%Z.
  rewrite lor_disjoint by (try lia; change (2 ^ 4)%Z with 16%Z; Z.div_mod_to_equations; lia).
  change (2 ^ 4)%Z with 16%Z. Z.div_mod_to_equations. lia.
Qed.

Lemma index2_digit : index2 b c = ((pack a b c / 2 ^ 6) mod 64)%Z.
Proof.
  unfold index2, pack, is_byte in *. change 15%Z with (2 ^ 4 - 1)%Z. rewrite land_mod by lia.
  rewrite Z.shiftr_div_pow2 by lia.
  change (2 ^ 4)%Z with 16%Z. change (2 ^ 6)%Z with 64%Z. change (2 ^ 16)%Z with 65536%Z. change (2 ^ 8)%Z with 256%Z.
  rewrite lor_disjoint by (try lia; change (2 ^ 2)%Z with 4%Z; Z.div_mod_to_equations; lia).
  change (2 ^ 2)%Z with 4%Z. Z.div_mod_to_equations. lia.
Qed.

Lemma index3_digit : index3 c = ((pack a b c / 2 ^ 0) mod 64)%Z.
Proof.
  unfold index3, pack, is_byte in *. change 63%Z with (2 ^ 6 - 1)%Z. rewrite land_mod by lia.
  change (2 ^ 6)%Z with 64%Z. change (2 ^ 0)%Z with 1%Z. change (2 ^ 16)%Z with 65536%Z. change (2 ^ 8)%Z with 256%Z.
  Z.div_mod_to_equations. lia.
Qed.
End indices.

(** Facts about all digits are checked one by one. *)
Lemma all_digits (f : Z → bool) : forallb f (seqZ 0 64) = true → ∀ d, (0 ≤ d < 64)%Z → f d = true.
Proof. intros Hf d Hd. rewrite forallb_forall in Hf. apply Hf, list_elem_of_In, elem_of_seqZ. lia. Qed.

Lemma tab_letter d : (0 ≤ d < 64)%Z → get base64tab d = Ok (letter d).
Proof.
  intros Hd. pose proof (all_digits (λ d, match get base64tab d with Ok c => (c =? letter d)%Z | Err _ => false end)
    ltac:(vm_compute; reflexivity) d Hd) as E. simpl in E. case_match; [|done]. f_equal. by apply Z.eqb_eq.
Qed.

Lemma put_tab_digit out o n k : put_tab out o ((n / 2 ^ k) mod 64) = put out o (digit n k).
Proof. unfold put_tab, digit. rewrite tab_letter by (apply Z.mod_pos_bound; lia). done. Qed.

(** ** Buffers *)

Lemma get_app (pre l : bytes) k x :
  (0 ≤ k)%Z → l !! Z.to_nat k = Some x → get (pre ++ l) (Z.of_nat (length pre) + k) = Ok x.
Proof.
  intros Hk Hl. unfold get. rewrite (proj2 (Z.leb_le _ _)) by lia.
  rewrite lookup_app_r by lia. replace (Z.to_nat _ - length pre) with (Z.to_nat k) by lia. by rewrite Hl.
Qed.

Lemma put_app (w l : bytes) k v :
  (0 ≤ k < Z.of_nat (length l))%Z →
  put (w ++ l) (Z.of_nat (length w) + k) v = Ok (w ++ <[Z.to_nat k := v]> l).
Proof.
  intros Hk. unfold put. rewrite length_app.
  rewrite (proj2 (Z.leb_le _ _)), (proj2 (Z.ltb_lt _ _)) by lia. simpl. f_equal.
  rewrite insert_app_r_alt by lia. do 2 f_equal. lia.
Qed.

Lemma get_app0 (pre l : bytes) x : l !! 0 = Some x → get (pre ++ l) (Z.of_nat (length pre)) = Ok x.
Proof. intros. rewrite <-(Z.add_0_r (Z.of_nat _)). by apply get_app. Qed.

Lemma put_app0 (w l : bytes) v :
  0 < length l → put (w ++ l) (Z.of_nat (length w)) v = Ok (w ++ <[0 := v]> l).
Proof. intros. rewrite <-(Z.add_0_r (Z.of_nat _)). apply put_app. lia. Qed.

(** ** The encoder writes the reference encoding *)

(** Induction in steps of three. *)
Lemma bytes_ind3 (P : bytes → Prop) :
  P [] → (∀ a, P [a]) → (∀ a b, P [a; b]) → (∀ a b c l, P l → P (a :: b :: c :: l)) → ∀ l, P l.
Proof.
  intros H0 H1 H2 H3. refine (fix F l := _).
  destruct l as [|a [|b [|c l]]]; [exact H0|apply H1|apply H2|apply H3, F].
Qed.

Lemma length_b64 l : Z.of_nat (length (b64 l)) = (Z.quot (Z.of_nat (length l) + 2) 3 * 4)%Z.
Proof.
  rewrite Z.quot_div_nonneg by lia.
  induction l as [|a|a b|a b c l IH] using bytes_ind3; [done|done|done|].
  cbn [b64]. rewrite !length_cons, length_app, length_cons, !Nat2Z.inj_succ, Nat2Z.inj_add, IH.
  cbn [length]. Z.div_mod_to_equations. lia.
Qed.

(** One access to a buffer whose written part is a prefix. *)
Ltac buf_step :=
  first [ rewrite put_app0 by (simpl; lia) | rewrite put_app by (simpl; lia)
        | rewrite put_tab_digit | progress cbn [mbind result_bind] ]; simpl insert.

Lemma index1_last a : Z.shiftl (Z.land a 3) 4 = index1 a 0.
Proof. unfold index1. by rewrite Z.shiftr_0_l, Z.lor_0_r. Qed.

Lemma index2_last b : Z.shiftl (Z.land b 15) 2 = index2 b 0.
Proof. unfold index2. by rewrite Z.shiftr_0_l, Z.lor_0_r. Qed.

Section encoder.
Context (pre post w : bytes).
Implicit Types rest : bytes.

(** The last group. *)
Lemma base64_tail_ok l rest :
  Forall is_byte l → length l < 3 → length (b64 l) + 1 ≤ length rest →
  base64_tail (pre ++ l ++ post) (Z.of_nat (length pre)) (Z.of_nat (length l)) (w ++ rest) (Z.of_nat (length w))
    = Ok (w ++ b64 l ++ 0%Z :: drop (length (b64 l) + 1) rest).
Proof.
  assert (H0 : is_byte 0) by (unfold is_byte; lia).
  intros Hl Hlen Hr. unfold base64_tail.
  destruct l as [|a [|b [|c l]]]; cbn [length b64 app] in *; [| | |lia]; simpl Z.of_nat; simpl Z.eqb; cbn iota.
  - destruct rest as [|r rest]; [simpl in Hr; lia|]. by buf_step.
  - apply Forall_cons in Hl as [Ha _].
    destruct rest as [|r0 [|r1 [|r2 [|r3 [|r4 rest]]]]]; simpl in Hr; try lia.
    rewrite get_app0 with (x := a) by done.
    cbn [mbind result_bind]. rewrite index1_last, (index0_digit a 0 0), (index1_digit a 0 0) by done. by repeat buf_step.
  - apply Forall_cons in Hl as [Ha Hl]. apply Forall_cons in Hl as [Hb _].
    destruct rest as [|r0 [|r1 [|r2 [|r3 [|r4 rest]]]]]; simpl in Hr; try lia.
    rewrite get_app0 with (x := a) by done. cbn [mbind result_bind]. rewrite get_app with (x := b) by done.
    cbn [mbind result_bind]. rewrite index2_last, (index0_digit a b 0), (index1_digit a b 0), (index2_digit a b 0) by done.
    by repeat buf_step.
Qed.

(** One group of three. *)
Lemma base64_group fuel a b c l rest :
  is_byte a → is_byte b → is_byte c → 4 ≤ length rest →
  base64_loop (S fuel) (pre ++ (a :: b :: c :: l) ++ post) (Z.of_nat (length pre)) (Z.of_nat (length (a :: b :: c :: l)))
      (w ++ rest) (Z.of_nat (length w))
    = base64_loop fuel ((pre ++ [a; b; c]) ++ l ++ post) (Z.of_nat (length (pre ++ [a; b; c]))) (Z.of_nat (length l))
        ((w ++ b64 [a; b; c]) ++ drop 4 rest) (Z.of_nat (length (w ++ b64 [a; b; c]))).
Proof.
  intros Ha Hb Hc Hr. destruct rest as [|r0 [|r1 [|r2 [|r3 rest]]]]; simpl in Hr; try lia.
  cbn [base64_loop app]. rewrite (proj2 (Z.leb_le _ _)) by (simpl; lia).
  rewrite get_app0 with (x := a) by done. cbn [mbind result_bind].
  rewrite get_app with (k := 1%Z) (x := b) by done. cbn [mbind result_bind].
  rewrite get_app with (k := 2%Z) (x := c) by done. cbn [mbind result_bind].
  rewrite (index0_digit a b c), (index1_digit a b c), (index2_digit a b c), (index3_digit a b c) by done.
  repeat buf_step. rewrite <-!app_assoc, !length_app, !Nat2Z.inj_add. simpl app. simpl Z.of_nat. f_equal. lia.
Qed.
End encoder.

(** Both parts of the encoder from a position in the middle. *)
Lemma encode_from l : ∀ fuel pre post w rest,
  Forall is_byte l → length l < fuel → length (b64 l) + 1 ≤ length rest →
  ('(i, ilen, out, o) ← base64_loop fuel (pre ++ l ++ post) (Z.of_nat (length pre)) (Z.of_nat (length l)) (w ++ rest)
                          (Z.of_nat (length w));
   base64_tail (pre ++ l ++ post) i ilen out o) = Ok (w ++ b64 l ++ 0%Z :: drop (length (b64 l) + 1) rest).
Proof.
  induction l as [|a|a b|a b c l IH] using bytes_ind3; intros [|fuel] pre post w rest Hl Hf Hr; try (simpl in Hf; lia).
  1-3: cbn [base64_loop]; rewrite (proj2 (Z.leb_gt _ _)) by (simpl; lia); cbn [mbind result_bind]; apply base64_tail_ok; [done|simpl; lia|done].
  apply Forall_cons in Hl as [Ha Hl]. apply Forall_cons in Hl as [Hb Hl]. apply Forall_cons in Hl as [Hc Hl].
  cbn [b64 app length] in Hr. rewrite base64_group by (try done; lia).
  specialize (IH fuel (pre ++ [a; b; c]) post (w ++ b64 [a; b; c]) (drop 4 rest) Hl).
  rewrite <-(app_assoc pre [a; b; c]) in *. simpl app in *. rewrite IH by (try rewrite length_drop; simpl in *; lia).
  rewrite <-app_assoc, drop_drop. done.
Qed.

Lemma base64_encode_ok inb ilen out outlen :
  (0 ≤ ilen < 2 ^ 30)%Z → (ilen ≤ Z.of_nat (length inb))%Z → Forall is_byte inb → (outlen ≤ Z.of_nat (length out))%Z →
  let text := b64 (take (Z.to_nat ilen) inb) in
  base64_encode inb ilen out outlen =
    Ok (if (outlen <=? Z.of_nat (length text))%Z then ((-1)%Z, out)
        else (Z.of_nat (length text), text ++ 0%Z :: drop (length text + 1) out)).
Proof.
  intros Hi Hlen Hb Hout text. unfold base64_encode, int_arith.
  assert (Hl : Z.of_nat (length (take (Z.to_nat ilen) inb)) = ilen) by (rewrite length_take; lia).
  pose proof (length_b64 (take (Z.to_nat ilen) inb)) as Ht. rewrite Hl in Ht. fold text in Ht.
  assert (Z.quot (ilen + 2) 3 ≤ ilen / 3 + 1)%Z by (rewrite Z.quot_div_nonneg by lia; Z.div_mod_to_equations; lia).
  rewrite (proj2 (Z.leb_le _ _)), (proj2 (Z.ltb_lt _ _)) by lia. cbn [andb mbind result_bind]. rewrite <-Ht.
  rewrite (proj2 (Z.leb_le _ _)), (proj2 (Z.ltb_lt _ _)) by (Z.div_mod_to_equations; lia). cbn [andb mbind result_bind].
  destruct (Z.leb_spec outlen (Z.of_nat (length text))); [done|].
  assert (E : ('(i, ilen, out, o) ← base64_loop (S (Z.to_nat ilen)) inb 0 ilen out 0; base64_tail inb i ilen out o)
    = Ok (text ++ 0%Z :: drop (length text + 1) out)).
  { pose proof (encode_from (take (Z.to_nat ilen) inb) (S (Z.to_nat ilen)) [] (drop (Z.to_nat ilen) inb) [] out) as E.
    rewrite Hl, app_nil_l, take_drop in E. apply E; [by apply Forall_take|lia|fold text; lia]. }
  destruct (base64_loop _ _ _ _ _ _) as [[[[i il] o'] o]|e]; [|discriminate E].
  cbn [mbind result_bind] in E |- *. by rewrite E.
Qed.

(** ** Decoding *)

Lemma value_letter d : (0 ≤ d < 64)%Z → value (letter d) = Some d ∧ letter d ≠ pad.
Proof.
  intros Hd. pose proof (all_digits (λ d, match value (letter d) with Some v => (v =? d)%Z && negb (letter d =? pad)%Z
    | None => false end) ltac:(vm_compute; reflexivity) d Hd) as E. simpl in E. case_match; [|done]. bool_props. by subst.
Qed.

Lemma value_digit n k : value (digit n k) = Some ((n / 2 ^ k) mod 64)%Z ∧ (digit n k =? pad)%Z = false.
Proof.
  destruct (value_letter ((n / 2 ^ k) mod 64)) as [Hv Hp]; [apply Z.mod_pos_bound; lia|].
  split; [done|]. by apply Z.eqb_neq.
Qed.

Lemma unpack_bytes a b c :
  is_byte a → is_byte b → is_byte c →
  let v k := ((pack a b c / 2 ^ k) mod 64)%Z in
  (v 18 * 4 + v 12 / 16 = a ∧ v 12 mod 16 * 16 + v 6 / 4 = b ∧ v 6 mod 4 * 64 + v 0 = c)%Z.
Proof.
  intros Ha Hb Hc v. unfold is_byte in *. subst v. unfold pack. simpl.
  change (Z.pow_pos 2 18) with 262144%Z. change (Z.pow_pos 2 16) with 65536%Z. change (Z.pow_pos 2 12) with 4096%Z.
  change (Z.pow_pos 2 8) with 256%Z. change (Z.pow_pos 2 6) with 64%Z.
  split_and!; Z.div_mod_to_equations; lia.
Qed.

Lemma unb64_b64 l : Forall is_byte l → unb64 (b64 l) = Some l.
Proof.
  assert (H0 : is_byte 0) by (unfold is_byte; lia).
  induction l as [|a|a b|a b c l IH] using bytes_ind3; intros Hl; [done|..];
    repeat match goal with H : Forall is_byte (_ :: _) |- _ => apply Forall_cons in H as [? H] end;
    cbn [b64 app]; cbn [unb64].
  - destruct (unpack_bytes a 0 0) as (E & _ & _); [done|done|done|].
    rewrite !(proj1 (value_digit _ _)). simpl. by rewrite E.
  - destruct (unpack_bytes a b 0) as (E1 & E2 & _); [done|done|done|].
    rewrite !(proj1 (value_digit _ _)), !(proj2 (value_digit _ _)). simpl. by rewrite E1, E2.
  - destruct (unpack_bytes a b c) as (E1 & E2 & E3); [done|done|done|].
    rewrite !(proj1 (value_digit _ _)), !(proj2 (value_digit _ _)). cbn [mbind option_bind].
    rewrite (IH Hl). cbn [mbind option_bind]. by rewrite E1, E2, E3.
Qed.

(** Text after padding is refused. *)
Lemma unb64_padded l r : length l mod 3 ≠ 0 → r ≠ [] → unb64 (b64 l ++ r) = None.
Proof.
  intros Hl Hr. induction l as [|a|a b|a b c l IH] using bytes_ind3; [done|..]; cbn [b64 app]; cbn [unb64].
  - rewrite !(proj1 (value_digit _ _)). simpl. by destruct r.
  - rewrite !(proj1 (value_digit _ _)), !(proj2 (value_digit _ _)). simpl. by destruct r.
  - rewrite !(proj1 (value_digit _ _)), !(proj2 (value_digit _ _)). cbn [mbind option_bind].
    rewrite IH; [done|]. change (length (a :: b :: c :: l)) with (3 + length l) in Hl.
    intros E. apply Hl. by rewrite <-Nat.Div0.add_mod_idemp_r, E.
Qed.

(** C10. [base64_encode] is the encoding of RFC 4648 for inputs of fewer than 2^30 bytes,
    within buffers of the lengths it is told: when the buffer has room for the
    text and its NUL it writes exactly these and returns the length of the text, and
    otherwise it returns -1 and writes nothing; it never reads or writes outside its
    buffers, and the text decodes to the input. *)
Theorem base64_rfc4648 inb ilen out outlen :
  (0 ≤ ilen < 2 ^ 30)%Z → (ilen ≤ Z.of_nat (length inb))%Z → Forall is_byte inb → (outlen ≤ Z.of_nat (length out))%Z →
  let text := b64 (take (Z.to_nat ilen) inb) in
  base64_encode inb ilen out outlen =
    Ok (if (outlen <=? Z.of_nat (length text))%Z then ((-1)%Z, out)
        else (Z.of_nat (length text), text ++ 0%Z :: drop (length text + 1) out)) ∧
  unb64 text = Some (take (Z.to_nat ilen) inb).
Proof.
  intros Hi Hl Hb Ho text. split; [by apply base64_encode_ok|]. by apply unb64_b64, Forall_take.
Qed.

(** The first five bytes of a buffer of six. *)
Example base64_rfc4648_witness :
  base64_encode (lit "hello!") 5 (replicate 10 7%Z) 10 = Ok (8%Z, lit "aGVsbG8=" ++ [0%Z; 7%Z]) ∧
  unb64 (lit "aGVsbG8=") = Some (lit "hello").
Proof.
  refine (base64_rfc4648 (lit "hello!") 5 (replicate 10 7%Z) 10 _ _ _ _); [lia|vm_compute; discriminate| |vm_compute; discriminate].
  apply (bool_decide_unpack _). vm_compute. exact I.
Defined.
