(* ===== verification/Smtp.v ===== *)
(** * The SMTP client

    Languages/cpp/mail_wrapper/send_email.c: the loop that sends a buffer through
    partial writes, the dialogue of [main] with the server, and the two loops that send
    a file.  What [write] and [read] return, whether the calls that set up the
    connection succeed, and the files are inputs. *)

From S2P Require Import Prelude StrSplit HttpRequest Base64.
From Stdlib Require Import ZArith Lia.

(** ** The connection *)

(** Answers of the next [write]s (when there is none left, everything is written),
    answers of the next [read]s ([None] is an error), and what was written. *)
Record net := MkNet {
  writes : list Z;
  replies : list (option bytes);
  wire : bytes;
}.

(** A run ends with a value, in [exit] or [return] from [main], or is undefined. *)
Inductive outcome (A : Type) :=
  | Done (a : A) (w : net)
  | Exit (code : Z) (w : net)
  | Broken (e : err).
Arguments Done {A} a w.
Arguments Exit {A} code w.
Arguments Broken {A} e.

Definition prog (A : Type) : Type := net → outcome A.
#[global] Instance prog_ret : MRet prog := λ A a w, Done a w.
#[global] Instance prog_bind : MBind prog := λ A B f m w,
  match m w with Done a w => f a w | Exit c w => Exit c w | Broken e => Broken e end.
Definition lift {A} (r : result A) : prog A := λ w, match r with Ok a => Done a w | Err e => Broken e end.
Definition exit {A} (code : Z) : prog A := λ w, Exit code w.

(** [write(fd, data, n)]: an answer that is not positive is a failure. *)
Definition write (data : bytes) : prog Z := λ w,
  match writes w with
  | [] => Done (Z.of_nat (length data)) (MkNet [] (replies w) (wire w ++ data))
  | r :: ws =>
      if (r <=? 0)%Z then Done r (MkNet ws (replies w) (wire w))
      else let n := Nat.min (Z.to_nat r) (length data) in
           Done (Z.of_nat n) (MkNet ws (replies w) (wire w ++ take n data))
  end.

(** ** [send_socket] and [read_socket] *)

Fixpoint strlen (buf : bytes) : result Z :=
  match buf with
  | [] => Err Fault
  | c :: buf => if (c =? 0)%Z then Ok 0%Z else n ← strlen buf; Ok (n + 1)%Z
  end.

Fixpoint send_loop (fuel : nat) (out_buf : bytes) (count len : Z) : prog unit :=
  match fuel with
  | O => lift (Err OutOfFuel)
  | S fuel =>
      if (count <? len)%Z then
        if (len <=? Z.of_nat (length out_buf))%Z then
          ret ← write (slice (Z.to_nat count) (Z.to_nat (len - count)) out_buf);
          if (ret <=? 0)%Z then exit (-1) else send_loop fuel out_buf (count + ret) len
        else lift (Err Fault)
      else mret tt
  end.

Definition send_socket (out_buf : bytes) (size : Z) : prog unit :=
  len ← lift (if (size =? -1)%Z then strlen out_buf else Ok size);
  send_loop (S (Z.to_nat len)) out_buf 0 len.

(** A C string: its bytes and the terminating NUL. *)
Definition send_str (s : bytes) : prog unit := send_socket (s ++ [0%Z]) (-1).

Definition BUFSIZ : Z := 8192.

(** [buf[len] = 0] in a buffer of [BUFSIZ + 1] bytes, also when [read] failed. *)
Definition read_socket : prog unit := λ w,
  let '(answer, rest) := match replies w with [] => (Some [], []) | a :: rest => (a, rest) end in
  let len := match answer with Some data => Z.min (Z.of_nat (length data)) BUFSIZ | None => (-1)%Z end in
  if (0 <=? len)%Z && (len <=? BUFSIZ)%Z then Done tt (MkNet (writes w) rest (wire w)) else Broken Fault.

(** ** [main] *)

Definition IN_BUF_SIZE : Z := 4096.
Definition OUT_BUF_SIZE : Z := (Z.quot (IN_BUF_SIZE + 2) 3 * 4 + 1)%Z.
Definition FROM_IP : bytes := lit "zhangsan@sina.com".
Definition TO_IP : bytes := lit "zhangsan@sina.com".
Definition SUBJECT : bytes := lit "TestEmail".
Definition USER : bytes := FROM_IP.
Definition PASSWD : bytes := lit "passwd".
Definition DOC_FILE : bytes := lit "test.doc".

(** A file: the size that [ftell] tells, and the bytes that can be read. *)
Record file := MkFile { f_length : Z; f_bytes : bytes }.

(** [fread(in_buf, 1, IN_BUF_SIZE, fp)] *)
Definition fread (rest : bytes) : bytes * bytes :=
  (take (Z.to_nat IN_BUF_SIZE) rest, drop (Z.to_nat IN_BUF_SIZE) rest).

Fixpoint html_loop (fuel : nat) (length_ count : Z) (rest : bytes) : prog unit :=
  match fuel with
  | O => lift (Err OutOfFuel)
  | S fuel =>
      if (count <? length_)%Z then
        let '(in_buf, rest) := fread rest in
        let ret := Z.of_nat (length in_buf) in
        if (ret <=? 0)%Z then exit (-1)
        else _ ← send_socket in_buf ret; html_loop fuel length_ (count + ret) rest
      else mret tt
  end.

(** The attachment: the result of [fread] is not checked here. *)
Fixpoint doc_loop (fuel : nat) (length_ count : Z) (rest out_buf : bytes) : prog unit :=
  match fuel with
  | O => lift (Err OutOfFuel)
  | S fuel =>
      if (count <? length_)%Z then
        let '(in_buf, rest) := fread rest in
        let ret := Z.of_nat (length in_buf) in
        '(tmp_ret, out_buf) ← lift (base64_encode in_buf ret out_buf OUT_BUF_SIZE);
        if (tmp_ret =? -1)%Z then exit (-1)
        else _ ← send_socket out_buf tmp_ret; doc_loop fuel length_ (count + ret) rest out_buf
      else mret tt
  end.

(** The base64 text of a string literal, which is sent up to its NUL. *)
Definition send_base64 (s : bytes) (out_buf : bytes) : prog bytes :=
  len ← lift (strlen (s ++ [0%Z]));
  '(_, out_buf) ← lift (base64_encode (s ++ [0%Z]) len out_buf OUT_BUF_SIZE);
  _ ← send_socket out_buf (-1);
  mret out_buf.

Definition login (out_buf : bytes) : prog bytes :=
  _ ← read_socket;
  _ ← send_str (lit "HELO "); _ ← send_str FROM_IP; _ ← send_str crlf;
  _ ← read_socket;
  _ ← send_str (lit "AUTH LOGIN" ++ crlf);
  _ ← read_socket;
  out_buf ← send_base64 USER out_buf; _ ← send_str crlf;
  _ ← read_socket;
  out_buf ← send_base64 PASSWD out_buf; _ ← send_str crlf;
  _ ← read_socket;
  mret out_buf.

Definition envelope : prog unit :=
  _ ← send_str (lit "MAIL FROM <"); _ ← send_str FROM_IP; _ ← send_str (lit ">" ++ crlf);
  _ ← read_socket;
  _ ← send_str (lit "RCPT TO <"); _ ← send_str TO_IP; _ ← send_str (lit ">" ++ crlf);
  read_socket.

Definition head : prog unit :=
  _ ← send_str (lit "DATA" ++ crlf);
  _ ← read_socket;
  _ ← send_str (lit "FROM:<"); _ ← send_str FROM_IP; _ ← send_str (lit ">" ++ crlf);
  _ ← send_str (lit "TO:<"); _ ← send_str TO_IP; _ ← send_str (lit ">" ++ crlf);
  _ ← send_str (lit "SUBJECT:"); _ ← send_str SUBJECT; _ ← send_str crlf;
  _ ← send_str (lit "MIME-VERSION: 1.0" ++ crlf);
  send_str (lit "CONTENT-TYPE: MULTIPART/MIXED; BOUNDARY=" ++ [34%Z] ++ lit "#BOUNDARY#" ++ [34%Z] ++ crlf ++ crlf).

Definition html_part (html : option file) : prog unit :=
  _ ← send_str (lit "--#BOUNDARY#" ++ crlf);
  _ ← send_str (lit "CONTENT-TYPE: TEXT/HTML" ++ crlf ++ crlf);
  match html with
  | None => exit (-1)
  | Some f =>
      _ ← html_loop (S (length (f_bytes f))) (f_length f) 0 (f_bytes f);
      send_str (crlf ++ crlf)
  end.

Definition doc_part (fuel : nat) (doc : option file) (out_buf : bytes) : prog unit :=
  _ ← send_str (lit "--#BOUNDARY#" ++ crlf);
  _ ← send_str (lit "CONTENT-TYPE: APPLICATION/MSWORD; NAME="); _ ← send_str DOC_FILE; _ ← send_str crlf;
  _ ← send_str (lit "CONTENT-DISPOSITION: ATTACHMENT; FILENAME="); _ ← send_str DOC_FILE; _ ← send_str crlf;
  _ ← send_str (lit "CONTENT-TRANSFER-ENCODING:BASE64" ++ crlf ++ crlf);
  match doc with
  | None => exit (-1)
  | Some f => doc_loop fuel (f_length f) 0 (f_bytes f) out_buf
  end.

Definition finish : prog Z :=
  _ ← send_str (crlf ++ lit "." ++ crlf);
  _ ← read_socket;
  _ ← send_str (lit "QUIT" ++ crlf);
  _ ← read_socket;
  mret 0%Z.

(** [connected]: whether [socket], [gethostbyname] and [connect] succeed. *)
Definition main (fuel : nat) (connected : bool * bool * bool) (html doc : option file) : prog Z :=
  let '(sock, host, conn) := connected in
  if negb sock then exit (-1) else if negb host then exit (-1) else if negb conn then exit (-1)
  else
    out_buf ← login (replicate (Z.to_nat OUT_BUF_SIZE + 1) 0%Z);
    _ ← envelope; _ ← head; _ ← html_part html; _ ← doc_part fuel doc out_buf;
    finish.

(** ** What a part of the program sends *)

(** No call fails. *)
Definition good (w : net) : Prop := Forall (λ r, (0 < r)%Z) (writes w) ∧ Forall is_Some (replies w).

(** From any state without failures, the program sends [text], however the writes are
    cut, and returns a value with [Q]. *)
Definition sends {A} (p : prog A) (text : bytes) (Q : A → Prop) : Prop :=
  ∀ w, good w → ∃ a w', p w = Done a w' ∧ good w' ∧ wire w' = wire w ++ text ∧ Q a.

Lemma sends_ret {A} (a : A) (Q : A → Prop) : Q a → sends (mret a) [] Q.
Proof. intros HQ w Hw. exists a, w. rewrite app_nil_r. done. Qed.

Lemma sends_bind {A B} (p : prog A) (f : A → prog B) t1 t2 Q R :
  sends p t1 Q → (∀ a, Q a → sends (f a) t2 R) → sends (p ≫= f) (t1 ++ t2) R.
Proof.
  intros Hp Hf w Hw. destruct (Hp w Hw) as (a & w1 & E & Hw1 & E1 & HQ).
  destruct (Hf a HQ w1 Hw1) as (b & w2 & E' & Hw2 & E2 & HR).
  exists b, w2. split_and!; [|done| |done].
  - unfold mbind, prog_bind. by rewrite E.
  - by rewrite E2, E1, app_assoc.
Qed.

Lemma bind_broken {A B} (p : prog A) (f : A → prog B) w e : p w = Broken e → (p ≫= f) w = Broken e.
Proof. intros E. unfold mbind, prog_bind. by rewrite E. Qed.

Lemma sends_lift {A B} (r : result A) a (f : A → prog B) text Q :
  r = Ok a → sends (f a) text Q → sends (lift r ≫= f) text Q.
Proof. intros -> Hf w Hw. exact (Hf w Hw). Qed.

Lemma sends_then {A B} (p : prog A) (q : prog B) t1 t2 Q :
  sends p t1 (λ _, True) → sends q t2 Q → sends (p ≫= λ _, q) (t1 ++ t2) Q.
Proof. intros Hp Hq. by apply (sends_bind _ _ _ _ _ _ Hp). Qed.

Lemma sends_eq {A} (p : prog A) t t' Q : sends p t Q → t = t' → sends p t' Q.
Proof. by intros ? <-. Qed.

Lemma sends_read : sends read_socket [] (λ _, True).
Proof.
  intros w [Hw Hr]. unfold read_socket.
  assert (∃ data rest, match replies w with [] => (Some [], []) | a :: rest => (a, rest) end = (Some data, rest) ∧
    Forall is_Some rest) as (data & rest & -> & Hrest).
  { destruct (replies w) as [|a rest]; [by do 2 eexists|]. apply Forall_cons in Hr as [[data ->] Hr]. by do 2 eexists. }
  unfold BUFSIZ. rewrite !(proj2 (Z.leb_le _ _)) by lia. do 2 eexists. rewrite app_nil_r. done.
Qed.

Lemma write_good data w :
  good w → data ≠ [] →
  ∃ n w', write data w = Done (Z.of_nat n) w' ∧ 0 < n ≤ length data ∧ good w' ∧ wire w' = wire w ++ take n data.
Proof.
  intros [Hw Hr] Hd. unfold write. assert (0 < length data) by (destruct data; simpl in *; [done|lia]).
  destruct (writes w) as [|r ws].
  - do 2 eexists. split; [done|]. rewrite take_ge by lia. split_and!; [lia|lia|done|done].
  - apply Forall_cons in Hw as [Hr0 Hw]. rewrite (proj2 (Z.leb_gt _ _)) by lia.
    do 2 eexists. split; [done|]. split_and!; [lia|lia|done|done].
Qed.

Lemma slice_S {A} off n m (l : list A) : n ≤ m → off + m ≤ length l → slice off m l = slice off n l ++ slice (off + n) (m - n) l.
Proof.
  intros Hn Hm. unfold slice. rewrite <-(take_drop n (take m (drop off l))). rewrite take_take, Nat.min_l by done.
  f_equal. rewrite skipn_firstn_comm, drop_drop. done.
Qed.

Lemma send_loop_ok buf len fuel : ∀ count,
  (0 ≤ count ≤ len)%Z → (len ≤ Z.of_nat (length buf))%Z → (len - count < Z.of_nat fuel)%Z →
  sends (send_loop fuel buf count len) (slice (Z.to_nat count) (Z.to_nat (len - count)) buf) (λ _, True).
Proof.
  induction fuel as [|fuel IH]; intros count Hc Hlen Hf; [lia|]. cbn [send_loop].
  destruct (Z.ltb_spec count len) as [Hlt|]; [|replace (len - count)%Z with 0%Z by lia; by apply sends_ret].
  rewrite (proj2 (Z.leb_le _ _)) by lia. intros w Hw.
  set (data := slice _ _ buf). assert (Hd : length data = Z.to_nat (len - count)) by (apply length_slice; lia).
  destruct (write_good data w Hw) as (n & w1 & E & Hn & Hw1 & E1); [intros Hd0; rewrite Hd0 in Hd; simpl in Hd; lia|].
  destruct (IH (count + Z.of_nat n)%Z) with (w := w1) as (a & w2 & E' & Hw2 & E2 & _); [lia|lia|lia|done|].
  exists a, w2. split_and!; [|done| |done].
  - unfold mbind, prog_bind. rewrite E, (proj2 (Z.leb_gt _ _)) by lia. done.
  - rewrite E2, E1, <-app_assoc. f_equal. unfold data at 1. unfold slice at 1. rewrite take_take, Nat.min_l by lia.
    unfold data. rewrite (slice_S (Z.to_nat count) n (Z.to_nat (len - count))) by lia. do 2 f_equal; lia.
Qed.

Lemma send_socket_ok buf n : n ≤ length buf → sends (send_socket buf (Z.of_nat n)) (take n buf) (λ _, True).
Proof.
  intros Hn. unfold send_socket. rewrite (proj2 (Z.eqb_neq _ _)) by lia.
  apply (sends_lift _ (Z.of_nat n)); [done|]. eapply sends_eq; [apply send_loop_ok; lia|]. unfold slice. simpl. f_equal. lia.
Qed.

Lemma strlen_ok s rest : 0%Z ∉ s → strlen (s ++ 0%Z :: rest) = Ok (Z.of_nat (length s)).
Proof.
  induction s as [|c s IH]; intros Hs; [done|]. rewrite not_elem_of_cons in Hs. destruct Hs as [Hc Hs].
  cbn [app strlen]. rewrite (proj2 (Z.eqb_neq _ _)) by done. rewrite IH by done. cbn [mbind result_bind].
  f_equal. rewrite length_cons. lia.
Qed.

Lemma send_text_ok s rest : 0%Z ∉ s → sends (send_socket (s ++ 0%Z :: rest) (-1)) s (λ _, True).
Proof.
  intros Hs. apply (sends_lift _ (Z.of_nat (length s))); [by apply strlen_ok|].
  eapply sends_eq; [apply send_loop_ok; rewrite ?length_app; simpl; lia|].
  unfold slice. simpl. rewrite Z.sub_0_r, Nat2Z.id. apply take_app_length.
Qed.

(** ** The texts of the session *)

Definition no_nul (s : bytes) : bool := forallb (λ c, negb (c =? 0)%Z) s.

Lemma no_nul_spec s : no_nul s = true → 0%Z ∉ s.
Proof.
  intros Hs Hin. unfold no_nul in Hs. rewrite forallb_forall in Hs. apply list_elem_of_In, Hs in Hin. done.
Qed.

Lemma send_str_ok s : no_nul s = true → sends (send_str s) s (λ _, True).
Proof. intros Hs. by apply send_text_ok, no_nul_spec. Qed.

Definition mailbox (cmd who : bytes) : bytes := cmd ++ lit "<" ++ who ++ lit ">" ++ crlf.
Definition login_text : bytes :=
  lit "HELO " ++ FROM_IP ++ crlf ++ lit "AUTH LOGIN" ++ crlf ++ b64 USER ++ crlf ++ b64 PASSWD ++ crlf.
Definition envelope_text : bytes := mailbox (lit "MAIL FROM ") FROM_IP ++ mailbox (lit "RCPT TO ") TO_IP.
Definition head_text : bytes :=
  lit "DATA" ++ crlf ++ mailbox (lit "FROM:") FROM_IP ++ mailbox (lit "TO:") TO_IP ++ lit "SUBJECT:" ++ SUBJECT ++ crlf ++
  lit "MIME-VERSION: 1.0" ++ crlf ++
  lit "CONTENT-TYPE: MULTIPART/MIXED; BOUNDARY=" ++ [34%Z] ++ lit "#BOUNDARY#" ++ [34%Z] ++ crlf ++ crlf.
Definition html_text (html : bytes) : bytes :=
  lit "--#BOUNDARY#" ++ crlf ++ lit "CONTENT-TYPE: TEXT/HTML" ++ crlf ++ crlf ++ html ++ crlf ++ crlf.

(** The attachment is encoded in pieces of [IN_BUF_SIZE] bytes. *)
Fixpoint pieces (fuel : nat) (l : bytes) : bytes :=
  match fuel, l with
  | S fuel, _ :: _ => b64 (take (Z.to_nat IN_BUF_SIZE) l) ++ pieces fuel (drop (Z.to_nat IN_BUF_SIZE) l)
  | _, _ => []
  end.
Definition attachment (doc : bytes) : bytes := pieces (length doc) doc.
Definition doc_text (doc : bytes) : bytes :=
  lit "--#BOUNDARY#" ++ crlf ++ lit "CONTENT-TYPE: APPLICATION/MSWORD; NAME=" ++ DOC_FILE ++ crlf ++
  lit "CONTENT-DISPOSITION: ATTACHMENT; FILENAME=" ++ DOC_FILE ++ crlf ++
  lit "CONTENT-TRANSFER-ENCODING:BASE64" ++ crlf ++ crlf ++ attachment doc.
Definition finish_text : bytes := crlf ++ lit "." ++ crlf ++ lit "QUIT" ++ crlf.
Definition session_text (html doc : bytes) : bytes :=
  login_text ++ envelope_text ++ head_text ++ html_text html ++ doc_text doc ++ finish_text.

(** ** The parts of the session *)

Lemma letter_not_nul d : (0 ≤ d < 64)%Z → letter d ≠ 0%Z.
Proof.
  intros Hd. pose proof (all_digits (λ d, negb (letter d =? 0)%Z) ltac:(vm_compute; reflexivity) d Hd) as E.
  simpl in E. by bool_props.
Qed.

Lemma b64_not_nul l : 0%Z ∉ b64 l.
Proof.
  assert (Hd : ∀ n k, digit n k ≠ 0%Z) by (intros; apply letter_not_nul, Z.mod_pos_bound; lia).
  induction l as [|a|a b|a b c l IH] using bytes_ind3; cbn [b64 app];
    rewrite ?not_elem_of_cons; split_and?; by try apply not_elem_of_nil.
Qed.

Definition out_size (out_buf : bytes) : Prop := length out_buf = Z.to_nat OUT_BUF_SIZE + 1.

(** A piece that fits the buffers. *)
Lemma encode_piece inb n out_buf :
  n ≤ Z.to_nat IN_BUF_SIZE → n ≤ length inb → Forall is_byte inb → out_size out_buf →
  ∃ rest, let text := b64 (take n inb) in
    base64_encode inb (Z.of_nat n) out_buf OUT_BUF_SIZE = Ok (Z.of_nat (length text), text ++ 0%Z :: rest) ∧
    out_size (text ++ 0%Z :: rest).
Proof.
  unfold out_size. intros Hn Hin Hb Ho. pose proof (length_b64 (take n inb)) as Ht.
  rewrite length_take, Nat.min_l, Z.quot_div_nonneg in Ht by lia.
  change OUT_BUF_SIZE with 5465%Z in *. change IN_BUF_SIZE with 4096%Z in *.
  assert (Z.of_nat (length (b64 (take n inb))) ≤ 5464)%Z by (Z.div_mod_to_equations; lia).
  eexists. cbn zeta. rewrite base64_encode_ok; [|lia|lia|done|lia]. rewrite Nat2Z.id.
  rewrite (proj2 (Z.leb_gt _ _)) by lia. split; [done|].
  rewrite length_app, length_cons, length_drop. lia.
Qed.

Lemma send_base64_ok s out_buf :
  no_nul s = true → Forall is_byte s → length s ≤ 4096 → out_size out_buf → sends (send_base64 s out_buf) (b64 s) out_size.
Proof.
  intros Hs Hb Hl Ho. apply (sends_lift _ (Z.of_nat (length s))); [by apply strlen_ok, no_nul_spec|].
  destruct (encode_piece (s ++ [0%Z]) (length s) out_buf) as (rest & E & Hsize);
    [done|rewrite length_app; lia|apply Forall_app; split; [done|]; by repeat constructor|done|].
  rewrite take_app_length in *. apply (sends_lift _ _ _ _ _ E).
  eapply sends_eq; [|apply app_nil_r]. eapply sends_then; [apply send_text_ok, b64_not_nul|]. by apply sends_ret.
Qed.

Lemma length_fread rest : length (fread rest).1 + length (fread rest).2 = length rest.
Proof. unfold fread. simpl. rewrite length_take, length_drop. lia. Qed.

Lemma fread_some rest : rest ≠ [] → 0 < length (fread rest).1.
Proof.
  intros Hr. unfold fread, IN_BUF_SIZE. cbn [fst]. rewrite length_take. destruct rest; [done|]. rewrite length_cons. lia.
Qed.

Lemma html_loop_ok fuel : ∀ rest count length_,
  (length_ - count = Z.of_nat (length rest))%Z → length rest < fuel →
  sends (html_loop fuel length_ count rest) rest (λ _, True).
Proof.
  induction fuel as [|fuel IH]; intros rest count length_ Hc Hf; [lia|]. cbn [html_loop].
  destruct (Z.ltb_spec count length_).
  2: { destruct rest; [by apply sends_ret|simpl in Hc; lia]. }
  assert (Hne : rest ≠ []) by (intros ->; simpl in Hc; lia).
  pose proof (length_fread rest) as Hl. pose proof (fread_some rest Hne) as Hp. pose proof (take_drop (Z.to_nat IN_BUF_SIZE) rest) as Et.
  unfold fread in *. cbn [fst snd] in *. rewrite (proj2 (Z.leb_gt _ _)) by lia.
  eapply sends_eq; [|exact Et]. apply sends_then.
  - eapply sends_eq; [apply send_socket_ok; done|]. by apply take_ge.
  - apply IH; lia.
Qed.

Lemma pieces_nil fuel : pieces fuel [] = [].
Proof. by destruct fuel. Qed.

Lemma pieces_more fuel : ∀ fuel' l, length l ≤ fuel → length l ≤ fuel' → pieces fuel l = pieces fuel' l.
Proof.
  induction fuel as [|fuel IH]; intros fuel' l Hl Hl'.
  { destruct l; [by rewrite !pieces_nil|simpl in Hl; lia]. }
  destruct l as [|x l]; [by rewrite !pieces_nil|]. destruct fuel' as [|fuel']; [simpl in Hl'; lia|]. cbn [pieces]. f_equal.
  pose proof (length_fread (x :: l)) as E. pose proof (fread_some (x :: l) ltac:(done)) as E'. unfold fread in E, E'.
  cbn [fst snd] in *. rewrite length_cons in *. apply IH; lia.
Qed.

Lemma doc_loop_ok fuel : ∀ rest count length_ out_buf,
  (length_ - count = Z.of_nat (length rest))%Z → length rest < fuel → Forall is_byte rest → out_size out_buf →
  sends (doc_loop fuel length_ count rest out_buf) (attachment rest) (λ _, True).
Proof.
  induction fuel as [|fuel IH]; intros rest count length_ out_buf Hc Hf Hb Ho; [lia|]. cbn [doc_loop].
  destruct (Z.ltb_spec count length_).
  2: { destruct rest; [by apply sends_ret|simpl in Hc; lia]. }
  assert (Hne : rest ≠ []) by (intros ->; simpl in Hc; lia).
  pose proof (length_fread rest) as Hl. pose proof (fread_some rest Hne) as Hp.
  unfold fread in *. cbn [fst snd] in *. set (piece := take _ rest) in *.
  destruct (encode_piece piece (length piece) out_buf) as (more & E & Hsize); [|done|by apply Forall_take|done|].
  { unfold piece. rewrite length_take. lia. }
  rewrite (take_ge piece) in * by done. apply (sends_lift _ _ _ _ _ E). rewrite (proj2 (Z.eqb_neq _ _)) by lia.
  eapply sends_eq; [apply sends_then; [|apply IH]|].
  - eapply sends_eq; [apply send_socket_ok; rewrite length_app; lia|]. apply take_app_length.
  - lia.
  - lia.
  - by apply Forall_drop.
  - done.
  - unfold attachment. destruct rest as [|x rest]; [done|]. cbn [pieces length]. f_equal.
    apply pieces_more; rewrite ?length_cons in *; lia.
Qed.

(** When fewer bytes can be read than [ftell] told, the loop of the attachment goes on
    for ever, sending nothing. *)
Lemma doc_loop_stuck fuel : ∀ count length_ out_buf w,
  (count < length_)%Z → out_size out_buf → good w → doc_loop fuel length_ count [] out_buf w = Broken OutOfFuel.
Proof.
  induction fuel as [|fuel IH]; intros count length_ out_buf w Hc Ho Hw; [done|]. cbn [doc_loop].
  rewrite (proj2 (Z.ltb_lt _ _)) by done. unfold fread. rewrite take_nil, drop_nil. cbn [length].
  destruct (encode_piece [] 0 out_buf) as (more & E & Hsize); [lia|done|done|done|]. cbn [b64 take app length] in *.
  simpl Z.of_nat in *. rewrite E. change (doc_loop fuel length_ (count + 0) [] (0%Z :: more) w = Broken OutOfFuel).
  rewrite Z.add_0_r. by apply IH.
Qed.

(** Sends and reads in sequence; the texts are concatenated. *)
Ltac sends_seq :=
  repeat first
    [ eapply sends_then; [first [apply sends_read | apply send_str_ok; reflexivity]|]
    | apply sends_read | apply send_str_ok; reflexivity ].

Lemma login_ok out_buf : out_size out_buf → sends (login out_buf) login_text out_size.
Proof.
  intros Ho. unfold login. eapply sends_eq; [sends_seq; eapply sends_bind; [apply send_base64_ok; [reflexivity| | |done]|]|].
  - apply (bool_decide_unpack _). by vm_compute.
  - apply Nat.leb_le. by vm_compute.
  - intros out1 Ho1. sends_seq. eapply sends_bind; [apply send_base64_ok; [reflexivity| | |done]|].
    + apply (bool_decide_unpack _). by vm_compute.
    + apply Nat.leb_le. by vm_compute.
    + intros out2 Ho2. sends_seq. by apply sends_ret.
  - reflexivity.
Qed.

Lemma envelope_ok : sends envelope envelope_text (λ _, True).
Proof. unfold envelope. eapply sends_eq; [sends_seq|]. reflexivity. Qed.

Lemma head_ok : sends head head_text (λ _, True).
Proof. unfold head. eapply sends_eq; [sends_seq|]. reflexivity. Qed.

Lemma html_part_ok f :
  f_length f = Z.of_nat (length (f_bytes f)) → sends (html_part (Some f)) (html_text (f_bytes f)) (λ _, True).
Proof.
  intros Hl. unfold html_part. eapply sends_eq; [sends_seq; apply sends_then; [apply html_loop_ok; lia|sends_seq]|].
  unfold html_text. by rewrite <-!app_assoc.
Qed.

Lemma doc_part_ok fuel f out_buf :
  f_length f = Z.of_nat (length (f_bytes f)) → length (f_bytes f) < fuel → Forall is_byte (f_bytes f) → out_size out_buf →
  sends (doc_part fuel (Some f) out_buf) (doc_text (f_bytes f)) (λ _, True).
Proof.
  intros Hl Hf Hb Ho. unfold doc_part. eapply sends_eq; [sends_seq; apply doc_loop_ok; [lia|done|done|done]|].
  unfold doc_text. by rewrite <-!app_assoc.
Qed.

Lemma finish_ok : sends finish finish_text (λ r, r = 0%Z).
Proof. unfold finish. eapply sends_eq; [sends_seq; by apply sends_ret|]. reflexivity. Qed.

(** ** The theorems *)

Lemma attachment_cons doc :
  (IN_BUF_SIZE < Z.of_nat (length doc))%Z →
  ∃ r, r ≠ [] ∧ attachment doc = b64 (take (Z.to_nat IN_BUF_SIZE) doc) ++ r.
Proof.
  intros Hl. unfold attachment. destruct doc as [|x doc]; [done|]. cbn [pieces length]. eexists. split; [|done].
  assert (Hd : (0 < length (drop (Z.to_nat IN_BUF_SIZE) (x :: doc)))%nat) by (rewrite length_drop; unfold IN_BUF_SIZE in *; lia).
  destruct (drop (Z.to_nat IN_BUF_SIZE) (x :: doc)) as [|y l]; [simpl in Hd; lia|].
  destruct (length doc) as [|n] eqn:En; [rewrite length_cons, En in Hl; unfold IN_BUF_SIZE in Hl; lia|]. cbn [pieces].
  assert (Hne : b64 (take (Z.to_nat IN_BUF_SIZE) (y :: l)) ≠ []).
  { change (Z.to_nat IN_BUF_SIZE) with (S (Z.to_nat (IN_BUF_SIZE - 1))). cbn [take].
    by destruct (take _ l) as [|? [|? ?]]. }
  intros E. by apply app_eq_nil in E as [E _].
Qed.

(** C11. A session with a server that answers, with files that can be read, returns 0 and
    sends exactly the text of the session, login, envelope, head, page and attachment
    in this order, however [write] cuts it; a read that fails makes [read_socket] write
    before its buffer. *)
Theorem smtp_session fuel html doc w :
  f_length html = Z.of_nat (length (f_bytes html)) → f_length doc = Z.of_nat (length (f_bytes doc)) →
  length (f_bytes doc) < fuel → Forall is_byte (f_bytes doc) →
  (good w → ∃ w', main fuel (true, true, true) (Some html) (Some doc) w = Done 0%Z w' ∧
     wire w' = wire w ++ session_text (f_bytes html) (f_bytes doc)) ∧
  (∀ rest, replies w = None :: rest → main fuel (true, true, true) (Some html) (Some doc) w = Broken Fault).
Proof.
  intros Hh Hd Hf Hb. split.
  - intros Hw. assert (H : sends (main fuel (true, true, true) (Some html) (Some doc))
      (session_text (f_bytes html) (f_bytes doc)) (λ r, r = 0%Z)).
    { eapply sends_bind; [apply login_ok, length_replicate|]. intros out_buf Ho.
      apply sends_then; [apply envelope_ok|]. apply sends_then; [apply head_ok|].
      apply sends_then; [by apply html_part_ok|]. apply sends_then; [by apply doc_part_ok|]. apply finish_ok. }
    destruct (H w Hw) as (r & w' & E & _ & Ew & ->). by exists w'.
  - intros rest Hr. unfold main. cbn [negb]. do 2 apply bind_broken. unfold read_socket. by rewrite Hr.
Qed.

Lemma attachment_fits doc :
  Forall is_byte doc → (Z.of_nat (length doc) ≤ IN_BUF_SIZE)%Z → unb64 (attachment doc) = Some doc.
Proof.
  intros Hb Hl. rewrite <-(unb64_b64 doc Hb). f_equal. unfold attachment. destruct doc as [|x doc]; [done|].
  cbn [pieces length]. rewrite take_ge, drop_ge, pieces_nil by lia. apply app_nil_r.
Qed.

(** More fuel changes nothing. *)
Lemma doc_loop_more fuel : ∀ fuel' rest count length_ out_buf w a w',
  doc_loop fuel length_ count rest out_buf w = Done a w' → fuel ≤ fuel' →
  doc_loop fuel' length_ count rest out_buf w = doc_loop fuel length_ count rest out_buf w.
Proof.
  induction fuel as [|fuel IH]; intros [|fuel'] rest count length_ out_buf w a w' E Hf; try done; [lia|].
  cbn [doc_loop] in *. case_match; [|done]. unfold fread in *. unfold mbind, prog_bind in *.
  destruct (lift _ w) as [[tmp out1] w1| |]; [|done|done]. case_match; [done|].
  unfold mbind, prog_bind in *. destruct (send_socket _ _ w1) as [[] w2| |]; [|done|done].
  eapply IH; [exact E|lia].
Qed.

(** A file from which fewer bytes can be read than [ftell] told. *)
Lemma doc_loop_short fuel : ∀ rest count length_ out_buf w,
  (count + Z.of_nat (length rest) < length_)%Z → Forall is_byte rest → out_size out_buf → good w →
  doc_loop fuel length_ count rest out_buf w = Broken OutOfFuel.
Proof.
  induction fuel as [|fuel IH]; intros rest count length_ out_buf w Hc Hb Ho Hw; [done|].
  destruct rest as [|x rest]; [simpl in Hc; apply doc_loop_stuck; [lia|done|done]|].
  cbn [doc_loop]. rewrite (proj2 (Z.ltb_lt _ _)) by lia.
  pose proof (length_fread (x :: rest)) as Hl. unfold fread in *. cbn [fst snd] in *.
  set (piece := take _ (x :: rest)) in *.
  destruct (encode_piece piece (length piece) out_buf) as (more & E & Hsize); [|done|by apply Forall_take|done|].
  { unfold piece. rewrite length_take. lia. }
  rewrite (take_ge piece) in * by done. rewrite E. unfold mbind, prog_bind, lift.
  rewrite (proj2 (Z.eqb_neq _ _)) by lia.
  destruct (send_socket_ok (b64 piece ++ 0%Z :: more) (length (b64 piece))) with (w := w) as (a & w1 & E1 & Hw1 & _ & _);
    [rewrite length_app; lia|done|].
  rewrite E1. apply IH; [lia|by apply Forall_drop|done|done].
Qed.

(** C12. When no call fails and the file has the size that [ftell] told, the loop that sends
    the attachment ends, however the writes are cut; what it has put on the wire decodes
    to the file when the file fits the buffer of [IN_BUF_SIZE] bytes, and to nothing when
    it does not: 4096 is not a multiple of three, so that padding stands in the middle of
    the text.  When the file is shorter than [ftell] told, the loop does not end, whatever
    part of it there is to read. *)
Theorem attachment_decodes f out_buf w :
  Forall is_byte (f_bytes f) → out_size out_buf → good w →
  (f_length f = Z.of_nat (length (f_bytes f)) →
   ∃ text w', (∀ fuel, length (f_bytes f) < fuel → doc_loop fuel (f_length f) 0 (f_bytes f) out_buf w = Done tt w') ∧
     wire w' = wire w ++ text ∧
     unb64 text = if (f_length f <=? IN_BUF_SIZE)%Z then Some (f_bytes f) else None) ∧
  ((Z.of_nat (length (f_bytes f)) < f_length f)%Z →
   ∀ fuel, doc_loop fuel (f_length f) 0 (f_bytes f) out_buf w = Broken OutOfFuel).
Proof.
  intros Hb Ho Hw. split; [|intros Hl fuel; by apply doc_loop_short].
  intros Hl. exists (attachment (f_bytes f)).
  destruct (doc_loop_ok (S (length (f_bytes f))) (f_bytes f) 0 (f_length f) out_buf) with (w := w)
    as ([] & w' & E & _ & Ew & _); [lia|lia|done|done|done|].
  exists w'. split_and!; [|done|].
  - intros fuel Hf. rewrite <-E. eapply doc_loop_more; [exact E|lia].
  - rewrite Hl. destruct (Z.leb_spec (Z.of_nat (length (f_bytes f))) IN_BUF_SIZE); [by apply attachment_fits|].
    destruct (attachment_cons (f_bytes f)) as (r & Hr & ->); [done|]. apply unb64_padded; [|done].
    rewrite length_take, Nat.min_l by lia. by vm_compute.
Qed.

(** Writes of three and five bytes first, then whole buffers. *)
Definition sample_net : net := MkNet [3; 5; 1]%Z [Some (lit "220 ready"); Some []] [].
Definition sample_file (s : bytes) : file := MkFile (Z.of_nat (length s)) s.

Example smtp_session_witness :
  ∃ w', main 10 (true, true, true) (Some (sample_file (lit "<p>"))) (Some (sample_file (lit "doc"))) sample_net = Done 0%Z w' ∧
    wire w' = [] ++ session_text (lit "<p>") (lit "doc").
Proof.
  apply (smtp_session 10 (sample_file (lit "<p>")) (sample_file (lit "doc")) sample_net); [reflexivity|reflexivity| | |].
  - apply Nat.ltb_lt. reflexivity.
  - apply (bool_decide_unpack _). vm_compute. exact I.
  - split; [repeat constructor|]. apply Forall_cons. split; [by eexists|]. apply Forall_cons. split; [by eexists|]. by apply Forall_nil.
Defined.

Lemma bytes_ok (l : bytes) : forallb (λ b, (0 <=? b)%Z && (b <? 256)%Z) l = true → Forall is_byte l.
Proof.
  intros Hl. apply Forall_forall. intros b Hb%list_elem_of_In.
  pose proof (proj1 (forallb_forall _ _) Hl b Hb) as E. simpl in E. unfold is_byte. lia.
Qed.

Lemma sample_good : good sample_net.
Proof. split; [repeat constructor|]. repeat (apply Forall_cons; split; [by eexists|]). by apply Forall_nil. Qed.

(** A file that fits, one that does not, and one that has lost its last byte. *)
Example attachment_decodes_witness : let out := replicate (Z.to_nat OUT_BUF_SIZE + 1) 0%Z in
  (∃ text w', (∀ fuel, 3 < fuel → doc_loop fuel 3 0 (lit "doc") out sample_net = Done tt w') ∧
     wire w' = [] ++ text ∧ unb64 text = Some (lit "doc")) ∧
  (∃ text w', (∀ fuel, 4097 < fuel → doc_loop fuel 4097 0 (replicate 4097 65%Z) out sample_net = Done tt w') ∧
     wire w' = [] ++ text ∧ unb64 text = None) ∧
  ∀ fuel, doc_loop fuel 4 0 (lit "doc") out sample_net = Broken OutOfFuel.
Proof.
  assert (Hb : Forall is_byte (lit "doc")) by (apply bytes_ok; reflexivity).
  split; [|split].
  - exact (proj1 (attachment_decodes (sample_file (lit "doc")) _ _ Hb (length_replicate _ _) sample_good) eq_refl).
  - refine (proj1 (attachment_decodes (MkFile 4097 (replicate 4097 65%Z)) _ _ _ (length_replicate _ _) sample_good) eq_refl).
    apply bytes_ok. vm_compute. reflexivity.
  - refine (proj2 (attachment_decodes (MkFile 4 (lit "doc")) _ _ Hb (length_replicate _ _) sample_good) _). reflexivity.
Defined.
