(* ===== verification/MailCmd.v ===== *)
(** * The command line of the mail wrapper

    Languages/cpp/mail_wrapper/mail_wrapper.{h,cpp}: a [MailWrapper] is turned into a
    command for the shell, which [popen_mailx] runs.  The reference is how the shell
    reads a command line: [lex] follows the quoting rules of POSIX for the characters
    that the wrapper uses, and gives up on any other special character. *)

From S2P Require Import Prelude StrSplit HttpRequest.
From Stdlib Require Import ZArith Lia.

(** ** The code *)

Record MailWrapper := MkMail {
  smtp : bytes;
  smtp_auth : bytes;
  smtp_auth_user : bytes;
  smtp_auth_pass : bytes;
  subject : bytes;
  from : bytes;
  rcpts : list bytes;
}.

Definition is_vaild (m : MailWrapper) : bool :=
  if (length (from m) <=? 0)%nat then false else if (length (rcpts m) <=? 0)%nat then false else true.

Definition quote : bytes := [39%Z].
Definition dquote : bytes := [34%Z].

(** The loop over the recipients. *)
Fixpoint add_rcpts (shell : bytes) (rs : list bytes) : bytes :=
  match rs with
  | [] => shell
  | r :: rs => add_rcpts (if (0 <? length r)%nat then shell ++ lit " " ++ dquote ++ r ++ dquote else shell) rs
  end.

Definition format_auth (m : MailWrapper) : bytes :=
  let shell :=
    lit "mail -s " ++ quote ++ subject m ++ quote
    ++ lit " -S sendwait"
    ++ lit " -S " ++ quote ++ lit "from=" ++ from m ++ quote
    ++ lit " -S smtp=" ++ quote ++ smtp m ++ quote
    ++ lit " -S smtp-auth=" ++ quote ++ smtp_auth m ++ quote
    ++ lit " -S smtp-auth-user=" ++ quote ++ smtp_auth_user m ++ quote
    ++ lit " -S smtp-auth-password=" ++ quote ++ smtp_auth_pass m ++ quote in
  add_rcpts shell (rcpts m).

Definition to_echo_fmt (text : bytes) (m : MailWrapper) : bytes :=
  lit "echo " ++ quote ++ text ++ quote ++ lit " | " ++ format_auth m.

Definition to_file_fmt (filename : bytes) (m : MailWrapper) : bytes := format_auth m ++ lit " < " ++ filename.

(** [popen_mailx]: [popen] gives the output of the command and the status that [pclose]
    returns, or fails.  The result and the new error message. *)
Definition popen_mailx (popen : bytes → option (bytes * Z)) (cmd errmsg : bytes) : bool * bytes :=
  match popen (cmd ++ lit " 2>&1") with
  | None => (false, lit "popen() failed!")
  | Some (output, rc) =>
      let buffer := take 255 output in
      let buffer := (λ c, if (c =? 0)%Z then 32%Z else c) <$> buffer in
      if (0 <? length buffer)%nat then (false, buffer) else (true, errmsg)
  end.

(** ** The shell *)

Inductive tok := Word (w : bytes) | Pipe | Less.
Inductive mode := Plain | Single | Double.

(** Letters, digits and the characters that are never special. *)
Definition plain (c : Z) : bool :=
  (65 <=? c)%Z && (c <=? 90)%Z || (97 <=? c)%Z && (c <=? 122)%Z || (48 <=? c)%Z && (c <=? 57)%Z ||
  bool_decide (c ∈ lit "-_=./@,:+%").
Definition expands (c : Z) : bool := bool_decide (c ∈ [34; 36; 92; 96]%Z).

Definition end_word (cur : option bytes) : list tok := match cur with Some w => [Word w] | None => [] end.
Definition extend (cur : option bytes) (s : bytes) : option bytes := Some (default [] cur ++ s).

(** [cur] is the word that is being read. *)
Fixpoint lex (md : mode) (cur : option bytes) (s : bytes) : option (list tok) :=
  match s with
  | [] => match md with Plain => Some (end_word cur) | _ => None end
  | c :: s =>
      match md with
      | Single => if (c =? 39)%Z then lex Plain cur s else lex Single (extend cur [c]) s
      | Double =>
          if (c =? 34)%Z then lex Plain cur s
          else if expands c then None else lex Double (extend cur [c]) s
      | Plain =>
          if (c =? 32)%Z then app (end_word cur) <$> lex Plain None s
          else if (c =? 39)%Z then lex Single (extend cur []) s
          else if (c =? 34)%Z then lex Double (extend cur []) s
          else if (c =? 124)%Z then app (end_word cur ++ [Pipe]) <$> lex Plain None s
          else if (c =? 60)%Z then app (end_word cur ++ [Less]) <$> lex Plain None s
          else if plain c then lex Plain (extend cur [c]) s
          else None
      end
  end.

(** ** Reading what was quoted *)

Lemma extend_app cur s t : extend (extend cur s) t = extend cur (s ++ t).
Proof. unfold extend. simpl. by rewrite app_assoc. Qed.

Lemma lex_plain s rest : ∀ cur, s ≠ [] → forallb plain s = true → lex Plain cur (s ++ rest) = lex Plain (extend cur s) rest.
Proof.
  induction s as [|c s IH]; intros cur Hne Hs; [done|]. cbn [forallb] in Hs. apply andb_true_iff in Hs as [Hc Hs].
  assert (Hp : ∀ d, plain d = false → (c =? d)%Z = false) by (intros d Hd; apply Z.eqb_neq; congruence).
  cbn [app lex]. rewrite !Hp by reflexivity. rewrite Hc. destruct s as [|c' s]; [done|].
  rewrite IH by done. by rewrite extend_app.
Qed.

Lemma lex_single s rest : ∀ cur, 39%Z ∉ s → lex Single (Some cur) (s ++ quote ++ rest) = lex Plain (Some (cur ++ s)) rest.
Proof.
  induction s as [|c s IH]; intros cur Hs; [by rewrite app_nil_r|]. rewrite not_elem_of_cons in Hs. destruct Hs as [Hc Hs].
  cbn [app lex]. rewrite (proj2 (Z.eqb_neq _ _)) by done. unfold extend. simpl. rewrite IH by done. by rewrite <-app_assoc.
Qed.

Lemma lex_quoted s rest cur : 39%Z ∉ s → lex Plain cur (quote ++ s ++ quote ++ rest) = lex Plain (extend cur s) rest.
Proof.
  intros Hs. transitivity (lex Single (Some (default [] cur ++ [])) (s ++ quote ++ rest)); [done|].
  rewrite lex_single by done. by rewrite app_nil_r.
Qed.

Lemma lex_double s rest : ∀ cur,
  forallb (λ c, negb (expands c)) s = true →
  lex Double (Some cur) (s ++ dquote ++ rest) = lex Plain (Some (cur ++ s)) rest.
Proof.
  induction s as [|c s IH]; intros cur Hs; [by rewrite app_nil_r|]. cbn [forallb] in Hs.
  apply andb_true_iff in Hs as [Hc Hs]. apply negb_true_iff in Hc. cbn [app lex].
  assert ((c =? 34)%Z = false) as ->. { apply Z.eqb_neq. intros ->. done. }
  rewrite Hc. unfold extend. simpl. rewrite IH by done. by rewrite <-app_assoc.
Qed.

Lemma lex_dquoted s rest cur :
  forallb (λ c, negb (expands c)) s = true →
  lex Plain cur (dquote ++ s ++ dquote ++ rest) = lex Plain (extend cur s) rest.
Proof.
  intros Hs. transitivity (lex Double (Some (default [] cur ++ [])) (s ++ dquote ++ rest)); [done|].
  rewrite lex_double by done. by rewrite app_nil_r.
Qed.

Lemma lex_space cur rest : lex Plain cur (lit " " ++ rest) = app (end_word cur) <$> lex Plain None rest.
Proof. done. Qed.

(** After a word, [rest] is read as [toks]. *)
Definition reads (rest : bytes) (toks : list tok) : Prop := ∀ w, lex Plain (Some w) rest = Some (Word w :: toks).

Lemma reads_nil : reads [] [].
Proof. done. Qed.

Lemma reads_opt name v rest toks :
  name ≠ [] → forallb plain name = true → 39%Z ∉ v → reads rest toks →
  reads (lit " -S " ++ name ++ quote ++ v ++ quote ++ rest) (Word (lit "-S") :: Word (name ++ v) :: toks).
Proof.
  intros Hne Hn Hv Hr w. change (lit " -S ") with (lit " " ++ lit "-S" ++ lit " "). rewrite <-!app_assoc.
  rewrite lex_space, lex_plain, lex_space, lex_plain, lex_quoted by done. unfold extend. simpl. by rewrite Hr.
Qed.

Lemma reads_qopt v rest toks :
  39%Z ∉ v → reads rest toks →
  reads (lit " -S " ++ quote ++ v ++ quote ++ rest) (Word (lit "-S") :: Word v :: toks).
Proof.
  intros Hv Hr w. change (lit " -S ") with (lit " " ++ lit "-S" ++ lit " "). rewrite <-!app_assoc.
  rewrite lex_space, lex_plain, lex_space, lex_quoted by done. unfold extend. simpl. by rewrite Hr.
Qed.

Lemma reads_word s rest toks :
  s ≠ [] → forallb plain s = true → reads rest toks → reads (lit " " ++ s ++ rest) (Word s :: toks).
Proof. intros Hne Hs Hr w. rewrite lex_space, lex_plain by done. unfold extend. simpl. by rewrite Hr. Qed.

Lemma reads_pipe rest toks :
  lex Plain None rest = Some toks → reads (lit " | " ++ rest) (Pipe :: toks).
Proof.
  intros Hr w. change (lit " | " ++ rest) with (lit " " ++ [124%Z] ++ lit " " ++ rest). rewrite lex_space.
  cbn [app lex]. simpl Z.eqb. cbn iota. rewrite lex_space, Hr. done.
Qed.

Lemma reads_less rest toks :
  lex Plain None rest = Some toks → reads (lit " < " ++ rest) (Less :: toks).
Proof.
  intros Hr w. change (lit " < " ++ rest) with (lit " " ++ [60%Z] ++ lit " " ++ rest). rewrite lex_space.
  cbn [app lex]. simpl Z.eqb. cbn iota. rewrite lex_space, Hr. done.
Qed.

(** ** The command of a mail *)

Definition no_expand (s : bytes) : bool := forallb (λ c, negb (expands c)) s.

Definition rcpts_text (rs : list bytes) : bytes :=
  concat ((λ r, if (0 <? length r)%nat then lit " " ++ dquote ++ r ++ dquote else []) <$> rs).

Lemma add_rcpts_app rs : ∀ shell, add_rcpts shell rs = shell ++ rcpts_text rs.
Proof.
  induction rs as [|r rs IH]; intros shell; [by rewrite app_nil_r|]. cbn [add_rcpts]. rewrite IH.
  unfold rcpts_text. rewrite fmap_cons. cbn [concat]. case_match; [by rewrite <-!app_assoc|done].
Qed.

Definition rcpt_words (rs : list bytes) : list tok := Word <$> filter (λ r, r ≠ []) rs.

Lemma reads_rcpts rs rest toks :
  Forall (λ r, no_expand r = true) rs → reads rest toks → reads (rcpts_text rs ++ rest) (rcpt_words rs ++ toks).
Proof.
  intros Hrs Hr. induction Hrs as [|r rs Hc _ IH]; [done|]. unfold rcpts_text, rcpt_words in *.
  rewrite fmap_cons. cbn [concat]. destruct r as [|c r]; [done|]. rewrite filter_cons_True by done.
  change (0 <? length (c :: r))%nat with true. cbn iota. intros w. rewrite <-!app_assoc, lex_space.
  rewrite lex_dquoted by done. simpl default. cbn [app]. unfold extend. by rewrite IH.
Qed.

(** The words the fields are meant to be. *)
Definition opt (name : string) (v : bytes) : list tok := [Word (lit "-S"); Word (lit name ++ v)].
Definition mail_words (m : MailWrapper) : list tok :=
  [Word (lit "mail"); Word (lit "-s"); Word (subject m); Word (lit "-S"); Word (lit "sendwait")] ++
  opt "from=" (from m) ++ opt "smtp=" (smtp m) ++ opt "smtp-auth=" (smtp_auth m) ++
  opt "smtp-auth-user=" (smtp_auth_user m) ++ opt "smtp-auth-password=" (smtp_auth_pass m) ++ rcpt_words (rcpts m).

Record clean (m : MailWrapper) : Prop := {
  clean_fields : Forall (λ f, 39%Z ∉ f) [subject m; from m; smtp m; smtp_auth m; smtp_auth_user m; smtp_auth_pass m];
  clean_rcpts : Forall (λ r, no_expand r = true) (rcpts m);
}.

Lemma format_auth_words m rest toks :
  clean m → reads rest toks → lex Plain None (format_auth m ++ rest) = Some (mail_words m ++ toks).
Proof.
  intros [Hf Hrs] Hr. unfold format_auth. rewrite add_rcpts_app, <-!app_assoc.
  repeat match goal with H : Forall _ (_ :: _) |- _ => apply Forall_cons in H as [? H] end.
  change (lit "mail -s ") with (lit "mail" ++ lit " " ++ lit "-s" ++ lit " "). rewrite <-!app_assoc.
  rewrite lex_plain, lex_space, lex_plain, lex_space, lex_quoted by done. unfold extend. simpl default. cbn [app].
  change (lit " -S sendwait") with (lit " " ++ lit "-S" ++ lit " " ++ lit "sendwait").
  change (lit " -S smtp=") with (lit " -S " ++ lit "smtp=").
  change (lit " -S smtp-auth=") with (lit " -S " ++ lit "smtp-auth=").
  change (lit " -S smtp-auth-user=") with (lit " -S " ++ lit "smtp-auth-user=").
  change (lit " -S smtp-auth-password=") with (lit " -S " ++ lit "smtp-auth-password="). rewrite <-!app_assoc.
  erewrite reads_word; [| | |apply reads_word]; [reflexivity|done|done|done|done|].
  rewrite (app_assoc (lit "from=")). apply reads_qopt; [rewrite not_elem_of_app; split; [|done];
    intros Hin; apply list_elem_of_In in Hin; vm_compute in Hin; intuition discriminate|].
  apply reads_opt; [done|done|done|]. apply reads_opt; [done|done|done|]. apply reads_opt; [done|done|done|].
  apply reads_opt; [done|done|done|]. by apply reads_rcpts.
Qed.

Lemma echo_words text rest toks :
  39%Z ∉ text → reads rest toks →
  lex Plain None (lit "echo " ++ quote ++ text ++ quote ++ rest) = Some (Word (lit "echo") :: Word text :: toks).
Proof.
  intros Ht Hr. change (lit "echo ") with (lit "echo" ++ lit " "). rewrite <-app_assoc.
  rewrite lex_plain, lex_space, lex_quoted by done. unfold extend. simpl default. cbn [app]. by rewrite Hr.
Qed.

(** The word ends at the first quote of the text; the shell reads on from there. *)
Lemma echo_quote pre after rest :
  39%Z ∉ pre →
  lex Plain None (lit "echo " ++ quote ++ (pre ++ quote ++ after) ++ quote ++ rest) =
    app [Word (lit "echo")] <$> lex Plain (Some pre) (after ++ quote ++ rest).
Proof.
  intros Hp. change (lit "echo ") with (lit "echo" ++ lit " "). rewrite <-!app_assoc.
  by rewrite lex_plain, lex_space, lex_quoted.
Qed.

(** C38. The shell reads the command of a mail as the words that the fields are, when no
    field contains a single quote and no recipient a character that is special between
    double quotes: one word each for the text, if it has no single quote, the subject, the
    options and the non-empty recipients; and one for the name of a file, if it is not
    empty and consists of letters, digits and the characters -_=./@,:+%.  A text with a
    quote ends its word at the first one, and the shell reads what follows as part of the
    command line, up to the closing quote and beyond: so a quote, a bar, a command name of
    such plain characters, a space and a quote make a text that runs that command. *)
Theorem mail_command_words m text filename :
  clean m →
  (39%Z ∉ text →
   lex Plain None (to_echo_fmt text m) = Some ([Word (lit "echo"); Word text; Pipe] ++ mail_words m)) ∧
  (filename ≠ [] → forallb plain filename = true →
   lex Plain None (to_file_fmt filename m) = Some (mail_words m ++ [Less; Word filename])) ∧
  (∀ pre after, text = pre ++ quote ++ after → 39%Z ∉ pre →
   lex Plain None (to_echo_fmt text m) =
     app [Word (lit "echo")] <$> lex Plain (Some pre) (after ++ quote ++ lit " | " ++ format_auth m)) ∧
  (∀ pre cmd, text = pre ++ quote ++ lit " | " ++ cmd ++ lit " " ++ quote → 39%Z ∉ pre →
   cmd ≠ [] → forallb plain cmd = true →
   lex Plain None (to_echo_fmt text m) =
     Some ([Word (lit "echo"); Word pre; Pipe; Word cmd; Word []; Pipe] ++ mail_words m)).
Proof.
  intros Hm. assert (Hmail : lex Plain None (format_auth m) = Some (mail_words m)).
  { rewrite <-(app_nil_r (format_auth m)), <-(app_nil_r (mail_words m)). by apply format_auth_words, reads_nil. }
  unfold to_echo_fmt, to_file_fmt. split_and!.
  - intros Ht. apply echo_words; [done|]. by apply reads_pipe.
  - intros Hne Hf. apply format_auth_words; [done|]. apply reads_less.
    rewrite <-(app_nil_r filename) at 1. by rewrite lex_plain.
  - intros pre after -> Hp. by apply echo_quote.
  - intros pre cmd -> Hp Hne Hc. rewrite echo_quote by done. rewrite <-!app_assoc.
    erewrite reads_pipe; [done|]. rewrite lex_plain, lex_space by done.
    rewrite <-(app_nil_l (quote ++ lit " | " ++ format_auth m)).
    rewrite lex_quoted by apply not_elem_of_nil. unfold extend. simpl default. cbn [app].
    erewrite reads_pipe by exact Hmail. done.
Qed.

Definition sample_mail : MailWrapper :=
  MkMail (lit "smtp.163.com") (lit "login") (lit "a@b.c") (lit "secret pass") (lit "Hello you") (lit "nick<a@b.c>")
    [lit "x@y.z"; []; lit "u@v.w"].

Example mail_command_words_witness :
  lex Plain None (to_echo_fmt (lit "two words") sample_mail) =
    Some ([Word (lit "echo"); Word (lit "two words"); Pipe] ++ mail_words sample_mail) ∧
  lex Plain None (to_echo_fmt (lit "x" ++ quote ++ lit " | y " ++ quote) sample_mail) =
    Some ([Word (lit "echo"); Word (lit "x"); Pipe; Word (lit "y"); Word []; Pipe] ++ mail_words sample_mail).
Proof.
  assert (Hm : clean sample_mail) by (split; apply (bool_decide_unpack _); vm_compute; exact I).
  split.
  - apply (mail_command_words sample_mail (lit "two words") [] Hm). apply (bool_decide_unpack _). vm_compute. exact I.
  - apply (mail_command_words sample_mail _ [] Hm); [reflexivity| |discriminate|reflexivity].
    apply (bool_decide_unpack _). vm_compute. exact I.
Defined.

(** [popen_mailx] succeeds exactly when the command prints nothing, whatever its exit
    status is; the message is at most 255 bytes and has no NUL. *)
Lemma popen_mailx_spec popen cmd errmsg output rc :
  popen (cmd ++ lit " 2>&1") = Some (output, rc) →
  let '(ok, msg) := popen_mailx popen cmd errmsg in
  (ok = true ↔ output = []) ∧ (output ≠ [] → length msg ≤ 255 ∧ 0%Z ∉ msg).
Proof.
  intros E. unfold popen_mailx. rewrite E. destruct output as [|c output]; [done|].
  cbn [take fmap list_fmap length]. simpl (_ <? _)%nat. cbn iota. split; [done|]. intros _. split.
  - rewrite length_cons, length_fmap, length_take. lia.
  - rewrite not_elem_of_cons. split; [case_match; bool_props; lia|].
    intros (x & Hx & _)%list_elem_of_fmap. case_match; bool_props; lia.
Qed.
