(* ===== verification/Epoll.v ===== *)
(** * The epoll servers

    IO/epoll_lt_et.c and IO/epoll_test.c: a server that accepts connections and reads
    them with [epoll], level or edge triggered.  The sockets of the kernel and the clients
    that connect, send, close and reset are part of the state; the server and the clients
    take turns in any order, so that data can arrive between two calls of [recv].  What
    the programs print is left out. *)

From S2P Require Import Prelude.
From Stdlib Require Import ZArith Lia.
From stdpp Require Import gmap.

(** ** The kernel *)

Abbreviation bytes := (list Z).

Definition MAX_BUFFER_SIZE : nat := 5.
Definition MAX_EPOLL_EVENTS : nat := 20.
Definition EPOLL_LT : Z := 0.
Definition EPOLL_ET : Z := 1.
Definition FD_BLOCK : Z := 0.
Definition FD_NONBLOCK : Z := 1.
Definition EAGAIN : Z := 11.
Definition ECONNRESET : Z := 104.

(** A connection: what the client has sent, what [recv] has returned, what is buffered,
    whether the client has closed or reset it; [O_NONBLOCK]; and, for edge triggering,
    whether an event is to be reported. *)
Record conn := MkConn {
  c_sent : bytes;
  c_got : bytes;
  c_unread : bytes;
  c_eof : bool;
  c_err : bool;
  c_nonblock : bool;
  c_edge : bool;
}.

Definition readable (c : conn) : bool := negb (bool_decide (c_unread c = [])) || c_eof c || c_err c.

(** The return value of [recv]: a count with the bytes, -1 with [errno], or it does not
    return. *)
Inductive recv_ret := Ret (data : bytes) | Fail (errno : Z) | Blocks.

Definition recv (c : conn) : recv_ret * conn :=
  match c_unread c with
  | _ :: _ =>
      let d := take MAX_BUFFER_SIZE (c_unread c) in
      (Ret d, MkConn (c_sent c) (c_got c ++ d) (drop MAX_BUFFER_SIZE (c_unread c)) (c_eof c) (c_err c) (c_nonblock c) (c_edge c))
  | [] => (if c_err c then Fail ECONNRESET else if c_eof c then Ret []
           else if c_nonblock c then Fail EAGAIN else Blocks, c)
  end.

(** ** Reading a connection *)

(** What an iteration does next: again, leave the loop, or leave it with the socket
    closed; [None] when [recv] does not return. *)
Inductive next := Again | Break | Closed.

Definition epoll_level_trigger (c : conn) : option (next * conn) :=
  match recv c with
  | (Ret (_ :: _), c) => Some (Break, c)
  | (Ret [], c) | (Fail _, c) => Some (Closed, c)
  | (Blocks, _) => None
  end.

(** One iteration of [epoll_et_loop]. *)
Definition epoll_et_loop (c : conn) : option (next * conn) :=
  match recv c with
  | (Fail errno, c) => Some (if (errno =? EAGAIN)%Z then Break else Closed, c)
  | (Ret [], c) => Some (Closed, c)
  | (Ret (_ :: _), c) => Some (Again, c)
  | (Blocks, _) => None
  end.

Definition epoll_et_once (c : conn) : option (next * conn) :=
  match recv c with
  | (Ret (_ :: _), c) => Some (Break, c)
  | (Ret [], c) | (Fail _, c) => Some (Closed, c)
  | (Blocks, _) => None
  end.

(** ** The server *)

(** An event of [epoll_wait]: on the listening socket, with the descriptor the kernel
    will give to [accept] if it has one, or on a connection. *)
Inductive event := EvListen (newfd : option nat) | EvConn (fd : nat) (pollin : bool).
#[global] Instance event_eq_dec : EqDecision event.
Proof. solve_decision. Defined.

Inductive pc := Wait | Events (evs : list event) | Reading (fd : nat) (evs : list event) | Exited.

Record server := MkServer {
  s_backlog : list conn;                  (* connected, not accepted *)
  s_ledge : bool;                         (* event to report on the listening socket *)
  s_conns : gmap nat conn;
  s_closed : list conn;                   (* closed by the server *)
  s_pc : pc;
}.

Definition set_pc (p : pc) (s : server) : server := MkServer (s_backlog s) (s_ledge s) (s_conns s) (s_closed s) p.
Definition set_conn (fd : nat) (c : conn) (s : server) : server :=
  MkServer (s_backlog s) (s_ledge s) (<[fd := c]> (s_conns s)) (s_closed s) (s_pc s).

(** [close] also takes the descriptor out of the epoll set. *)
Definition close_conn (fd : nat) (c : conn) (s : server) : server :=
  MkServer (s_backlog s) (s_ledge s) (delete fd (s_conns s)) (s_closed s ++ [c]) (s_pc s).

Definition set_nonblock (c : conn) : conn :=
  MkConn (c_sent c) (c_got c) (c_unread c) (c_eof c) (c_err c) true (c_edge c).

(** Adding a descriptor reports what is already there. *)
Definition addfd_to_epoll (block_type : Z) (c : conn) : conn :=
  let c := if (block_type =? FD_NONBLOCK)%Z then set_nonblock c else c in
  MkConn (c_sent c) (c_got c) (c_unread c) (c_eof c) (c_err c) (c_nonblock c) (readable c).

(** [accept] and the registration of the connection: [connfd] is -1 when there is no
    connection or no descriptor, and then [epoll_ctl] fails. *)
Definition accept_event (block_type : Z) (newfd : option nat) (s : server) : server :=
  match s_backlog s, newfd with
  | c :: b, Some fd =>
      if decide (s_conns s !! fd = None)
      then MkServer b (s_ledge s) (<[fd := addfd_to_epoll block_type c]> (s_conns s)) (s_closed s) (s_pc s)
      else s
  | _, _ => s
  end.

Definition read_conn (epoll_type : Z) (c : conn) : option (next * conn) :=
  if (epoll_type =? EPOLL_LT)%Z then epoll_level_trigger c
  else if (epoll_type =? EPOLL_ET)%Z then epoll_et_loop c
  else Some (Break, c).

(** One turn of the loop of [epoll_process] over the events, or of a loop it calls. *)
Definition epoll_process (epoll_type block_type : Z) (s : server) : option server :=
  match s_pc s with
  | Events [] => Some (set_pc Wait s)
  | Events (EvListen newfd :: evs) => Some (set_pc (Events evs) (accept_event block_type newfd s))
  | Events (EvConn fd pollin :: evs) => Some (set_pc (if pollin then Reading fd evs else Events evs) s)
  | Reading fd evs =>
      c ← s_conns s !! fd;
      '(nx, c) ← read_conn epoll_type c;
      Some (match nx with
            | Again => set_conn fd c s
            | Break => set_pc (Events evs) (set_conn fd c s)
            | Closed => set_pc (Events evs) (close_conn fd c s)
            end)
  | Wait | Exited => None
  end.

(** ** Waiting *)

(** Whether [epoll_wait] can report an event, the listening socket edge triggered as
    [main] registers it. *)
Definition ready (epoll_type : Z) (s : server) (e : event) : bool :=
  match e with
  | EvListen _ => s_ledge s && negb (bool_decide (s_backlog s = []))
  | EvConn fd pollin =>
      match s_conns s !! fd with
      | Some c => pollin && readable c && (negb (epoll_type =? EPOLL_ET)%Z || c_edge c)
      | None => false
      end
  end.

Definition is_listen (e : event) : bool := match e with EvListen _ => true | _ => false end.
Definition ev_fds (evs : list event) : list nat := omap (λ e, match e with EvConn fd _ => Some fd | _ => None end) evs.

(** [None]: [epoll_wait] fails, and [err_exit] ends the process.  The events of an edge
    triggered descriptor are then gone. *)
Definition clear_edge (c : conn) : conn :=
  MkConn (c_sent c) (c_got c) (c_unread c) (c_eof c) (c_err c) (c_nonblock c) false.

Definition epoll_wait (max_events : nat) (epoll_type : Z) (r : option (list event)) (s : server) : option server :=
  match s_pc s, r with
  | Wait, None => Some (set_pc Exited s)
  | Wait, Some evs =>
      if negb (bool_decide (evs = [])) && (length evs <=? max_events)%nat && forallb (ready epoll_type s) evs &&
         bool_decide (NoDup (ev_fds evs)) && (length (filter is_listen evs) <=? 1)%nat
      then Some (MkServer (s_backlog s) (s_ledge s && negb (existsb is_listen evs))
                   (foldr (λ fd m, alter clear_edge fd m) (s_conns s) (ev_fds evs)) (s_closed s) (Events evs))
      else None
  | _, _ => None
  end.

(** ** The clients *)

Inductive client := Connect | Send (data : bytes) | Shut | ResetConn.

Definition new_conn : conn := MkConn [] [] [] false false false false.

Definition client_conn (a : client) (c : conn) : option conn :=
  if c_eof c || c_err c then None else
  match a with
  | Connect => None
  | Send [] => None
  | Send d => Some (MkConn (c_sent c ++ d) (c_got c) (c_unread c ++ d) (c_eof c) (c_err c) (c_nonblock c) true)
  | Shut => Some (MkConn (c_sent c) (c_got c) (c_unread c) true (c_err c) (c_nonblock c) true)
  | ResetConn => Some (MkConn (c_sent c) (c_got c) (c_unread c) (c_eof c) true (c_nonblock c) true)
  end.

Inductive who := Waiting (i : nat) | Accepted (fd : nat).

Definition client_turn (a : client) (w : who) (s : server) : option server :=
  match a, w with
  | Connect, _ => Some (MkServer (s_backlog s ++ [new_conn]) true (s_conns s) (s_closed s) (s_pc s))
  | _, Waiting i =>
      c ← s_backlog s !! i; c ← client_conn a c;
      Some (MkServer (<[i := c]> (s_backlog s)) (s_ledge s) (s_conns s) (s_closed s) (s_pc s))
  | _, Accepted fd => c ← s_conns s !! fd; c ← client_conn a c; Some (set_conn fd c s)
  end.

(** ** Runs *)

Definition start_server : server := MkServer [] false ∅ [] Wait.

Section runs.
Context (max_events : nat) (epoll_type block_type : Z).

Definition server_turn (r : option (list event)) (s : server) : option server :=
  match s_pc s with
  | Wait => epoll_wait max_events epoll_type r s
  | _ => epoll_process epoll_type block_type s
  end.

Inductive reachable : server → Prop :=
| reach_start : reachable start_server
| reach_server r s s' : reachable s → server_turn r s = Some s' → reachable s'
| reach_client a w s s' : reachable s → client_turn a w s = Some s' → reachable s'.

(** The server waits, and [epoll_wait] has nothing to report. *)
Definition quiescent (s : server) : Prop := s_pc s = Wait ∧ ∀ e, ready epoll_type s e = false.

(** The events of connections the server still has to look at. *)
Definition waiting_fds (s : server) : list nat :=
  match s_pc s with Events evs | Reading _ evs => ev_fds evs | _ => [] end.
Definition current (s : server) : list nat := match s_pc s with Reading fd _ => [fd] | _ => [] end.

(** A connection is never forgotten: what can be read is being read, is in the events,
    or is still to be reported. *)
Definition conn_ok (s : server) (fd : nat) (c : conn) : Prop :=
  c_sent c = c_got c ++ c_unread c ∧
  (block_type = FD_NONBLOCK → c_nonblock c = true) ∧
  (epoll_type = EPOLL_ET → readable c = true → c_edge c = true ∨ fd ∈ current s ++ waiting_fds s).

Record sinv (s : server) : Prop := {
  si_conns : ∀ fd c, s_conns s !! fd = Some c → conn_ok s fd c;
  si_backlog : Forall (λ c, c_got c = [] ∧ c_unread c = c_sent c) (s_backlog s);
  si_closed : Forall (λ c, c_got c = c_sent c ∧ (c_eof c || c_err c) = true) (s_closed s);
  si_nodup : NoDup (current s ++ waiting_fds s);
  si_waiting : ∀ fd, fd ∈ waiting_fds s → ∃ c, s_conns s !! fd = Some c ∧ readable c = true;
  si_current : ∀ fd, fd ∈ current s →
    ∃ c, s_conns s !! fd = Some c ∧ (epoll_type = EPOLL_LT → readable c = true);
  si_pollin : match s_pc s with
              | Events evs | Reading _ evs => ∀ fd b, EvConn fd b ∈ evs → b = true
              | _ => True
              end;
}.

(** The configurations the invariant holds in. *)
Definition good_mode : Prop :=
  epoll_type = EPOLL_LT ∨ (epoll_type = EPOLL_ET ∧ block_type = FD_NONBLOCK).
End runs.

(** ** What a read does *)

Lemma recv_spec c :
  c_sent c = c_got c ++ c_unread c →
  let c' := (recv c).2 in
  c_sent c' = c_sent c ∧ c_sent c' = c_got c' ++ c_unread c' ∧ c_nonblock c' = c_nonblock c ∧ c_edge c' = c_edge c ∧
  c_eof c' = c_eof c ∧ c_err c' = c_err c ∧
  match (recv c).1 with
  | Ret (_ :: _) => length (c_unread c') < length (c_unread c)
  | Ret [] => c_unread c' = [] ∧ c_eof c = true
  | Fail e => c_unread c' = [] ∧ (e = EAGAIN ∧ readable c = false ∨ e = ECONNRESET ∧ c_err c = true)
  | Blocks => c_nonblock c = false ∧ readable c = false
  end.
Proof.
  intros E. unfold recv, readable. destruct (c_unread c) as [|x l] eqn:Eu.
  - simpl. rewrite Eu. destruct (c_err c), (c_eof c), (c_nonblock c); simpl; split_and!; try done; auto.
  - simpl fst. simpl snd. split_and!; try done.
    + cbn [c_sent c_got c_unread]. rewrite E, <-app_assoc. simpl. by rewrite take_drop.
    + simpl. rewrite length_drop. lia.
Qed.

(** How a read ends: everything has been read when the socket is closed, or when an edge
    triggered loop ends. *)
Lemma read_conn_spec epoll_type c nx c' :
  c_sent c = c_got c ++ c_unread c →
  epoll_type = EPOLL_LT ∧ readable c = true ∨ epoll_type = EPOLL_ET →
  read_conn epoll_type c = Some (nx, c') →
  c_sent c' = c_sent c ∧ c_sent c' = c_got c' ++ c_unread c' ∧ c_nonblock c' = c_nonblock c ∧ c_edge c' = c_edge c ∧
  match nx with
  | Again => epoll_type = EPOLL_ET ∧ length (c_unread c') < length (c_unread c)
  | Break => epoll_type = EPOLL_LT ∨ readable c' = false
  | Closed => c_unread c' = [] ∧ (c_eof c' || c_err c') = true
  end ∧ length (c_unread c') ≤ length (c_unread c).
Proof.
  intros E Hm. pose proof (recv_spec c E) as H. unfold read_conn, epoll_level_trigger, epoll_et_loop.
  destruct (recv c) as [[[|x d]|e|] c1] eqn:Er; simpl in H; destruct H as (H1 & H2 & H3 & H4 & H5 & H6 & H7);
    destruct Hm as [[-> Hr]| ->]; simpl; intros [= <- <-].
  - destruct H7 as [Hu He]. split_and!; try done; [by rewrite H5, He|rewrite Hu; simpl; lia].
  - destruct H7 as [Hu He]. split_and!; try done; [by rewrite H5, He|rewrite Hu; simpl; lia].
  - split_and!; try done; [by left|lia].
  - split_and!; try done; lia.
  - destruct H7 as [Hu [[_ Hn]|[-> He]]]; [congruence|]. split_and!; try done; [by rewrite H6, He, orb_true_r|rewrite Hu; simpl; lia].
  - destruct H7 as [Hu [[-> Hn]|[-> He]]]; simpl.
    + split_and!; try done; [|rewrite Hu; simpl; lia]. right. unfold readable in *. rewrite Hu, H5, H6.
      apply orb_false_iff in Hn as [Hn Hn2]. apply orb_false_iff in Hn as [_ Hn]. by rewrite Hn, Hn2.
    + split_and!; try done; [by rewrite H6, He, orb_true_r|rewrite Hu; simpl; lia].
Qed.

(** An edge triggered read of a socket that does not block returns. *)
Lemma read_conn_returns c : c_nonblock c = true → is_Some (read_conn EPOLL_ET c).
Proof.
  intros Hn. unfold read_conn, epoll_et_loop. simpl. unfold recv. destruct (c_unread c); [|by eexists].
  destruct (c_err c); [by eexists|]. destruct (c_eof c); [by eexists|]. rewrite Hn. by eexists.
Qed.

(** ** The invariant *)

Lemma client_conn_spec a c c' :
  client_conn a c = Some c' →
  c_got c' = c_got c ∧ c_nonblock c' = c_nonblock c ∧ c_edge c' = true ∧ readable c' = true ∧
  (c_sent c = c_got c ++ c_unread c → c_sent c' = c_got c' ++ c_unread c').
Proof.
  unfold client_conn, readable. destruct (c_eof c || c_err c) eqn:E; [done|]. apply orb_false_iff in E as [E1 E2].
  destruct a as [|[|x d]| |]; intros [= <-]; cbn [c_got c_nonblock c_edge c_unread c_eof c_err c_sent]; split_and!; try done.
  - by destruct (c_unread c).
  - intros ->. by rewrite app_assoc.
  - by rewrite orb_true_r.
  - by rewrite !orb_true_r.
Qed.

Lemma clear_edges_lookup (fds : list nat) (m : gmap nat conn) (fd : nat) :
  foldr (λ fd m, alter clear_edge fd m) m fds !! fd = (if decide (fd ∈ fds) then clear_edge else id) <$> m !! fd.
Proof.
  induction fds as [|fd' fds IH]; cbn [foldr].
  - case_decide as H; [by apply elem_of_nil in H|]. by destruct (m !! fd).
  - destruct (decide (fd' = fd)) as [->|Hne].
    + rewrite lookup_alter_eq, IH. destruct (decide (fd ∈ fd :: fds)) as [_|H]; [|by destruct H; left].
      case_decide; by destruct (m !! fd).
    + rewrite lookup_alter_ne, IH by done. f_equal.
      destruct (decide (fd ∈ fds)), (decide (fd ∈ fd' :: fds)) as [H|H]; try done; [by destruct H; right|].
      by apply elem_of_cons in H as [->|].
Qed.

Section invariant.
Context (max_events : nat) (epoll_type block_type : Z).
Abbreviation inv := (sinv epoll_type block_type).

Lemma epoll_start_inv : inv start_server.
Proof. split; simpl; try done; try constructor; intros; set_solver. Qed.

(** A change of one connection, of which the rest of the state is the same. *)
Lemma set_conn_inv fd c c' s :
  inv s → s_conns s !! fd = Some c → conn_ok epoll_type block_type s fd c' →
  (readable c = true → readable c' = true ∨ ((fd ∉ waiting_fds s) ∧ (fd ∈ current s → epoll_type = EPOLL_ET))) →
  inv (set_conn fd c' s).
Proof.
  intros [Hc Hb Hcl Hnd Hw Hcu Hp] Hfd Hok Hr. split; try done; cbn [set_conn s_conns].
  - intros fd1 c1. destruct (decide (fd1 = fd)) as [->|Hne].
    + rewrite lookup_insert_eq. by intros [= <-].
    + rewrite lookup_insert_ne by done. apply Hc.
  - intros fd1 H1. destruct (decide (fd1 = fd)) as [->|Hne].
    + rewrite lookup_insert_eq. exists c'. split; [done|]. destruct (Hw fd H1) as (c2 & E & ?). rewrite Hfd in E.
      injection E as <-. destruct Hr as [|[]]; done.
    + rewrite lookup_insert_ne by done. by apply Hw.
  - intros fd1 H1. destruct (decide (fd1 = fd)) as [->|Hne].
    + rewrite lookup_insert_eq. exists c'. split; [done|]. destruct (Hcu fd H1) as (c2 & E & Hlt). rewrite Hfd in E.
      injection E as <-. intros He. destruct (Hr (Hlt He)) as [|[_ H2]]; [done|]. by rewrite H2 in He.
    + rewrite lookup_insert_ne by done. by apply Hcu.
Qed.

Lemma client_turn_inv a w s s' : inv s → client_turn a w s = Some s' → inv s'.
Proof.
  intros Hi. assert (Hcases : a = Connect ∨ a ≠ Connect) by (destruct a; auto).
  destruct Hcases as [->|Ha].
  - intros [= <-]. destruct Hi. split; try done. cbn [s_backlog]. apply Forall_app_2; [done|]. by repeat constructor.
  - assert (Hd : client_turn a w s = match w with
      | Waiting i => c ← s_backlog s !! i; c ← client_conn a c;
          Some (MkServer (<[i := c]> (s_backlog s)) (s_ledge s) (s_conns s) (s_closed s) (s_pc s))
      | Accepted fd => c ← s_conns s !! fd; c ← client_conn a c; Some (set_conn fd c s) end) by (destruct a; done).
    rewrite Hd. destruct w as [i|fd]; intros (c & Hl & (c' & Hcc & [= <-])%bind_Some)%bind_Some;
      destruct (client_conn_spec _ _ _ Hcc) as (G & N & Ed & R & S).
    + pose proof (si_backlog _ _ _ Hi) as Hb. destruct Hi. split; try done. cbn [s_backlog]. apply Forall_insert; [done|].
      destruct (proj1 (Forall_lookup _ _) Hb i c Hl) as [Hg Hu]. rewrite G. split; [done|].
      specialize (S ltac:(by rewrite Hg, Hu)). by rewrite S, G, Hg.
    + destruct (si_conns _ _ _ Hi fd c Hl) as (O1 & O2 & O3). eapply set_conn_inv; [done..| |by left].
      split_and!; [by apply S|by rewrite N|auto].
Qed.

Lemma wait_inv r s s' : inv s → epoll_wait max_events epoll_type r s = Some s' → inv s'.
Proof.
  intros [Hc Hb Hcl Hnd Hw Hcu Hp]. unfold epoll_wait. destruct (s_pc s) eqn:Epc; try done. destruct r as [evs|].
  2: { intros [= <-]. unfold current, waiting_fds in *. rewrite Epc in *.
       split; cbn [set_pc s_conns s_pc current waiting_fds]; try done.
       intros fd c Hl. destruct (Hc fd c Hl) as (O1 & O2 & O3). split_and!; try done. intros He Hr. left.
       destruct (O3 He Hr) as [|H]; [done|]. unfold current, waiting_fds in H. rewrite Epc in H. by apply elem_of_nil in H. }
  destruct (_ && _) eqn:Hv; [|done]. intros [= <-].
  repeat (apply andb_true_iff in Hv as [Hv ?]). rename H0 into Hnd', H1 into Hready.
  apply bool_decide_eq_true in Hnd'. rewrite forallb_forall in Hready.
  assert (Hev : ∀ fd, fd ∈ ev_fds evs → ∃ c, s_conns s !! fd = Some c ∧ readable c = true).
  { intros fd (e & He & Hfd)%list_elem_of_omap. destruct e as [|fd' b]; [done|]. injection Hfd as ->.
    specialize (Hready _ (proj1 (list_elem_of_In _ _) He)). simpl in Hready. destruct (s_conns s !! fd) as [c|]; [|done].
    exists c. split; [done|]. by destruct b, (readable c). }
  split; cbn [s_conns s_backlog s_closed s_pc current waiting_fds app]; try done.
  - intros fd c. rewrite clear_edges_lookup. destruct (s_conns s !! fd) as [c0|] eqn:El; [|done]. intros [= <-].
    destruct (Hc fd c0 El) as (O1 & O2 & O3). destruct (decide (fd ∈ ev_fds evs)) as [Hin|Hin].
    + split_and!; [done..|]. intros _ _. right. simpl. done.
    + split_and!; [done..|]. intros He Hr. destruct (O3 He Hr) as [|H']; [by left|].
      unfold current, waiting_fds in H'. rewrite Epc in H'. by apply elem_of_nil in H'.
  - intros fd Hin. destruct (Hev fd Hin) as (c & El & Hr). rewrite clear_edges_lookup, El. eexists. split; [done|].
    by case_decide.
  - intros fd Hin. by apply elem_of_nil in Hin.
  - intros fd b Hin. specialize (Hready _ (proj1 (list_elem_of_In _ _) Hin)). simpl in Hready.
    destruct (s_conns s !! fd); [|done]. by destruct b.
Qed.

(** Going on to other events: those left are among those there were, and the ones left
    out have been read. *)
Lemma set_pc_inv p s :
  inv s →
  let s' := set_pc p s in
  NoDup (current s' ++ waiting_fds s') →
  (∀ fd, fd ∈ current s' ++ waiting_fds s' → fd ∈ current s ++ waiting_fds s ∧ (fd ∈ current s → fd ∈ current s')) →
  (∀ fd, fd ∈ waiting_fds s' → fd ∈ waiting_fds s) →
  (epoll_type = EPOLL_ET → ∀ fd c, s_conns s !! fd = Some c → readable c = true → fd ∈ current s ++ waiting_fds s →
    c_edge c = true ∨ fd ∈ current s' ++ waiting_fds s') →
  match p with Events evs | Reading _ evs => ∀ fd b, EvConn fd b ∈ evs → b = true | _ => True end →
  inv s'.
Proof.
  intros [Hc Hb Hcl Hnd Hw Hcu Hp] s' Hnd' Hsub Hws Hk Hp'. split; try done.
  - intros fd c Hl. destruct (Hc fd c Hl) as (O1 & O2 & O3). split_and!; try done. intros He Hr.
    destruct (O3 He Hr) as [|H]; [by left|]. by eapply Hk.
  - intros fd Hin. by apply Hw, Hws.
  - intros fd Hin. destruct (Hsub fd) as [H1 H2]; [apply elem_of_app; by left|].
    apply elem_of_app in H1 as [H1|H1]; [by apply Hcu|]. destruct (Hw fd H1) as (c & ? & ?). by exists c.
Qed.

Lemma accept_inv newfd s : inv s → inv (accept_event block_type newfd s).
Proof.
  intros Hi. unfold accept_event. destruct (s_backlog s) as [|c b] eqn:Eb; [done|]. destruct newfd as [fd|]; [|done].
  case_decide as Hn; [|done]. destruct Hi as [Hc Hb Hcl Hnd Hw Hcu Hp]. rewrite Eb in Hb.
  apply Forall_cons in Hb as [[Hg Hu] Hb].
  assert (Hother : ∀ fd1 (Q : conn → Prop), (∃ c, s_conns s !! fd1 = Some c ∧ Q c) →
    ∃ c1, <[fd := addfd_to_epoll block_type c]> (s_conns s) !! fd1 = Some c1 ∧ Q c1).
  { intros fd1 Q (c1 & E & ?). exists c1. by rewrite lookup_insert_ne by congruence. }
  split; try done; cbn [s_conns].
  - intros fd1 c1. destruct (decide (fd1 = fd)) as [->|Hne]; [|rewrite lookup_insert_ne by done; apply Hc].
    rewrite lookup_insert_eq. intros [= <-]. unfold addfd_to_epoll.
    destruct (Z.eqb_spec block_type FD_NONBLOCK) as [Eq|Eq]; split_and!; cbn [c_sent c_got c_unread c_nonblock c_edge set_nonblock];
      try done; try (by rewrite Hg, Hu); intros _ Hr; by left.
  - intros fd1 H1. by apply Hother, Hw.
  - intros fd1 H1. by apply Hother, Hcu.
Qed.

(** The server has finished with connection [fd]. *)
Lemma leave_inv fd evs s m cl :
  inv s → s_pc s = Reading fd evs →
  (∀ fd1, fd1 ≠ fd → m !! fd1 = s_conns s !! fd1) →
  (∀ c, m !! fd = Some c →
    c_sent c = c_got c ++ c_unread c ∧ (block_type = FD_NONBLOCK → c_nonblock c = true) ∧
    (epoll_type = EPOLL_ET → readable c = false)) →
  Forall (λ c, c_got c = c_sent c ∧ (c_eof c || c_err c) = true) cl →
  inv (MkServer (s_backlog s) (s_ledge s) m cl (Events evs)).
Proof.
  intros [Hc Hb Hcl Hnd Hw Hcu Hp] Epc Hm Hfd Hcl'. unfold current, waiting_fds in Hnd, Hw, Hcu. rewrite Epc in Hnd, Hw, Hcu, Hp.
  apply NoDup_cons in Hnd as [Hnin Hnd].
  split; cbn [s_conns s_backlog s_closed s_pc current waiting_fds app]; try done.
  - intros fd1 c1 Hl. destruct (decide (fd1 = fd)) as [->|Hne].
    + destruct (Hfd c1 Hl) as (? & ? & O). split_and!; try done. intros He Hr. by rewrite O in Hr.
    + rewrite Hm in Hl by done. destruct (Hc fd1 c1 Hl) as (? & ? & O). split_and!; try done. intros He Hr.
      destruct (O He Hr) as [|Hq]; [by left|]. unfold current, waiting_fds in Hq. rewrite Epc in Hq.
      apply elem_of_cons in Hq as [|Hq]; [done|]. by right.
  - intros fd1 Hin. destruct (Hw fd1 Hin) as (c & E & ?). exists c. rewrite Hm by congruence. done.
  - intros fd1 Hin. by apply elem_of_nil in Hin.
Qed.

Lemma process_inv s s' : good_mode epoll_type block_type → inv s → epoll_process epoll_type block_type s = Some s' → inv s'.
Proof.
  intros Hg Hi. unfold epoll_process. destruct (s_pc s) as [|evs|fd evs|] eqn:Epc; [done| | |done].
  - pose proof (si_nodup _ _ _ Hi) as Hnd. pose proof (si_pollin _ _ _ Hi) as Hp.
    unfold current, waiting_fds in Hnd. rewrite Epc in Hnd, Hp.
    destruct evs as [|[newfd|fd pollin] evs].
    + intros [= <-]. apply set_pc_inv; [done|constructor|by intros ? ?%elem_of_nil|by intros ? ?%elem_of_nil| |done].
      intros _ fd c _ _ Hin. unfold current, waiting_fds in Hin. rewrite Epc in Hin. by apply elem_of_nil in Hin.
    + intros [= <-]. assert (Epc' : s_pc (accept_event block_type newfd s) = Events (EvListen newfd :: evs)).
      { unfold accept_event. destruct (s_backlog s), newfd; try done. by case_decide. }
      apply set_pc_inv; [by apply accept_inv|done|..]; unfold current, waiting_fds; rewrite ?Epc'; cbn [set_pc s_pc app]; try done.
      * intros _ fd c _ _ Hin. by right.
      * intros fd b Hin. eapply Hp. by right.
    + rewrite (Hp fd pollin) by left. intros [= <-].
      apply set_pc_inv; [done|done|..]; unfold current, waiting_fds; rewrite ?Epc; cbn [set_pc s_pc app]; try done.
      * intros fd1 Hin. split; [done|]. by intros ?%elem_of_nil.
      * intros fd1 Hin. by right.
      * intros _ fd1 c _ _ Hin. by right.
      * intros fd1 b Hin. eapply Hp. by right.
  - intros (c & Hl & ([nx c'] & Hr & [= <-])%bind_Some)%bind_Some.
    destruct (si_conns _ _ _ Hi fd c Hl) as (O1 & O2 & O3).
    destruct (si_current _ _ _ Hi fd) as (c0 & Hl0 & Hlt).
    { unfold current. rewrite Epc. left. }
    rewrite Hl in Hl0. injection Hl0 as <-.
    destruct (read_conn_spec epoll_type c nx c' O1) as (S1 & S2 & S3 & S4 & S5 & S6); [|done|].
    { destruct Hg as [He|[He _]]; [left; split; [done|by apply Hlt]|by right]. }
    pose proof (si_nodup _ _ _ Hi) as Hnd. unfold current, waiting_fds in Hnd. rewrite Epc in Hnd.
    apply NoDup_cons in Hnd as [Hnin Hnd].
    destruct nx.
    + eapply set_conn_inv; [done..| |].
      * split_and!; [done|by rewrite S3|]. intros _ _. right. unfold current. rewrite Epc. left.
      * intros _. right. split; [unfold waiting_fds; by rewrite Epc|]. intros _. apply S5.
    + apply (leave_inv fd evs s (<[fd := c']> (s_conns s)) (s_closed s)); [done..|intros; by apply lookup_insert_ne| |apply (si_closed _ _ _ Hi)].
      intros c1. rewrite lookup_insert_eq. intros [= <-]. split_and!; [done|by rewrite S3|].
      intros He. destruct S5 as [S5|]; [|done]. by rewrite S5 in He.
    + apply (leave_inv fd evs s (delete fd (s_conns s)) (s_closed s ++ [c'])); [done..|intros; by apply lookup_delete_ne| |].
      * intros c1. by rewrite lookup_delete_eq.
      * apply Forall_app_2; [apply (si_closed _ _ _ Hi)|]. repeat constructor; [|apply S5].
        by rewrite S2, (proj1 S5), app_nil_r.
Qed.

Lemma epoll_reachable_inv s : good_mode epoll_type block_type → reachable max_events epoll_type block_type s → inv s.
Proof.
  intros Hg. induction 1 as [|r s s' _ IH E|a w s s' _ IH E]; [apply epoll_start_inv| |by eapply client_turn_inv].
  unfold server_turn in E. destruct (s_pc s) eqn:Epc; [by eapply wait_inv|by eapply process_inv..].
Qed.
End invariant.

(** ** Progress *)

Definition b2n (b : bool) : nat := if b then 1 else 0.
Definition conn_weight (c : conn) : nat := 2 * length (c_unread c) + 5 * b2n (c_edge c).
Definition total (m : gmap nat conn) : nat := map_fold (λ _ c n, conn_weight c + n) 0 m.
Definition pc_weight (p : pc) : nat :=
  match p with Events evs => 1 + 3 * length evs | Reading _ evs => 3 + 3 * length evs | Wait | Exited => 0 end.
Definition weight (s : server) : nat :=
  sum_list ((λ c, 2 * length (c_unread c) + 6) <$> s_backlog s) + 5 * b2n (s_ledge s) + total (s_conns s) + pc_weight (s_pc s).

Lemma total_insert_new m fd c : m !! fd = None → total (<[fd := c]> m) = conn_weight c + total m.
Proof. intros H. unfold total. rewrite map_fold_insert_L; [done|intros; lia|done]. Qed.
Lemma total_delete m fd c : m !! fd = Some c → total m = conn_weight c + total (delete fd m).
Proof. intros H. unfold total. rewrite (map_fold_delete_L _ _ fd c m); [done|intros; lia|done]. Qed.
Lemma total_insert m fd c c' : m !! fd = Some c → total (<[fd := c']> m) + conn_weight c = total m + conn_weight c'.
Proof.
  intros H. rewrite (total_delete m fd c H), <-insert_delete_eq, total_insert_new by apply lookup_delete_eq. lia.
Qed.

Lemma total_clear fds m :
  NoDup fds → (∀ fd, fd ∈ fds → ∃ c, m !! fd = Some c ∧ c_edge c = true) →
  total (foldr (λ fd m, alter clear_edge fd m) m fds) + 5 * length fds = total m.
Proof.
  induction fds as [|fd fds IH]; intros Hnd He; [simpl; lia|]. apply NoDup_cons in Hnd as [Hn Hnd].
  cbn [foldr length]. specialize (IH Hnd). rewrite <-IH by (intros; apply He; by right).
  set (m1 := foldr _ m fds). destruct (He fd) as (c & El & Ec); [left|].
  assert (El1 : m1 !! fd = Some c) by (unfold m1; rewrite clear_edges_lookup, El; by rewrite decide_False).
  assert (Ea : alter clear_edge fd m1 = <[fd := clear_edge c]> m1).
  { apply map_eq. intros i. destruct (decide (i = fd)) as [->|Hne].
    - by rewrite lookup_alter_eq, El1, lookup_insert_eq.
    - by rewrite lookup_alter_ne, lookup_insert_ne by done. }
  rewrite Ea. pose proof (total_insert m1 fd c (clear_edge c) El1) as T.
  assert (Hw : conn_weight c = conn_weight (clear_edge c) + 5) by (unfold conn_weight; rewrite Ec; simpl; lia). lia.
Qed.

Section progress.
Context (max_events : nat).
Abbreviation inv := (sinv EPOLL_ET FD_NONBLOCK).

Lemma events_split evs : length evs = length (ev_fds evs) + length (filter is_listen evs).
Proof.
  induction evs as [|[newfd|fd b] evs IH]; [done| |].
  - rewrite filter_cons_True by done. change (ev_fds (EvListen newfd :: evs)) with (ev_fds evs). simpl. lia.
  - rewrite filter_cons_False by (by intros []). change (ev_fds (EvConn fd b :: evs)) with (fd :: ev_fds evs). simpl. lia.
Qed.

Lemma wait_decreases evs s s' : epoll_wait max_events EPOLL_ET (Some evs) s = Some s' → weight s' < weight s.
Proof.
  unfold epoll_wait. destruct (s_pc s) eqn:Epc; try done. destruct (_ && _) eqn:Hv; [|done]. intros [= <-].
  apply andb_true_iff in Hv as [Hv Hl]. apply andb_true_iff in Hv as [Hv Hnd]. apply andb_true_iff in Hv as [Hv Hr].
  apply andb_true_iff in Hv as [Hne _]. apply bool_decide_eq_true in Hnd. apply Nat.leb_le in Hl.
  rewrite forallb_forall in Hr. unfold weight. rewrite Epc. cbn [s_backlog s_ledge s_conns s_pc pc_weight].
  rewrite <-(total_clear (ev_fds evs) (s_conns s)); [|done|].
  2: { intros fd (e & He & Hfd)%list_elem_of_omap. destruct e as [|fd' b]; [done|]. injection Hfd as ->.
       specialize (Hr _ (proj1 (list_elem_of_In _ _) He)). simpl in Hr. destruct (s_conns s !! fd) as [c|]; [|done].
       exists c. split; [done|]. by destruct b, (readable c). }
  pose proof (events_split evs) as Hsp.
  assert (Hlen : 1 ≤ length evs) by (destruct evs; [done|simpl; lia]).
  assert (HL : 5 * b2n (s_ledge s && negb (existsb is_listen evs)) + 5 * length (filter is_listen evs) ≤ 5 * b2n (s_ledge s)).
  { destruct (existsb is_listen evs) eqn:Ex.
    - rewrite andb_false_r. apply existsb_exists in Ex as (e & He & Hli). specialize (Hr e He). destruct e; [|done].
      simpl in Hr. apply andb_true_iff in Hr as [-> _]. simpl. lia.
    - rewrite andb_true_r. assert (length (filter is_listen evs) = 0); [|lia].
      clear -Ex. induction evs as [|[newfd|fd b] evs IH]; [done|done|]. rewrite filter_cons_False by (by intros []). by apply IH. }
  lia.
Qed.

Lemma process_decreases s s' : inv s → epoll_process EPOLL_ET FD_NONBLOCK s = Some s' → weight s' < weight s.
Proof.
  intros Hi. unfold epoll_process. destruct (s_pc s) as [|evs|fd evs|] eqn:Epc; [done| | |done].
  - destruct evs as [|[newfd|fd pollin] evs].
    + intros [= <-]. unfold weight. rewrite Epc. simpl. lia.
    + intros [= <-]. unfold accept_event. destruct (s_backlog s) as [|c b] eqn:Eb, newfd as [fd|];
        [| |case_decide as Hn|]; unfold weight; rewrite ?Epc, ?Eb; cbn [set_pc s_backlog s_ledge s_conns s_pc pc_weight length];
        rewrite ?Eb; cbn [fmap list_fmap sum_list]; try lia.
      rewrite total_insert_new by done. unfold conn_weight, addfd_to_epoll. cbn [Z.eqb Pos.eqb FD_NONBLOCK set_nonblock c_unread c_edge].
      destruct (readable _); simpl; lia.
    + intros [= <-]. unfold weight. rewrite Epc. destruct pollin; simpl; lia.
  - intros (c & Hl & ([nx c'] & Hr & [= <-])%bind_Some)%bind_Some.
    destruct (si_conns _ _ _ Hi fd c Hl) as (O1 & O2 & O3).
    destruct (read_conn_spec EPOLL_ET c nx c' O1) as (S1 & S2 & S3 & S4 & S5 & S6); [by right|done|].
    pose proof (total_insert (s_conns s) fd c c' Hl) as T. pose proof (total_delete (s_conns s) fd c Hl) as D.
    unfold conn_weight in T, D. rewrite S4 in T. unfold weight.
    destruct nx; rewrite ?Epc; cbn [set_pc set_conn close_conn s_backlog s_ledge s_conns s_pc pc_weight]; rewrite ?Epc; cbn [pc_weight]; lia.
Qed.

Lemma server_enabled s :
  0 < max_events → inv s →
  quiescent EPOLL_ET s ∨ s_pc s = Exited ∨ ∃ evs s', server_turn max_events EPOLL_ET FD_NONBLOCK (Some evs) s = Some s'.
Proof.
  intros Hmax Hi. unfold server_turn. destruct (s_pc s) as [|evs|fd evs|] eqn:Epc; [| | |auto].
  - assert (Hgo : ∀ e, ready EPOLL_ET s e = true → ∃ s', epoll_wait max_events EPOLL_ET (Some [e]) s = Some s').
    { intros e He. unfold epoll_wait. rewrite Epc. cbn [forallb]. rewrite He.
      assert (H1 : (length [e] <=? max_events)%nat = true) by (apply Nat.leb_le; simpl; lia).
      assert (H2 : (length (filter is_listen [e]) <=? 1)%nat = true) by (destruct e; done).
      assert (H3 : bool_decide (NoDup (ev_fds [e])) = true) by (apply bool_decide_eq_true; destruct e; [constructor|apply NoDup_singleton]).
      rewrite H1, H2, H3. by eexists. }
    destruct (ready EPOLL_ET s (EvListen None)) eqn:EL; [right; right; exists [EvListen None]; by apply Hgo|].
    destruct (decide (map_Exists (λ fd c, ready EPOLL_ET s (EvConn fd true) = true) (s_conns s))) as [(fd & c & _ & Hr)|Hn].
    { right; right. exists [EvConn fd true]. by apply Hgo. }
    left. split; [done|]. intros [newfd|fd b]; [exact EL|]. apply not_true_iff_false. intros Er. apply Hn.
    simpl in Er. destruct (s_conns s !! fd) as [c|] eqn:El; [|done]. exists fd, c. split; [done|]. simpl. rewrite El.
    by destruct b.
  - right; right. exists []. unfold epoll_process. rewrite Epc. destruct evs as [|[|] ?]; by eexists.
  - right; right. exists []. unfold epoll_process. rewrite Epc.
    destruct (si_current _ _ _ Hi fd) as (c & El & _); [unfold current; rewrite Epc; left|]. rewrite El. cbn [mbind option_bind].
    destruct (si_conns _ _ _ Hi fd c El) as (_ & O2 & _).
    destruct (read_conn_returns c (O2 eq_refl)) as [[nx c'] ->]. cbn [mbind option_bind]. by eexists.
Qed.
End progress.

(** ** The listening socket *)

(** The address and port a server listens on, or the message it exits with.  [pton] is
    the return value of [inet_pton] and the address it has stored when that is 1;
    [memset] has cleared the address before. *)
Inductive listening := Listening (addr port : Z) | ErrExit (msg : string).

Definition create_socket (pton : Z * Z) (port_number : Z) (socket_ok reuse_ok bind_ok listen_ok : bool) : listening :=
  if (pton.1 =? -1)%Z then ErrExit "inet_pton() error"
  else if negb socket_ok then ErrExit "socket() error"
  else if negb reuse_ok then ErrExit "setsockopt() error"
  else if negb bind_ok then ErrExit "bind() error"
  else if negb listen_ok then ErrExit "listen() error"
  else Listening (if (pton.1 =? 1)%Z then pton.2 else 0) (port_number mod 2 ^ 16).

(** [inet_pton] returns 0, not -1, for text that is not an address: the server then
    listens on all addresses (0.0.0.0). *)
Lemma bad_address_listens_on_any addr port :
  create_socket (0, addr)%Z port true true true true = Listening 0 (port mod 2 ^ 16).
Proof. done. Qed.

(** ** IO/epoll_test.c *)

(** The same server with edge triggering only. *)
Module EpollTest.

Definition IS_NON_BLOCK : Z := 1.
Definition MAX_EVENT_FD_SIZE : nat := 10.

(** Without [SO_REUSEADDR]. *)
Definition create_socket (pton : Z * Z) (iport : Z) (socket_ok bind_ok listen_ok : bool) : listening :=
  if (pton.1 =? -1)%Z then ErrExit "inet_pton() error"
  else if negb socket_ok then ErrExit "socket() error"
  else if negb bind_ok then ErrExit "bind() error"
  else if negb listen_ok then ErrExit "listen() error"
  else Listening (if (pton.1 =? 1)%Z then pton.2 else 0) (iport mod 2 ^ 16).

Definition addfd_to_epoll (block_type : Z) (c : conn) : conn :=
  let c := if (block_type =? IS_NON_BLOCK)%Z then set_nonblock c else c in
  MkConn (c_sent c) (c_got c) (c_unread c) (c_eof c) (c_err c) (c_nonblock c) (readable c).

(** One iteration of [epoll_et_loop]. *)
Definition epoll_et_loop (c : conn) : option (next * conn) :=
  match recv c with
  | (Blocks, _) => None
  | (Ret data, c) => if (0 <? length data)%nat then Some (Again, c) else Some (Closed, c)
  | (Fail errno, c) => if (errno =? EAGAIN)%Z then Some (Break, c) else Some (Closed, c)
  end.

(** One turn of [process_recv], or of the loop it calls. *)
Definition process_recv (s : server) : option server :=
  match s_pc s with
  | Events (e :: evs) =>
      match e with
      | EvListen newfd =>
          Some (set_pc (Events evs)
            match s_backlog s, newfd with
            | c :: b, Some conn_fd =>
                if decide (s_conns s !! conn_fd = None)
                then MkServer b (s_ledge s) (<[conn_fd := addfd_to_epoll IS_NON_BLOCK c]> (s_conns s)) (s_closed s) (s_pc s)
                else s
            | _, _ => s
            end)
      | EvConn conn_fd pollin => if pollin then Some (set_pc (Reading conn_fd evs) s) else Some (set_pc (Events evs) s)
      end
  | Events [] => Some (set_pc Wait s)
  | Reading conn_fd evs =>
      c ← s_conns s !! conn_fd;
      '(nx, c) ← epoll_et_loop c;
      Some (match nx with
            | Again => set_conn conn_fd c s
            | Break => set_pc (Events evs) (set_conn conn_fd c s)
            | Closed => set_pc (Events evs) (close_conn conn_fd c s)
            end)
  | Wait | Exited => None
  end.

(** The loop of [main]; a failure of [epoll_wait] ends it. *)
Definition main_turn (r : option (list event)) (s : server) : option server :=
  match s_pc s with
  | Wait => epoll_wait MAX_EVENT_FD_SIZE EPOLL_ET r s
  | _ => process_recv s
  end.

End EpollTest.

(** ** The theorems *)

(** C13. Level triggered, or edge triggered on sockets that do not block, the server
    forgets no data, in whatever order the clients and the server take turns: each byte
    of an accepted connection has been received or is buffered, in order; the server
    closes a connection only when its client has closed or reset it and everything it
    had sent has been received; and when [epoll_wait] has nothing to report, everything
    has been received and no connection waits to be closed. *)
Theorem epoll_delivers max_events epoll_type block_type s :
  good_mode epoll_type block_type → reachable max_events epoll_type block_type s →
  (∀ fd c, s_conns s !! fd = Some c → c_sent c = c_got c ++ c_unread c) ∧
  (∀ c, c ∈ s_closed s → c_got c = c_sent c ∧ (c_eof c || c_err c) = true) ∧
  (quiescent epoll_type s → ∀ fd c, s_conns s !! fd = Some c → c_got c = c_sent c ∧ c_eof c = false ∧ c_err c = false).
Proof.
  intros Hg Hr. pose proof (epoll_reachable_inv _ _ _ s Hg Hr) as Hi. split_and!.
  - intros fd c Hl. apply (si_conns _ _ _ Hi fd c Hl).
  - intros c Hin. by apply (proj1 (Forall_forall _ _) (si_closed _ _ _ Hi)).
  - intros [Hpc Hq] fd c Hl. destruct (si_conns _ _ _ Hi fd c Hl) as (O1 & _ & O3).
    assert (Hn : readable c = false).
    { apply not_true_iff_false. intros Hrd. specialize (Hq (EvConn fd true)). simpl in Hq. rewrite Hl, Hrd in Hq. simpl in Hq.
      destruct Hg as [-> |[-> _]]; [done|]. simpl in Hq. destruct (O3 eq_refl Hrd) as [He|Hin]; [congruence|].
      unfold current, waiting_fds in Hin. rewrite Hpc in Hin. by apply elem_of_nil in Hin. }
    unfold readable in Hn. apply orb_false_iff in Hn as [[Hu ?]%orb_false_iff ?].
    split; [|done]. rewrite O1. destruct (c_unread c); [by rewrite app_nil_r|done].
Qed.

(** C14. Edge triggered, the server always gets back to [epoll_wait]: whenever it is not
    waiting with nothing to report it can take a turn, and each of its turns decreases
    [weight], so that without new data it has only finitely many; it never blocks in
    [recv]. *)
Theorem epoll_progress max_events s :
  0 < max_events → reachable max_events EPOLL_ET FD_NONBLOCK s →
  (∀ evs s', server_turn max_events EPOLL_ET FD_NONBLOCK (Some evs) s = Some s' → weight s' < weight s) ∧
  (quiescent EPOLL_ET s ∨ s_pc s = Exited ∨
   ∃ evs s', server_turn max_events EPOLL_ET FD_NONBLOCK (Some evs) s = Some s').
Proof.
  intros Hm Hr. assert (Hi : sinv EPOLL_ET FD_NONBLOCK s) by (eapply epoll_reachable_inv; [by right|done]). split.
  - intros evs s' E. unfold server_turn in E. destruct (s_pc s) eqn:Epc; [by eapply wait_decreases|by eapply process_decreases..].
  - by apply server_enabled.
Qed.

Lemma test_loop_eq c : EpollTest.epoll_et_loop c = read_conn EPOLL_ET c.
Proof.
  unfold EpollTest.epoll_et_loop, read_conn, epoll_et_loop. simpl.
  destruct (recv c) as [[[|x d]|e|] c']; try done. by destruct (e =? EAGAIN)%Z.
Qed.

(** The server of epoll_test.c takes exactly the turns of epoll_lt_et.c edge
    triggered without blocking, with room for 10 events. *)
Lemma epoll_test_equivalent r s :
  EpollTest.main_turn r s = server_turn EpollTest.MAX_EVENT_FD_SIZE EPOLL_ET FD_NONBLOCK r s.
Proof.
  unfold EpollTest.main_turn, server_turn. destruct (s_pc s) as [|evs|fd evs|] eqn:Epc; [done|..];
    unfold EpollTest.process_recv, epoll_process; rewrite Epc; [| |done].
  - destruct evs as [|[newfd|fd []] evs]; unfold accept_event; rewrite ?Epc; reflexivity.
  - destruct (s_conns s !! fd) as [c|]; [|done]. cbn [mbind option_bind]. by rewrite test_loop_eq.
Qed.

(** The listening socket is edge triggered too, but the server accepts one connection
    per event: for every [n] it can come to wait with nothing to report while [n] clients
    are connected and not accepted, and whatever those clients do it goes on waiting,
    until another client connects. *)
Lemma epoll_strands_clients max_events epoll_type block_type n :
  0 < max_events →
  ∃ s, reachable max_events epoll_type block_type s ∧ quiescent epoll_type s ∧ length (s_backlog s) = n ∧
    ∀ a i s', a ≠ Connect → client_turn a (Waiting i) s = Some s' → quiescent epoll_type s' ∧ length (s_backlog s') = n.
Proof.
  intros Hm. set (c := addfd_to_epoll block_type new_conn).
  exists (MkServer (replicate n new_conn) false {[0 := c]} [] Wait).
  assert (Hq : ∀ b, quiescent epoll_type (MkServer b false {[0 := c]} [] Wait)).
  { intros b. split; [done|]. intros [newfd|fd pollin]; [done|]. simpl. destruct ({[0 := c]} !! fd) as [c'|] eqn:E; [|done].
    apply lookup_singleton_Some in E as [_ <-]. unfold c, addfd_to_epoll. destruct (block_type =? FD_NONBLOCK)%Z, pollin; done. }
  split_and!; [|apply Hq|apply length_replicate|].
  - assert (H1 : ∀ k, reachable max_events epoll_type block_type (MkServer (replicate (S k) new_conn) true ∅ [] Wait)).
    { induction k as [|k IH]; [by eapply (reach_client _ _ _ Connect (Waiting 0)); [apply reach_start|]|].
      eapply (reach_client _ _ _ Connect (Waiting 0)); [apply IH|]. simpl. do 2 f_equal. change [new_conn] with (replicate 1 new_conn).
      rewrite <-replicate_add. rewrite Nat.add_comm. done. }
    set (s1 := MkServer (replicate (S n) new_conn) false ∅ [] (Events [EvListen (Some 0)])).
    assert (H2 : reachable max_events epoll_type block_type s1).
    { eapply reach_server with (r := Some [EvListen (Some 0)]); [apply (H1 n)|]. unfold server_turn, epoll_wait. cbn [s_pc].
      assert (E : (length [EvListen (Some 0)] <=? max_events)%nat = true) by (apply Nat.leb_le; simpl; lia). by rewrite E. }
    eapply reach_server with (r := None); [eapply reach_server with (r := None); [apply H2|done]|done].
  - intros a i s' Ha. destruct a; [done|..]; intros (c0 & _ & (c1 & _ & [= <-])%bind_Some)%bind_Some;
      (split; [apply Hq|]); cbn [s_backlog]; by rewrite length_insert, length_replicate.
Qed.

(** ** Samples *)

(** A client connects and sends seven bytes, and an eighth while the server reads them. *)
Fixpoint run_sample (ts : list (option (list event) + client * who)) (s : server) : option server :=
  match ts with
  | [] => Some s
  | inl r :: ts => s ← server_turn MAX_EPOLL_EVENTS EPOLL_ET FD_NONBLOCK r s; run_sample ts s
  | inr (a, w) :: ts => s ← client_turn a w s; run_sample ts s
  end.

Lemma run_sample_reachable ts s s' :
  reachable MAX_EPOLL_EVENTS EPOLL_ET FD_NONBLOCK s → run_sample ts s = Some s' →
  reachable MAX_EPOLL_EVENTS EPOLL_ET FD_NONBLOCK s'.
Proof.
  revert s. induction ts as [|[r|[a w]] ts IH]; intros s Hr; simpl; [by intros [= <-]| |];
    intros (s1 & E & E')%bind_Some; (eapply IH; [|exact E']); [by eapply reach_server|by eapply reach_client].
Qed.

Definition sample_turns : list (option (list event) + client * who) :=
  [inr (Connect, Waiting 0); inl (Some [EvListen (Some 6)]); inr (Send [1; 2; 3; 4; 5; 6; 7]%Z, Waiting 0);
   inl None; inl None; inl (Some [EvConn 6 true]); inl None; inl None; inr (Send [8]%Z, Accepted 6); inl None; inl None; inl None].

Definition sample_conn : conn := MkConn [1; 2; 3; 4; 5; 6; 7; 8]%Z [1; 2; 3; 4; 5; 6; 7; 8]%Z [] false false true true.
Definition sample_server : server := MkServer [] false {[6 := sample_conn]} [] Wait.

Lemma sample_server_reachable : reachable MAX_EPOLL_EVENTS EPOLL_ET FD_NONBLOCK sample_server.
Proof. apply (run_sample_reachable sample_turns start_server); [apply reach_start|]. by vm_compute. Qed.

Lemma sample_quiescent : quiescent EPOLL_ET sample_server.
Proof.
  split; [done|]. intros [newfd|fd b]; [done|]. simpl. unfold sample_server. cbn [s_conns].
  destruct ({[6 := _]} !! fd) as [c|] eqn:E; [|done]. apply lookup_singleton_Some in E as [_ <-]. by destruct b.
Qed.

Example epoll_delivers_witness :
  c_got sample_conn = c_sent sample_conn ∧ c_eof sample_conn = false ∧ c_err sample_conn = false.
Proof.
  apply (epoll_delivers MAX_EPOLL_EVENTS EPOLL_ET FD_NONBLOCK sample_server) with (fd := 6);
    [by right|exact sample_server_reachable|exact sample_quiescent|reflexivity].
Defined.

Example epoll_progress_witness :
  quiescent EPOLL_ET sample_server ∨ s_pc sample_server = Exited ∨
  ∃ evs s', server_turn MAX_EPOLL_EVENTS EPOLL_ET FD_NONBLOCK (Some evs) sample_server = Some s'.
Proof.
  apply (epoll_progress MAX_EPOLL_EVENTS sample_server); [unfold MAX_EPOLL_EVENTS; lia|exact sample_server_reachable].
Defined.

Example epoll_strands_clients_witness :
  ∃ s, reachable MAX_EPOLL_EVENTS EPOLL_ET FD_NONBLOCK s ∧ quiescent EPOLL_ET s ∧ length (s_backlog s) = 3.
Proof.
  destruct (epoll_strands_clients MAX_EPOLL_EVENTS EPOLL_ET FD_NONBLOCK 3) as (s & H1 & H2 & H3 & _);
    [unfold MAX_EPOLL_EVENTS; lia|]. by exists s.
Defined.
