(* ===== verification/Threads.v ===== *)
(** * Lists of threads

    What the threads of a program hold together, when the thread at one index makes a
    step.  Shared by the files that interleave any number of threads or processes. *)

From S2P Require Import Prelude.
From Stdlib Require Import Permutation.

Definition all {A B} (f : A → list B) (l : list A) : list B := concat (f <$> l).

Section all.
Context {A B : Type} (f : A → list B).
Implicit Types l : list A.

Lemma all_take l i x : l !! i = Some x → all f l ≡ₚ f x ++ all f (delete i l).
Proof.
  unfold all. revert i. induction l as [|y l IH]; intros [|i] Hi; simplify_eq/=; [done|]. rewrite (IH i Hi). solve_Permutation.
Qed.

Lemma all_put l i x y : l !! i = Some x → all f (<[i := y]> l) ≡ₚ f y ++ all f (delete i l).
Proof.
  unfold all. revert i. induction l as [|z l IH]; intros [|i] Hi; simplify_eq/=; [done|]. rewrite (IH i Hi). solve_Permutation.
Qed.

(** A step that leaves what the thread holds. *)
Lemma all_same l i x y : l !! i = Some x → f y = f x → all f (<[i := y]> l) = all f l.
Proof.
  intros Hi E. unfold all. rewrite list_fmap_insert, E. f_equal. apply list_insert_id. by rewrite list_lookup_fmap, Hi.
Qed.

Lemma all_empty l : (∀ x, x ∈ l → f x = []) → all f l = [].
Proof.
  unfold all. induction l as [|x l IH]; intros H; [done|]. rewrite fmap_cons. cbn [concat].
  rewrite (H x) by left. apply IH. intros y Hy. apply H. by right.
Qed.

Lemma all_nil x k : f x = [] → all f (replicate k x) = [].
Proof. intros E. apply all_empty. by intros y [-> _]%elem_of_replicate. Qed.

Lemma elem_of_all b l : b ∈ all f l ↔ ∃ x, x ∈ l ∧ b ∈ f x.
Proof.
  unfold all. induction l as [|x l IH]; [|rewrite fmap_cons; cbn [concat]; rewrite elem_of_app, IH].
  - split; [by intros ?%elem_of_nil|]. intros (x & Hx & _). by apply elem_of_nil in Hx.
  - split.
    + intros [H|(y & Hy & H)]; [exists x; split; [left|done]|exists y; split; [by right|done]].
    + intros (y & Hy & H). apply elem_of_cons in Hy as [->|Hy]; [by left|right; by exists y].
Qed.
End all.
