(* ===== verification/EventFd.v ===== *)
(** * Workers on event descriptors

    IO/eventfd_examples/eventfd_worker/eventfd_worker.c: producers make an eventfd for
    each task and write to it; consumers that share one epoll descriptor, edge triggered,
    read it, close it and do the task.  The threads take turns at the granularity of
    system calls, so that a descriptor that was closed can be given out again while
    others still hold events. *)

From S2P Require Import Prelude Threads.
From Stdlib Require Import Lia Permutation.

Definition NUM_PRODUCERS : nat := 4.
Definition NUM_CONSUMERS : nat := 2.
Definition MAX_EVENTS_SIZE : nat := 1024.

(** ** State *)

(** An open eventfd: its counter, whether the epoll set has it, whether an event is to be
    reported, and which task it stands for. *)
Record efd := MkEfd { e_count : nat; e_reg : bool; e_edge : bool; e_task : nat }.

(** Where a producer is: at the head of its loop, before [epoll_ctl], before [write],
    after its loop. *)
Inductive ppc := PCreate | PAdd (fd : nat) | PWrite (fd : nat) | PDone.
Record producer := MkProducer { p_pc : ppc; p_i : nat }.

(** Where a consumer is: in [epoll_wait], at the head of its loop over the events left,
    before [close], before [do_task]. *)
Inductive cpc := CWait | CEvents (fds : list nat) | CClose (fd : nat) (fds : list nat) | CTask (task : nat) (fds : list nat).
Record consumer := MkConsumer { c_pc : cpc; num_done : nat }.

Record workers := MkWorkers {
  efds : gmap nat efd;
  producers : list producer;
  consumers : list consumer;
  next_task : nat;
  done_tasks : list nat;
  exited : bool;
}.

Definition set_efds (m : gmap nat efd) (s : workers) : workers :=
  MkWorkers m (producers s) (consumers s) (next_task s) (done_tasks s) (exited s).
Definition set_producer (i : nat) (p : producer) (s : workers) : workers :=
  MkWorkers (efds s) (<[i := p]> (producers s)) (consumers s) (next_task s) (done_tasks s) (exited s).
Definition set_consumer (i : nat) (c : consumer) (s : workers) : workers :=
  MkWorkers (efds s) (producers s) (<[i := c]> (consumers s)) (next_task s) (done_tasks s) (exited s).

(** ** System calls on event descriptors *)

Definition epoll_add (e : efd) : efd := MkEfd (e_count e) true (bool_decide (0 < e_count e)) (e_task e).
Definition write_one (e : efd) : efd := MkEfd (S (e_count e)) (e_reg e) (e_reg e) (e_task e).
Definition clear_edge (e : efd) : efd := MkEfd (e_count e) (e_reg e) false (e_task e).
Definition read_all (e : efd) : efd := MkEfd 0 (e_reg e) (e_edge e) (e_task e).

(** ** The threads *)

(** The next system call of a producer.  [bound] is the number of tasks of
    [producer_routine_spike], or [None] for [producer_routine].  [newfd] is the
    descriptor that [eventfd] returns; a failure ends the process.  [epoll_ctl] and [write]
    on the new descriptor succeed. *)
Definition producer_turn (bound : option nat) (i : nat) (newfd : option nat) (s : workers) : option workers :=
  p ← producers s !! i;
  match p_pc p with
  | PCreate =>
      if match bound with Some n => (p_i p <? n)%nat | None => true end then
        match newfd with
        | None => Some (MkWorkers (efds s) (producers s) (consumers s) (next_task s) (done_tasks s) true)
        | Some fd =>
            if decide (efds s !! fd = None) then
              Some (MkWorkers (<[fd := MkEfd 0 false false (next_task s)]> (efds s))
                      (<[i := MkProducer (PAdd fd) (p_i p)]> (producers s)) (consumers s) (S (next_task s)) (done_tasks s) (exited s))
            else None
        end
      else Some (set_producer i (MkProducer PDone (p_i p)) s)
  | PAdd fd => Some (set_producer i (MkProducer (PWrite fd) (p_i p)) (set_efds (alter epoll_add fd (efds s)) s))
  | PWrite fd => Some (set_producer i (MkProducer PCreate (S (p_i p))) (set_efds (alter write_one fd (efds s)) s))
  | PDone => None
  end.

(** The next system call of a consumer.  [fds] is what [epoll_wait] returns; none when it
    times out or fails. *)
Definition consumer_turn (i : nat) (fds : list nat) (s : workers) : option workers :=
  c ← consumers s !! i;
  match c_pc c with
  | CWait =>
      if forallb (λ fd, match efds s !! fd with Some e => e_reg e && e_edge e | None => false end) fds &&
         bool_decide (NoDup fds) && (length fds <=? MAX_EVENTS_SIZE)%nat
      then Some (set_consumer i (MkConsumer (CEvents fds) (num_done c))
                   (set_efds (foldr (λ fd m, alter clear_edge fd m) (efds s) fds) s))
      else None
  | CEvents [] => Some (set_consumer i (MkConsumer CWait (num_done c)) s)
  | CEvents (fd :: fds) =>
      match efds s !! fd with
      | Some e =>
          if (0 <? e_count e)%nat
          then Some (set_consumer i (MkConsumer (CClose fd fds) (num_done c)) (set_efds (<[fd := read_all e]> (efds s)) s))
          else Some (set_consumer i (MkConsumer (CEvents fds) (num_done c)) s)      (* EAGAIN *)
      | None => Some (set_consumer i (MkConsumer (CEvents fds) (num_done c)) s)     (* EBADF *)
      end
  | CClose fd fds =>
      e ← efds s !! fd;
      Some (set_consumer i (MkConsumer (CTask (e_task e) fds) (num_done c)) (set_efds (delete fd (efds s)) s))
  | CTask task fds =>
      Some (MkWorkers (efds s) (producers s) (<[i := MkConsumer (CEvents fds) (S (num_done c))]> (consumers s))
              (next_task s) (done_tasks s ++ [task]) (exited s))
  end.

(** [main]: the threads it starts. *)
Definition start_workers (np nc : nat) : workers :=
  MkWorkers ∅ (replicate np (MkProducer PCreate 0)) (replicate nc (MkConsumer CWait 0)) 0 [] false.

Inductive turn := Produce (i : nat) (newfd : option nat) | Consume (i : nat) (fds : list nat).

Definition worker_turn (bound : option nat) (t : turn) (s : workers) : option workers :=
  if exited s then None
  else match t with Produce i newfd => producer_turn bound i newfd s | Consume i fds => consumer_turn i fds s end.

Inductive wruns (bound : option nat) (np nc : nat) : workers → Prop :=
  | wruns_start : wruns bound np nc (start_workers np nc)
  | wruns_turn t s s' : wruns bound np nc s → worker_turn bound t s = Some s' → wruns bound np nc s'.

(** ** The invariant *)

(** Who may use the open descriptors [m]: [ad] are held by producers before [epoll_ctl],
    [wr] before [write]; [re] are events that consumers still have to read, [cl] those
    they have read and not closed; all others wait for [epoll_wait] to report them.  [dg]
    are the tasks consumers are about to do, [dn] those done, of [n] in all. *)
Definition role (ad wr re cl : list nat) (fd : nat) (e : efd) : Prop :=
  (fd ∈ ad → e_count e = 0 ∧ e_edge e = false) ∧
  (fd ∈ wr → e_count e = 0 ∧ e_reg e = true ∧ e_edge e = false) ∧
  (fd ∈ re → 0 < e_count e ∧ e_edge e = false) ∧
  (fd ∈ cl → e_edge e = false) ∧
  (fd ∉ ad → fd ∉ wr → fd ∉ re → fd ∉ cl → 0 < e_count e ∧ e_reg e = true ∧ e_edge e = true).

Definition open_tasks (m : gmap nat efd) : list nat := (e_task ∘ snd) <$> map_to_list m.

Record owns (m : gmap nat efd) (ad wr re cl dg dn : list nat) (n : nat) : Prop := {
  own_nodup : NoDup (ad ++ wr ++ re ++ cl);
  own_open : ∀ fd, fd ∈ ad ++ wr ++ re ++ cl → is_Some (m !! fd);
  own_role : ∀ fd e, m !! fd = Some e → role ad wr re cl fd e;
  own_tasks : dn ++ dg ++ open_tasks m ≡ₚ seq 0 n;
}.

Lemma owns_perm m ad wr re cl dg dn n ad' wr' re' cl' dg' :
  ad ≡ₚ ad' → wr ≡ₚ wr' → re ≡ₚ re' → cl ≡ₚ cl' → dg ≡ₚ dg' →
  owns m ad wr re cl dg dn n → owns m ad' wr' re' cl' dg' dn n.
Proof.
  intros H1 H2 H3 H4 H5 [A B C D]. split.
  - by rewrite <-H1, <-H2, <-H3, <-H4.
  - intros fd. rewrite <-H1, <-H2, <-H3, <-H4. apply B.
  - intros fd e He. destruct (C fd e He) as (R1 & R2 & R3 & R4 & R5).
    split_and!; rewrite <-?H1, <-?H2, <-?H3, <-?H4; done.
  - by rewrite <-H5.
Qed.

Lemma open_tasks_insert m fd e : m !! fd = None → open_tasks (<[fd := e]> m) ≡ₚ e_task e :: open_tasks m.
Proof. intros H. unfold open_tasks. rewrite map_to_list_insert by done. done. Qed.
Lemma open_tasks_delete m fd e : m !! fd = Some e → open_tasks m ≡ₚ e_task e :: open_tasks (delete fd m).
Proof. intros H. rewrite <-(insert_delete_id m fd e H) at 1. apply open_tasks_insert, lookup_delete_eq. Qed.
Lemma open_tasks_update m fd e e' : m !! fd = Some e → e_task e' = e_task e → open_tasks (<[fd := e']> m) ≡ₚ open_tasks m.
Proof.
  intros H E. rewrite <-insert_delete_eq, open_tasks_insert, E by apply lookup_delete_eq. by rewrite <-(open_tasks_delete m fd e H).
Qed.
Lemma alter_some {A} (f : A → A) (m : gmap nat A) fd e : m !! fd = Some e → alter f fd m = <[fd := f e]> m.
Proof.
  intros H. apply map_eq. intros i. destruct (decide (i = fd)) as [->|Hne].
  - by rewrite lookup_alter_eq, H, lookup_insert_eq.
  - by rewrite lookup_alter_ne, lookup_insert_ne.
Qed.

(** A descriptor changes hands: the roles of the others stay. *)
Lemma owns_move m fd e e' ad wr re cl ad' wr' re' cl' dg dn n :
  owns m ad wr re cl dg dn n → m !! fd = Some e → e_task e' = e_task e →
  (∀ fd', fd' ≠ fd → (fd' ∈ ad ↔ fd' ∈ ad') ∧ (fd' ∈ wr ↔ fd' ∈ wr') ∧ (fd' ∈ re ↔ fd' ∈ re') ∧ (fd' ∈ cl ↔ fd' ∈ cl')) →
  NoDup (ad' ++ wr' ++ re' ++ cl') → role ad' wr' re' cl' fd e' →
  owns (<[fd := e']> m) ad' wr' re' cl' dg dn n.
Proof.
  intros [A B C D] He Ht Hm Hnd Hr. split; [done| | |].
  - intros fd' Hin. destruct (decide (fd' = fd)) as [->|Hne]; [rewrite lookup_insert_eq; by eexists|].
    rewrite lookup_insert_ne by done. apply B. rewrite !elem_of_app in *. destruct (Hm fd' Hne) as (-> & -> & -> & ->). done.
  - intros fd' e1. destruct (decide (fd' = fd)) as [->|Hne]; [rewrite lookup_insert_eq; by intros [= <-]|].
    rewrite lookup_insert_ne by done. intros H. specialize (C fd' e1 H). unfold role in *.
    destruct (Hm fd' Hne) as (<- & <- & <- & <-). done.
  - by rewrite (open_tasks_update m fd e e').
Qed.

Section moves.
Context (m : gmap nat efd) (dn : list nat) (n : nat).
Implicit Types ad wr re cl dg : list nat.

Ltac others := intros fd' Hne; split_and!; rewrite ?elem_of_cons; tauto.

Lemma owns_create ad wr re cl dg fd :
  owns m ad wr re cl dg dn n → m !! fd = None →
  owns (<[fd := MkEfd 0 false false n]> m) (fd :: ad) wr re cl dg dn (S n).
Proof.
  intros [A B C D] Hn. assert (Hf : fd ∉ ad ++ wr ++ re ++ cl) by (intros Hin; destruct (B fd Hin); congruence). split.
  - by constructor.
  - intros fd' Hin. destruct (decide (fd' = fd)) as [->|Hne]; [rewrite lookup_insert_eq; by eexists|].
    rewrite lookup_insert_ne by done. apply B. by apply elem_of_cons in Hin as [|].
  - intros fd' e. destruct (decide (fd' = fd)) as [->|Hne].
    + rewrite lookup_insert_eq. intros [= <-]. rewrite !not_elem_of_app in Hf. destruct Hf as (? & ? & ? & ?).
      split_and!; try done. intros Ha. by destruct Ha; left.
    + rewrite lookup_insert_ne by done. intros H. specialize (C fd' e H). unfold role in *. rewrite !elem_of_cons. tauto.
  - rewrite open_tasks_insert by done. cbn [e_task]. rewrite seq_S, <-D. solve_Permutation.
Qed.

Lemma owns_add ad wr re cl dg fd :
  owns m (fd :: ad) wr re cl dg dn n → owns (alter epoll_add fd m) ad (fd :: wr) re cl dg dn n.
Proof.
  intros Ho. pose proof Ho as [A B C D]. destruct (B fd) as [e He]; [left|]. rewrite (alter_some _ m fd e He).
  apply NoDup_cons in A as [Hf A]. rewrite !not_elem_of_app in Hf. destruct Hf as (? & ? & ? & ?).
  destruct (C fd e He) as (R1 & _). destruct R1 as [R1 R1']; [left|].
  eapply owns_move; [done..|others| |].
  - eapply NoDup_Permutation_proper; [|constructor; [|exact A]]; [solve_Permutation|]. by rewrite !not_elem_of_app.
  - split_and!; try done; [|intros _ Hx; by destruct Hx; left]. intros _. simpl. by rewrite R1.
Qed.

Lemma owns_write ad wr re cl dg fd :
  owns m ad (fd :: wr) re cl dg dn n → owns (alter write_one fd m) ad wr re cl dg dn n.
Proof.
  intros Ho. pose proof Ho as [A B C D]. destruct (B fd) as [e He]; [apply elem_of_app; right; left|].
  rewrite (alter_some _ m fd e He).
  assert (A' : NoDup (fd :: ad ++ wr ++ re ++ cl)) by (eapply NoDup_Permutation_proper; [|exact A]; solve_Permutation).
  apply NoDup_cons in A' as [Hf A']. rewrite !not_elem_of_app in Hf. destruct Hf as (? & ? & ? & ?).
  destruct (C fd e He) as (_ & R2 & _). destruct R2 as (R2 & R3 & R4); [left|].
  eapply owns_move; [done..|others|done|]. split_and!; try done. intros _ _ _ _. simpl. split; [lia|done].
Qed.

Lemma owns_read ad wr re cl dg fd :
  owns m ad wr (fd :: re) cl dg dn n →
  ∃ e, m !! fd = Some e ∧ 0 < e_count e ∧ owns (<[fd := read_all e]> m) ad wr re (fd :: cl) dg dn n.
Proof.
  intros Ho. pose proof Ho as [A B C D]. destruct (B fd) as [e He]; [rewrite !elem_of_app; right; right; left; left|].
  assert (A' : NoDup (fd :: ad ++ wr ++ re ++ cl)) by (eapply NoDup_Permutation_proper; [|exact A]; solve_Permutation).
  destruct (C fd e He) as (_ & _ & R3 & _). destruct R3 as [R3 R3']; [left|].
  exists e. split; [done|]. split; [done|]. eapply owns_move; [done..|others| |].
  - eapply NoDup_Permutation_proper; [|exact A']. solve_Permutation.
  - apply NoDup_cons in A' as [Hf _]. rewrite !not_elem_of_app in Hf. destruct Hf as (? & ? & ? & ?).
    split_and!; try done. intros _ _ _ Hx. by destruct Hx; left.
Qed.

Lemma owns_close ad wr re cl dg fd :
  owns m ad wr re (fd :: cl) dg dn n →
  ∃ e, m !! fd = Some e ∧ owns (delete fd m) ad wr re cl (e_task e :: dg) dn n.
Proof.
  intros [A B C D]. destruct (B fd) as [e He]; [rewrite !elem_of_app; do 3 right; left|]. exists e. split; [done|].
  assert (A' : NoDup (fd :: ad ++ wr ++ re ++ cl)) by (eapply NoDup_Permutation_proper; [|exact A]; solve_Permutation).
  apply NoDup_cons in A' as [Hf A']. split; [done| | |].
  - intros fd' Hin. destruct (decide (fd' = fd)) as [->|Hne]; [done|]. rewrite lookup_delete_ne by done. apply B.
    rewrite !elem_of_app, ?elem_of_cons in *. tauto.
  - intros fd' e' [Hne H]%lookup_delete_Some. specialize (C fd' e' H). unfold role in *. rewrite !elem_of_cons in C.
    assert (fd' ≠ fd) by congruence. tauto.
  - rewrite <-D, (open_tasks_delete m fd e He). solve_Permutation.
Qed.
End moves.

Lemma owns_wait m ad wr re cl dg dn n fds :
  owns m ad wr re cl dg dn n → NoDup fds →
  (∀ fd, fd ∈ fds → ∃ e, m !! fd = Some e ∧ e_edge e = true) →
  owns (foldr (λ fd m, alter clear_edge fd m) m fds) ad wr (fds ++ re) cl dg dn n.
Proof.
  induction fds as [|fd fds IH]; intros Ho Hnd He; [done|]. apply NoDup_cons in Hnd as [Hn Hnd]. cbn [foldr app].
  assert (Hm : foldr (λ fd m, alter clear_edge fd m) m fds !! fd = m !! fd).
  { clear -Hn. induction fds as [|fd1 fds IH]; [done|]. apply not_elem_of_cons in Hn as [? Hn]. cbn [foldr].
    by rewrite lookup_alter_ne by done; apply IH. }
  destruct (He fd) as (e & El & Ee); [left|]. rewrite El in Hm.
  assert (Ho1 : owns (foldr (λ fd m, alter clear_edge fd m) m fds) ad wr (fds ++ re) cl dg dn n).
  { apply IH; [done..|]. intros fd' Hin. apply He. by right. }
  rewrite (alter_some _ _ fd e Hm). pose proof Ho1 as [A B C D].
  destruct (C fd e Hm) as (R1 & R2 & R3 & R4 & R5).
  assert (Hf : (fd ∉ ad) ∧ (fd ∉ wr) ∧ (fd ∉ fds ++ re) ∧ (fd ∉ cl)).
  { split_and!; intros Hin; [destruct (R1 Hin)|destruct (R2 Hin) as (_ & _ & ?)|destruct (R3 Hin)|specialize (R4 Hin)]; congruence. }
  destruct Hf as (F1 & F2 & F3 & F4). destruct (R5 F1 F2 F3 F4) as (G1 & G2 & G3).
  eapply owns_move; [done..| | |].
  - intros fd' Hne. split_and!; rewrite ?elem_of_cons; tauto.
  - eapply NoDup_Permutation_proper; [|constructor; [|exact A]]; [solve_Permutation|]. rewrite !not_elem_of_app in *. tauto.
  - split_and!; try done. intros _ _ Hx. by destruct Hx; left.
Qed.

(** ** The threads keep it *)

Definition p_adding (p : producer) : list nat := match p_pc p with PAdd fd => [fd] | _ => [] end.
Definition p_writing (p : producer) : list nat := match p_pc p with PWrite fd => [fd] | _ => [] end.
Definition c_events (c : consumer) : list nat :=
  match c_pc c with CEvents fds | CClose _ fds | CTask _ fds => fds | CWait => [] end.
Definition c_closing (c : consumer) : list nat := match c_pc c with CClose fd _ => [fd] | _ => [] end.
Definition c_task (c : consumer) : list nat := match c_pc c with CTask task _ => [task] | _ => [] end.

Record winv (s : workers) : Prop := {
  wi_owns : owns (efds s) (all p_adding (producers s)) (all p_writing (producers s)) (all c_events (consumers s))
              (all c_closing (consumers s)) (all c_task (consumers s)) (done_tasks s) (next_task s);
  wi_count : sum_list (num_done <$> consumers s) = length (done_tasks s);
}.

Lemma count_put l i c c' :
  l !! i = Some c → sum_list (num_done <$> <[i := c']> l) + num_done c = sum_list (num_done <$> l) + num_done c'.
Proof.
  revert i. induction l as [|x l IH]; intros [|i] Hi; simplify_eq/=; [lia|]. specialize (IH i Hi). lia.
Qed.

Lemma start_workers_inv np nc : winv (start_workers np nc).
Proof.
  split; cbn [start_workers efds producers consumers done_tasks next_task].
  - rewrite !all_nil by done. split.
    + constructor.
    + by intros fd ?%elem_of_nil.
    + intros fd e. by rewrite lookup_empty.
    + done.
  - induction nc as [|nc IH]; [done|]. simpl. done.
Qed.

Lemma producer_keeps_inv bound i newfd s s' : winv s → producer_turn bound i newfd s = Some s' → winv s'.
Proof.
  intros [Ho Hc] (p & Hi & E)%bind_Some.
  pose proof (all_take p_adding _ _ _ Hi) as T1. pose proof (all_take p_writing _ _ _ Hi) as T2.
  eapply owns_perm in Ho; [|exact T1|exact T2|reflexivity..]. unfold p_adding at 1, p_writing at 1 in Ho.
  assert (Hput : ∀ p', all p_adding (<[i := p']> (producers s)) ≡ₚ p_adding p' ++ all p_adding (delete i (producers s)) ∧
                       all p_writing (<[i := p']> (producers s)) ≡ₚ p_writing p' ++ all p_writing (delete i (producers s)))
    by (intros p'; split; by eapply all_put).
  destruct (p_pc p) as [|fd|fd|] eqn:Epc; cbn [app] in Ho.
  - destruct (match bound with Some _ => _ | None => _ end).
    + destruct newfd as [fd|]; simplify_eq/=; [|split; [|done]; eapply owns_perm; [..|exact Ho]; try done; by rewrite ?T1, ?T2; unfold p_adding, p_writing; rewrite Epc].
      case_decide as Hn; simplify_eq/=. split; [|done]. cbn [efds producers consumers done_tasks next_task].
      destruct (Hput (MkProducer (PAdd fd) (p_i p))) as [P1 P2].
      eapply owns_perm; [by symmetry; exact P1|by symmetry; exact P2|reflexivity..|]. by apply owns_create.
    + simplify_eq/=. split; [|done]. cbn [set_producer efds producers consumers done_tasks next_task].
      destruct (Hput (MkProducer PDone (p_i p))) as [P1 P2].
      by eapply owns_perm; [by symmetry; exact P1|by symmetry; exact P2|reflexivity..|].
  - simplify_eq/=. split; [|done]. cbn [set_producer set_efds efds producers consumers done_tasks next_task].
    destruct (Hput (MkProducer (PWrite fd) (p_i p))) as [P1 P2].
    eapply owns_perm; [by symmetry; exact P1|by symmetry; exact P2|reflexivity..|]. by apply owns_add.
  - simplify_eq/=. split; [|done]. cbn [set_producer set_efds efds producers consumers done_tasks next_task].
    destruct (Hput (MkProducer PCreate (S (p_i p)))) as [P1 P2].
    eapply owns_perm; [by symmetry; exact P1|by symmetry; exact P2|reflexivity..|]. by apply owns_write.
  - done.
Qed.

Lemma consumer_keeps_inv i fds s s' : winv s → consumer_turn i fds s = Some s' → winv s'.
Proof.
  intros [Ho Hc] (c & Hi & E)%bind_Some.
  pose proof (all_take c_events _ _ _ Hi) as T1. pose proof (all_take c_closing _ _ _ Hi) as T2.
  pose proof (all_take c_task _ _ _ Hi) as T3.
  eapply owns_perm in Ho; [|reflexivity|reflexivity|exact T1|exact T2|exact T3]. unfold c_events at 1, c_closing at 1, c_task at 1 in Ho.
  assert (Hput : ∀ c', all c_events (<[i := c']> (consumers s)) ≡ₚ c_events c' ++ all c_events (delete i (consumers s)) ∧
                       all c_closing (<[i := c']> (consumers s)) ≡ₚ c_closing c' ++ all c_closing (delete i (consumers s)) ∧
                       all c_task (<[i := c']> (consumers s)) ≡ₚ c_task c' ++ all c_task (delete i (consumers s)))
    by (intros c'; split_and!; by eapply all_put).
  assert (Hkeep : ∀ m c', num_done c' = num_done c →
    owns m (all p_adding (producers s)) (all p_writing (producers s)) (c_events c' ++ all c_events (delete i (consumers s)))
      (c_closing c' ++ all c_closing (delete i (consumers s))) (c_task c' ++ all c_task (delete i (consumers s)))
      (done_tasks s) (next_task s) → winv (set_consumer i c' (set_efds m s))).
  { intros m c' En Ho'. destruct (Hput c') as (P1 & P2 & P3). split; cbn [set_consumer set_efds efds producers consumers done_tasks next_task].
    - eapply owns_perm; [reflexivity..|by symmetry; exact P1|by symmetry; exact P2|by symmetry; exact P3|done].
    - pose proof (count_put _ _ _ c' Hi). lia. }
  destruct (c_pc c) as [|[|fd fds']|fd fds'|task fds'] eqn:Epc; cbn [app] in Ho.
  - destruct (_ && _) eqn:Hv; [|done]. injection E as <-. apply andb_true_iff in Hv as [[Hf Hnd]%andb_true_iff _].
    apply Hkeep; [done|]. apply bool_decide_eq_true in Hnd. rewrite forallb_forall in Hf. cbn [c_events c_pc c_closing c_task app].
    apply owns_wait; [done..|]. intros fd Hin. specialize (Hf fd (proj1 (list_elem_of_In _ _) Hin)).
    destruct (efds s !! fd) as [e|]; [|done]. exists e. split; [done|]. by destruct (e_reg e).
  - injection E as <-. by apply (Hkeep (efds s) (MkConsumer CWait (num_done c))).
  - destruct (owns_read _ _ _ _ _ _ _ _ _ Ho) as (e & El & Hpos & Ho'). rewrite El, (proj2 (Nat.ltb_lt _ _) Hpos) in E.
    injection E as <-. by apply Hkeep.
  - destruct (owns_close _ _ _ _ _ _ _ _ _ Ho) as (e & El & Ho'). rewrite El in E. injection E as <-. by apply Hkeep.
  - injection E as <-. destruct (Hput (MkConsumer (CEvents fds') (S (num_done c)))) as (P1 & P2 & P3).
    split; cbn [efds producers consumers done_tasks next_task].
    + eapply owns_perm; [reflexivity..|by symmetry; exact P1|by symmetry; exact P2|by symmetry; exact P3|].
      destruct Ho as [A B C D]. split; try done. rewrite <-D. cbn [c_task c_pc app]. solve_Permutation.
    + pose proof (count_put _ _ _ (MkConsumer (CEvents fds') (S (num_done c))) Hi) as H. cbn [num_done] in H.
      rewrite length_app. simpl. lia.
Qed.

Lemma wruns_inv bound np nc s : wruns bound np nc s → winv s.
Proof.
  induction 1 as [|t s s' _ IH E]; [apply start_workers_inv|]. unfold worker_turn in E. destruct (exited s); [done|].
  destruct t; [by eapply producer_keeps_inv|by eapply consumer_keeps_inv].
Qed.

(** ** The theorem *)

(** No producer is in the middle of a task, no consumer has an event, and [epoll_wait]
    has nothing to report. *)
Definition idle (s : workers) : Prop :=
  (∀ p, p ∈ producers s → p_pc p = PCreate ∨ p_pc p = PDone) ∧ (∀ c, c ∈ consumers s → c_pc c = CWait) ∧
  ∀ fd e, efds s !! fd = Some e → e_edge e = false.

(** C25. Any number of producers and consumers do each task at most once, in every
    interleaving and however the kernel gives descriptors out again: a consumer always
    finds the descriptor of an event it has, with a count; the counts that the consumers
    print add up to the tasks done; and when all is idle every task has been done and no
    descriptor is left open.  The calls of [epoll_ctl] and [write] on new descriptors are
    taken to succeed. *)
Theorem workers_exactly_once bound np nc s :
  wruns bound np nc s →
  NoDup (done_tasks s) ∧ (∀ t, t ∈ done_tasks s → t < next_task s) ∧
  sum_list (num_done <$> consumers s) = length (done_tasks s) ∧
  (∀ c fd fds, c ∈ consumers s → c_pc c = CEvents (fd :: fds) → ∃ e, efds s !! fd = Some e ∧ 0 < e_count e) ∧
  (idle s → done_tasks s ≡ₚ seq 0 (next_task s) ∧ efds s = ∅).
Proof.
  intros Hr. destruct (wruns_inv _ _ _ _ Hr) as [[A B C D] Hc].
  assert (Hnd : NoDup (done_tasks s ++ all c_task (consumers s) ++ open_tasks (efds s))) by (rewrite D; apply NoDup_seq).
  split_and!; [|  |done| |].
  - by apply NoDup_app in Hnd as (? & _).
  - intros t Ht. assert (Hs : t ∈ seq 0 (next_task s)) by (rewrite <-D; apply elem_of_app; by left).
    apply elem_of_seq in Hs. lia.
  - intros c fd fds Hin Epc. assert (Hre : fd ∈ all c_events (consumers s)).
    { apply list_elem_of_lookup in Hin as [i Hi]. rewrite (all_take _ _ _ _ Hi). unfold c_events at 1. rewrite Epc. left. }
    destruct (B fd) as [e He]; [rewrite !elem_of_app; tauto|]. exists e. split; [done|].
    destruct (C fd e He) as (_ & _ & R & _). by apply R.
  - intros (Hp & Hcw & He).
    assert (E1 : all p_adding (producers s) = []) by (apply all_empty; intros p Hin; unfold p_adding; by destruct (Hp p Hin) as [->| ->]).
    assert (E2 : all p_writing (producers s) = []) by (apply all_empty; intros p Hin; unfold p_writing; by destruct (Hp p Hin) as [->| ->]).
    assert (E3 : all c_events (consumers s) = []) by (apply all_empty; intros c Hin; unfold c_events; by rewrite (Hcw c Hin)).
    assert (E4 : all c_closing (consumers s) = []) by (apply all_empty; intros c Hin; unfold c_closing; by rewrite (Hcw c Hin)).
    assert (E5 : all c_task (consumers s) = []) by (apply all_empty; intros c Hin; unfold c_task; by rewrite (Hcw c Hin)).
    assert (Hm : efds s = ∅).
    { apply map_empty. intros fd. destruct (efds s !! fd) as [e|] eqn:El; [|done]. exfalso.
      destruct (C fd e El) as (_ & _ & _ & _ & R). rewrite E1, E2, E3, E4 in R.
      destruct R as (_ & _ & R); [by apply not_elem_of_nil..|]. specialize (He fd e El). congruence. }
    split; [|done]. rewrite E5, Hm in D. unfold open_tasks in D. rewrite map_to_list_empty in D. by rewrite !app_nil_r in D.
Qed.

(** ** Sample: two tasks, with the second descriptor given out again *)

Fixpoint run_workers (ts : list turn) (s : workers) : option workers :=
  match ts with [] => Some s | t :: ts => s ← worker_turn None t s; run_workers ts s end.

Lemma run_workers_runs ts s s' :
  wruns None NUM_PRODUCERS NUM_CONSUMERS s → run_workers ts s = Some s' → wruns None NUM_PRODUCERS NUM_CONSUMERS s'.
Proof.
  revert s. induction ts as [|t ts IH]; intros s Hr; simpl; [by intros [= <-]|]. intros (s1 & E & E')%bind_Some.
  eapply IH; [|exact E']. by eapply wruns_turn.
Qed.

Definition sample_work : list turn :=
  [Produce 0 (Some 5); Produce 0 None; Produce 0 None; Consume 1 [5]; Consume 1 []; Consume 1 [];
   Produce 2 (Some 5); Consume 1 []; Produce 2 None; Produce 2 None; Consume 0 [5]; Consume 0 []; Consume 0 []; Consume 0 [];
   Consume 0 []; Consume 1 []].

Definition sample_idle : workers :=
  MkWorkers ∅ [MkProducer PCreate 1; MkProducer PCreate 0; MkProducer PCreate 1; MkProducer PCreate 0]
    [MkConsumer CWait 1; MkConsumer CWait 1] 2 [0; 1] false.

Lemma sample_idle_runs : wruns None NUM_PRODUCERS NUM_CONSUMERS sample_idle.
Proof. apply (run_workers_runs sample_work (start_workers NUM_PRODUCERS NUM_CONSUMERS)); [apply wruns_start|]. by vm_compute. Qed.

Example workers_exactly_once_witness : done_tasks sample_idle ≡ₚ seq 0 (next_task sample_idle) ∧ efds sample_idle = ∅.
Proof.
  apply (workers_exactly_once None NUM_PRODUCERS NUM_CONSUMERS sample_idle sample_idle_runs).
  split_and!; [intros p Hp|intros c Hc|done].
  - left. by repeat (apply elem_of_cons in Hp as [->|Hp]; [done|]); apply elem_of_nil in Hp.
  - by repeat (apply elem_of_cons in Hc as [->|Hc]; [done|]); apply elem_of_nil in Hc.
Defined.
