(* ===== verification/TimerFd.v ===== *)
(** * Workers on timer descriptors

    IO/eventfd_examples/timerfd_worker/timerfd_worker.c: each producer creates a timer,
    registers it edge-triggered with one epoll descriptor and arms it; the consumers wait on
    the epoll descriptor and read the timers that are reported.  The turns are the system
    calls of the threads and the expirations of the timers, in any order. *)

From S2P Require Import Prelude Threads.
From Stdlib Require Import ZArith Lia Permutation.

Definition MAX_EVENTS_SIZE : nat := Z.to_nat 1024.

(** ** The state *)

(** A timer descriptor: registered with epoll, armed; the expirations so far and those not
    read yet; whether an event is due; the reads that succeeded. *)
Record timer := MkTimer {
  registered : bool; armed : bool;
  expired : nat; unread : nat; edge : bool; reads : nat;
}.

(** [producer_routine] before [timerfd_create], [epoll_ctl], [timerfd_settime], returned. *)
Inductive ppc := PCreate | PAdd (tfd : nat) | PSettime (tfd : nat) | PDone.

(** [consumer_routine] in [epoll_wait], or with the events that are left ([i .. nfds - 1]). *)
Inductive cpc := CWait | CEvents (fds : list nat).
Record consumer := MkConsumer { c_pc : cpc; num_done : nat; failed : nat }.

Record state := MkState { timers : list timer; producers : list ppc; consumers : list consumer }.

(** [main]: the threads. *)
Definition start (num_producers num_consumers : nat) : state :=
  MkState [] (replicate num_producers PCreate) (replicate num_consumers (MkConsumer CWait 0 0)).

(** ** The turns *)

Definition on_timer (tfd : nat) (f : timer → timer) (s : state) : state := MkState (alter f tfd (timers s)) (producers s) (consumers s).
Definition set_producer (i : nat) (p : ppc) (s : state) : state := MkState (timers s) (<[i := p]> (producers s)) (consumers s).
Definition set_consumer (i : nat) (c : consumer) (s : state) : state := MkState (timers s) (producers s) (<[i := c]> (consumers s)).

Definition producer_turn (i : nat) (s : state) : option state :=
  p ← producers s !! i;
  match p with
  | PCreate =>
      let tfd := length (timers s) in
      Some (set_producer i (PAdd tfd) (MkState (timers s ++ [MkTimer false false 0 0 false 0]) (producers s) (consumers s)))
  | PAdd tfd =>
      Some (set_producer i (PSettime tfd) (on_timer tfd (λ t, MkTimer true (armed t) (expired t) (unread t) (0 <? unread t)%nat (reads t)) s))
  | PSettime tfd =>
      Some (set_producer i PDone (on_timer tfd (λ t, MkTimer (registered t) true (expired t) (unread t) (edge t) (reads t)) s))
  | PDone => None
  end.

(** A timer expires: edge-triggered, every expiration makes a new event. *)
Definition expire (tfd : nat) (s : state) : option state :=
  t ← timers s !! tfd;
  if armed t then Some (on_timer tfd (λ t, MkTimer (registered t) (armed t) (S (expired t)) (S (unread t)) (registered t) (reads t)) s)
  else None.

Definition clear_edge (t : timer) : timer := MkTimer (registered t) (armed t) (expired t) (unread t) false (reads t).
Definition clear_edges (fds : list nat) (l : list timer) : list timer := foldr (λ fd l, alter clear_edge fd l) l fds.
Definition has_edge (s : state) (tfd : nat) : bool := match timers s !! tfd with Some t => edge t | None => false end.

(** [epoll_wait] reports some of the timers with an event ([fds]; none: the time-out);
    [read] of the next one fails with [EAGAIN] when another consumer has read it. *)
Definition consumer_turn (i : nat) (fds : list nat) (s : state) : option state :=
  c ← consumers s !! i;
  match c_pc c with
  | CWait =>
      if bool_decide (NoDup fds) && forallb (has_edge s) fds && (length fds <=? MAX_EVENTS_SIZE)%nat
      then Some (set_consumer i (MkConsumer (match fds with [] => CWait | _ => CEvents fds end) (num_done c) (failed c))
                  (MkState (clear_edges fds (timers s)) (producers s) (consumers s)))
      else None
  | CEvents [] => Some (set_consumer i (MkConsumer CWait (num_done c) (failed c)) s)
  | CEvents (fd :: rest) =>
      t ← timers s !! fd;
      if (unread t =? 0)%nat then Some (set_consumer i (MkConsumer (CEvents rest) (num_done c) (S (failed c))) s)
      else Some (set_consumer i (MkConsumer (CEvents rest) (S (num_done c)) (failed c))
                  (on_timer fd (λ t, MkTimer (registered t) (armed t) (expired t) 0 (edge t) (S (reads t))) s))
  end.

Inductive turn := Producer (i : nat) | Consumer (i : nat) (fds : list nat) | Expire (tfd : nat).
Definition step (t : turn) (s : state) : option state :=
  match t with Producer i => producer_turn i s | Consumer i fds => consumer_turn i fds s | Expire tfd => expire tfd s end.

Inductive reachable (np nc : nat) : state → Prop :=
  | reach_start : reachable np nc (start np nc)
  | reach_step t s s' : reachable np nc s → step t s = Some s' → reachable np nc s'.

(** ** The invariant *)

(** The events that the consumers hold. *)
Definition held (c : consumer) : list nat := match c_pc c with CWait => [] | CEvents fds => fds end.

Record timer_ok (s : state) (tfd : nat) (t : timer) : Prop := {
  to_reads : reads t + unread t ≤ expired t;
  to_event : 0 < unread t → edge t = true ∨ tfd ∈ all held (consumers s);
  to_armed : armed t = true → registered t = true;
  to_quiet : registered t = false → unread t = 0;
}.

Definition armable (s : state) (p : ppc) : Prop :=
  match p with
  | PSettime tfd => ∃ t, timers s !! tfd = Some t ∧ registered t = true
  | PAdd tfd => is_Some (timers s !! tfd)
  | _ => True
  end.

Record inv (s : state) : Prop := {
  i_timers : ∀ tfd t, timers s !! tfd = Some t → timer_ok s tfd t;
  i_producers : ∀ p, p ∈ producers s → armable s p;
  i_done : sum_list (num_done <$> consumers s) = sum_list (reads <$> timers s);
  i_held : ∀ fd, fd ∈ all held (consumers s) → is_Some (timers s !! fd);
}.

Lemma timer_ok_mono s s' tfd t :
  (tfd ∈ all held (consumers s) → 0 < unread t → tfd ∈ all held (consumers s')) → timer_ok s tfd t → timer_ok s' tfd t.
Proof. intros Hm [H1 H2 H3 H4]. split; [done| |done|done]. intros Hu. destruct (H2 Hu); [by left|right; auto]. Qed.

Lemma sum_insert {A} (f : A → nat) l i x y :
  l !! i = Some x → sum_list (f <$> <[i := y]> l) + f x = sum_list (f <$> l) + f y.
Proof.
  revert i. induction l as [|z l IH]; intros [|i] E; simplify_eq/=; [lia|]. specialize (IH i E). unfold fmap in *. lia.
Qed.

Lemma alter_lookup (f : timer → timer) (i : nat) (l : list timer) tfd t' :
  alter f i l !! tfd = Some t' → ∃ t, l !! tfd = Some t ∧ t' = (if decide (i = tfd) then f t else t).
Proof.
  destruct (decide (i = tfd)) as [->|Hne].
  - rewrite list_lookup_alter_eq. destruct (l !! tfd) as [t|]; [|done]. intros [= <-]. by exists t.
  - rewrite list_lookup_alter_ne by done. intros H. by exists t'.
Qed.

(** A change of one timer that keeps its invariant and its registration, with the threads
    left alone. *)
Lemma alter_inv f tfd s :
  inv s → (∀ t, timers s !! tfd = Some t → timer_ok s tfd t → timer_ok s tfd (f t) ∧ reads (f t) = reads t) →
  (∀ t, registered t = true → registered (f t) = true) → inv (on_timer tfd f s).
Proof.
  intros [Ht Hp Hd Hh] Hf Hreg.
  assert (Hkeep : ∀ fd t, timers s !! fd = Some t → ∃ t', alter f tfd (timers s) !! fd = Some t' ∧ (registered t = true → registered t' = true)).
  { intros fd t E. destruct (decide (tfd = fd)) as [->|]; [rewrite list_lookup_alter_eq, E|rewrite list_lookup_alter_ne by done; rewrite E].
    all: eexists; split; [done|]; auto. }
  split; cbn.
  - intros fd t' E. apply alter_lookup in E as (t & E & ->). pose proof (Ht _ _ E) as Hok.
    destruct (decide (tfd = fd)) as [->|]; [destruct (Hf t E Hok) as [Hok' _]|]; (eapply timer_ok_mono; [|done]; done).
  - intros p Hin. specialize (Hp p Hin). destruct p as [|fd|fd|]; cbn in *; [done| | |done].
    + destruct Hp as [t E]. destruct (Hkeep _ _ E) as (t' & E' & _). by exists t'.
    + destruct Hp as (t & E & Hr). destruct (Hkeep _ _ E) as (t' & E' & Hr'). exists t'. auto.
  - rewrite Hd. destruct (timers s !! tfd) as [t|] eqn:E.
    + pose proof (sum_insert reads (timers s) tfd t (f t) E) as Hs. destruct (Hf t eq_refl (Ht _ _ E)) as [_ Hr].
      replace (alter f tfd (timers s)) with (<[tfd := f t]> (timers s)); [lia|].
      apply list_eq. intros j. destruct (decide (tfd = j)) as [->|]; [rewrite list_lookup_insert_eq by (by eapply lookup_lt_Some); by rewrite list_lookup_alter_eq, E|].
      by rewrite list_lookup_insert_ne, list_lookup_alter_ne.
    + f_equal. f_equal. apply list_eq. intros j. destruct (decide (tfd = j)) as [->|]; [by rewrite list_lookup_alter_eq, E|by rewrite list_lookup_alter_ne].
  - intros fd Hfd. destruct (Hh fd Hfd) as [t E]. destruct (Hkeep _ _ E) as (t' & E' & _). by exists t'.
Qed.

Lemma set_producer_inv i p s : inv s → armable s p → inv (set_producer i p s).
Proof.
  intros [Ht Hp Hd Hh] Ha. split; cbn; [|..|done|done].
  - intros tfd t E. eapply timer_ok_mono; [|by apply Ht]. done.
  - intros q (j & Hj)%list_elem_of_lookup. destruct (decide (i = j)) as [->|]; [|rewrite list_lookup_insert_ne in Hj by done; eapply Hp, list_elem_of_lookup_2, Hj].
    destruct (decide (j < length (producers s))); [|rewrite list_insert_ge in Hj by lia; eapply Hp, list_elem_of_lookup_2, Hj].
    rewrite list_lookup_insert_eq in Hj by done. by injection Hj as <-.
Qed.

Lemma new_timer_inv s : inv s → inv (MkState (timers s ++ [MkTimer false false 0 0 false 0]) (producers s) (consumers s)).
Proof.
  intros [Ht Hp Hd Hh]. assert (Hl : ∀ fd t, timers s !! fd = Some t → (timers s ++ [MkTimer false false 0 0 false 0]) !! fd = Some t).
  { intros. by apply lookup_app_l_Some. }
  split; cbn.
  - intros fd t [E|[_ E]]%lookup_app_Some; [eapply timer_ok_mono; [|by apply Ht]; done|].
    destruct (fd - length (timers s)) as [|k]; [|by destruct k]. injection E as <-. split; cbn; [lia|lia|done|done].
  - intros p Hin. specialize (Hp p Hin). destruct p as [|fd|fd|]; cbn in *; [done| | |done].
    + destruct Hp as [t E]. exists t. auto.
    + destruct Hp as (t & E & Hr). exists t. auto.
  - rewrite Hd, fmap_app, sum_list_with_app. cbn. lia.
  - intros fd Hfd. destruct (Hh fd Hfd) as [t E]. exists t. auto.
Qed.

Lemma producer_inv i s s' : inv s → producer_turn i s = Some s' → inv s'.
Proof.
  intros Hs E. unfold producer_turn in E. destruct (producers s !! i) as [p|] eqn:Ep; [|done]. cbn [mbind option_bind] in E.
  pose proof (i_producers s Hs p (list_elem_of_lookup_2 _ _ _ Ep)) as Ha. destruct p as [|tfd|tfd|]; [..|done]; injection E as <-; cbn in Ha.
  - apply set_producer_inv; [by apply new_timer_inv|]. cbn. rewrite lookup_app_r, Nat.sub_diag by lia. by eexists.
  - apply set_producer_inv.
    + apply alter_inv; [done| |done]. intros t Et [H1 H2 H3 H4]. split; [|done]. split; cbn; [done| |done|done].
      intros Hu. left. by destruct (unread t); [lia|].
    + destruct Ha as [t Et]. cbn. rewrite list_lookup_alter_eq, Et. by eexists.
  - apply set_producer_inv; [|done]. destruct Ha as (t0 & Et0 & Hr0). apply alter_inv; [done| |done]. intros t Et [H1 H2 H3 H4].
    split; [|done]. split; cbn; [done|done| |done]. intros _. congruence.
Qed.

Lemma expire_inv tfd s s' : inv s → expire tfd s = Some s' → inv s'.
Proof.
  intros Hs E. unfold expire in E. destruct (timers s !! tfd) as [t0|] eqn:Et0; [|done]. cbn [mbind option_bind] in E.
  destruct (armed t0) eqn:Ea; [|done]. injection E as <-. apply alter_inv; [done| |done]. intros t Et [H1 H2 H3 H4]. simplify_eq.
  specialize (H3 Ea). split; [|done]. split; cbn; [lia|by left|done|congruence].
Qed.

(** ** The consumers *)

Lemma held_set i c c' s fd :
  consumers s !! i = Some c → fd ∈ all held (consumers s) → fd ∉ held c ∨ fd ∈ held c' → fd ∈ all held (<[i := c']> (consumers s)).
Proof.
  intros Hi Hin Hc. rewrite (all_put _ _ _ _ _ Hi), elem_of_app. rewrite (all_take _ _ _ _ Hi), elem_of_app in Hin. tauto.
Qed.

Lemma held_sub i c c' s fd :
  consumers s !! i = Some c → (∀ x, x ∈ held c' → x ∈ held c) → fd ∈ all held (<[i := c']> (consumers s)) → fd ∈ all held (consumers s).
Proof.
  intros Hi Hc. rewrite (all_put _ _ _ _ _ Hi), (all_take _ _ _ _ Hi), !elem_of_app. intros [?|?]; auto.
Qed.

(** A consumer that drops an event of a timer with nothing to read. *)
Lemma set_consumer_inv i c c' s :
  inv s → consumers s !! i = Some c → num_done c' = num_done c → (∀ x, x ∈ held c' → x ∈ held c) →
  (∀ fd t, fd ∈ held c → fd ∉ held c' → timers s !! fd = Some t → unread t = 0) → inv (set_consumer i c' s).
Proof.
  intros [Ht Hp Hd Hh] Hi Hn Hsub Hdrop. split; cbn.
  - intros fd t E. eapply timer_ok_mono; [|by apply Ht]. intros Hin Hu. cbn. eapply held_set; [done..|].
    destruct (decide (fd ∈ held c)) as [Hc|]; [|by left]. destruct (decide (fd ∈ held c')); [by right|].
    pose proof (Hdrop fd t Hc ltac:(done) E). lia.
  - done.
  - rewrite <-Hd. pose proof (sum_insert num_done (consumers s) i c c' Hi). lia.
  - intros fd Hfd. apply Hh. by eapply held_sub.
Qed.

(** [epoll_wait]: the events that are reported are cleared. *)
Lemma clear_lookup fds (l : list timer) (fd : nat) t :
  clear_edges fds l !! fd = Some t → ∃ t0, l !! fd = Some t0 ∧ t = (if decide (fd ∈ fds) then clear_edge t0 else t0).
Proof.
  revert t. induction fds as [|x fds IH]; intros t E; [by exists t|]. cbn [clear_edges foldr] in E. apply alter_lookup in E as (t1 & E & ->).
  destruct (IH t1 E) as (t0 & E0 & ->). exists t0. split; [done|]. destruct (decide (x = fd)) as [->|].
  - rewrite (decide_True (P := fd ∈ fd :: fds)) by left. by destruct (decide (fd ∈ fds)).
  - destruct (decide (fd ∈ fds)); [by rewrite decide_True by (by right)|]. rewrite (decide_False (P := fd ∈ x :: fds)); [done|]. by rewrite elem_of_cons; intros [->|].
Qed.

Lemma clear_keeps {A} (g : timer → A) fds (l : list timer) :
  (∀ t, g (clear_edge t) = g t) → g <$> clear_edges fds l = g <$> l.
Proof.
  intros Hg. induction fds as [|x fds IH]; [done|]. rewrite <-IH. apply list_eq. intros j. rewrite !list_lookup_fmap. cbn [clear_edges foldr].
  destruct (decide (x = j)) as [->|]; [|by rewrite list_lookup_alter_ne]. rewrite list_lookup_alter_eq. fold (clear_edges fds l).
  destruct (clear_edges fds l !! j); [|done]. cbn. by rewrite Hg.
Qed.

Lemma timers_wait_inv i c fds s :
  inv s → consumers s !! i = Some c → c_pc c = CWait → forallb (has_edge s) fds = true →
  inv (set_consumer i (MkConsumer (match fds with [] => CWait | _ => CEvents fds end) (num_done c) (failed c))
        (MkState (clear_edges fds (timers s)) (producers s) (consumers s))).
Proof.
  intros [Ht Hp Hd Hh] Hi Epc He. set (c' := MkConsumer _ _ _). assert (Hheld : held c' = fds) by (by destruct fds).
  assert (Hreg : ∀ fd t, timers s !! fd = Some t → ∃ t', clear_edges fds (timers s) !! fd = Some t' ∧ registered t' = registered t).
  { intros fd t E. pose proof (f_equal (λ l : list bool, l !! fd) (clear_keeps registered fds (timers s) (λ _, eq_refl))) as Hf. cbn in Hf. rewrite !list_lookup_fmap, E in Hf.
    destruct (clear_edges _ _ !! fd) as [t'|]; [|done]. cbn in Hf. exists t'. split; [done|congruence]. }
  assert (Hin : ∀ fd, fd ∈ all held (<[i := c']> (consumers s)) ↔ fd ∈ fds ∨ fd ∈ all held (consumers s)).
  { intros fd. rewrite (all_put _ _ _ _ _ Hi), (all_take held _ _ _ Hi), Hheld, !elem_of_app. unfold held at 2. rewrite Epc.
    rewrite elem_of_nil. tauto. }
  split; cbn.
  - intros fd t E. apply clear_lookup in E as (t0 & E & ->). pose proof (Ht fd t0 E) as [H1 H2 H3 H4].
    destruct (decide (fd ∈ fds)) as [Hf|Hf]; split; cbn; try done; rewrite Hin; tauto.
  - intros p Hp'. specialize (Hp p Hp'). destruct p as [|fd|fd|]; cbn in *; [done| | |done].
    + destruct Hp as [t E]. destruct (Hreg _ _ E) as (t' & E' & _). by exists t'.
    + destruct Hp as (t & E & Hr). destruct (Hreg _ _ E) as (t' & E' & Hr'). exists t'. split; [done|congruence].
  - rewrite (clear_keeps reads) by done. rewrite <-Hd. pose proof (sum_insert num_done (consumers s) i c c' Hi) as Hs. cbn in Hs. lia.
  - intros fd. rewrite Hin. intros [Hf|Hf].
    + rewrite forallb_forall in He. specialize (He fd ltac:(by apply list_elem_of_In)). unfold has_edge in He.
      destruct (timers s !! fd) as [t|] eqn:E; [|done]. destruct (Hreg _ _ E) as (t' & E' & _). by exists t'.
    + destruct (Hh fd Hf) as [t E]. destruct (Hreg _ _ E) as (t' & E' & _). by exists t'.
Qed.

(** A [read] that succeeds. *)
Lemma read_inv i c fd rest t0 s :
  inv s → consumers s !! i = Some c → held c = fd :: rest → timers s !! fd = Some t0 → unread t0 ≠ 0 →
  inv (set_consumer i (MkConsumer (CEvents rest) (S (num_done c)) (failed c))
        (on_timer fd (λ t, MkTimer (registered t) (armed t) (expired t) 0 (edge t) (S (reads t))) s)).
Proof.
  intros [Ht Hp Hd Hh] Hi Hc Et0 Hu. set (c' := MkConsumer _ _ _). set (f := λ t : timer, _).
  assert (Hreg : ∀ x t, timers s !! x = Some t → ∃ t', alter f fd (timers s) !! x = Some t' ∧ registered t' = registered t).
  { intros x t E. destruct (decide (fd = x)) as [->|]; [rewrite list_lookup_alter_eq, E|rewrite list_lookup_alter_ne by done; rewrite E].
    all: by eexists. }
  assert (Hsub : ∀ x, x ∈ all held (<[i := c']> (consumers s)) → x ∈ all held (consumers s)).
  { intros x. eapply held_sub; [done|]. rewrite Hc. cbn. by right. }
  split; cbn.
  - intros x t E. apply alter_lookup in E as (t1 & E & ->). pose proof (Ht x t1 E) as Hok. destruct (decide (fd = x)) as [->|Hne].
    + destruct Hok as [H1 H2 H3 H4]. simplify_eq. split; cbn; [lia|lia|done|done].
    + eapply timer_ok_mono; [|done]. intros Hx _. cbn. eapply held_set; [done..|]. rewrite Hc, elem_of_cons. cbn.
      destruct (decide (x ∈ rest)); [by right|left; by intros [->|]].
  - intros p Hin. specialize (Hp p Hin). destruct p as [|x|x|]; cbn in *; [done| | |done].
    + destruct Hp as [t E]. destruct (Hreg _ _ E) as (t' & E' & _). by exists t'.
    + destruct Hp as (t & E & Hr). destruct (Hreg _ _ E) as (t' & E' & Hr'). exists t'. split; [done|congruence].
  - pose proof (sum_insert num_done (consumers s) i c c' Hi) as H1. pose proof (sum_insert reads (timers s) fd t0 (f t0) Et0) as H2.
    replace (alter f fd (timers s)) with (<[fd := f t0]> (timers s)); [cbn in *; lia|].
    apply list_eq. intros j. destruct (decide (fd = j)) as [->|]; [rewrite list_lookup_insert_eq by (by eapply lookup_lt_Some); by rewrite list_lookup_alter_eq, Et0|].
    by rewrite list_lookup_insert_ne, list_lookup_alter_ne.
  - intros x Hx. destruct (Hh x (Hsub x Hx)) as [t E]. destruct (Hreg _ _ E) as (t' & E' & _). by exists t'.
Qed.

Lemma consumer_inv i fds s s' : inv s → consumer_turn i fds s = Some s' → inv s'.
Proof.
  intros Hs E. unfold consumer_turn in E. destruct (consumers s !! i) as [c|] eqn:Hi; [|done]. cbn [mbind option_bind] in E.
  destruct (c_pc c) as [|[|fd rest]] eqn:Epc.
  - destruct (bool_decide (NoDup fds)); [|done]. destruct (forallb (has_edge s) fds) eqn:He; [|done]. destruct (_ <=? _); [|done].
    injection E as <-. by apply timers_wait_inv.
  - injection E as <-. eapply set_consumer_inv; [done..| |]; unfold held; rewrite ?Epc; cbn; [done|]. intros x t Hx. by apply elem_of_nil in Hx.
  - destruct (timers s !! fd) as [t0|] eqn:Et0; [|done]. cbn [mbind option_bind] in E.
    assert (Hc : held c = fd :: rest) by (unfold held; by rewrite Epc).
    destruct (Nat.eqb_spec (unread t0) 0) as [Hu|Hu]; injection E as <-.
    + eapply set_consumer_inv; [done..| |]; rewrite Hc; cbn; [by right|]. intros x t Hx Hx' E. apply elem_of_cons in Hx as [->|]; [congruence|done].
    + by eapply (read_inv i c fd rest t0).
Qed.

Lemma timers_reachable_inv np nc s : reachable np nc s → inv s.
Proof.
  induction 1 as [|t s s' _ IH E].
  - unfold start. split; cbn [timers producers consumers]; [done| |..].
    + by intros p [-> _]%elem_of_replicate.
    + induction nc; [done|]. cbn. done.
    + intros fd. rewrite all_nil by done. by intros ?%elem_of_nil.
  - destruct t as [i|i fds|tfd]; [by eapply producer_inv|by eapply consumer_inv|by eapply expire_inv].
Qed.

Lemma sum_le {A} (f g : A → nat) l : (∀ i x, l !! i = Some x → f x ≤ g x) → sum_list (f <$> l) ≤ sum_list (g <$> l).
Proof.
  induction l as [|x l IH]; intros H; [done|]. pose proof (H 0 x eq_refl). specialize (IH ltac:(intros i y; apply (H (S i)))).
  unfold fmap in *. cbn. lia.
Qed.

(** The workers on timers, in every interleaving of any number of producers, consumers
    and expirations: no expiration is slept over (a timer with something to read has its
    event due in epoll, or a consumer has been given the event), and the consumers together
    count one task per successful read, never more than the timers have expired. *)
Lemma timers_not_lost np nc s :
  reachable np nc s →
  (∀ tfd t, timers s !! tfd = Some t → 0 < unread t → edge t = true ∨ tfd ∈ all held (consumers s)) ∧
  (∀ tfd t, timers s !! tfd = Some t → reads t + unread t ≤ expired t) ∧
  sum_list (num_done <$> consumers s) ≤ sum_list (expired <$> timers s).
Proof.
  intros Hr. destruct (timers_reachable_inv np nc s Hr) as [Ht _ Hd _]. split_and!.
  - intros tfd t E. apply (to_event s tfd t (Ht tfd t E)).
  - intros tfd t E. apply (to_reads s tfd t (Ht tfd t E)).
  - rewrite Hd. apply sum_le. intros tfd t E. pose proof (to_reads s tfd t (Ht tfd t E)). lia.
Qed.

Lemma timers_not_lost_witness :
  let s := MkState [MkTimer true true 2 1 true 1] [PDone] [MkConsumer (CEvents []) 1 0] in
  reachable 1 1 s ∧ sum_list (num_done <$> consumers s) ≤ sum_list (expired <$> timers s).
Proof.
  intros s. assert (Hr : reachable 1 1 s).
  { pose proof (reach_start 1 1) as H0.
    pose proof (reach_step 1 1 (Producer 0) _ _ H0 eq_refl) as H1. pose proof (reach_step 1 1 (Producer 0) _ _ H1 eq_refl) as H2.
    pose proof (reach_step 1 1 (Producer 0) _ _ H2 eq_refl) as H3. pose proof (reach_step 1 1 (Expire 0) _ _ H3 eq_refl) as H4.
    pose proof (reach_step 1 1 (Consumer 0 [0]) _ _ H4 eq_refl) as H5. pose proof (reach_step 1 1 (Consumer 0 []) _ _ H5 eq_refl) as H6.
    refine (reach_step 1 1 (Expire 0) _ _ H6 _). vm_compute. reflexivity. }
  split; [exact Hr|]. apply (timers_not_lost 1 1 s Hr).
Defined.
