(* ===== verification/SpinLock.v ===== *)
(** * Spin locks

    The two spin locks of the repository: [any::spin_lock] of
    Languages/cpp/locks/spin_lock.hpp and the class [spinlock] of
    Languages/cpp/benckmark01_inproc_communication/uv_async/benchmark_async_threads.cpp.
    Each turn of the loop of [lock] is one atomic exchange.  The class [SpinLock] is what
    they promise to a client; with it, threads that lock and unlock exclude each other. *)

From S2P Require Import Prelude.
From Stdlib Require Import ZArith Lia.

(** ** The interface *)

(** [lock_turn]: one exchange, and whether the loop of [lock] ends with it. *)
Class SpinLock (L : Type) := {
  new_lock : L;
  lock_turn : L → bool * L;
  unlock : L → L;
  locked : L → bool;
  new_lock_free : locked new_lock = false;
  lock_turn_enters l : (lock_turn l).1 = negb (locked l);
  lock_turn_locks l : locked (lock_turn l).2 = true;
  unlock_frees l : locked (unlock l) = false;
}.

(** ** The locks *)

(** [any::spin_lock] keeps the enumerators [Locked = 0] and [Unlocked = 1] in an
    [atomic_bool]. *)
Module Any.

Definition Locked : Z := 0.
Definition Unlocked : Z := 1.
Definition to_bool (z : Z) : bool := negb (z =? 0)%Z.

Record spin_lock := MkSpin { m_state : bool }.

Definition exchange (v : Z) (l : spin_lock) : bool * spin_lock := (m_state l, MkSpin (to_bool v)).

Definition ctor : spin_lock := MkSpin (to_bool Unlocked).
Definition lock_loop (l : spin_lock) : bool * spin_lock :=
  let '(old, l) := exchange Locked l in (negb (Z.b2z old =? Locked)%Z, l).
Definition unlock (l : spin_lock) : spin_lock := MkSpin (to_bool Unlocked).

#[global] Program Instance any_lock : SpinLock spin_lock := {|
  new_lock := ctor;
  lock_turn := lock_loop;
  SpinLock.unlock := unlock;
  locked l := negb (m_state l);
|}.
Solve Obligations with (try done; by intros [[]]).

End Any.

(** [spinlock] keeps the enumerator itself. *)
Module Bench.

Inductive LockState := Locked | Unlocked.
#[export] Instance LockState_eq_dec : EqDecision LockState.
Proof. solve_decision. Defined.

Record spinlock := MkSpin { state_ : LockState }.

Definition ctor : spinlock := MkSpin Unlocked.
Definition lock_loop (l : spinlock) : bool * spinlock := (negb (bool_decide (state_ l = Locked)), MkSpin Locked).
Definition unlock (l : spinlock) : spinlock := MkSpin Unlocked.

#[global] Program Instance bench_lock : SpinLock spinlock := {|
  new_lock := ctor;
  lock_turn := lock_loop;
  SpinLock.unlock := unlock;
  locked l := bool_decide (state_ l = Locked);
|}.
Solve Obligations with done.

End Bench.

(** ** Threads that use a lock *)

Section threads.
Context {L : Type} `{!SpinLock L}.

Inductive pc := Outside | Spinning | Inside.
#[global] Instance pc_eq_dec : EqDecision pc.
Proof. solve_decision. Defined.

Record threads := MkThreads { the_lock : L; pcs : list pc }.

(** Thread [i] makes its next step: it calls [lock], makes a turn, or calls [unlock]. *)
Definition turn (i : nat) (t : threads) : option threads :=
  p ← pcs t !! i;
  match p with
  | Outside => Some (MkThreads (the_lock t) (<[i := Spinning]> (pcs t)))
  | Spinning =>
      let '(enters, l) := lock_turn (the_lock t) in
      Some (MkThreads l (<[i := if enters then Inside else Spinning]> (pcs t)))
  | Inside => Some (MkThreads (unlock (the_lock t)) (<[i := Outside]> (pcs t)))
  end.

Definition start (n : nat) : threads := MkThreads new_lock (replicate n Outside).

Inductive runs (n : nat) : threads → Prop :=
  | runs_start : runs n (start n)
  | runs_turn i t t' : runs n t → turn i t = Some t' → runs n t'.

(** The lock is taken exactly when a thread is inside, and one only can be. *)
Definition exclusive (t : threads) : Prop :=
  (locked (the_lock t) = true ↔ Inside ∈ pcs t) ∧
  ∀ i j, pcs t !! i = Some Inside → pcs t !! j = Some Inside → i = j.

Lemma inside_insert (l : list pc) i p q :
  l !! i = Some p → (∀ j, l !! j = Some Inside → j = i) → (Inside ∈ <[i := q]> l ↔ q = Inside).
Proof.
  intros Hi Hu. rewrite list_elem_of_lookup. split.
  - intros [j Hj]. destruct (decide (i = j)) as [->|Hne]; [|rewrite list_lookup_insert_ne in Hj by done].
    + rewrite list_lookup_insert_eq in Hj by eauto using lookup_lt_Some. by simplify_eq.
    + by apply Hu in Hj.
  - intros ->. exists i. apply list_lookup_insert_eq. eauto using lookup_lt_Some.
Qed.

Lemma insert_unique (l : list pc) i q :
  (∀ j, l !! j = Some Inside → j = i) → ∀ j k, <[i := q]> l !! j = Some Inside → <[i := q]> l !! k = Some Inside → j = k.
Proof.
  intros Hu. assert (Hi : ∀ j, <[i := q]> l !! j = Some Inside → j = i).
  { intros j Hj. destruct (decide (i = j)) as [->|Hne]; [done|]. rewrite list_lookup_insert_ne in Hj by done. by apply Hu. }
  intros j k Hj%Hi Hk%Hi. congruence.
Qed.

Lemma turn_exclusive i t t' : exclusive t → turn i t = Some t' → exclusive t'.
Proof.
  intros [Hl Hu] E. unfold turn in E. destruct (pcs t !! i) as [p|] eqn:Ei; [|done]. simpl in E.
  assert (Hno : p ≠ Inside → ∀ q, q ≠ Inside → Inside ∈ <[i := q]> (pcs t) ↔ Inside ∈ pcs t).
  { intros Hp q Hq. rewrite !list_elem_of_lookup. split; intros [j Hj].
    - destruct (decide (i = j)) as [->|]; [rewrite list_lookup_insert_eq in Hj by eauto using lookup_lt_Some; congruence|].
      rewrite list_lookup_insert_ne in Hj by done. by exists j.
    - exists j. rewrite list_lookup_insert_ne; [done|]. intros ->. congruence. }
  assert (Hkeep : ∀ q, q ≠ Inside → ∀ j k, <[i := q]> (pcs t) !! j = Some Inside →
    <[i := q]> (pcs t) !! k = Some Inside → j = k).
  { intros q Hq j k Hj Hk. assert (i ≠ j ∧ i ≠ k) as [Hj' Hk'].
    { split; intros ->; rewrite list_lookup_insert_eq in * by eauto using lookup_lt_Some; congruence. }
    rewrite list_lookup_insert_ne in Hj, Hk by done. by apply Hu. }
  destruct p; simplify_eq/=.
  - split; simpl; [|by apply Hkeep]. rewrite Hno by done. done.
  - destruct (lock_turn (the_lock t)) as [enters l] eqn:El. simplify_eq/=.
    pose proof (lock_turn_enters (the_lock t)) as He. pose proof (lock_turn_locks (the_lock t)) as Hk.
    rewrite El in He, Hk. simpl in He, Hk. destruct enters.
    + assert (Hf : ∀ j, pcs t !! j = Some Inside → j = i).
      { intros j Hj. apply list_elem_of_lookup_2, Hl in Hj. by rewrite Hj in He. }
      split; simpl; [|by apply insert_unique]. by rewrite (inside_insert _ _ _ _ Ei).
    + assert (locked (the_lock t) = true) as Hlk by (by destruct (locked (the_lock t))).
      split; simpl; [|by apply Hkeep]. rewrite Hno, <-Hl by done. by rewrite Hlk, Hk.
  - split; simpl.
    + rewrite unlock_frees, (inside_insert _ _ _ _ Ei); [done|]. intros j Hj. by apply Hu.
    + apply insert_unique. intros j Hj. by apply Hu.
Qed.

Lemma runs_exclusive n t : runs n t → exclusive t.
Proof.
  induction 1 as [|i t t' _ IH E]; [|by apply (turn_exclusive i t)]. split; simpl.
  - rewrite new_lock_free. split; [done|]. intros Hin. apply elem_of_replicate in Hin as [? _]. done.
  - intros i j Hi. apply lookup_replicate in Hi as [? _]. done.
Qed.
End threads.

(** ** Mutual exclusion *)

Section exclusion.
Context {L : Type} `{!SpinLock L}.

(** Threads that use the lock exclude each other, and a turn of the loop of [lock] fails
    exactly while a thread is inside. *)
Definition excludes : Prop := ∀ n (t : threads (L := L)),
  runs n t →
  (∀ i j, pcs t !! i = Some Inside → pcs t !! j = Some Inside → i = j) ∧
  (∀ j, pcs t !! j = Some Spinning →
    ∃ t', turn j t = Some t' ∧ pcs t' = <[j := if decide (Inside ∈ pcs t) then Spinning else Inside]> (pcs t)).

Lemma lock_excludes : excludes.
Proof.
  intros n t Hr. destruct (runs_exclusive n t Hr) as [Hl Hu]. split; [done|].
  intros j Hj. unfold turn. rewrite Hj. simpl. pose proof (lock_turn_enters (the_lock t)) as He.
  destruct (lock_turn (the_lock t)) as [enters l]. simpl in He. subst enters. eexists. split; [done|]. simpl.
  destruct (locked (the_lock t)) eqn:E, (decide (Inside ∈ pcs t)) as [H|H]; simpl; try done.
  - by destruct H; apply Hl.
  - apply Hl in H. congruence.
Qed.
End exclusion.
Arguments excludes L {_}.

(** C24. Any number of threads that use [any::spin_lock], or [spinlock] of the benchmark,
    exclude each other: in every interleaving at most one thread is between [lock] and
    [unlock], and a turn of the loop of [lock] fails exactly while one is. *)
Theorem spin_lock_excludes : excludes Any.spin_lock ∧ excludes Bench.spinlock.
Proof. split; apply lock_excludes. Qed.

(** Two threads with [any::spin_lock]: the second one waits. *)
Definition sample_threads : threads (L := Any.spin_lock) := MkThreads (Any.MkSpin false) [Inside; Spinning].

Lemma sample_threads_run : runs 2 sample_threads.
Proof.
  pose proof (runs_start (L := Any.spin_lock) 2) as H0.
  pose proof (runs_turn 2 0 _ _ H0 eq_refl) as H1. pose proof (runs_turn 2 1 _ _ H1 eq_refl) as H2.
  exact (runs_turn 2 0 _ _ H2 eq_refl).
Qed.

Example spin_lock_excludes_witness : ∃ t', turn 1 sample_threads = Some t' ∧ pcs t' = pcs sample_threads.
Proof.
  destruct (proj1 spin_lock_excludes 2 sample_threads sample_threads_run) as [_ H].
  destruct (H 1 eq_refl) as (t' & E & E'). exists t'. split; [exact E|]. rewrite E'. reflexivity.
Defined.
