(* ===== verification/AsyncQueue.v ===== *)
(** * Messages between threads through [uv_async_send]

    Languages/cpp/benckmark01_inproc_communication/uv_async: producers append to a vector
    under a spin lock and send a notification; the callback of the loop swaps the vector
    out under the same lock (benchmark_async_threads.cpp).  libuv may merge
    notifications: a flag says that the callback is due, and it is reset before the
    callback runs.  Every step of a thread is one step of the model; the lock is any
    [SpinLock]. *)

From S2P Require Import Prelude SpinLock.
From Stdlib Require Import ZArith Lia.

(** ** State *)

(** Where a producer is: at the head of its loop, in [m_lock.lock()], before
    [push_back], before [m_lock.unlock()], before [uv_async_send], after the loop. *)
Inductive ppc := PIdle | PSpin | PPush | PUnlock | PSend | PDone.
(** Where the loop is: waiting, in [m_lock.lock()], before [swap], before
    [m_lock.unlock()], before the count. *)
Inductive cpc := CWait | CSpin | CSwap | CUnlock | CCount.

#[global] Instance ppc_eq_dec : EqDecision ppc.
Proof. solve_decision. Defined.
#[global] Instance cpc_eq_dec : EqDecision cpc.
Proof. solve_decision. Defined.

Record producer := MkProducer { p_pc : ppc; p_k : nat; p_success : nat }.

Record queue (L : Type) := MkQueue {
  m_lock : L;
  global_vec : list Z;
  tmp_data : list Z;
  producers : list producer;
  consumer : cpc;
  async_pending : bool;
  total_consumer : nat;
  consumed : list Z;           (* everything the callbacks took out, in order *)
  reports : list nat;          (* the values of total_consumer that were printed *)
}.
Arguments MkQueue {L}.
Arguments m_lock {L} _.
Arguments global_vec {L} _.
Arguments tmp_data {L} _.
Arguments producers {L} _.
Arguments consumer {L} _.
Arguments async_pending {L} _.
Arguments total_consumer {L} _.
Arguments consumed {L} _.
Arguments reports {L} _.

Section program.
Context {L : Type} `{!SpinLock L}.
Implicit Types q : queue L.

Definition set_lock (l : L) q : queue L :=
  MkQueue l (global_vec q) (tmp_data q) (producers q) (consumer q) (async_pending q) (total_consumer q) (consumed q) (reports q).
Definition set_vec (v : list Z) q : queue L :=
  MkQueue (m_lock q) v (tmp_data q) (producers q) (consumer q) (async_pending q) (total_consumer q) (consumed q) (reports q).
Definition set_tmp (v : list Z) q : queue L :=
  MkQueue (m_lock q) (global_vec q) v (producers q) (consumer q) (async_pending q) (total_consumer q) (consumed q) (reports q).
Definition set_producer (i : nat) (p : producer) q : queue L :=
  MkQueue (m_lock q) (global_vec q) (tmp_data q) (<[i := p]> (producers q)) (consumer q) (async_pending q) (total_consumer q)
    (consumed q) (reports q).
Definition set_consumer (c : cpc) q : queue L :=
  MkQueue (m_lock q) (global_vec q) (tmp_data q) (producers q) c (async_pending q) (total_consumer q) (consumed q) (reports q).
Definition set_pending (b : bool) q : queue L :=
  MkQueue (m_lock q) (global_vec q) (tmp_data q) (producers q) (consumer q) b (total_consumer q) (consumed q) (reports q).

(** ** The threads *)

(** [producer_thread] and [DoAsync]; [uv_async_send] on an open handle returns 0. *)
Definition producer_turn (test_count i : nat) (p : producer) q : option (queue L) :=
  let goto pc := MkProducer pc (p_k p) (p_success p) in
  match p_pc p with
  | PIdle => Some (set_producer i (goto (if (p_k p <? test_count)%nat then PSpin else PDone)) q)
  | PSpin =>
      let '(enters, l) := lock_turn (m_lock q) in
      Some (set_lock l (set_producer i (goto (if enters then PPush else PSpin)) q))
  | PPush => Some (set_vec (global_vec q ++ [Z.of_nat (p_k p)]) (set_producer i (goto PUnlock) q))
  | PUnlock => Some (set_lock (unlock (m_lock q)) (set_producer i (goto PSend) q))
  | PSend => Some (set_pending true (set_producer i (MkProducer PIdle (S (p_k p)) (S (p_success p))) q))
  | PDone => None
  end.

(** [on_async_cb], from the loop *)
Definition consumer_turn (test_count : nat) q : option (queue L) :=
  match consumer q with
  | CWait => if async_pending q then Some (set_pending false (set_consumer CSpin q)) else None
  | CSpin =>
      let '(enters, l) := lock_turn (m_lock q) in
      Some (set_lock l (set_consumer (if enters then CSwap else CSpin) q))
  | CSwap => Some (set_tmp (global_vec q) (set_vec (tmp_data q) (set_consumer CUnlock q)))
  | CUnlock => Some (set_lock (unlock (m_lock q)) (set_consumer CCount q))
  | CCount =>
      let total := total_consumer q + length (tmp_data q) in
      Some (MkQueue (m_lock q) (global_vec q) [] (producers q) CWait (async_pending q) total (consumed q ++ tmp_data q)
              (if (test_count <=? total)%nat then reports q ++ [total] else reports q))
  end.

Inductive tid := Producer (i : nat) | Loop.

Definition turn_of (test_count : nat) (t : tid) q : option (queue L) :=
  match t with
  | Producer i => p ← producers q !! i; producer_turn test_count i p q
  | Loop => consumer_turn test_count q
  end.

(** [main]: [n] producers are created (the code has one, or two). *)
Definition start_queue (n : nat) : queue L :=
  MkQueue new_lock [] [] (replicate n (MkProducer PIdle 0 0)) CWait false 0 [] [].

Inductive qruns (test_count n : nat) : queue L → Prop :=
  | qruns_start : qruns test_count n (start_queue n)
  | qruns_turn t q q' : qruns test_count n q → turn_of test_count t q = Some q' → qruns test_count n q'.

(** Every producer has left its loop and the loop of libuv has nothing to do. *)
Definition finished q : Prop :=
  Forall (λ p, p_pc p = PDone) (producers q) ∧ consumer q = CWait ∧ async_pending q = false.

(** ** The invariant *)

Definition p_holds (p : producer) : nat := match p_pc p with PPush | PUnlock => 1 | _ => 0 end.
Definition c_holds (c : cpc) : nat := match c with CSwap | CUnlock => 1 | _ => 0 end.
Definition holders q : nat := sum_list (p_holds <$> producers q) + c_holds (consumer q).

(** What a producer has pushed. *)
Definition p_pushed (p : producer) : list Z :=
  seqZ 0 (Z.of_nat (match p_pc p with PUnlock | PSend => S (p_k p) | _ => p_k p end)).
Definition all_pushed q : list Z := concat (p_pushed <$> producers q).
Definition in_queue q : list Z := consumed q ++ tmp_data q ++ global_vec q.

Definition p_bounded (test_count : nat) (p : producer) : Prop :=
  match p_pc p with
  | PIdle => p_k p ≤ test_count
  | PDone => p_k p = test_count
  | _ => p_k p < test_count
  end ∧ p_success p = p_k p.

(** Somebody will look at the vector. *)
Definition noticed q : Prop :=
  async_pending q = true ∨ consumer q = CSpin ∨ consumer q = CSwap ∨
  Exists (λ p, p_pc p = PUnlock ∨ p_pc p = PSend) (producers q).

Record qinv (test_count n : nat) q : Prop := {
  q_holders : holders q = Nat.b2n (locked (m_lock q));
  q_pushed : in_queue q ≡ₚ all_pushed q;
  q_ordered : n = 1 → in_queue q = all_pushed q;
  q_total : total_consumer q = length (consumed q);
  q_tmp : match consumer q with CUnlock | CCount => True | _ => tmp_data q = [] end;
  q_noticed : global_vec q ≠ [] → noticed q;
  q_bounded : Forall (p_bounded test_count) (producers q);
  q_length : length (producers q) = n;
}.
End program.

Section lists.
Implicit Types ps : list producer.

Lemma holds_insert ps i p p' :
  ps !! i = Some p →
  sum_list (p_holds <$> <[i := p']> ps) + p_holds p = sum_list (p_holds <$> ps) + p_holds p'.
Proof.
  revert i. induction ps as [|x ps IH]; intros [|i] Hi; simplify_eq/=; [lia|]. specialize (IH i Hi). lia.
Qed.

Lemma holds_lookup ps i p : ps !! i = Some p → p_holds p ≤ sum_list (p_holds <$> ps).
Proof.
  revert i. induction ps as [|x ps IH]; intros [|i] Hi; simplify_eq/=; [lia|]. specialize (IH i Hi). lia.
Qed.

Lemma holds_some ps : 0 < sum_list (p_holds <$> ps) → ∃ i p, ps !! i = Some p ∧ p_holds p = 1.
Proof.
  induction ps as [|x ps IH]; simpl; [lia|]. intros Hs. destruct (p_holds x) as [|h] eqn:Eh.
  - destruct IH as (i & p & Hi & Hp); [done|]. by exists (S i), p.
  - exists 0, x. split; [done|]. unfold p_holds in *. by destruct (p_pc x).
Qed.

Lemma pushed_same ps i p p' :
  ps !! i = Some p → p_pushed p' = p_pushed p → concat (p_pushed <$> <[i := p']> ps) = concat (p_pushed <$> ps).
Proof.
  intros Hi E. rewrite list_fmap_insert, E. f_equal. apply list_insert_id. by rewrite list_lookup_fmap, Hi.
Qed.

Lemma pushed_more ps i p p' x :
  ps !! i = Some p → p_pushed p' = p_pushed p ++ [x] →
  concat (p_pushed <$> <[i := p']> ps) ≡ₚ concat (p_pushed <$> ps) ++ [x].
Proof.
  intros Hi E. revert i Hi. induction ps as [|y ps IH]; intros [|i] Hi; simplify_eq/=.
  - rewrite E. solve_Permutation.
  - rewrite (IH i Hi). solve_Permutation.
Qed.

Lemma pushed_more_one ps i p p' x :
  length ps = 1 → ps !! i = Some p → p_pushed p' = p_pushed p ++ [x] →
  concat (p_pushed <$> <[i := p']> ps) = concat (p_pushed <$> ps) ++ [x].
Proof.
  intros Hl Hi E. destruct ps as [|y [|z ps]]; [done| |done]. destruct i as [|i]; simplify_eq/=. by rewrite E, !app_nil_r.
Qed.

Lemma exists_insert ps i p p' (P : producer → Prop) :
  ps !! i = Some p → Exists P ps → (P p → P p') → Exists P (<[i := p']> ps).
Proof.
  intros Hi (x & Hx & HP)%Exists_exists Himp. apply list_elem_of_lookup in Hx as [j Hj].
  apply Exists_exists. destruct (decide (i = j)) as [->|Hne].
  - exists p'. split; [|apply Himp; congruence]. apply (list_elem_of_lookup_2 _ j).
    by rewrite list_lookup_insert_eq by eauto using lookup_lt_Some.
  - exists x. split; [|done]. apply (list_elem_of_lookup_2 _ j). by rewrite list_lookup_insert_ne.
Qed.

Lemma exists_new ps i p p' (P : producer → Prop) : ps !! i = Some p → P p' → Exists P (<[i := p']> ps).
Proof.
  intros Hi HP. apply Exists_exists. exists p'. split; [|done].
  apply (list_elem_of_lookup_2 _ i). by rewrite list_lookup_insert_eq by eauto using lookup_lt_Some.
Qed.

Lemma seqZ_S (k : nat) : seqZ 0 (Z.of_nat (S k)) = seqZ 0 (Z.of_nat k) ++ [Z.of_nat k].
Proof.
  rewrite Nat2Z.inj_succ, <-Z.add_1_r, seqZ_app by lia. done.
Qed.
End lists.

Section invariant.
Context {L : Type} `{!SpinLock L}.
Implicit Types q : queue L.
Context (test_count n : nat).

(** A step of producer [i]: its new state, and the lock, vector and flag it leaves. *)
Definition by_producer (i : nat) (p : producer) (l : L) (v : list Z) (b : bool) q : queue L :=
  MkQueue l v (tmp_data q) (<[i := p]> (producers q)) (consumer q) b (total_consumer q) (consumed q) (reports q).

Lemma qinv_producer q i p p' l v b :
  qinv test_count n q → producers q !! i = Some p → p_bounded test_count p' →
  p_holds p' + Nat.b2n (locked (m_lock q)) = p_holds p + Nat.b2n (locked l) →
  (v = global_vec q ∧ p_pushed p' = p_pushed p ∨
   ∃ x, v = global_vec q ++ [x] ∧ p_pushed p' = p_pushed p ++ [x]) →
  (v ≠ [] → noticed (by_producer i p' l v b q)) →
  qinv test_count n (by_producer i p' l v b q).
Proof.
  intros [Hh Hp Ho Ht Htmp Hn Hb Hl] Hi Hb' Hlock Hv Hn'. unfold in_queue, all_pushed in *. split; simpl.
  - unfold holders in *. simpl. pose proof (holds_insert (producers q) i p p' Hi). lia.
  - destruct Hv as [[-> E]|(x & -> & E)]; unfold in_queue, all_pushed; simpl.
    + by rewrite (pushed_same _ _ _ _ Hi E).
    + rewrite (pushed_more _ _ _ _ _ Hi E), <-Hp. by rewrite !app_assoc.
  - intros H1. specialize (Ho H1). destruct Hv as [[-> E]|(x & -> & E)]; unfold in_queue, all_pushed; simpl.
    + by rewrite (pushed_same _ _ _ _ Hi E).
    + rewrite (pushed_more_one _ _ p _ x) by (try done; lia). by rewrite <-Ho, !app_assoc.
  - done.
  - done.
  - done.
  - by apply Forall_insert.
  - by rewrite length_insert.
Qed.

Lemma noticed_producer q i p p' l v b :
  producers q !! i = Some p → noticed q → (async_pending q = true → b = true) →
  (p_pc p = PUnlock ∨ p_pc p = PSend → b = true ∨ p_pc p' = PUnlock ∨ p_pc p' = PSend) →
  noticed (by_producer i p' l v b q).
Proof.
  intros Hi Hn Hb Hp. unfold noticed in *. simpl. destruct Hn as [Hn|[Hn|[Hn|Hn]]]; [tauto|tauto|tauto|].
  destruct b eqn:Eb; [by left|]. do 3 right. eapply exists_insert; [done|done|]. intros HP.
  by destruct (Hp HP) as [|?].
Qed.

Lemma producer_turn_inv i p q q' :
  qinv test_count n q → producers q !! i = Some p → producer_turn test_count i p q = Some q' → qinv test_count n q'.
Proof.
  intros Hq Hi E. pose proof (q_noticed _ _ _ Hq) as Hn.
  assert (Hb : p_bounded test_count p) by (by eapply Forall_lookup_1; [apply (q_bounded _ _ _ Hq)|]).
  unfold producer_turn in E. destruct p as [pc k s]. unfold p_bounded in Hb. simpl in *. destruct pc; simplify_eq/=.
  - apply (qinv_producer q i _ _ (m_lock q) (global_vec q) (async_pending q) Hq Hi).
    + unfold p_bounded. destruct (Nat.ltb_spec k test_count); simpl; intuition lia.
    + by destruct (k <? test_count)%nat.
    + left. split; [done|]. by destruct (k <? test_count)%nat.
    + intros Hv. eapply noticed_producer; [done|by apply Hn|done|naive_solver].
  - destruct (lock_turn (m_lock q)) as [enters l] eqn:El. simplify_eq/=.
    pose proof (lock_turn_enters (m_lock q)) as He. pose proof (lock_turn_locks (m_lock q)) as Hk. rewrite El in He, Hk.
    simpl in He, Hk. apply (qinv_producer q i _ _ l (global_vec q) (async_pending q) Hq Hi).
    + unfold p_bounded. by destruct enters.
    + rewrite Hk. unfold p_holds. destruct enters, (locked (m_lock q)); done.
    + left. split; [done|]. by destruct enters.
    + intros Hv. eapply noticed_producer; [done|by apply Hn|done|naive_solver].
  - apply (qinv_producer q i _ _ (m_lock q) _ (async_pending q) Hq Hi); [done|done| |].
    + right. eexists. split; [done|]. apply seqZ_S.
    + intros _. do 3 right. simpl. eapply exists_new; [done|by left].
  - apply (qinv_producer q i _ _ (unlock (m_lock q)) (global_vec q) (async_pending q) Hq Hi); [done| |by left|].
    + rewrite unlock_frees. pose proof (q_holders _ _ _ Hq) as Hh. unfold holders in Hh.
      pose proof (holds_lookup _ _ _ Hi) as Hl. unfold p_holds in *. simpl in *. destruct (locked (m_lock q)); simpl in *; lia.
    + intros Hv. eapply noticed_producer; [done|by apply Hn|done|naive_solver].
  - apply (qinv_producer q i _ _ (m_lock q) (global_vec q) true Hq Hi); [|done|by left|].
    + unfold p_bounded. simpl. intuition lia.
    + intros Hv. by left.
Qed.

Lemma consumer_turn_inv q q' :
  qinv test_count n q → consumer_turn test_count q = Some q' → qinv test_count n q'.
Proof.
  intros [Hh Hp Ho Ht Htmp Hn Hb Hl] E. unfold consumer_turn in E. unfold holders in Hh.
  destruct (consumer q) eqn:Ec; simplify_eq/=.
  - destruct (async_pending q) eqn:Ea; simplify_eq/=. split; try done.
    intros _. right. by left.
  - destruct (lock_turn (m_lock q)) as [enters l] eqn:El. simplify_eq/=.
    pose proof (lock_turn_enters (m_lock q)) as He. pose proof (lock_turn_locks (m_lock q)) as Hk. rewrite El in He, Hk.
    simpl in He, Hk. split; simpl; try done.
    + unfold holders. simpl. rewrite Hk. destruct enters, (locked (m_lock q)); simpl in *; lia.
    + by destruct enters.
    + intros Hv. right. simpl. destruct enters; tauto.
  - rewrite Htmp in *. split; simpl; try done.
    + unfold in_queue, all_pushed in *. rewrite Htmp in *. simpl in *. by rewrite app_nil_r.
    + unfold in_queue, all_pushed in *. rewrite Htmp in *. simpl in *. by rewrite app_nil_r.
  - split; simpl; try done.
    + unfold holders. simpl. rewrite unlock_frees. revert Hh. destruct (locked (m_lock q)); simpl; lia.
    + intros Hv. destruct (Hn Hv) as [?|[?|[?|?]]]; unfold noticed; simpl; [tauto|congruence|congruence|tauto].
  - split; simpl; try done.
    + unfold in_queue, all_pushed in *. simpl in *. by rewrite <-app_assoc.
    + unfold in_queue, all_pushed in *. simpl in *. by rewrite <-app_assoc.
    + rewrite length_app. lia.
    + intros Hv. destruct (Hn Hv) as [?|[?|[?|?]]]; unfold noticed; simpl; [tauto|congruence|congruence|tauto].
Qed.

Lemma start_inv : qinv test_count n (start_queue n).
Proof.
  assert (Hnil : ∀ m, concat (p_pushed <$> replicate m (MkProducer PIdle 0 0)) = []) by (by induction m).
  assert (Hzero : ∀ m, sum_list (p_holds <$> replicate m (MkProducer PIdle 0 0)) = 0) by (by induction m).
  split; unfold in_queue, all_pushed, holders; simpl; rewrite ?Hnil; try done.
  - rewrite new_lock_free, Hzero. done.
  - apply Forall_replicate. unfold p_bounded. simpl. lia.
  - apply length_replicate.
Qed.

Lemma qruns_inv q : qruns test_count n q → qinv test_count n q.
Proof.
  induction 1 as [|t q q' _ IH E]; [apply start_inv|]. destruct t as [i|]; simpl in E; [|by apply (consumer_turn_inv q)].
  destruct (producers q !! i) as [p|] eqn:Ei; [|done]. simpl in E. by apply (producer_turn_inv i p q).
Qed.
End invariant.

(** ** Every run can be finished *)

Section progress.
Context {L : Type} `{!SpinLock L}.
Implicit Types q : queue L.
Context (test_count n : nat).

(** Steps that are left, at most: a message costs a producer's turns and a callback. *)
Definition p_weight (p : producer) : nat :=
  20 * (test_count - p_k p) + match p_pc p with PIdle => 5 | PSpin => 4 | PPush => 3 | PUnlock => 2 | PSend => 1 | PDone => 0 end.
Definition c_weight (c : cpc) : nat := match c with CWait => 0 | CSpin => 4 | CSwap => 3 | CUnlock => 2 | CCount => 1 end.
Definition weight q : nat :=
  sum_list (p_weight <$> producers q) + (if async_pending q then 6 else 0) + c_weight (consumer q).

Lemma weight_insert (ps : list producer) i p p' :
  ps !! i = Some p → sum_list (p_weight <$> <[i := p']> ps) + p_weight p = sum_list (p_weight <$> ps) + p_weight p'.
Proof.
  revert i. induction ps as [|x ps IH]; intros [|i] Hi; simplify_eq/=; [lia|]. specialize (IH i Hi). lia.
Qed.

(** The weight falls, unless a turn of [lock] fails. *)
Lemma producer_weight i p q q' :
  qinv test_count n q → producers q !! i = Some p → producer_turn test_count i p q = Some q' →
  weight q' < weight q ∨ (weight q' = weight q ∧ p_pc p = PSpin ∧ locked (m_lock q) = true).
Proof.
  intros Hq Hi E. assert (Hb : p_bounded test_count p) by (by eapply Forall_lookup_1; [apply (q_bounded _ _ _ Hq)|]).
  unfold producer_turn in E. pose proof (weight_insert (producers q) i p) as Hw. unfold weight, p_bounded in *.
  destruct p as [pc k s]. simpl in *. destruct pc; simplify_eq/=.
  - left. specialize (Hw (MkProducer (if (k <? test_count)%nat then PSpin else PDone) k s) Hi).
    unfold p_weight in Hw at 2 4. simpl in Hw. destruct (k <? test_count)%nat; lia.
  - pose proof (lock_turn_enters (m_lock q)) as He. destruct (lock_turn (m_lock q)) as [enters l]. simplify_eq/=.
    specialize (Hw (MkProducer (if negb (locked (m_lock q)) then PPush else PSpin) k s) Hi).
    unfold p_weight in Hw at 2 4. simpl in Hw. destruct (locked (m_lock q)); simpl in *; [right|left; lia].
    split_and!; [lia|done|done].
  - left. specialize (Hw (MkProducer PUnlock k s) Hi). unfold p_weight in Hw at 2 4. simpl in Hw. lia.
  - left. specialize (Hw (MkProducer PSend k s) Hi). unfold p_weight in Hw at 2 4. simpl in Hw. lia.
  - left. specialize (Hw (MkProducer PIdle (S k) (S s)) Hi). unfold p_weight in Hw at 2 4. simpl in Hw.
    destruct (async_pending q); lia.
Qed.

Lemma consumer_weight q q' :
  consumer_turn test_count q = Some q' →
  weight q' < weight q ∨ (weight q' = weight q ∧ consumer q = CSpin ∧ locked (m_lock q) = true).
Proof.
  intros E. unfold consumer_turn in E. unfold weight. destruct (consumer q) eqn:Ec; simplify_eq/=.
  - destruct (async_pending q); simplify_eq/=. left. lia.
  - pose proof (lock_turn_enters (m_lock q)) as He. destruct (lock_turn (m_lock q)) as [enters l]. simplify_eq/=.
    destruct (locked (m_lock q)); simpl; [by right|left; lia].
  - left. lia.
  - left. lia.
  - left. lia.
Qed.

(** A turn that is not a failing turn of [lock]. *)
Definition advances q : Prop := ∃ t q', turn_of test_count t q = Some q' ∧ weight q' < weight q.

Lemma producer_advances q i p :
  qinv test_count n q → producers q !! i = Some p → p_pc p ≠ PDone →
  (p_pc p = PSpin → locked (m_lock q) = false) → advances q.
Proof.
  intros Hq Hi Hp Hs. assert (∃ q', producer_turn test_count i p q = Some q') as [q' E].
  { unfold producer_turn. destruct (p_pc p); try done; try (by eexists). by destruct (lock_turn (m_lock q)); eexists. }
  exists (Producer i), q'. simpl. rewrite Hi. split; [done|].
  destruct (producer_weight i p q q' Hq Hi E) as [|(_ & H1 & H2)]; [done|]. rewrite (Hs H1) in H2. done.
Qed.

Lemma loop_advances q :
  (consumer q ≠ CWait ∨ async_pending q = true) → (consumer q = CSpin → locked (m_lock q) = false) → advances q.
Proof.
  intros Hc Hs. assert (∃ q', consumer_turn test_count q = Some q') as [q' E].
  { unfold consumer_turn. destruct (consumer q); try (by eexists); [|by destruct (lock_turn (m_lock q)); eexists].
    destruct Hc as [|Hc]; [done|]. rewrite Hc. by eexists. }
  exists Loop, q'. split; [done|].
  destruct (consumer_weight q q' E) as [|(_ & H1 & H2)]; [done|]. rewrite (Hs H1) in H2. done.
Qed.

Lemma not_finished_advances q : qinv test_count n q → finished q ∨ advances q.
Proof.
  intros Hq. pose proof (q_holders _ _ _ Hq) as Hh. unfold holders in Hh.
  destruct (locked (m_lock q)) eqn:El; simpl in Hh.
  - right. destruct (consumer q) eqn:Ec; simpl in Hh;
      try (destruct (holds_some (producers q)) as (i & p & Hi & Hp); [lia|];
           apply (producer_advances q i p Hq Hi); unfold p_holds in Hp; destruct (p_pc p); done);
      apply loop_advances; rewrite Ec; try done; by left.
  - destruct (decide (Forall (λ p, p_pc p = PDone) (producers q))) as [Hd|Hd].
    + destruct (decide (consumer q = CWait ∧ async_pending q = false)) as [[Hc Ha]|Hc]; [by left|].
      right. apply loop_advances; [|done]. destruct (consumer q); try (by left). right. destruct (async_pending q); naive_solver.
    + right. apply not_Forall_Exists in Hd; [|apply _]. apply Exists_exists in Hd as (p & Hp & Hpc).
      apply list_elem_of_lookup in Hp as [i Hi]. by apply (producer_advances q i p).
Qed.
End progress.

(** ** The theorems *)

Section theorems.
Context {L : Type} `{!SpinLock L}.
Implicit Types q : queue L.

Lemma all_pushed_done test_count (ps : list producer) :
  Forall (p_bounded test_count) ps → Forall (λ p, p_pc p = PDone) ps →
  concat (p_pushed <$> ps) = concat (replicate (length ps) (seqZ 0 (Z.of_nat test_count))).
Proof.
  induction 1 as [|p ps [Hk _] _ IH]; intros Hd; [done|]. apply Forall_cons in Hd as [Hp Hd].
  rewrite fmap_cons. cbn [concat length replicate]. rewrite IH by done. f_equal. unfold p_pushed. rewrite Hp in *. by rewrite Hk.
Qed.

Lemma length_copies n (l : list Z) : length (concat (replicate n l)) = n * length l.
Proof. induction n as [|n IH]; [done|]. simpl. rewrite length_app. lia. Qed.

(** C15. Messages through the vector are neither lost nor duplicated.  In every
    interleaving of [n] producers and the loop at most one thread holds the lock, and
    what the callbacks have taken out together with what is still in the queue is what
    the producers have pushed, in order when there is one producer.  When the producers
    have finished and no callback is due, all [n * test_count] messages were consumed,
    although libuv may merge notifications.  [uv_async_send] never fails, as the handle
    stays open. *)
Theorem async_delivers test_count n q :
  qruns test_count n q →
  holders q ≤ 1 ∧ in_queue q ≡ₚ all_pushed q ∧ (n = 1 → in_queue q = all_pushed q) ∧
  (finished q →
   consumed q ≡ₚ concat (replicate n (seqZ 0 (Z.of_nat test_count))) ∧ total_consumer q = n * test_count ∧
   global_vec q = []).
Proof.
  intros Hr. destruct (qruns_inv _ _ _ Hr) as [Hh Hp Ho Ht Htmp Hn Hb Hl]. split_and!; [|done|done|].
  - rewrite Hh. by destruct (locked _); simpl; lia.
  - intros (Hd & Hc & Ha). rewrite Hc in Htmp. assert (Hv : global_vec q = []).
    { destruct (global_vec q) as [|x v] eqn:E; [done|]. exfalso. destruct Hn as [?|[?|[?|He]]]; [done|congruence..|].
      apply Exists_exists in He as (p & Hin & Hpc). rewrite Forall_forall in Hd. specialize (Hd p Hin). destruct Hpc; congruence. }
    unfold in_queue, all_pushed in Hp. rewrite Htmp, Hv, !app_nil_r in Hp.
    rewrite (all_pushed_done test_count) in Hp by done. rewrite Hl in Hp. split_and!; [done| |done].
    rewrite Ht, Hp, length_copies, length_seqZ. lia.
Qed.

(** No run gets stuck: unless everything has been delivered, some thread can make a
    turn that is not a failing turn of [lock]; every turn leaves at most as many steps as
    there were, and these turns leave fewer. *)
Lemma async_progress test_count n q :
  qruns test_count n q →
  (finished q ∨ ∃ t q', turn_of test_count t q = Some q' ∧ weight test_count q' < weight test_count q) ∧
  (∀ t q', turn_of test_count t q = Some q' → weight test_count q' ≤ weight test_count q).
Proof.
  intros Hr. pose proof (qruns_inv _ _ _ Hr) as Hq. split; [by apply (not_finished_advances test_count n)|].
  intros [i|] q' E; simpl in E.
  - destruct (producers q !! i) as [p|] eqn:Ei; [|done].
    destruct (producer_weight test_count n i p q q' Hq Ei E) as [|(-> & _)]; lia.
  - destruct (consumer_weight test_count q q' E) as [|(-> & _)]; lia.
Qed.
End theorems.

(** One producer and one message, with the lock of the benchmark. *)
Definition sample_done : queue Bench.spinlock :=
  MkQueue (Bench.MkSpin Bench.Unlocked) [] [] [MkProducer PDone 1 1] CWait false 1 [0%Z] [1].

Fixpoint run_turns {L} `{!SpinLock L} (test_count : nat) (ts : list tid) (q : queue L) : option (queue L) :=
  match ts with [] => Some q | t :: ts => turn_of test_count t q ≫= run_turns test_count ts end.

Lemma run_turns_runs {L} `{!SpinLock L} test_count n ts : ∀ (q q' : queue L),
  qruns test_count n q → run_turns test_count ts q = Some q' → qruns test_count n q'.
Proof.
  induction ts as [|t ts IH]; intros q q' Hq E; [by injection E as <-|]. cbn [run_turns] in E.
  destruct (turn_of test_count t q) as [q1|] eqn:E1; [|done]. apply (IH q1); [by apply (qruns_turn _ _ t q)|done].
Qed.

Lemma sample_done_runs : qruns 1 1 sample_done.
Proof.
  apply (run_turns_runs 1 1 (replicate 6 (Producer 0) ++ replicate 5 Loop) (start_queue 1)); [apply qruns_start|].
  vm_compute. reflexivity.
Qed.

Example async_delivers_witness : consumed sample_done ≡ₚ concat (replicate 1 (seqZ 0 1)) ∧ total_consumer sample_done = 1.
Proof.
  destruct (async_delivers 1 1 sample_done sample_done_runs) as (_ & _ & _ & H).
  destruct H as (H1 & H2 & _); [split_and!; [repeat constructor|reflexivity|reflexivity]|]. split; [exact H1|exact H2].
Defined.

Example async_progress_witness :
  ∃ t q', turn_of 1 t (start_queue (L := Bench.spinlock) 1) = Some q' ∧
          weight 1 q' < weight 1 (start_queue (L := Bench.spinlock) 1).
Proof.
  destruct (async_progress 1 1 (start_queue (L := Bench.spinlock) 1) (qruns_start 1 1)) as [[H|H] _]; [|exact H].
  exfalso. destruct H as [H _]. apply Forall_cons in H as [H _]. discriminate H.
Defined.

(** ** Counting notifications

    async_threads.cpp: one thread sends [test_count] notifications, the callback counts
    its calls. *)
Module AsyncCount.

Record state := MkState { icount : nat; success_cnt : nat; pending : bool; total_active : nat }.

(** [another_thread] *)
Definition send_turn (test_count : nat) (s : state) : option state :=
  if (icount s <? test_count)%nat then Some (MkState (S (icount s)) (S (success_cnt s)) true (total_active s)) else None.

(** [async_cb] *)
Definition callback_turn (s : state) : option state :=
  if pending s then Some (MkState (icount s) (success_cnt s) false (S (total_active s))) else None.

Inductive cruns (test_count : nat) : state → Prop :=
  | cruns_start : cruns test_count (MkState 0 0 false 0)
  | cruns_send s s' : cruns test_count s → send_turn test_count s = Some s' → cruns test_count s'
  | cruns_callback s s' : cruns test_count s → callback_turn s = Some s' → cruns test_count s'.

(** The callback runs at least once for any number of notifications, and at most once
    for each. *)
Lemma callbacks_bounded test_count s :
  cruns test_count s →
  icount s ≤ test_count ∧ success_cnt s = icount s ∧ total_active s + (if pending s then 1 else 0) ≤ icount s ∧
  (0 < icount s → 0 < total_active s + (if pending s then 1 else 0)).
Proof.
  induction 1 as [|s s' _ IH E|s s' _ IH E]; [simpl; lia|..]; unfold send_turn, callback_turn in E.
  - destruct (Nat.ltb_spec (icount s) test_count); simplify_eq/=. destruct (pending s); lia.
  - destruct (pending s); simplify_eq/=. lia.
Qed.

End AsyncCount.
