(* ===== verification/CurlClient.v ===== *)
(** * The curl client on the libuv loop

    Languages/cpp/0_libuv/uv_curl_wrapper/curl_httpclient.hpp: [CurlHttpClient] drives
    libcurl's multi interface from libuv.  libcurl asks for poll handles and a timer
    through two callbacks; when a handle is ready or the timer fires, the client passes
    it on to libcurl and then reports the transfers that are complete.  libcurl itself is
    not in the repository: what it does inside a call (which callbacks it makes, which
    transfers it reports) is an input of the step; the documented rules are in
    [curl_ok] and [msgs_ok]. *)

From S2P Require Import Prelude StrSplit HttpRequest.
From Stdlib Require Import ZArith Lia.

(** ** State *)

(** The poll handle inside a [curl_context_t]: open, with the events it was started
    for, or closing. *)
Inductive poll := PollOpen (events : option (bool * bool)) | PollClosing.

Record context := MkContext { c_sockfd : Z; c_poll : poll }.

(** [curl_req_t] *)
Record req := MkReq { reqid : Z; buffer : bytes }.

Record answer := MkAnswer { a_rc : Z; a_msg : bytes; a_reqid : Z; a_told : bool }.

Record client := MkClient {
  m_reqid : Z;
  m_on_http_cb : bool;                     (* set, or nullptr *)
  m_curl_multi_hdl : option nat;
  m_timer_hdl : option (option Z);         (* allocated; armed with a time-out *)
  contexts : gmap nat context;
  next_context : nat;
  assigned : gmap Z nat;                   (* curl_multi_assign *)
  easies : gmap nat req;                   (* easy handles in the multi handle *)
  next_easy : nat;
  orphans : list req;                      (* requests that no multi handle took *)
  answers : list answer;                   (* completed requests, in order *)
  multis : nat;                            (* multi handles created *)
}.

(** [CurlHttpClient::CurlHttpClient] *)
Definition CurlHttpClient : client := MkClient 0 false None None ∅ 0 ∅ ∅ 0 [] [] 0.

Definition set_timer (t : option (option Z)) (c : client) : client :=
  MkClient (m_reqid c) (m_on_http_cb c) (m_curl_multi_hdl c) t (contexts c) (next_context c) (assigned c) (easies c)
    (next_easy c) (orphans c) (answers c) (multis c).
Definition set_contexts (m : gmap nat context) (n : nat) (c : client) : client :=
  MkClient (m_reqid c) (m_on_http_cb c) (m_curl_multi_hdl c) (m_timer_hdl c) m n (assigned c) (easies c)
    (next_easy c) (orphans c) (answers c) (multis c).
Definition set_assigned (m : gmap Z nat) (c : client) : client :=
  MkClient (m_reqid c) (m_on_http_cb c) (m_curl_multi_hdl c) (m_timer_hdl c) (contexts c) (next_context c) m (easies c)
    (next_easy c) (orphans c) (answers c) (multis c).
Definition set_easies (m : gmap nat req) (c : client) : client :=
  MkClient (m_reqid c) (m_on_http_cb c) (m_curl_multi_hdl c) (m_timer_hdl c) (contexts c) (next_context c) (assigned c) m
    (next_easy c) (orphans c) (answers c) (multis c).

(** ** [StartPoll], [StopPoll], [SendGet] *)

(** [init_ok]: [curl_global_init] succeeds; [malloc_ok]: [malloc] does. *)
Definition StartPoll (cb init_ok malloc_ok : bool) (c : client) : Z * client :=
  let c := MkClient (m_reqid c) cb (m_curl_multi_hdl c) (m_timer_hdl c) (contexts c) (next_context c) (assigned c)
             (easies c) (next_easy c) (orphans c) (answers c) (multis c) in
  if negb init_ok then ((-1)%Z, c)
  else
    match m_timer_hdl c with
    | None => if malloc_ok then
                (0%Z, MkClient (m_reqid c) cb (Some (multis c)) (Some None) (contexts c) (next_context c) (assigned c)
                        (easies c) (next_easy c) (orphans c) (answers c) (S (multis c)))
              else ((-1)%Z, c)
    | Some t => (0%Z, MkClient (m_reqid c) cb (Some (multis c)) (Some t) (contexts c) (next_context c) (assigned c)
                        (easies c) (next_easy c) (orphans c) (answers c) (S (multis c)))
    end.

Definition StopPoll (c : client) : client :=
  match m_timer_hdl c with Some _ => set_timer (Some None) c | None => c end.

(** The new request and its easy handle; without a multi handle
    [curl_multi_add_handle] fails. *)
Definition SendGet (c : client) : Z * client :=
  let id := u64 (m_reqid c + 1) in
  let pResp := MkReq id [] in
  (id,
   match m_curl_multi_hdl c with
   | Some _ =>
       MkClient id (m_on_http_cb c) (m_curl_multi_hdl c) (m_timer_hdl c) (contexts c) (next_context c) (assigned c)
         (<[next_easy c := pResp]> (easies c)) (S (next_easy c)) (orphans c) (answers c) (multis c)
   | None =>
       MkClient id (m_on_http_cb c) (m_curl_multi_hdl c) (m_timer_hdl c) (contexts c) (next_context c) (assigned c)
         (easies c) (next_easy c) (orphans c ++ [pResp]) (answers c) (multis c)
   end).

(** ** Callbacks of libcurl *)

(** [malloc] and [uv_poll_init_socket], which are taken to succeed. *)
Definition create_curl_context (sockfd : Z) (c : client) : nat * client :=
  (next_context c, set_contexts (<[next_context c := MkContext sockfd (PollOpen None)]> (contexts c)) (S (next_context c)) c).

(** Calls on the poll handle of a context: libuv's rules for open handles. *)
Definition uv_poll_start (x : nat) (events : bool * bool) (c : client) : result client :=
  match contexts c !! x with
  | Some (MkContext s (PollOpen _)) =>
      Ok (set_contexts (<[x := MkContext s (PollOpen (Some events))]> (contexts c)) (next_context c) c)
  | _ => Err Fault
  end.
Definition uv_poll_stop (x : nat) (c : client) : result client :=
  match contexts c !! x with
  | Some (MkContext s (PollOpen _)) =>
      Ok (set_contexts (<[x := MkContext s (PollOpen None)]> (contexts c)) (next_context c) c)
  | _ => Err Fault
  end.
Definition destroy_curl_context (x : nat) (c : client) : result client :=
  match contexts c !! x with
  | Some (MkContext s (PollOpen _)) => Ok (set_contexts (<[x := MkContext s PollClosing]> (contexts c)) (next_context c) c)
  | _ => Err Fault
  end.

Inductive action := CURL_POLL_IN | CURL_POLL_OUT | CURL_POLL_INOUT | CURL_POLL_REMOVE | OtherAction.

(** libcurl passes the pointer that was assigned to the socket. *)
Definition handle_socket (s : Z) (a : action) (c : client) : result client :=
  let socketp := assigned c !! s in
  match a with
  | CURL_POLL_IN | CURL_POLL_OUT | CURL_POLL_INOUT =>
      let '(curl_context, c) := match socketp with Some x => (x, c) | None => create_curl_context s c end in
      let c := set_assigned (<[s := curl_context]> (assigned c)) c in
      let readable := match a with CURL_POLL_IN | CURL_POLL_INOUT => true | _ => false end in
      let writable := match a with CURL_POLL_OUT | CURL_POLL_INOUT => true | _ => false end in
      uv_poll_start curl_context (readable, writable) c
  | CURL_POLL_REMOVE =>
      match socketp with
      | Some x =>
          c ← uv_poll_stop x c;
          c ← destroy_curl_context x c;
          Ok (set_assigned (delete s (assigned c)) c)
      | None => Ok c
      end
  | OtherAction => Err AssertFail
  end.

Definition start_timer (timeout_ms : Z) (c : client) : result client :=
  match m_timer_hdl c with
  | None => Err Fault
  | Some _ =>
      if (timeout_ms <? 0)%Z then Ok (set_timer (Some None) c)
      else let timeout_ms := if (timeout_ms =? 0)%Z then 1%Z else timeout_ms in
           Ok (set_timer (Some (Some timeout_ms)) c)
  end.

(** [userp] is the request of the easy handle. *)
Definition callback_get_head (easy : nat) (data : bytes) (c : client) : result client :=
  if (0 <? length data)%nat then
    match easies c !! easy with
    | Some r => Ok (set_easies (<[easy := MkReq (reqid r) (buffer r ++ data)]> (easies c)) c)
    | None => Err Fault
    end
  else Ok c.

(** ** Completed transfers *)

(** A message of [curl_multi_info_read]; [more] is how many requests the user's callback
    sends. *)
Inductive curl_msg := MsgDone (easy : nat) (rc : Z) (more : nat) | MsgOther.

Fixpoint send_more (n : nat) (c : client) : client :=
  match n with O => c | S n => send_more n (SendGet c).2 end.

Section messages.
Context (curl_easy_strerror : Z → bytes).

Definition report (easy : nat) (rc : Z) (more : nat) (c : client) : result client :=
  match easies c !! easy with
  | None => Err Fault
  | Some r =>
      let msg := if (rc =? 0)%Z then buffer r else curl_easy_strerror rc in
      let c := if m_on_http_cb c then send_more more c else c in
      Ok (MkClient (m_reqid c) (m_on_http_cb c) (m_curl_multi_hdl c) (m_timer_hdl c) (contexts c) (next_context c)
            (assigned c) (delete easy (easies c)) (next_easy c) (orphans c)
            (answers c ++ [MkAnswer rc msg (reqid r) (m_on_http_cb c)]) (multis c))
  end.

Fixpoint check_multi_info (msgs : list curl_msg) (c : client) : result client :=
  match msgs with
  | [] => Ok c
  | MsgDone easy rc more :: msgs => c ← report easy rc more c; check_multi_info msgs c
  | MsgOther :: msgs => check_multi_info msgs c
  end.

(** What libcurl does inside [curl_multi_socket_action]. *)
Inductive curl_event := CSocket (s : Z) (a : action) | CTimer (timeout_ms : Z) | CData (easy : nat) (data : bytes).

Definition curl_call (e : curl_event) (c : client) : result client :=
  match e with
  | CSocket s a => handle_socket s a c
  | CTimer ms => start_timer ms c
  | CData easy data => callback_get_head easy data c
  end.

Fixpoint curl_calls (es : list curl_event) (c : client) : result client :=
  match es with [] => Ok c | e :: es => c ← curl_call e c; curl_calls es c end.

(** The callback of a poll handle reads its context. *)
Definition curl_perform (x : nat) (es : list curl_event) (msgs : list curl_msg) (c : client) : result client :=
  match contexts c !! x with
  | Some _ => c ← curl_calls es c; check_multi_info msgs c
  | None => Err Fault
  end.

Definition on_timer_cb (es : list curl_event) (msgs : list curl_msg) (c : client) : result client :=
  c ← curl_calls es (set_timer (Some None) c); check_multi_info msgs c.

(** [free(ctx)] *)
Definition on_close_ctx_cb (x : nat) (c : client) : client := set_contexts (delete x (contexts c)) (next_context c) c.
End messages.

(** ** The destructor *)

(** What is left of a client: requests and easy handles that nobody frees, contexts
    that libcurl has not given back, timers to close. *)
Record remains := MkRemains { r_requests : list req; r_easies : nat; r_contexts : gmap nat context; r_timers : nat }.

(** [~CurlHttpClient]: [StopPoll], [uv_close] of the timer, [curl_multi_cleanup]. *)
Definition destroy (c : client) : remains :=
  let c := StopPoll c in
  MkRemains ((map_to_list (easies c)).*2 ++ orphans c) (size (easies c) + length (orphans c)) (contexts c)
    (match m_timer_hdl c with Some _ => 1 | None => 0 end).
