(* ===== verification/CurlSafe.v ===== *)
(** * The curl client: sockets, contexts and requests

    Theorems about CurlClient.v over arbitrary interleavings of calls of the user,
    callbacks of the loop and callbacks of libcurl: every socket that libcurl watches has
    exactly one open poll handle, handles are used only while they are open, and every
    request is answered exactly once. *)

From S2P Require Import Prelude StrSplit HttpRequest CurlClient.
From Stdlib Require Import ZArith Lia.

(** ** The loop *)

Section loop.
Context (curl_easy_strerror : Z → bytes).

Inductive event :=
  | EStart (cb init_ok malloc_ok : bool)
  | EStop
  | ESend
  | ECurl (e : curl_event)                                      (* during a call into libcurl *)
  | EPoll (x : nat) (es : list curl_event) (msgs : list curl_msg)
  | ETimer (es : list curl_event) (msgs : list curl_msg)
  | EClosed (x : nat).

(** What libcurl documents: the actions it asks for, and that data and messages belong to
    transfers that it was given and has not reported yet. *)
Definition curl_ok (e : curl_event) (c : client) : Prop :=
  match e with
  | CSocket _ a => a ≠ OtherAction
  | CTimer _ => True
  | CData easy _ => is_Some (easies c !! easy)
  end.
Definition done_easies (msgs : list curl_msg) : list nat :=
  omap (λ m, match m with MsgDone easy _ _ => Some easy | MsgOther => None end) msgs.
Definition msgs_ok (msgs : list curl_msg) (c : client) : Prop :=
  NoDup (done_easies msgs) ∧ Forall (λ easy, is_Some (easies c !! easy)) (done_easies msgs).

(** [StartPoll] is called until it succeeds; a poll handle calls back while it is active,
    the timer while it is armed. *)
Definition enabled (e : event) (c : client) : Prop :=
  match e with
  | EStart _ _ _ => m_curl_multi_hdl c = None
  | EStop | ESend => True
  | ECurl e => is_Some (m_curl_multi_hdl c) ∧ curl_ok e c
  | EPoll x es msgs =>
      (∃ s ev, contexts c !! x = Some (MkContext s (PollOpen (Some ev)))) ∧ is_Some (m_curl_multi_hdl c) ∧
      Forall (λ e, curl_ok e c) es ∧ msgs_ok msgs c
  | ETimer es msgs =>
      (∃ ms, m_timer_hdl c = Some (Some ms)) ∧ is_Some (m_curl_multi_hdl c) ∧
      Forall (λ e, curl_ok e c) es ∧ msgs_ok msgs c
  | EClosed x => ∃ s, contexts c !! x = Some (MkContext s PollClosing)
  end.

Definition exec (e : event) (c : client) : result client :=
  match e with
  | EStart cb init_ok malloc_ok => Ok (StartPoll cb init_ok malloc_ok c).2
  | EStop => Ok (StopPoll c)
  | ESend => Ok (SendGet c).2
  | ECurl e => curl_call e c
  | EPoll x es msgs => curl_perform curl_easy_strerror x es msgs c
  | ETimer es msgs => on_timer_cb curl_easy_strerror es msgs c
  | EClosed x => Ok (on_close_ctx_cb x c)
  end.

(** Requests sent by an event, also from the user's callback. *)
Definition sent_more (msgs : list curl_msg) (c : client) : nat :=
  if m_on_http_cb c then sum_list ((λ m, match m with MsgDone _ _ more => more | MsgOther => 0 end) <$> msgs) else 0.
Definition sent_by (e : event) (c : client) : nat :=
  match e with
  | ESend => 1
  | EPoll _ _ msgs | ETimer _ msgs => sent_more msgs c
  | _ => 0
  end.

(** [reachable n c]: after [n] requests. *)
Inductive reachable : nat → client → Prop :=
  | reachable_new : reachable 0 CurlHttpClient
  | reachable_step n e c c' : reachable n c → enabled e c → exec e c = Ok c' → reachable (n + sent_by e c) c'.

(** ** Invariants *)

(** Sockets and open contexts correspond one to one. *)
Record polls_ok (c : client) : Prop := {
  po_assigned s x : assigned c !! s = Some x → ∃ ev, contexts c !! x = Some (MkContext s (PollOpen ev));
  po_open s x ev : contexts c !! x = Some (MkContext s (PollOpen ev)) → assigned c !! s = Some x;
  po_next x : is_Some (contexts c !! x) → x < next_context c;
  po_timer : is_Some (m_curl_multi_hdl c) → is_Some (m_timer_hdl c);
}.

(** The numbers of the first [n] requests; the requests libcurl has. *)
Definition issued (n : nat) : list Z := (λ k, u64 (Z.of_nat k)) <$> seq 1 n.
Definition ids (m : gmap nat req) : list Z := reqid <$> (map_to_list m).*2.

Record requests_ok (n : nat) (c : client) : Prop := {
  ro_reqid : m_reqid c = u64 (Z.of_nat n);
  ro_next e : is_Some (easies c !! e) → e < next_easy c;
  ro_ids : issued n ≡ₚ (a_reqid <$> answers c) ++ ids (easies c) ++ (reqid <$> orphans c);
}.

(** The two halves of the state. *)
Definition same_requests (c c' : client) : Prop :=
  m_reqid c' = m_reqid c ∧ m_on_http_cb c' = m_on_http_cb c ∧ easies c' = easies c ∧ next_easy c' = next_easy c ∧
  orphans c' = orphans c ∧ answers c' = answers c ∧ m_curl_multi_hdl c' = m_curl_multi_hdl c.
Definition same_polls (c c' : client) : Prop :=
  contexts c' = contexts c ∧ next_context c' = next_context c ∧ assigned c' = assigned c ∧
  m_timer_hdl c' = m_timer_hdl c ∧ m_curl_multi_hdl c' = m_curl_multi_hdl c.

Lemma requests_same n c c' : same_requests c c' → requests_ok n c → requests_ok n c'.
Proof. intros (E1 & _ & E2 & E3 & E4 & E5 & _) [H1 H2 H3]. split; rewrite ?E1, ?E2, ?E3, ?E4, ?E5; done. Qed.

Lemma polls_same c c' : same_polls c c' → polls_ok c → polls_ok c'.
Proof.
  intros (E1 & E2 & E3 & E4 & E5) [H1 H2 H3 H4]. split; rewrite ?E1, ?E2, ?E3, ?E4, ?E5; done.
Qed.

(** ** Sockets *)

Lemma uv_poll_start_ok s x ev0 ev c :
  polls_ok c → contexts c !! x = Some (MkContext s (PollOpen ev0)) →
  ∃ c', uv_poll_start x ev c = Ok c' ∧ polls_ok c' ∧ same_requests c c'.
Proof.
  intros [H1 H2 H3 H4] Hx. unfold uv_poll_start. rewrite Hx. eexists. split; [done|]. split; [|done]. split; simpl.
  - intros s' x' Ha. destruct (H1 _ _ Ha) as [ev' Hx']. destruct (decide (x = x')) as [->|Hne].
    + rewrite lookup_insert_eq. simplify_eq. by eexists.
    + rewrite lookup_insert_ne by done. by eexists.
  - intros s' x' ev'. destruct (decide (x = x')) as [->|Hne].
    + rewrite lookup_insert_eq. intros ?. simplify_eq. by apply (H2 _ _ ev0).
    + rewrite lookup_insert_ne by done. apply H2.
  - intros x' Hx'. apply H3. destruct (decide (x = x')) as [->|Hne]; [by rewrite Hx|by rewrite lookup_insert_ne in Hx'].
  - done.
Qed.

(** A new context for a socket that has none. *)
Lemma create_ok s c :
  polls_ok c → assigned c !! s = None →
  let '(x, c') := create_curl_context s c in polls_ok (set_assigned (<[s := x]> (assigned c')) c').
Proof.
  intros [H1 H2 H3 H4] Es. simpl. assert (Hfresh : contexts c !! next_context c = None).
  { destruct (contexts c !! next_context c) eqn:E; [|done]. specialize (H3 (next_context c)). rewrite E in H3.
    specialize (H3 ltac:(by eexists)). lia. }
  split; simpl.
  - intros s' x'. destruct (decide (s = s')) as [->|Hne].
    + rewrite lookup_insert_eq. intros [= <-]. rewrite lookup_insert_eq. by eexists.
    + rewrite lookup_insert_ne by done. intros Hs'. destruct (H1 _ _ Hs') as [ev' Hx']. exists ev'.
      rewrite lookup_insert_ne; [done|]. intros <-. congruence.
  - intros s' x' ev'. destruct (decide (next_context c = x')) as [<-|Hne].
    + rewrite lookup_insert_eq. intros [= -> _]. apply lookup_insert_eq.
    + rewrite lookup_insert_ne by done. intros Hx'. apply H2 in Hx'. rewrite lookup_insert_ne; [done|]. intros <-. congruence.
  - intros x'. destruct (decide (next_context c = x')) as [<-|Hne]; [lia|]. rewrite lookup_insert_ne by done.
    intros Hx'. specialize (H3 _ Hx'). lia.
  - done.
Qed.

(** [CURL_POLL_REMOVE] for a socket that has a context. *)
Lemma remove_ok s x c :
  polls_ok c → assigned c !! s = Some x →
  ∃ c', handle_socket s CURL_POLL_REMOVE c = Ok c' ∧ polls_ok c' ∧ same_requests c c'.
Proof.
  intros [H1 H2 H3 H4] Es. unfold handle_socket. rewrite Es.
  destruct (H1 _ _ Es) as [ev0 Hx]. unfold uv_poll_stop. rewrite Hx. cbn [mbind result_bind]. unfold destroy_curl_context.
  simpl. rewrite lookup_insert_eq. cbn [mbind result_bind]. eexists. split; [done|]. split; [|done]. split; simpl.
  - intros s' x' [Hne Hs']%lookup_delete_Some. destruct (H1 _ _ Hs') as [ev' Hx']. exists ev'.
    rewrite !lookup_insert_ne; [done|..]; intros <-; congruence.
  - intros s' x' ev'. destruct (decide (x = x')) as [<-|Hne]; [by rewrite lookup_insert_eq|].
    rewrite !lookup_insert_ne by done. intros Hx'. apply H2 in Hx'. rewrite lookup_delete_ne; [done|]. intros <-. congruence.
  - intros x'. destruct (decide (x = x')) as [<-|Hne]; [intros _; apply H3; by eexists|].
    rewrite !lookup_insert_ne by done. apply H3.
  - done.
Qed.

Lemma handle_socket_ok s a c :
  a ≠ OtherAction → polls_ok c → ∃ c', handle_socket s a c = Ok c' ∧ polls_ok c' ∧ same_requests c c'.
Proof.
  intros Ha Hc.
  assert (Hwatch : ∀ ev, ∃ c', (let '(x, c) := match assigned c !! s with Some x => (x, c) | None => create_curl_context s c end in
    uv_poll_start x ev (set_assigned (<[s := x]> (assigned c)) c)) = Ok c' ∧ polls_ok c' ∧ same_requests c c').
  { intros ev. destruct (assigned c !! s) as [x|] eqn:Es.
    - destruct (po_assigned c Hc _ _ Es) as [ev0 Hx]. rewrite insert_id by done. destruct c. by apply (uv_poll_start_ok s x ev0).
    - pose proof (create_ok s c Hc Es) as Hn. simpl in *. apply (uv_poll_start_ok s (next_context c) None) with (ev := ev) in Hn;
        [exact Hn|]. simpl. apply lookup_insert_eq. }
  destruct a; [apply Hwatch..| |done]. destruct (assigned c !! s) as [x|] eqn:Es; [by apply (remove_ok s x)|].
  exists c. unfold handle_socket. by rewrite Es.
Qed.

Lemma start_timer_ok ms c :
  is_Some (m_curl_multi_hdl c) → polls_ok c → ∃ c', start_timer ms c = Ok c' ∧ polls_ok c' ∧ same_requests c c'.
Proof.
  intros Hm [H1 H2 H3 H4]. unfold start_timer. destruct (H4 Hm) as [t ->].
  destruct (_ <? _)%Z; eexists; (split; [done|]); (split; [|done]); by split.
Qed.

(** ** Requests *)

Lemma ids_new m e r : m !! e = None → ids (<[e := r]> m) ≡ₚ reqid r :: ids m.
Proof. intros He. unfold ids. by rewrite map_to_list_insert. Qed.

Lemma ids_delete m e r : m !! e = Some r → ids m ≡ₚ reqid r :: ids (delete e m).
Proof. intros He. unfold ids. by rewrite <-(map_to_list_delete m e r He). Qed.

Lemma ids_update m e r r' : m !! e = Some r → reqid r' = reqid r → ids (<[e := r']> m) ≡ₚ ids m.
Proof.
  intros He Er. rewrite (ids_delete m e r He), <-insert_delete_eq, ids_new by apply lookup_delete_eq. by rewrite Er.
Qed.

Lemma issued_S n : issued (S n) = issued n ++ [u64 (Z.of_nat (S n))].
Proof. unfold issued. rewrite seq_S, fmap_app. done. Qed.

Lemma u64_next n : u64 (u64 (Z.of_nat n) + 1) = u64 (Z.of_nat (S n)).
Proof. unfold wrap. rewrite Zplus_mod_idemp_l. f_equal. lia. Qed.

Lemma SendGet_ok n c :
  requests_ok n c →
  requests_ok (S n) (SendGet c).2 ∧ same_polls c (SendGet c).2 ∧ m_on_http_cb (SendGet c).2 = m_on_http_cb c ∧
  ∀ e r, easies c !! e = Some r → easies (SendGet c).2 !! e = Some r.
Proof.
  intros [H1 H2 H3]. unfold SendGet. simpl.
  assert (Hfresh : easies c !! next_easy c = None).
  { destruct (easies c !! next_easy c) eqn:E; [|done]. specialize (H2 (next_easy c)). rewrite E in H2.
    specialize (H2 ltac:(by eexists)). lia. }
  destruct (m_curl_multi_hdl c) eqn:Em; (split_and!; [split; simpl|by rewrite <-Em|done|]).
  - by rewrite H1, u64_next.
  - intros e. destruct (decide (next_easy c = e)) as [<-|Hne]; [lia|]. rewrite lookup_insert_ne by done.
    intros He. specialize (H2 e He). lia.
  - rewrite issued_S, ids_new, H3, H1, u64_next by done. simpl. solve_Permutation.
  - intros e r He. simpl. rewrite lookup_insert_ne; [done|]. intros <-. congruence.
  - by rewrite H1, u64_next.
  - done.
  - rewrite issued_S, H3, fmap_app, H1, u64_next. simpl. solve_Permutation.
  - done.
Qed.

Lemma same_polls_trans c1 c2 c3 : same_polls c1 c2 → same_polls c2 c3 → same_polls c1 c3.
Proof. intros (E1 & E2 & E3 & E4 & E5) (F1 & F2 & F3 & F4 & F5). unfold same_polls. split_and!; congruence. Qed.

Lemma send_more_ok k : ∀ n c,
  requests_ok n c →
  requests_ok (k + n) (send_more k c) ∧ same_polls c (send_more k c) ∧ m_on_http_cb (send_more k c) = m_on_http_cb c ∧
  ∀ e r, easies c !! e = Some r → easies (send_more k c) !! e = Some r.
Proof.
  induction k as [|k IH]; intros n c Hc; [done|]. cbn [send_more].
  destruct (SendGet_ok n c Hc) as (H1 & H2 & H3 & H4). destruct (IH (S n) _ H1) as (F1 & F2 & F3 & F4).
  replace (S k + n) with (k + S n) by lia. split_and!; [done|by eapply same_polls_trans|congruence|]. intros e r He. by apply F4, H4.
Qed.

(** Completing a request of libcurl; other requests stay. *)
Lemma report_ok n c easy rc more :
  requests_ok n c → is_Some (easies c !! easy) →
  ∃ c', report curl_easy_strerror easy rc more c = Ok c' ∧ requests_ok ((if m_on_http_cb c then more else 0) + n) c' ∧
    same_polls c c' ∧ m_on_http_cb c' = m_on_http_cb c ∧
    ∀ e, e ≠ easy → is_Some (easies c !! e) → is_Some (easies c' !! e).
Proof.
  intros Hc [r Hr]. unfold report. rewrite Hr. set (c1 := if m_on_http_cb c then send_more more c else c).
  assert (requests_ok ((if m_on_http_cb c then more else 0) + n) c1 ∧ same_polls c c1 ∧ m_on_http_cb c1 = m_on_http_cb c ∧
    ∀ e r, easies c !! e = Some r → easies c1 !! e = Some r) as (H1 & H2 & H3 & H4).
  { unfold c1. destruct (m_on_http_cb c) eqn:Eb; [|done]. rewrite <-Eb. by apply send_more_ok. }
  eexists. split; [done|]. split_and!; [|done|done|].
  - destruct H1 as [F1 F2 F3]. split; simpl; [done| |].
    + intros e [r' He]. apply lookup_delete_Some in He as [_ He]. apply F2. by eexists.
    + rewrite F3, (ids_delete _ _ _ (H4 _ _ Hr)), fmap_app. simpl. solve_Permutation.
  - intros e Hne [r' He]. simpl. rewrite lookup_delete_ne by done. rewrite (H4 _ _ He). by eexists.
Qed.

Lemma check_multi_info_ok msgs : ∀ n c,
  requests_ok n c → msgs_ok msgs c →
  ∃ c', check_multi_info curl_easy_strerror msgs c = Ok c' ∧ requests_ok (n + sent_more msgs c) c' ∧ same_polls c c'.
Proof.
  induction msgs as [|[easy rc more|] msgs IH]; intros n c Hc [Hnd Hall]; cbn [check_multi_info].
  - exists c. split; [done|]. split; [|done]. unfold sent_more. replace (n + _) with n by (destruct (m_on_http_cb c); simpl; lia). done.
  - cbn [done_easies omap list_omap] in Hnd, Hall. change (omap _ msgs) with (done_easies msgs) in *.
    apply NoDup_cons in Hnd as [Hnin Hnd]. apply Forall_cons in Hall as [He Hall].
    destruct (report_ok n c easy rc more Hc He) as (c1 & -> & H1 & H2 & H3 & H4).
    destruct (IH _ c1 H1) as (c2 & E & F1 & F2).
    { split; [done|]. rewrite Forall_forall in *. intros e Hin. apply H4; [intros ->; done|by apply Hall]. }
    exists c2. split; [done|]. split; [|by eapply same_polls_trans]. unfold sent_more in *. rewrite H3 in F1.
    rewrite fmap_cons. cbn [sum_list]. destruct (m_on_http_cb c); [|done].
    match goal with H : requests_ok ?a c2 |- requests_ok ?b c2 => by replace b with a by (simpl; lia) end.
  - apply (IH n c Hc). by split.
Qed.

Lemma curl_call_ok n e c :
  polls_ok c → requests_ok n c → is_Some (m_curl_multi_hdl c) → curl_ok e c →
  ∃ c', curl_call e c = Ok c' ∧ polls_ok c' ∧ requests_ok n c' ∧ m_on_http_cb c' = m_on_http_cb c ∧
    m_curl_multi_hdl c' = m_curl_multi_hdl c ∧ dom (easies c') = dom (easies c).
Proof.
  intros Hp Hr Hm He. destruct e as [s a|ms|easy data]; cbn [curl_call curl_ok] in *.
  - destruct (handle_socket_ok s a c He Hp) as (c' & E & Hp' & Hs). exists c'. pose proof (requests_same n c c' Hs Hr).
    destruct Hs as (_ & E2 & E3 & _ & _ & _ & E7). rewrite E3. done.
  - destruct (start_timer_ok ms c Hm Hp) as (c' & E & Hp' & Hs). exists c'. pose proof (requests_same n c c' Hs Hr).
    destruct Hs as (_ & E2 & E3 & _ & _ & _ & E7). rewrite E3. done.
  - unfold callback_get_head. destruct (0 <? length data)%nat; [|by exists c]. destruct He as [r Er]. rewrite Er.
    eexists. split; [done|]. split_and!; [by apply (polls_same c)| |done|done|apply dom_insert_lookup_L; by eexists].
    destruct Hr as [H1 H2 H3]. split; simpl; [done| |].
    + intros e. destruct (decide (easy = e)) as [<-|Hne]; [intros _; apply H2; by eexists|]. rewrite lookup_insert_ne by done. apply H2.
    + by rewrite (ids_update _ _ _ _ Er).
Qed.

Lemma curl_calls_ok n es : ∀ c,
  polls_ok c → requests_ok n c → is_Some (m_curl_multi_hdl c) → Forall (λ e, curl_ok e c) es →
  ∃ c', curl_calls es c = Ok c' ∧ polls_ok c' ∧ requests_ok n c' ∧ m_on_http_cb c' = m_on_http_cb c ∧
    dom (easies c') = dom (easies c).
Proof.
  induction es as [|e es IH]; intros c Hp Hr Hm Hes; [by exists c|]. apply Forall_cons in Hes as [He Hes].
  cbn [curl_calls]. destruct (curl_call_ok n e c Hp Hr Hm He) as (c1 & -> & Hp1 & Hr1 & Eb & Em & Ed).
  destruct (IH c1 Hp1 Hr1) as (c2 & E & Hp2 & Hr2 & Eb2 & Ed2).
  - by rewrite Em.
  - eapply Forall_impl; [exact Hes|]. intros [s a|ms|easy data]; cbn [curl_ok]; [done|done|].
    rewrite <-!elem_of_dom. by rewrite Ed.
  - exists c2. split_and!; [done|done|done|congruence|congruence].
Qed.

(** A call into libcurl and the completed transfers after it. *)
Lemma pump_ok n es msgs c :
  polls_ok c → requests_ok n c → is_Some (m_curl_multi_hdl c) → Forall (λ e, curl_ok e c) es → msgs_ok msgs c →
  ∃ c', (c ← curl_calls es c; check_multi_info curl_easy_strerror msgs c) = Ok c' ∧ polls_ok c' ∧
    requests_ok (n + sent_more msgs c) c'.
Proof.
  intros Hp Hr Hm Hes [Hnd Hall]. destruct (curl_calls_ok n es c Hp Hr Hm Hes) as (c1 & -> & Hp1 & Hr1 & Eb & Ed).
  destruct (check_multi_info_ok msgs n c1 Hr1) as (c2 & E & Hr2 & Hs).
  { split; [done|]. eapply Forall_impl; [exact Hall|]. intros e. rewrite <-!elem_of_dom. by rewrite Ed. }
  exists c2. split_and!; [done|by apply (polls_same c1)|]. unfold sent_more in *. by rewrite <-Eb.
Qed.

Lemma curl_exec_ok n e c :
  polls_ok c → requests_ok n c → enabled e c →
  ∃ c', exec e c = Ok c' ∧ polls_ok c' ∧ requests_ok (n + sent_by e c) c'.
Proof.
  intros Hp Hr He. destruct e as [cb i m| | |e|x es msgs|es msgs|x]; cbn [exec enabled sent_by] in *; rewrite ?Nat.add_0_r.
  - eexists. split; [done|]. destruct Hp as [H1 H2 H3 H4], Hr as [F1 F2 F3]. unfold StartPoll. simpl.
    destruct i; [|split; by split]. destruct (m_timer_hdl c) as [t|]; [split; [split; [done..|by eexists]|by split]|].
    destruct m; (split; [split; [done..|first [done|by eexists|by rewrite He; intros [? ?]]]|by split]).
  - eexists. split; [done|]. unfold StopPoll. destruct (m_timer_hdl c); [|done].
    destruct Hp as [H1 H2 H3 H4], Hr as [F1 F2 F3]. split; [split; [done..|by eexists]|by split].
  - eexists. split; [done|]. destruct (SendGet_ok n c Hr) as (H1 & H2 & _). rewrite Nat.add_1_r.
    split; [by apply (polls_same c)|done].
  - destruct He as [Hm He]. destruct (curl_call_ok n e c Hp Hr Hm He) as (c' & E & Hp' & Hr' & _). by exists c'.
  - destruct He as ((s & ev & Hx) & Hm & Hes & Hms). unfold curl_perform. rewrite Hx. by apply pump_ok.
  - destruct He as (_ & Hm & Hes & Hms). unfold on_timer_cb.
    apply (pump_ok n es msgs (set_timer (Some None) c)); [|by destruct Hr|done..].
    destruct Hp as [H1 H2 H3 H4]. split; [done..|by eexists].
  - destruct He as [s Hx]. eexists. split; [done|]. split; [|by destruct Hr]. destruct Hp as [H1 H2 H3 H4]. split; simpl; [| | |done].
    + intros s' x' Ha. destruct (H1 _ _ Ha) as [ev Hx']. exists ev. rewrite lookup_delete_ne; [done|]. intros ->. congruence.
    + intros s' x' ev [_ Hx']%lookup_delete_Some. by apply (H2 _ _ ev).
    + intros x' [y [_ Hy]%lookup_delete_Some]. apply H3. by eexists.
Qed.

Lemma curl_reachable_ok n c : reachable n c → polls_ok c ∧ requests_ok n c.
Proof.
  induction 1 as [|n e c c' _ [Hp Hr] He Ex].
  - split; split; simpl; try done; try (intros *; rewrite lookup_empty); by try intros [? ?].
  - destruct (curl_exec_ok n e c Hp Hr He) as (c1 & E & Hp1 & Hr1). rewrite Ex in E. by simplify_eq.
Qed.

(** ** The theorems *)

(** C31. Whatever libcurl asks for and whenever libuv calls back, the client never uses a
    poll handle that is closing or freed nor a timer that it does not have, and never
    aborts; the sockets that libcurl watches correspond one to one to the open poll
    handles, so that none is lost.  This holds when [StartPoll] is called only until it
    succeeds, and when a new context can always be allocated and its socket polled. *)
Theorem curl_polls_safe n c :
  reachable n c →
  (∀ e, enabled e c → ∃ c', exec e c = Ok c') ∧
  (∀ s x, assigned c !! s = Some x ↔ ∃ ev, contexts c !! x = Some (MkContext s (PollOpen ev))).
Proof.
  intros Hr. destruct (curl_reachable_ok n c Hr) as [Hp Hq]. split.
  - intros e He. destruct (curl_exec_ok n e c Hp Hq He) as (c' & E & _). by exists c'.
  - intros s x. split; [apply (po_assigned c Hp)|]. intros [ev Hx]. by apply (po_open c Hp _ _ ev).
Qed.

(** C32. Every request has a number of its own and is answered at most once: the numbers
    of the answers, of the transfers that libcurl still has and of the requests sent
    without [StartPoll] are together those of the [n] requests.  What libcurl still has
    when the client is destroyed, and what it never got, is not freed. *)
Theorem curl_requests_once n c :
  reachable n c → (Z.of_nat n < 2 ^ 64)%Z →
  NoDup ((a_reqid <$> answers c) ++ ids (easies c) ++ (reqid <$> orphans c)) ∧
  (∀ k, k ∈ (a_reqid <$> answers c) ++ ids (easies c) ++ (reqid <$> orphans c) ↔ (1 ≤ k ≤ Z.of_nat n)%Z) ∧
  reqid <$> r_requests (destroy c) = ids (easies c) ++ (reqid <$> orphans c).
Proof.
  intros Hr Hn. destruct (curl_reachable_ok n c Hr) as [_ [_ _ E]].
  assert (Hiss : issued n = Z.of_nat <$> seq 1 n).
  { unfold issued. apply list_fmap_ext. intros i k Hk. apply lookup_seq in Hk as [-> Hi]. apply wrap_small. lia. }
  split_and!.
  - rewrite <-E, Hiss. apply NoDup_fmap_2; [apply _|]. apply NoDup_seq.
  - intros k. rewrite <-E, Hiss, list_elem_of_fmap. split.
    + intros (m & -> & Hm). apply elem_of_seq in Hm. lia.
    + intros Hk. exists (Z.to_nat k). rewrite elem_of_seq. lia.
  - unfold destroy. simpl. rewrite fmap_app. unfold StopPoll. by destruct (m_timer_hdl c).
Qed.
End loop.

(** ** Witness: a request, its socket, its data and its answer *)

Definition sample_waiting : client :=
  MkClient 1 true (Some 0) (Some None) {[0 := MkContext 7 (PollOpen (Some (false, true)))]} 1 {[7%Z := 0]}
    {[0 := MkReq 1 []]} 1 [] [] 1.

Lemma sample_waiting_reachable : reachable (λ _, []) 1 sample_waiting.
Proof.
  pose proof (reachable_new (λ _, [])) as H0.
  pose proof (reachable_step _ _ (EStart true true true) _ _ H0 eq_refl eq_refl) as H1.
  pose proof (reachable_step _ _ ESend _ _ H1 I eq_refl) as H2.
  pose proof (reachable_step _ _ (ECurl (CTimer 0)) _ _ H2 (conj (ex_intro _ 0 eq_refl) I) eq_refl) as H3.
  refine (reachable_step _ _ (ETimer [CSocket 7 CURL_POLL_OUT] []) _ _ H3 _ _); [|vm_compute; reflexivity].
  split_and!; [by eexists|by eexists|by apply Forall_singleton|split; constructor].
Qed.

Example curl_polls_safe_witness : assigned sample_waiting !! 7%Z = Some 0.
Proof. apply (curl_polls_safe (λ _, []) 1 sample_waiting sample_waiting_reachable). by eexists. Defined.

Example curl_requests_once_witness : reqid <$> r_requests (destroy sample_waiting) = [1%Z].
Proof. apply (curl_requests_once (λ _, []) 1 sample_waiting sample_waiting_reachable). reflexivity. Defined.

