(* ===== verification/CurlTest.v ===== *)
(** * The test program of the curl client

    Languages/cpp/0_libuv/uv_curl_wrapper/curl_test.cpp: a client, a request for each
    argument, and the loop until nothing is left to do; the callback prints what comes back.
    The client and the loop are those of CurlClient.v and CurlSafe.v. *)

From S2P Require Import Prelude StrSplit HttpRequest CurlClient CurlSafe.
From Stdlib Require Import ZArith Lia.

(** ** The program *)

(** [puts] writes up to the first NUL. *)
Fixpoint puts (s : bytes) : bytes :=
  match s with c :: s => if (c =? 0)%Z then [] else c :: puts s | [] => [] end.

(** What [CallBack] prints. *)
Record line := MkLine { status : Z; len : nat; id : Z; text : bytes }.

Definition CallBack (a : answer) : line :=
  let msg := a_msg a in
  let emit := if (50 <? length msg) then take 10 msg ++ ascii_bytes "..." else msg in
  MkLine (a_rc a) (length msg) (a_reqid a) (puts emit).

(** The client, and the requests with their numbers ("will Get <%s>..."). *)
Record test := MkTest { m_httpclient : client; requested : list (Z * bytes) }.

Definition Init (init_ok malloc_ok : bool) : test := MkTest (StartPoll true init_ok malloc_ok CurlHttpClient).2 [].

Definition DoWork (url : bytes) (t : test) : test :=
  let '(id, c) := SendGet (m_httpclient t) in MkTest c (requested t ++ [(id, url)]).

(** [while (argc-- > 1) test->DoWork(argv[argc])] *)
Fixpoint work_loop (argc : nat) (argv : list bytes) (t : test) : result test :=
  match argc with
  | S ((S _) as argc) =>
      match argv !! argc with Some url => work_loop argc argv (DoWork url t) | None => Err Fault end
  | _ => Ok t
  end.

(** [main] up to [uv_run]; [None]: the usage. *)
Definition main (argv : list bytes) (init_ok malloc_ok : bool) : result (option test) :=
  if (length argv <=? 1) then Ok None
  else t ← work_loop (length argv) argv (Init init_ok malloc_ok); Ok (Some t).

(** What the loop can do: [CallBack] sends no requests. *)
Definition silent (m : curl_msg) : bool := match m with MsgDone _ _ more => more =? 0 | MsgOther => true end.
Definition in_loop (e : event) : bool :=
  match e with
  | EStart _ _ _ | EStop | ESend => false
  | EPoll _ _ msgs | ETimer _ msgs => forallb silent msgs
  | ECurl _ | EClosed _ => true
  end.

Section loop.
Context (curl_easy_strerror : Z → bytes).

Inductive uv_run (c : client) : client → Prop :=
  | uv_run_start : uv_run c c
  | uv_run_step e c1 c2 : uv_run c c1 → in_loop e = true → enabled e c1 → exec curl_easy_strerror e c1 = Ok c2 → uv_run c c2.

(** ** The requests *)

(** The requests of the arguments, the last one first, are numbered from 1. *)
Definition numbered (us : list bytes) : list (Z * bytes) := imap (λ i u, (Z.of_nat (S i), u)) us.

(** Every answer is passed to the callback; libcurl has all requests, or none. *)
Record told (h : option nat) (c : client) : Prop := {
  told_hdl : m_curl_multi_hdl c = h;
  told_cb : m_on_http_cb c = true;
  told_all : Forall (λ a, a_told a = true) (answers c);
  told_curl : match h with Some _ => orphans c = [] | None => answers c = [] ∧ easies c = ∅ end;
}.

Lemma silent_sends msgs c : forallb silent msgs = true → sent_more msgs c = 0.
Proof.
  intros H. unfold sent_more. destruct (m_on_http_cb c); [|done]. induction msgs as [|[x rc more|] msgs IH]; [done| |]; cbn in *.
  - apply andb_true_iff in H as [->%Nat.eqb_eq H]. by rewrite IH.
  - by apply IH.
Qed.

Lemma in_loop_sends e c : in_loop e = true → sent_by e c = 0.
Proof. destruct e; cbn; try done; apply silent_sends. Qed.

Lemma uv_run_reachable n c c' : reachable curl_easy_strerror n c → uv_run c c' → reachable curl_easy_strerror n c'.
Proof.
  intros H. induction 1 as [|e c1 c2 _ IH Hl He Ex]; [done|].
  rewrite <-(Nat.add_0_r n), <-(in_loop_sends e c1 Hl). by eapply reachable_step.
Qed.

(** Callbacks of libcurl leave the answers alone. *)
Lemma curl_call_told h e c c' : curl_call e c = Ok c' → told h c → told h c'.
Proof.
  intros E H. destruct e as [s a|ms|easy data]; cbn in E.
  - unfold handle_socket, uv_poll_start, uv_poll_stop, destroy_curl_context, create_curl_context, set_assigned, set_contexts in E.
    destruct (assigned c !! s), a; repeat (case_match; cbn in E; simplify_eq); simplify_eq; destruct H; by split.
  - unfold start_timer, set_timer in E. repeat (case_match; cbn in E; simplify_eq); simplify_eq; destruct H; by split.
  - unfold callback_get_head, set_easies in E. destruct (0 <? length data); [|by injection E as <-].
    destruct (easies c !! easy) as [r|] eqn:Er; [|done]. injection E as <-. destruct H as [H0 H1 H2 H3]. split; [done..|]. cbn.
    destruct h; [done|]. destruct H3 as [_ H3]. by rewrite H3 in Er.
Qed.

Lemma curl_calls_told h es : ∀ c c', curl_calls es c = Ok c' → told h c → told h c'.
Proof.
  induction es as [|e es IH]; intros c c' E; [by injection E as <-|]. cbn in E.
  destruct (curl_call e c) as [c1|] eqn:E1; [|done]. intros H. eapply IH; [exact E|]. by eapply curl_call_told.
Qed.

Lemma report_told h msgs : ∀ c c', forallb silent msgs = true → check_multi_info curl_easy_strerror msgs c = Ok c' → told h c → told h c'.
Proof.
  induction msgs as [|[easy rc more|] msgs IH]; intros c c' Hs E [H0 H1 H2 H3]; cbn [forallb silent check_multi_info] in Hs, E;
    [by injection E as <-| |by eapply IH; [exact Hs|exact E|]].
  apply andb_true_iff in Hs as [->%Nat.eqb_eq Hs]. unfold report in E. rewrite H1 in E. destruct (easies c !! easy) as [r|] eqn:Er; [|done].
  cbn in E. rewrite H1 in E. eapply IH; [done|exact E|]. split; cbn; [done|done|apply Forall_app; split; [done|by repeat constructor]|].
  destruct h; [done|]. destruct H3 as [_ H3]. by rewrite H3 in Er.
Qed.

Lemma uv_run_told h c c' : uv_run c c' → told h c → told h c'.
Proof.
  induction 1 as [|e c1 c2 _ IH Hl He Ex]; [done|]. intros H. specialize (IH H). destruct e as [| | |e|x es msgs|es msgs|x]; cbn in Hl, Ex; try done.
  - by eapply curl_call_told.
  - unfold curl_perform in Ex. destruct (contexts c1 !! x); [|done]. destruct (curl_calls es c1) as [c3|] eqn:E3; [|done].
    eapply report_told; [done|exact Ex|by eapply curl_calls_told].
  - unfold on_timer_cb in Ex. destruct (curl_calls es _) as [c3|] eqn:E3; [|done].
    eapply report_told; [done|exact Ex|eapply curl_calls_told; [exact E3|by destruct IH]].
  - injection Ex as <-. by destruct IH.
Qed.

(** The requests before the loop; [n] have been sent already. *)
Lemma DoWork_numbered n us u t : (Z.of_nat n + Z.of_nat (length us) < 2 ^ 64 - 1)%Z → m_reqid (m_httpclient t) = Z.of_nat n → n = length us →
  requested t = numbered us →
  let t' := DoWork u t in
  m_reqid (m_httpclient t') = Z.of_nat (S n) ∧ requested t' = numbered (us ++ [u]) ∧
  m_httpclient t' = (SendGet (m_httpclient t)).2.
Proof.
  intros Hn E -> Er. unfold DoWork. destruct (SendGet (m_httpclient t)) as [i c] eqn:Es. cbn. unfold SendGet in Es. injection Es as Ei Ec.
  rewrite E in Ei, Ec. assert (Hu : u64 (Z.of_nat (length us) + 1) = Z.of_nat (S (length us))) by (rewrite wrap_small; lia).
  rewrite Hu in Ei, Ec. split_and!; [|rewrite Er; unfold numbered; rewrite imap_app; cbn; by rewrite Nat.add_0_r, <-Ei|done].
  rewrite <-Ec. by destruct (m_curl_multi_hdl (m_httpclient t)).
Qed.

(** All arguments are requested, the last one first. *)
Lemma work_loop_requests argv : ∀ k us t,
  k < length argv → length us + k = length argv - 1 → (2 * Z.of_nat (length argv) < 2 ^ 64)%Z →
  m_reqid (m_httpclient t) = Z.of_nat (length us) → requested t = numbered us →
  reachable curl_easy_strerror (length us) (m_httpclient t) →
  ∃ t', work_loop (S k) argv t = Ok t' ∧ requested t' = numbered (us ++ reverse (take k (drop 1 argv))) ∧
    reachable curl_easy_strerror (length us + k) (m_httpclient t') ∧
    (∀ h, told h (m_httpclient t) → told h (m_httpclient t')).
Proof.
  induction k as [|k IH]; intros us t Hk Hl Hz Er Eq Hr.
  - exists t. cbn. rewrite take_0, reverse_nil, app_nil_r, Nat.add_0_r. done.
  - destruct (lookup_lt_is_Some_2 argv (S k) Hk) as [u Hu].
    assert (Ew : work_loop (S (S k)) argv t = work_loop (S k) argv (DoWork u t)) by (change (work_loop (S (S k)) argv t) with
      (match argv !! S k with Some url => work_loop (S k) argv (DoWork url t) | None => Err Fault end); by rewrite Hu). rewrite Ew.
    destruct (DoWork_numbered (length us) us u t) as (E1 & E2 & E3); [lia|done..|].
    destruct (IH (us ++ [u]) (DoWork u t)) as (t' & -> & Eq' & Hr' & Ht);
      [lia|rewrite length_app; cbn; lia|done|by rewrite length_app, Nat.add_1_r|done| |].
    + rewrite E3, length_app. cbn [length]. by apply (reachable_step _ _ ESend _ _ Hr I).
    + rewrite length_app in Hr'. cbn [length] in Hr'. exists t'. split; [done|]. split_and!.
      * rewrite Eq'. f_equal. rewrite <-app_assoc. f_equal.
        rewrite (take_S_r _ _ u), reverse_app; [done|]. by rewrite lookup_drop.
      * by replace (length us + S k) with (length us + 1 + k) by lia.
      * intros h [H1 H2 H3 H4]. apply Ht. rewrite E3. unfold SendGet. rewrite H1. by destruct h.
Qed.
End loop.

Lemma puts_length s : length (puts s) ≤ length s.
Proof. induction s as [|c s IH]; cbn; [done|]. destruct (c =? 0)%Z; cbn; lia. Qed.

Lemma CallBack_short a : length (text (CallBack a)) ≤ 50.
Proof.
  unfold CallBack. cbn [text]. etrans; [apply puts_length|]. destruct (Nat.ltb_spec 50 (length (a_msg a))); [|lia].
  rewrite length_app, length_take. change (length (ascii_bytes "...")) with 3. lia.
Qed.

Lemma numbered_issued us : (Z.of_nat (length us) < 2 ^ 64)%Z → (numbered us).*1 = issued (length us).
Proof.
  intros H. apply list_eq. intros i. unfold numbered, issued. rewrite !list_lookup_fmap, list_lookup_imap.
  destruct (us !! i) as [u|] eqn:E; cbn.
  - apply lookup_lt_Some in E. rewrite lookup_seq_lt by done. cbn. f_equal. rewrite wrap_small; lia.
  - apply lookup_ge_None in E. by rewrite lookup_seq_ge.
Qed.

Lemma Init_told init_ok malloc_ok : let c := m_httpclient (Init init_ok malloc_ok) in
  told (if init_ok && malloc_ok then Some 0 else None) c.
Proof. destruct init_ok, malloc_ok; by split. Qed.

(** The program, for at least one argument.  When [StartPoll] succeeds the arguments are
    requested from the last to the first, with numbers from 1.  In every state of the loop
    the next event, whatever libcurl does within its rules, is handled without a fault; each
    number has one answer or is still with libcurl; every answer is printed, in at most 50
    characters; so that the loop, once libcurl has nothing left, has printed one answer per
    argument.  When [StartPoll] fails, which is not checked, nothing is ever printed and all
    requests are lost. *)
Lemma curl_test_run strerror prog u us init_ok malloc_ok :
  let urls := u :: us in
  (2 * Z.of_nat (S (length urls)) < 2 ^ 64)%Z →
  ∃ t, main (prog :: urls) init_ok malloc_ok = Ok (Some t) ∧ requested t = numbered (reverse urls) ∧
    ∀ c, uv_run strerror (m_httpclient t) c →
      (∀ e, enabled e c → ∃ c', exec strerror e c = Ok c') ∧ Forall (λ a, a_told a = true) (answers c) ∧
      (∀ a, a ∈ answers c → length (text (CallBack a)) ≤ 50) ∧
      (if init_ok && malloc_ok then (requested t).*1 ≡ₚ (id ∘ CallBack <$> answers c) ++ ids (easies c)
       else answers c = [] ∧ length (orphans c) = length urls).
Proof.
  intros urls Hz. pose proof (Init_told init_ok malloc_ok) as Ht. set (t0 := Init init_ok malloc_ok) in *.
  assert (H0 : reachable strerror 0 (m_httpclient t0))
    by apply (reachable_step _ _ (EStart true init_ok malloc_ok) _ _ (reachable_new strerror) eq_refl eq_refl).
  destruct (work_loop_requests strerror (prog :: urls) (length urls) [] t0) as (t & Ew & Er & Hr & Ht');
    [cbn; lia|cbn; lia|done|unfold t0; by destruct init_ok, malloc_ok|done|done|].
  cbn [drop] in Er. rewrite take_ge, drop_0 in Er by done. cbn [app] in Er. exists t. split; [|split; [done|]].
  { unfold main. change (length (prog :: urls) <=? 1) with false. cbv iota.
    change (length (prog :: urls)) with (S (length urls)). fold t0. by rewrite Ew. }
  intros c Hc. assert (Hrc := uv_run_reachable _ _ _ _ Hr Hc). destruct (uv_run_told _ _ _ _ Hc (Ht' _ Ht)) as [_ _ Ha Hcurl].
  destruct (curl_reachable_ok _ _ _ Hrc) as [Hp Hq]. split_and!; [|done|intros; apply CallBack_short|].
  { intros e He. destruct (curl_exec_ok strerror _ e c Hp Hq He) as (c' & E & _). by exists c'. }
  destruct Hq as [_ _ Hq]. destruct (init_ok && malloc_ok).
  - rewrite Er, numbered_issued by (rewrite length_reverse; lia). rewrite length_reverse. cbn [length Nat.add] in Hq |- *.
    rewrite Hcurl in Hq. by rewrite app_nil_r in Hq.
  - destruct Hcurl as [Ea E]. rewrite Ea, E in Hq. rewrite Ea. split; [done|]. apply Permutation_length in Hq.
    unfold issued, ids in Hq. rewrite map_to_list_empty, !length_app, !length_fmap, length_seq in Hq. cbn in Hq |- *. lia.
Qed.
