(* ===== verification/Wget.v ===== *)
(** * The download program

    Languages/cpp/0_libuv/uv_curl_wrapper/uvwget.cpp: the C program behind the curl client,
    with global variables and a file per download.  Its callbacks are simulated by those of
    [CurlHttpClient] (CurlClient.v), so that the theorems about sockets and contexts carry
    over; the files are its own. *)

From S2P Require Import Prelude StrSplit HttpRequest CurlClient CurlSafe.
From Stdlib Require Import ZArith Lia.

(** ** State *)

(** A file that [add_download] opened, with what was written to it. *)
Record file := MkFile { f_num : Z; f_data : bytes; f_open : bool }.

Record wget := MkWget {
  timeout : option Z;                      (* the timer, armed with a time-out *)
  w_contexts : gmap nat context;
  w_next_context : nat;
  w_assigned : gmap Z nat;                 (* curl_multi_assign *)
  w_easies : gmap nat nat;                 (* easy handles in the multi handle, with their file *)
  w_next_easy : nat;
  files : list file;
  done : list (nat * Z);                   (* the files of completed downloads, with the code *)
}.

Definition set_wcontexts (m : gmap nat context) (n : nat) (w : wget) : wget :=
  MkWget (timeout w) m n (w_assigned w) (w_easies w) (w_next_easy w) (files w) (done w).
Definition set_wassigned (m : gmap Z nat) (w : wget) : wget :=
  MkWget (timeout w) (w_contexts w) (w_next_context w) m (w_easies w) (w_next_easy w) (files w) (done w).
Definition set_timeout (t : option Z) (w : wget) : wget :=
  MkWget t (w_contexts w) (w_next_context w) (w_assigned w) (w_easies w) (w_next_easy w) (files w) (done w).
Definition set_files (l : list file) (w : wget) : wget :=
  MkWget (timeout w) (w_contexts w) (w_next_context w) (w_assigned w) (w_easies w) (w_next_easy w) l (done w).

(** ** The functions *)

Definition w_create_curl_context (sockfd : Z) (w : wget) : nat * wget :=
  (w_next_context w, set_wcontexts (<[w_next_context w := MkContext sockfd (PollOpen None)]> (w_contexts w)) (S (w_next_context w)) w).

(** Calls on the poll handle of a context that is open. *)
Definition w_on_poll (x : nat) (p : poll) (w : wget) : result wget :=
  match w_contexts w !! x with
  | Some (MkContext s (PollOpen _)) => Ok (set_wcontexts (<[x := MkContext s p]> (w_contexts w)) (w_next_context w) w)
  | _ => Err Fault
  end.
Definition w_poll_start (x : nat) (events : bool * bool) : wget → result wget := w_on_poll x (PollOpen (Some events)).
Definition w_poll_stop (x : nat) : wget → result wget := w_on_poll x (PollOpen None).
Definition w_destroy_curl_context (x : nat) : wget → result wget := w_on_poll x PollClosing.

(** [curl_close_cb]: [free(context)] *)
Definition curl_close_cb (x : nat) (w : wget) : wget := set_wcontexts (delete x (w_contexts w)) (w_next_context w) w.

(** [add_download] of the file number [num]; [fopen_ok]: [fopen] succeeds. *)
Definition add_download (fopen_ok : bool) (num : Z) (w : wget) : wget :=
  if fopen_ok then
    MkWget (timeout w) (w_contexts w) (w_next_context w) (w_assigned w) (<[w_next_easy w := length (files w)]> (w_easies w))
      (S (w_next_easy w)) (files w ++ [MkFile num [] true]) (done w)
  else w.

(** [fwrite], libcurl's own callback, and [fclose], on a file that is open. *)
Definition fwrite (f : nat) (data : bytes) (w : wget) : result wget :=
  match files w !! f with
  | Some (MkFile n d true) => Ok (set_files (<[f := MkFile n (d ++ data) true]> (files w)) w)
  | _ => Err Fault
  end.
Definition fclose (f : nat) (w : wget) : result wget :=
  match files w !! f with
  | Some (MkFile n d true) => Ok (set_files (<[f := MkFile n d false]> (files w)) w)
  | _ => Err Fault
  end.

Definition w_start_timer (timeout_ms : Z) (w : wget) : wget :=
  if (timeout_ms <? 0)%Z then set_timeout None w
  else set_timeout (Some (if (timeout_ms =? 0)%Z then 1%Z else timeout_ms)) w.

Definition w_handle_socket (s : Z) (a : action) (w : wget) : result wget :=
  let socketp := w_assigned w !! s in
  match a with
  | CURL_POLL_IN | CURL_POLL_OUT | CURL_POLL_INOUT =>
      let '(curl_context, w) := match socketp with Some x => (x, w) | None => w_create_curl_context s w end in
      let w := set_wassigned (<[s := curl_context]> (w_assigned w)) w in
      let readable := match a with CURL_POLL_IN | CURL_POLL_INOUT => true | _ => false end in
      let writable := match a with CURL_POLL_OUT | CURL_POLL_INOUT => true | _ => false end in
      w_poll_start curl_context (readable, writable) w
  | CURL_POLL_REMOVE =>
      match socketp with
      | Some x =>
          w ← w_poll_stop x w;
          w ← w_destroy_curl_context x w;
          Ok (set_wassigned (delete s (w_assigned w)) w)
      | None => Ok w
      end
  | OtherAction => Err AssertFail
  end.

(** A completed transfer: its file is closed after the handle is removed. *)
Definition download_done (easy : nat) (rc : Z) (w : wget) : result wget :=
  match w_easies w !! easy with
  | None => Err Fault
  | Some f =>
      fclose f (MkWget (timeout w) (w_contexts w) (w_next_context w) (w_assigned w) (delete easy (w_easies w)) (w_next_easy w)
                  (files w) (done w ++ [(f, rc)]))
  end.

Fixpoint w_check_multi_info (msgs : list curl_msg) (w : wget) : result wget :=
  match msgs with
  | [] => Ok w
  | MsgDone easy rc _ :: msgs => w ← download_done easy rc w; w_check_multi_info msgs w
  | MsgOther :: msgs => w_check_multi_info msgs w
  end.

(** What libcurl does inside [curl_multi_socket_action]. *)
Definition w_curl_call (e : curl_event) (w : wget) : result wget :=
  match e with
  | CSocket s a => w_handle_socket s a w
  | CTimer ms => Ok (w_start_timer ms w)
  | CData easy data =>
      if (0 <? length data)%nat then match w_easies w !! easy with Some f => fwrite f data w | None => Err Fault end else Ok w
  end.

Fixpoint w_curl_calls (es : list curl_event) (w : wget) : result wget :=
  match es with [] => Ok w | e :: es => w ← w_curl_call e w; w_curl_calls es w end.

Definition w_curl_perform (x : nat) (es : list curl_event) (msgs : list curl_msg) (w : wget) : result wget :=
  match w_contexts w !! x with
  | Some _ => w ← w_curl_calls es w; w_check_multi_info msgs w
  | None => Err Fault
  end.

Definition w_on_timer_cb (es : list curl_event) (msgs : list curl_msg) (w : wget) : result wget :=
  w ← w_curl_calls es (set_timeout None w); w_check_multi_info msgs w.

(** ** The program *)

(** [main] after [uv_timer_init] and [curl_multi_init]. *)
Definition wget_start : wget := MkWget None ∅ 0 ∅ ∅ 0 [] [].

Inductive wevent :=
  | WAdd (fopen_ok : bool) (num : Z)
  | WCurl (e : curl_event)
  | WPoll (x : nat) (es : list curl_event) (msgs : list curl_msg)
  | WTimer (es : list curl_event) (msgs : list curl_msg)
  | WClosed (x : nat).

Definition wexec (e : wevent) (w : wget) : result wget :=
  match e with
  | WAdd ok num => Ok (add_download ok num w)
  | WCurl e => w_curl_call e w
  | WPoll x es msgs => w_curl_perform x es msgs w
  | WTimer es msgs => w_on_timer_cb es msgs w
  | WClosed x => Ok (curl_close_cb x w)
  end.

(** [while (argc-- > 1) add_download(argv[argc], argc)] with [n] arguments; [fopen_ok]: by
    the number of the file. *)
Fixpoint main_downloads (fopen_ok : Z → bool) (n : nat) (w : wget) : wget :=
  match n with O => w | S m => main_downloads fopen_ok m (add_download (fopen_ok (Z.of_nat n)) (Z.of_nat n) w) end.

(** What libcurl and libuv document. *)
Definition wcurl_ok (e : curl_event) (w : wget) : Prop :=
  match e with CSocket _ a => a ≠ OtherAction | CTimer _ => True | CData easy _ => is_Some (w_easies w !! easy) end.
Definition wmsgs_ok (msgs : list curl_msg) (w : wget) : Prop :=
  NoDup (done_easies msgs) ∧ Forall (λ easy, is_Some (w_easies w !! easy)) (done_easies msgs).
Definition wenabled (e : wevent) (w : wget) : Prop :=
  match e with
  | WAdd _ _ => True
  | WCurl e => wcurl_ok e w
  | WPoll x es msgs =>
      (∃ s ev, w_contexts w !! x = Some (MkContext s (PollOpen (Some ev)))) ∧ Forall (λ e, wcurl_ok e w) es ∧ wmsgs_ok msgs w
  | WTimer es msgs => is_Some (timeout w) ∧ Forall (λ e, wcurl_ok e w) es ∧ wmsgs_ok msgs w
  | WClosed x => ∃ s, w_contexts w !! x = Some (MkContext s PollClosing)
  end.

Inductive wreachable : wget → Prop :=
  | wreachable_start : wreachable wget_start
  | wreachable_step e w w' : wreachable w → wenabled e w → wexec e w = Ok w' → wreachable w'.

(** ** The simulation *)

Record sim (w : wget) (c : client) : Prop := {
  sim_contexts : contexts c = w_contexts w;
  sim_next : next_context c = w_next_context w;
  sim_assigned : assigned c = w_assigned w;
  sim_timer : m_timer_hdl c = Some (timeout w);
  sim_multi : is_Some (m_curl_multi_hdl c);
  sim_cb : m_on_http_cb c = false;
  sim_next_easy : next_easy c = w_next_easy w;
  sim_easies e : buffer <$> easies c !! e = (w_easies w !! e) ≫= λ f, f_data <$> files w !! f;
}.

(** The open files are those of the transfers that libcurl has. *)
Record files_ok (w : wget) : Prop := {
  fo_open e f : w_easies w !! e = Some f → f_open <$> files w !! f = Some true;
  fo_inj e e' f : w_easies w !! e = Some f → w_easies w !! e' = Some f → e = e';
  fo_closed f : f_open <$> files w !! f = Some true → ∃ e, w_easies w !! e = Some f;
  fo_next e : is_Some (w_easies w !! e) → e < w_next_easy w;
  fo_done f : f ∈ (done w).*1 ↔ f_open <$> files w !! f = Some false;
}.

Definition same_files (w w' : wget) : Prop :=
  w_easies w' = w_easies w ∧ w_next_easy w' = w_next_easy w ∧ files w' = files w ∧ done w' = done w.

Lemma files_same w w' : same_files w w' → files_ok w → files_ok w'.
Proof. intros (E1 & E2 & E3 & E4) [H1 H2 H3 H4 H5]. split; intros *; rewrite ?E1, ?E2, ?E3, ?E4; eauto. Qed.

(** A transfer of the one is a transfer of the other. *)
Lemma sim_easy w c e : sim w c → files_ok w → is_Some (easies c !! e) ↔ is_Some (w_easies w !! e).
Proof.
  intros Hs Hf. pose proof (sim_easies w c Hs e) as E. split; intros [x Hx]; rewrite Hx in E; cbn in E.
  - destruct (w_easies w !! e); [by eexists|done].
  - pose proof (fo_open w Hf e x Hx) as Ho. destruct (files w !! x); [|done]. cbn in E. destruct (easies c !! e); [by eexists|done].
Qed.

Lemma sim_set_contexts m n w c : sim w c → sim (set_wcontexts m n w) (set_contexts m n c).
Proof. intros []. by split. Qed.
Lemma sim_set_assigned m w c : sim w c → sim (set_wassigned m w) (set_assigned m c).
Proof. intros []. by split. Qed.
Lemma sim_set_timer t w c : sim w c → sim (set_timeout t w) (set_timer (Some t) c).
Proof. intros []. by split. Qed.

(** The three calls on poll handles. *)
Lemma sim_poll p x w c c' :
  sim w c →
  match contexts c !! x with
  | Some (MkContext s (PollOpen _)) => Ok (set_contexts (<[x := MkContext s p]> (contexts c)) (next_context c) c)
  | _ => Err Fault
  end = Ok c' →
  ∃ w', w_on_poll x p w = Ok w' ∧ sim w' c' ∧ same_files w w'.
Proof.
  intros Hs E. unfold w_on_poll. rewrite (sim_contexts w c Hs), (sim_next w c Hs) in E.
  destruct (w_contexts w !! x) as [[s [ev|]]|]; [|done..]. injection E as <-. eexists. split; [done|]. split; [by apply sim_set_contexts|done].
Qed.

Lemma sim_handle_socket s a w c c' :
  sim w c → handle_socket s a c = Ok c' → ∃ w', w_handle_socket s a w = Ok w' ∧ sim w' c' ∧ same_files w w'.
Proof.
  intros Hs. unfold handle_socket, w_handle_socket. rewrite (sim_assigned w c Hs).
  assert (Hwatch : ∀ ev,
    (let '(x, c) := match w_assigned w !! s with Some x => (x, c) | None => create_curl_context s c end in
     uv_poll_start x ev (set_assigned (<[s := x]> (assigned c)) c)) = Ok c' →
    ∃ w', (let '(x, w) := match w_assigned w !! s with Some x => (x, w) | None => w_create_curl_context s w end in
           w_poll_start x ev (set_wassigned (<[s := x]> (w_assigned w)) w)) = Ok w' ∧ sim w' c' ∧ same_files w w').
  { intros ev E. destruct (w_assigned w !! s) as [x|].
    - apply (sim_poll (PollOpen (Some ev)) x (set_wassigned (<[s := x]> (w_assigned w)) w)) in E; [done|].
      rewrite <-(sim_assigned w c Hs). by apply sim_set_assigned.
    - unfold create_curl_context, w_create_curl_context in *. rewrite (sim_next w c Hs), (sim_contexts w c Hs) in E.
      eapply (sim_poll (PollOpen (Some ev))) in E; [exact E|]. cbn [assigned set_contexts w_assigned set_wcontexts].
      rewrite (sim_assigned w c Hs). by apply sim_set_assigned, sim_set_contexts. }
  destruct a; [apply Hwatch..| |done]. destruct (w_assigned w !! s) as [x|]; [|intros [= <-]; exists w; by split; [|split; [|by repeat split]]].
  intros E. destruct (uv_poll_stop x c) as [c1|] eqn:E1; [|done]. cbn [mbind result_bind] in E.
  destruct (destroy_curl_context x c1) as [c2|] eqn:E2; [|done]. cbn [mbind result_bind] in E. injection E as <-.
  destruct (sim_poll (PollOpen None) x w c c1 Hs E1) as (w1 & Hw1 & Hs1 & F1).
  destruct (sim_poll PollClosing x w1 c1 c2 Hs1 E2) as (w2 & Hw2 & Hs2 & F2).
  unfold w_poll_stop, w_destroy_curl_context. rewrite Hw1. cbn [mbind result_bind]. rewrite Hw2. cbn [mbind result_bind].
  eexists. split; [done|]. split.
  - rewrite (sim_assigned w2 c2 Hs2). by apply sim_set_assigned.
  - destruct F1 as (? & ? & ? & ?), F2 as (? & ? & ? & ?). split_and!; cbn; congruence.
Qed.

Lemma sim_start_timer ms w c c' : sim w c → start_timer ms c = Ok c' → sim (w_start_timer ms w) c' ∧ same_files w (w_start_timer ms w).
Proof.
  intros Hs E. unfold start_timer in E. rewrite (sim_timer w c Hs) in E. unfold w_start_timer.
  destruct (_ <? _)%Z; injection E as <-; (split; [by apply sim_set_timer|done]).
Qed.

(** A write to the file of a transfer. *)
Lemma sim_data easy data w c c' :
  sim w c → files_ok w → callback_get_head easy data c = Ok c' →
  ∃ w', w_curl_call (CData easy data) w = Ok w' ∧ sim w' c' ∧ files_ok w' ∧ w_easies w' = w_easies w.
Proof.
  intros Hs Hf E. unfold callback_get_head in E. cbn [w_curl_call]. destruct (0 <? length data)%nat; [|injection E as <-; by exists w].
  destruct (easies c !! easy) as [r|] eqn:Er; [|done]. injection E as <-. pose proof (sim_easies w c Hs easy) as Ee. rewrite Er in Ee.
  destruct (w_easies w !! easy) as [f|] eqn:Ew; [|done]. pose proof (fo_open w Hf easy f Ew) as Ho. cbn in Ee. unfold fwrite.
  destruct (files w !! f) as [[n d o]|] eqn:Efl; [|done]. cbn in Ee, Ho. injection Ho as ->. injection Ee as Hb.
  assert (Hop : ∀ g, f_open <$> <[f := MkFile n (d ++ data) true]> (files w) !! g = f_open <$> files w !! g).
  { intros g. destruct (decide (f = g)) as [->|]; [|by rewrite list_lookup_insert_ne].
    rewrite list_lookup_insert_eq by (by eapply lookup_lt_Some). by rewrite Efl. }
  eexists. split; [done|]. split_and!; [| |done].
  - destruct Hs as [H1 H2 H3 H4 H5 H6 H7 H8]. split; try done. intros e. cbn. destruct (decide (e = easy)) as [->|Hne].
    + rewrite lookup_insert_eq, Ew. cbn. rewrite list_lookup_insert_eq by (by eapply lookup_lt_Some). cbn. by rewrite Hb.
    + rewrite lookup_insert_ne by done. rewrite H8. destruct (w_easies w !! e) as [g|] eqn:Eg; [|done]. cbn.
      rewrite list_lookup_insert_ne; [done|]. intros <-. by apply Hne, (fo_inj w Hf e easy f).
  - destruct Hf as [H1 H2 H3 H4 H5]. split; cbn; intros *; rewrite ?Hop; eauto.
Qed.

(** [add_download] is [SendGet]. *)
Lemma sim_add num w c : sim w c → files_ok w → sim (add_download true num w) (SendGet c).2 ∧ files_ok (add_download true num w).
Proof.
  intros [H1 H2 H3 H4 H5 H6 H7 H8] [F1 F2 F3 F4 F5]. split.
  - unfold SendGet, add_download. destruct H5 as [h Hh]. rewrite Hh. split; cbn; try done; [by rewrite H7|].
    intros e. rewrite H7. destruct (decide (e = w_next_easy w)) as [->|Hne].
    + rewrite !lookup_insert_eq. cbn. by rewrite lookup_app_r, Nat.sub_diag by lia.
    + rewrite !lookup_insert_ne by done. rewrite H8. destruct (w_easies w !! e) as [f|] eqn:Ee; [|done]. cbn.
      pose proof (F1 e f Ee) as Ho. rewrite lookup_app_l; [done|]. destruct (files w !! f) eqn:Ef; [by eapply lookup_lt_Some|done].
  - assert (Hold : ∀ f, f ≠ length (files w) → (files w ++ [MkFile num [] true]) !! f = files w !! f).
    { intros f Hf. destruct (decide (f < length (files w))); [by rewrite lookup_app_l|].
      rewrite lookup_app_r by lia. rewrite (lookup_ge_None_2 (files w)) by lia. destruct (f - length (files w)) as [|n0] eqn:E; [lia|by destruct n0]. }
    assert (Hnew : (files w ++ [MkFile num [] true]) !! length (files w) = Some (MkFile num [] true)) by (by rewrite lookup_app_r, Nat.sub_diag by lia).
    assert (Hin : ∀ e f, w_easies w !! e = Some f → f < length (files w)).
    { intros e f Ee. pose proof (F1 e f Ee) as Ho. destruct (files w !! f) eqn:Ef; [by eapply lookup_lt_Some|done]. }
    unfold add_download. split; cbn.
    + intros e f [[<- <-]|[Hne Ee]]%lookup_insert_Some; [by rewrite Hnew|]. rewrite Hold; [by eapply F1|]. pose proof (Hin e f Ee). lia.
    + intros e e' f [[<- <-]|[Hne Ee]]%lookup_insert_Some [[<- Hx]|[Hne' Ee']]%lookup_insert_Some; [done|..|by eapply F2].
      * pose proof (Hin _ _ Ee'). lia.
      * pose proof (Hin _ _ Ee). subst. lia.
    + intros f Ho. destruct (decide (f = length (files w))) as [->|Hne]; [eexists; by apply lookup_insert_eq|].
      rewrite Hold in Ho by done. destruct (F3 f Ho) as [e He]. exists e. rewrite lookup_insert_ne; [done|]. intros <-.
      pose proof (F4 (w_next_easy w) ltac:(by eexists)). lia.
    + intros e [y Hy]. apply lookup_insert_Some in Hy as [[<- _]|[_ Hy]]; [lia|]. pose proof (F4 e ltac:(by eexists)). lia.
    + intros f. rewrite F5. destruct (decide (f = length (files w))) as [->|Hne]; [|by rewrite Hold].
      rewrite Hnew. rewrite lookup_ge_None_2 by lia. done.
Qed.

Section simulation.
Context (strerror : Z → bytes).

(** A completed transfer. *)
Lemma sim_done easy rc more w c c' :
  sim w c → files_ok w → report strerror easy rc more c = Ok c' →
  ∃ w', download_done easy rc w = Ok w' ∧ sim w' c' ∧ files_ok w'.
Proof.
  intros Hs Hf E. unfold report in E. destruct (easies c !! easy) as [r|] eqn:Er; [|done]. rewrite (sim_cb w c Hs) in E. injection E as <-.
  destruct (proj1 (sim_easy w c easy Hs Hf) ltac:(by eexists)) as [f Ew]. unfold download_done, fclose. rewrite Ew. cbn [files].
  pose proof (fo_open w Hf easy f Ew) as Ho. destruct (files w !! f) as [[n d o]|] eqn:Efl; [|done]. cbn in Ho. injection Ho as ->.
  assert (Hlt : f < length (files w)) by (by eapply lookup_lt_Some).
  assert (Hother : ∀ e g, e ≠ easy → w_easies w !! e = Some g → g ≠ f).
  { intros e g Hne Eg ->. by apply Hne, (fo_inj w Hf e easy f). }
  eexists. split; [done|]. split.
  - destruct Hs as [H1 H2 H3 H4 H5 H6 H7 H8]. split; cbn; try done. intros e. destruct (decide (e = easy)) as [->|Hne].
    + by rewrite !lookup_delete_eq.
    + rewrite !lookup_delete_ne by done. rewrite H8. destruct (w_easies w !! e) as [g|] eqn:Eg; [|done]. cbn.
      rewrite list_lookup_insert_ne; [done|]. intros <-. by eapply Hother.
  - destruct Hf as [F1 F2 F3 F4 F5]. split; cbn.
    + intros e g [Hne Eg]%lookup_delete_Some. rewrite list_lookup_insert_ne by (intros <-; by eapply Hother). by eapply F1.
    + intros e e' g [_ Eg]%lookup_delete_Some [_ Eg']%lookup_delete_Some. by eapply F2.
    + intros g Hg. destruct (decide (f = g)) as [<-|Hne]; [by rewrite list_lookup_insert_eq in Hg|].
      rewrite list_lookup_insert_ne in Hg by done. destruct (F3 g Hg) as [e He]. exists e. apply lookup_delete_Some. split; [|done].
      intros <-. congruence.
    + intros e [g [_ Hg]%lookup_delete_Some]. apply F4. by eexists.
    + intros g. rewrite fmap_app, elem_of_app, F5. cbn. rewrite list_elem_of_singleton. destruct (decide (g = f)) as [->|Hne].
      * rewrite list_lookup_insert_eq by done. split; [done|]. by right.
      * rewrite list_lookup_insert_ne by done. split; [intros [?|?]; done|by left].
Qed.

Lemma sim_check msgs w c c' :
  sim w c → files_ok w → check_multi_info strerror msgs c = Ok c' →
  ∃ w', w_check_multi_info msgs w = Ok w' ∧ sim w' c' ∧ files_ok w'.
Proof.
  revert w c. induction msgs as [|[easy rc more|] msgs IH]; intros w c Hs Hf E; cbn [check_multi_info w_check_multi_info] in *.
  - injection E as <-. by exists w.
  - destruct (report _ _ _ _ _) as [c1|] eqn:E1; [|done]. cbn [mbind result_bind] in E.
    destruct (sim_done easy rc more w c c1 Hs Hf E1) as (w1 & -> & Hs1 & Hf1). by apply (IH w1 c1).
  - by apply (IH w c).
Qed.

Lemma sim_call e w c c' :
  sim w c → files_ok w → curl_call e c = Ok c' → ∃ w', w_curl_call e w = Ok w' ∧ sim w' c' ∧ files_ok w'.
Proof.
  intros Hs Hf E. destruct e as [s a|ms|easy data]; cbn [curl_call] in E.
  - destruct (sim_handle_socket s a w c c' Hs E) as (w' & Hw & Hs' & F). exists w'. split_and!; [done..|by eapply files_same].
  - destruct (sim_start_timer ms w c c' Hs E) as [Hs' F]. eexists. split_and!; [done..|by eapply files_same].
  - destruct (sim_data easy data w c c' Hs Hf E) as (w' & ? & ? & ? & _). by exists w'.
Qed.

Lemma sim_calls es w c c' :
  sim w c → files_ok w → curl_calls es c = Ok c' → ∃ w', w_curl_calls es w = Ok w' ∧ sim w' c' ∧ files_ok w'.
Proof.
  revert w c. induction es as [|e es IH]; intros w c Hs Hf E; cbn [curl_calls w_curl_calls] in *; [injection E as <-; by exists w|].
  destruct (curl_call e c) as [c1|] eqn:E1; [|done]. cbn [mbind result_bind] in E.
  destruct (sim_call e w c c1 Hs Hf E1) as (w1 & -> & Hs1 & Hf1). by apply (IH w1 c1).
Qed.

Lemma sim_pump es msgs w c c' :
  sim w c → files_ok w → (c1 ← curl_calls es c; check_multi_info strerror msgs c1) = Ok c' →
  ∃ w', (w1 ← w_curl_calls es w; w_check_multi_info msgs w1) = Ok w' ∧ sim w' c' ∧ files_ok w'.
Proof.
  intros Hs Hf E. destruct (curl_calls es c) as [c1|] eqn:E1; [|done]. cbn [mbind result_bind] in E.
  destruct (sim_calls es w c c1 Hs Hf E1) as (w1 & -> & Hs1 & Hf1). by apply (sim_check msgs w1 c1).
Qed.

Lemma sim_curl_ok e w c : sim w c → files_ok w → wcurl_ok e w → curl_ok e c.
Proof. intros Hs Hf. destruct e as [s a|ms|easy data]; [done..|]. cbn. by rewrite (sim_easy w c easy Hs Hf). Qed.
Lemma sim_msgs_ok msgs w c : sim w c → files_ok w → wmsgs_ok msgs w → msgs_ok msgs c.
Proof.
  intros Hs Hf [H1 H2]. split; [done|]. eapply Forall_impl; [done|]. intros e. cbn. by rewrite (sim_easy w c e Hs Hf).
Qed.

(** The client that simulates: one step for one, but for a file that cannot be opened. *)
Lemma sim_exec n e w c :
  reachable strerror n c → sim w c → files_ok w → wenabled e w →
  ∃ n' c' w', wexec e w = Ok w' ∧ reachable strerror n' c' ∧ sim w' c' ∧ files_ok w'.
Proof.
  intros Hr Hs Hf He. destruct (curl_reachable_ok strerror n c Hr) as [Hp Hq].
  assert (Hgo : ∀ ev, enabled ev c →
    (∀ c', exec strerror ev c = Ok c' → ∃ w', wexec e w = Ok w' ∧ sim w' c' ∧ files_ok w') →
    ∃ n' c' w', wexec e w = Ok w' ∧ reachable strerror n' c' ∧ sim w' c' ∧ files_ok w').
  { intros ev Hev Hsim. destruct (curl_exec_ok strerror n ev c Hp Hq Hev) as (c' & Ex & _). destruct (Hsim c' Ex) as (w' & ? & ? & ?).
    exists (n + sent_by ev c), c', w'. split_and!; [done| |done..]. by eapply reachable_step. }
  assert (Hes : ∀ es, Forall (λ e, wcurl_ok e w) es → Forall (λ e, curl_ok e c) es).
  { intros es Hes. eapply Forall_impl; [done|]. intros x. by apply sim_curl_ok. }
  destruct e as [[] num|ce|x es msgs|es msgs|x]; cbn [wexec wenabled] in *.
  - apply (Hgo ESend I). intros c' [= <-]. destruct (sim_add num w c Hs Hf). by eexists.
  - exists n, c, w. by split_and!.
  - apply (Hgo (ECurl ce)); [split; [apply (sim_multi w c Hs)|by apply (sim_curl_ok _ w)]|]. intros c'. by apply sim_call.
  - destruct He as (Hx & He & Hm). apply (Hgo (EPoll x es msgs)).
    + split_and!; [rewrite (sim_contexts w c Hs); done|apply (sim_multi w c Hs)|by apply Hes|by apply (sim_msgs_ok _ w)].
    + intros c'. cbn [exec]. unfold curl_perform, w_curl_perform. rewrite (sim_contexts w c Hs).
      destruct (w_contexts w !! x); [|done]. by apply sim_pump.
  - destruct He as ([ms Hms] & He & Hm). apply (Hgo (ETimer es msgs)).
    + split_and!; [exists ms; by rewrite (sim_timer w c Hs), Hms|apply (sim_multi w c Hs)|by apply Hes|by apply (sim_msgs_ok _ w)].
    + intros c'. cbn [exec]. unfold on_timer_cb, w_on_timer_cb. apply sim_pump; [by apply sim_set_timer|].
      by apply (files_same w).
  - apply (Hgo (EClosed x)); [cbn; by rewrite (sim_contexts w c Hs)|]. intros c' [= <-]. eexists. split; [done|]. split.
    + unfold on_close_ctx_cb, curl_close_cb. rewrite (sim_contexts w c Hs), (sim_next w c Hs). by apply sim_set_contexts.
    + by apply (files_same w).
Qed.

Lemma wreachable_sim w : wreachable w → ∃ n c, reachable strerror n c ∧ sim w c ∧ files_ok w.
Proof.
  induction 1 as [|e w w' _ (n & c & Hr & Hs & Hf) He Ex].
  - exists 0, (StartPoll false true true CurlHttpClient).2. split_and!.
    + apply (reachable_step strerror 0 (EStart false true true) CurlHttpClient); [constructor|done|done].
    + by split.
    + split; cbn.
      * intros e f. by rewrite lookup_empty.
      * intros e e' f. by rewrite lookup_empty.
      * done.
      * intros e. rewrite lookup_empty. by intros [].
      * intros f. rewrite elem_of_nil. done.
  - destruct (sim_exec n e w c Hr Hs Hf He) as (n' & c' & w1 & E1 & Hr' & Hs' & Hf'). rewrite Ex in E1. injection E1 as <-. by exists n', c'.
Qed.
End simulation.

(** C33. The download program is simulated by the curl client: whatever libcurl asks for and
    whenever libuv calls back, every state has a state of [CurlHttpClient] with the same poll
    handles, sockets and timer, and files that hold the data the client has in its buffers.
    So no call fails or uses a handle or file that is closed, the sockets that libcurl
    watches are those with an open poll handle, and the open files are exactly those of the
    transfers that libcurl still has: each is closed once, when its transfer is done. *)
Theorem wget_refines_client strerror w :
  wreachable w →
  (∃ n c, reachable strerror n c ∧ sim w c) ∧
  (∀ e, wenabled e w → ∃ w', wexec e w = Ok w') ∧
  (∀ s x, w_assigned w !! s = Some x ↔ ∃ ev, w_contexts w !! x = Some (MkContext s (PollOpen ev))) ∧
  (∀ f, f_open <$> files w !! f = Some true ↔ ∃ e, w_easies w !! e = Some f) ∧
  (∀ f, f ∈ (done w).*1 ↔ f_open <$> files w !! f = Some false).
Proof.
  intros Hr. destruct (wreachable_sim strerror w Hr) as (n & c & Hc & Hs & Hf). destruct (curl_reachable_ok strerror n c Hc) as [Hp _]. split_and!.
  - by exists n, c.
  - intros e He. destruct (sim_exec strerror n e w c Hc Hs Hf He) as (_ & _ & w' & E & _). by exists w'.
  - intros s x. rewrite <-(sim_assigned w c Hs), <-(sim_contexts w c Hs). split; [apply (po_assigned c Hp)|]. intros [ev Hx]. by apply (po_open c Hp _ _ ev).
  - intros f. split; [apply (fo_closed w Hf)|]. intros [e He]. by apply (fo_open w Hf e).
  - apply (fo_done w Hf).
Qed.

Lemma wget_refines_client_witness :
  let w := MkWget None {[0 := MkContext 7 (PollOpen (Some (true, false)))]} 1 {[7%Z := 0]} ∅ 1 [MkFile 1 [104; 105]%Z false] [(0, 0%Z)] in
  wreachable w ∧ 0 ∈ (done w).*1 ∧ f_open <$> files w !! 0 = Some false.
Proof.
  intros w.
  assert (Hr : wreachable w).
  { pose proof wreachable_start as H0.
    pose proof (wreachable_step (WAdd true 1) _ _ H0 I eq_refl) as H1.
    pose proof (wreachable_step (WCurl (CTimer 0)) _ _ H1 I eq_refl) as H2.
    assert (Ht : wenabled (WTimer [CSocket 7 CURL_POLL_IN] []) (w_start_timer 0 (add_download true 1 wget_start))).
    { split; [exists 1%Z; reflexivity|]. split; [apply Forall_singleton; discriminate|split; constructor]. }
    pose proof (wreachable_step (WTimer [CSocket 7 CURL_POLL_IN] []) _ _ H2 Ht eq_refl) as H3.
    refine (wreachable_step (WPoll 0 [CData 0 [104; 105]%Z] [MsgDone 0 0 0]) _ _ H3 _ _); [|vm_compute; reflexivity].
    split; [exists 7%Z, (true, false); reflexivity|]. split; [apply Forall_singleton; exists 0; reflexivity|].
    split; [apply NoDup_singleton|apply Forall_singleton; exists 0; reflexivity]. }
  destruct (wget_refines_client (λ _, []) w Hr) as (_ & _ & _ & _ & H). split; [exact Hr|]. split; [apply H; reflexivity|reflexivity].
Defined.
