(* ===== verification/ZSock.v ===== *)
(** * ZeroMQ sockets on the libuv loop

    Languages/cpp/0_libuv/uv_zmq/uv_zsock.{h,c}: a ZeroMQ socket tells through a file
    descriptor that its state has changed, once per change, and [ZMQ_EVENTS] tells the
    state.  A [uv_zsock_t] asks for it before and after the loop waits, so that no event
    is missed; an idle handle keeps the loop from waiting.  The answers of
    [zmq_getsockopt] are inputs. *)

From S2P Require Import Prelude.
From Stdlib Require Import ZArith Lia Permutation.

(** ** State *)

Definition UV_READABLE : Z := 1.
Definition UV_WRITABLE : Z := 2.
Definition ZMQ_POLLIN : Z := 1.
Definition ZMQ_POLLOUT : Z := 2.

(** A handle of libuv: whether it is active, whether it is closing, and whether its
    [data] is set. *)
Record handle := MkHandle { h_active : bool; h_closing : bool; h_data : bool }.

Inductive which := WPrepare | WCheck | WIdle | WPoll.
#[global] Instance which_eq_dec : EqDecision which.
Proof. solve_decision. Defined.

Record uv_zsock := MkZsock {
  z_cb : bool;                            (* set, or NULL *)
  z_events : Z;
  z_close_cb : bool;                      (* set, or NULL *)
  z_handle : which → handle;
  z_calls : list Z;                       (* revents passed to cb *)
  z_closed : nat;                         (* calls of close_cb *)
}.

Definition set_handle (w : which) (h : handle) (z : uv_zsock) : uv_zsock :=
  MkZsock (z_cb z) (z_events z) (z_close_cb z) (λ w', if decide (w' = w) then h else z_handle z w') (z_calls z) (z_closed z).

(** Starting, stopping and closing a handle: it must not be closing.  A poll handle that
    is started without events is stopped. *)
Definition uv_set_active (w : which) (b : bool) (z : uv_zsock) : result uv_zsock :=
  let h := z_handle z w in
  if h_closing h then Err AssertFail else Ok (set_handle w (MkHandle b false (h_data h)) z).
Definition uv_close (w : which) (z : uv_zsock) : result uv_zsock :=
  let h := z_handle z w in
  if h_closing h then Err AssertFail else Ok (set_handle w (MkHandle false true (h_data h)) z).

(** ** The code *)

(** [None]: [zmq_getsockopt] fails. *)
Definition s_get_revents (zmq_events : option Z) (events : Z) : Z :=
  match zmq_events with
  | None => events
  | Some ze =>
      let revents := if negb (Z.land ze ZMQ_POLLOUT =? 0)%Z then Z.lor 0 (Z.land events UV_WRITABLE) else 0%Z in
      if negb (Z.land ze ZMQ_POLLIN =? 0)%Z then Z.lor revents (Z.land events UV_READABLE) else revents
  end.

Definition s_prepare_cb (zmq_events : option Z) (z : uv_zsock) : result uv_zsock :=
  if negb (s_get_revents zmq_events (z_events z) =? 0)%Z then uv_set_active WIdle true z else Ok z.

Definition s_check_cb (zmq_events : option Z) (z : uv_zsock) : result uv_zsock :=
  z ← uv_set_active WIdle false z;
  let revents := s_get_revents zmq_events (z_events z) in
  if negb (revents =? 0)%Z then
    if z_cb z then Ok (MkZsock (z_cb z) (z_events z) (z_close_cb z) (z_handle z) (z_calls z ++ [revents]) (z_closed z))
    else Err Fault
  else Ok z.

(** [fd_ok]: [zmq_getsockopt] gives the file descriptor. *)
Definition uv_zsock_init (fd_ok : bool) : result uv_zsock :=
  _ ← check fd_ok; Ok (MkZsock false 0 false (λ _, MkHandle false false true) [] 0).

Definition uv_zsock_start (events : Z) (z : uv_zsock) : result uv_zsock :=
  let z := MkZsock true events (z_close_cb z) (z_handle z) (z_calls z) (z_closed z) in
  z ← uv_set_active WPrepare true z;
  z ← uv_set_active WCheck true z;
  uv_set_active WPoll (negb (events =? 0)%Z) z.

Definition uv_zsock_stop (z : uv_zsock) : result uv_zsock :=
  z ← uv_set_active WPrepare false z;
  z ← uv_set_active WCheck false z;
  z ← uv_set_active WIdle false z;
  uv_set_active WPoll false z.

Definition uv_zsock_close (cb : bool) (z : uv_zsock) : result uv_zsock :=
  let z := MkZsock (z_cb z) (z_events z) cb (z_handle z) (z_calls z) (z_closed z) in
  z ← uv_close WPrepare z;
  z ← uv_close WCheck z;
  z ← uv_close WIdle z;
  uv_close WPoll z.

(** The close callback of handle [w]: [handle->data] is read first. *)
Definition s_close_cb (w : which) (z : uv_zsock) : result uv_zsock :=
  let h := z_handle z w in
  if h_data h then
    let z := set_handle w (MkHandle (h_active h) (h_closing h) false) z in
    let null w := negb (h_data (z_handle z w)) in
    if null WPrepare && null WCheck && null WIdle && null WPoll then
      if z_close_cb z then
        Ok (MkZsock (z_cb z) (z_events z) (z_close_cb z) (z_handle z) (z_calls z) (S (z_closed z)))
      else Ok z
    else Ok z
  else Err Fault.

(** ** One iteration of the loop *)

(** The state of the socket when the prepare handle asks, and when the check handle
    asks.  Between the two the loop waits, unless the idle handle is active, until the
    descriptor tells a change ([before] and [after] differ) or another handle of the
    loop has something to do; [None] when it waits for ever. *)
Definition iterate (before after : option Z) (other : bool) (z : uv_zsock) : result (option uv_zsock) :=
  z ← (if h_active (z_handle z WPrepare) then s_prepare_cb before z else Ok z);
  let waits := negb (h_active (z_handle z WIdle)) in
  let woken := other || (h_active (z_handle z WPoll) && negb (bool_decide (before = after))) in
  if waits && negb woken then Ok None
  else z ← (if h_active (z_handle z WCheck) then s_check_cb after z else Ok z); Ok (Some z).

(** Started and not closed. *)
Definition running (z : uv_zsock) : Prop :=
  z_cb z = true ∧ (∀ w, h_closing (z_handle z w) = false) ∧
  h_active (z_handle z WPrepare) = true ∧ h_active (z_handle z WCheck) = true ∧ h_active (z_handle z WPoll) = true ∧
  h_active (z_handle z WIdle) = false.

Lemma start_running events z :
  (∀ w, h_closing (z_handle z w) = false) → h_active (z_handle z WIdle) = false → events ≠ 0%Z →
  ∃ z', uv_zsock_start events z = Ok z' ∧ running z' ∧ z_events z' = events.
Proof.
  intros Hc Hi Hev. unfold uv_zsock_start, uv_set_active. rewrite (proj2 (Z.eqb_neq _ _) Hev). simpl. rewrite !Hc. cbn [mbind result_bind]. simpl. rewrite !Hc.
  cbn [mbind result_bind]. simpl. rewrite !Hc. eexists. split; [done|]. split; [|done].
  unfold running. simpl. split_and!; try done. intros []; simpl; done.
Qed.

(** The interest of the socket. *)
Definition ready (zmq_events : option Z) (z : uv_zsock) : Prop := s_get_revents zmq_events (z_events z) ≠ 0%Z.

Lemma check_running after z :
  (∀ w, h_closing (z_handle z w) = false) → z_cb z = true → h_active (z_handle z WPrepare) = true →
  h_active (z_handle z WCheck) = true → h_active (z_handle z WPoll) = true →
  ∃ z', s_check_cb after z = Ok z' ∧ running z' ∧ z_events z' = z_events z ∧
    z_calls z' = z_calls z ++ (if negb (s_get_revents after (z_events z) =? 0)%Z
                               then [s_get_revents after (z_events z)] else []).
Proof.
  intros Hc Hcb H1 H2 H3. unfold s_check_cb, uv_set_active. rewrite Hc. cbn [mbind result_bind]. simpl. rewrite Hcb.
  destruct (negb _); eexists; (split; [done|]); rewrite ?app_nil_r;
    (split; [unfold running; simpl; split_and!; try done; intros []; simpl; done|done]).
Qed.

(** ** Closing *)

Fixpoint close_cbs (ws : list which) (z : uv_zsock) : result uv_zsock :=
  match ws with [] => Ok z | w :: ws => z ← s_close_cb w z; close_cbs ws z end.

Definition all_null (z : uv_zsock) : bool :=
  negb (h_data (z_handle z WPrepare)) && negb (h_data (z_handle z WCheck)) &&
  negb (h_data (z_handle z WIdle)) && negb (h_data (z_handle z WPoll)).

(** The handles with [data] are those whose callback is still to come. *)
Definition still (z : uv_zsock) (ws : list which) : Prop := ∀ w, h_data (z_handle z w) = true ↔ w ∈ ws.

Lemma all_null_still z ws : still z ws → all_null z = bool_decide (ws = []).
Proof.
  intros Hs. unfold all_null. case_bool_decide as E.
  - subst ws. assert (Hn : ∀ w, h_data (z_handle z w) = false).
    { intros w. destruct (h_data _) eqn:E; [|done]. apply Hs in E. by apply elem_of_nil in E. }
    by rewrite !Hn.
  - destruct ws as [|w ws]; [done|]. assert (Hw : h_data (z_handle z w) = true) by (apply Hs; left).
    destruct w; rewrite Hw; by rewrite ?andb_false_r.
Qed.

Lemma s_close_cb_ok w ws z :
  NoDup (w :: ws) → still z (w :: ws) →
  ∃ z', s_close_cb w z = Ok z' ∧ still z' ws ∧ z_close_cb z' = z_close_cb z ∧
    z_closed z' = z_closed z + (if bool_decide (ws = []) && z_close_cb z then 1 else 0).
Proof.
  intros [Hw Hnd]%NoDup_cons Hs. unfold s_close_cb. rewrite (proj2 (Hs w)) by left.
  set (z1 := set_handle w _ z). assert (Hs1 : still z1 ws).
  { intros w'. unfold z1. simpl. destruct (decide (w' = w)) as [->|Hne]; [by split|]. rewrite (Hs w'), elem_of_cons. naive_solver. }
  pose proof (all_null_still z1 ws Hs1) as Hn. unfold all_null in Hn. rewrite Hn.
  destruct (bool_decide (ws = [])); [destruct (z_close_cb z) eqn:Ecb|]; eexists.
  - subst z1. simpl in *. rewrite Ecb. split_and!; [done..|simpl; lia].
  - subst z1. simpl in *. rewrite Ecb. split_and!; [done..|simpl; lia].
  - split_and!; [done..|simpl; lia].
Qed.

(** Handlers of all four handles, in any order, up to any point. *)
Lemma close_cbs_ok ws1 ws2 : ∀ z,
  NoDup (ws1 ++ ws2) → ws1 ≠ [] → still z (ws1 ++ ws2) →
  ∃ z', close_cbs ws1 z = Ok z' ∧
    z_closed z' = z_closed z + (if bool_decide (ws2 = []) && z_close_cb z then 1 else 0).
Proof.
  induction ws1 as [|w ws1 IH]; intros z Hnd Hne Hs; [done|]. cbn [close_cbs app] in *.
  destruct (s_close_cb_ok w (ws1 ++ ws2) z Hnd Hs) as (z1 & -> & Hs1 & Hcb & E1). cbn [mbind result_bind].
  apply NoDup_cons in Hnd as [_ Hnd]. destruct ws1 as [|w1 ws1]; [by exists z1|].
  destruct (IH z1 Hnd ltac:(done) Hs1) as (z2 & E & E2). exists z2. split; [done|].
  rewrite E2, E1, Hcb. simpl. lia.
Qed.

Lemma uv_zsock_close_ok cb z :
  (∀ w, h_closing (z_handle z w) = false ∧ h_data (z_handle z w) = true) →
  ∃ z', uv_zsock_close cb z = Ok z' ∧ z_close_cb z' = cb ∧ z_closed z' = z_closed z ∧
    ∀ w, h_data (z_handle z' w) = true ∧ h_closing (z_handle z' w) = true.
Proof.
  intros Hz. assert (Hc : ∀ w, h_closing (z_handle z w) = false) by (intros; apply Hz).
  assert (Hd : ∀ w, h_data (z_handle z w) = true) by (intros; apply Hz).
  unfold uv_zsock_close, uv_close. simpl. rewrite !Hc, !Hd. cbn [mbind result_bind]. simpl. rewrite !Hc, !Hd.
  cbn [mbind result_bind]. simpl. rewrite !Hc, !Hd. cbn [mbind result_bind]. simpl. rewrite !Hc, !Hd.
  eexists. split; [done|]. split_and!; [done|done|]. intros []; done.
Qed.

(** ** The theorems *)

(** A started socket misses no event: when the socket is ready before the loop
    waits, or becomes ready while it waits, the loop does not block and the callback
    gets what the socket is ready for afterwards; otherwise the loop sleeps. *)
Lemma zsock_no_event_missed before after z :
  running z →
  (∀ other, ready before z ∨ ready after z →
   ∃ z', iterate before after other z = Ok (Some z') ∧ running z' ∧
     (ready after z → z_calls z' = z_calls z ++ [s_get_revents after (z_events z)])) ∧
  (¬ ready before z → before = after → iterate before after false z = Ok None).
Proof.
  intros (Hcb & Hc & H1 & H2 & H3 & H4). unfold iterate, ready. rewrite H1. split.
  - intros other Hr.
    assert (∃ z1, s_prepare_cb before z = Ok z1 ∧ z_cb z1 = true ∧ z_events z1 = z_events z ∧ z_calls z1 = z_calls z ∧
      (∀ w, h_closing (z_handle z1 w) = false) ∧ h_active (z_handle z1 WPrepare) = true ∧
      h_active (z_handle z1 WCheck) = true ∧ h_active (z_handle z1 WPoll) = true ∧
      (s_get_revents before (z_events z) ≠ 0%Z → h_active (z_handle z1 WIdle) = true))
      as (z1 & -> & F1 & F2 & F3 & F4 & F5 & F6 & F7 & F8).
    { unfold s_prepare_cb, uv_set_active. rewrite Hc. destruct (Z.eqb_spec (s_get_revents before (z_events z)) 0); simpl;
        eexists; (split; [done|]); split_and!; try done. intros []; simpl; done. }
    cbn [mbind result_bind]. rewrite F6, F7. simpl.
    assert (Hgo : negb (h_active (z_handle z1 WIdle)) && negb (other || negb (bool_decide (before = after))) = false).
    { case_bool_decide as E; simpl; [|by rewrite orb_true_r, andb_false_r]. subst after. rewrite F8 by tauto. done. }
    rewrite Hgo. destruct (check_running after z1) as (z2 & -> & Hrun & E1 & E2); [done..|]. cbn [mbind result_bind].
    exists z2. split; [done|]. split; [done|]. intros Ha. rewrite E2, F2, F3. by rewrite (proj2 (Z.eqb_neq _ _)).
  - intros Hb <-. unfold s_prepare_cb. destruct (Z.eqb_spec (s_get_revents before (z_events z)) 0) as [|]; [|tauto].
    simpl. rewrite H4, bool_decide_true by done. by rewrite andb_false_r.
Qed.

(** [uv_zsock_close] calls [close_cb] exactly once, when the last of the four handles has
    been closed, in whatever order libuv closes them. *)
Lemma zsock_closes_once z ws1 ws2 :
  (∀ w, h_closing (z_handle z w) = false ∧ h_data (z_handle z w) = true) →
  ws1 ++ ws2 ≡ₚ [WPrepare; WCheck; WIdle; WPoll] → ws1 ≠ [] →
  ∃ z', (z ← uv_zsock_close true z; close_cbs ws1 z) = Ok z' ∧
    z_closed z' = z_closed z + (if bool_decide (ws2 = []) then 1 else 0).
Proof.
  intros Hz Hp Hne. destruct (uv_zsock_close_ok true z Hz) as (z1 & -> & Hcb & E1 & Hd). cbn [mbind result_bind].
  destruct (close_cbs_ok ws1 ws2 z1) as (z2 & E & E2); [| done| |].
  - rewrite Hp. apply (bool_decide_unpack _). by vm_compute.
  - intros w. rewrite Hp. split; [intros _; by destruct w; set_solver|intros _; apply Hd].
  - exists z2. split; [done|]. by rewrite E2, E1, Hcb, andb_true_r.
Qed.

Definition sample_zsock : uv_zsock :=
  MkZsock true UV_READABLE false (λ w, MkHandle (negb (bool_decide (w = WIdle))) false true) [] 0.

Lemma sample_running : running sample_zsock.
Proof. unfold running. split_and!; try done; by intros []. Qed.

Example zsock_no_event_missed_witness :
  ∃ z', iterate (Some 0%Z) (Some ZMQ_POLLIN) false sample_zsock = Ok (Some z') ∧ z_calls z' = [UV_READABLE].
Proof.
  destruct (zsock_no_event_missed (Some 0%Z) (Some ZMQ_POLLIN) sample_zsock sample_running) as [H _].
  destruct (H false) as (z' & E & _ & Hc); [right; discriminate|]. exists z'. split; [exact E|]. apply Hc. discriminate.
Defined.
