(* ===== verification/ZSockTest.v ===== *)
(** * The test of the ZeroMQ sockets

    Languages/cpp/0_libuv/uv_zmq/uv_zsock_test.c: a timer sends two messages every second
    through one socket, and the callback of a [uv_zsock_t] (ZSock.v) receives one message
    per call from the other.  The sockets are in one process and one thread, connected by
    a queue with a high-water mark; the loop runs until SIGINT. *)

From S2P Require Import Prelude ZSock.
From Stdlib Require Import ZArith Lia Permutation.

(** The socket handle, the messages in the queue (time stamps), and what has been sent and
    received so far. *)
Record app := MkApp { wz : uv_zsock; channel : list Z; sent : list Z; received : list Z }.

(** [ZMQ_EVENTS] of the receiving socket. *)
Definition zmq_events (channel : list Z) : option Z := Some (match channel with [] => 0 | _ => ZMQ_POLLIN end)%Z.

(** [zmq_send] and [zmq_recv] without flags: a call that blocks never returns, as the other
    side is in the same thread. *)
Definition zmq_send (hwm : nat) (ts : Z) (s : app) : option app :=
  if bool_decide (length (channel s) < hwm)
  then Some (MkApp (wz s) (channel s ++ [ts]) (sent s ++ [ts]) (received s)) else None.
Definition zmq_recv (s : app) : option app :=
  match channel s with
  | [] => None
  | ts :: rest => Some (MkApp (wz s) rest (sent s) (received s ++ [ts]))
  end.

(** [timeout_cb], at [uv_hrtime() = ts]. *)
Definition timeout_cb (hwm : nat) (ts : Z) (s : app) : option app :=
  s ← zmq_send hwm ts s; zmq_send hwm ts s.

(** [zsock_cb] receives one message, whatever is in the queue. *)
Definition zsock_cb (s : app) : option app := zmq_recv s.

(** An iteration of [uv_run]: the timer when it is due, then the handles of the socket
    around the wait, which the repeating timer ends; [zsock_cb] is what [s_check_cb] calls.
    [None]: a call of ZeroMQ blocks. *)
Definition iteration (hwm : nat) (due : option Z) (s : app) : result (option app) :=
  match (match due with Some ts => timeout_cb hwm ts s | None => Some s end) with
  | None => Ok None
  | Some s =>
      r ← iterate (zmq_events (channel s)) (zmq_events (channel s)) true (wz s);
      match r with
      | None => Ok None
      | Some z =>
          let s' := MkApp z (channel s) (sent s) (received s) in
          Ok (if bool_decide (length (z_calls (wz s)) < length (z_calls z)) then zsock_cb s' else Some s')
      end
  end.

(** The iterations up to the one in which [sigint_cb] stops the loop. *)
Fixpoint uv_run (hwm : nat) (dues : list (option Z)) (s : app) : result (option app) :=
  match dues with
  | [] => Ok (Some s)
  | due :: dues => r ← iteration hwm due s; match r with Some s => uv_run hwm dues s | None => Ok None end
  end.

(** Which of the calls that [main] asserts succeed. *)
Record answers := MkAnswers { a_recv : bool; a_bind : bool; a_fd : bool; a_send : bool; a_connect : bool }.

(** [main]: setup, the loop, and the end, where libuv calls the close callbacks of the
    socket's handles in the order [ws]; [uv_loop_close] succeeds when none is left. *)
Definition main (hwm : nat) (a : answers) (dues : list (option Z)) (ws : list which) : result (option app) :=
  _ ← check (a_recv a);
  _ ← check (a_bind a);
  z ← uv_zsock_init (a_fd a);
  z ← uv_zsock_start UV_READABLE z;
  _ ← check (a_send a);
  _ ← check (a_connect a);
  r ← uv_run hwm dues (MkApp z [] [] []);
  match r with
  | None => Ok None
  | Some s =>
      z ← uv_zsock_close false (wz s);
      z ← close_cbs ws z;
      _ ← check (all_null z);
      Ok (Some (MkApp z (channel s) (sent s) (received s)))
  end.

(** ** Closing *)

(** After the close callbacks of all handles no [data] is left. *)
Lemma close_cbs_null ws z : NoDup ws → still z ws → ∃ z', close_cbs ws z = Ok z' ∧ all_null z' = true.
Proof.
  revert z. induction ws as [|w ws IH]; intros z Hnd Hs; cbn [close_cbs].
  - exists z. split; [done|]. by rewrite (all_null_still z [] Hs).
  - destruct (s_close_cb_ok w ws z Hnd Hs) as (z1 & -> & Hs1 & _). apply NoDup_cons in Hnd as [_ Hnd]. by apply IH.
Qed.

(** ** The queue *)

(** How many messages an iteration leaves of [n], and whether its sends find room. *)
Definition sends (due : option Z) : list Z := match due with Some ts => [ts; ts] | None => [] end.
Definition left_of (n : nat) (due : option Z) : nat := pred (n + length (sends due)).
Fixpoint fits (hwm n : nat) (dues : list (option Z)) : bool :=
  match dues with
  | [] => true
  | due :: dues => (match due with Some _ => bool_decide (n + 2 ≤ hwm) | None => true end) && fits hwm (left_of n due) dues
  end.
Definition backlog (dues : list (option Z)) : nat := foldl left_of 0 dues.

(** Nothing but closing touches [data] of the handles. *)
Definition has_data (z : uv_zsock) : Prop := ∀ w, h_data (z_handle z w) = true.

Lemma set_active_data w b z z' : uv_set_active w b z = Ok z' → has_data z → has_data z'.
Proof.
  unfold uv_set_active. destruct (h_closing _); [done|]. intros [= <-] Hz w'. simpl. case_decide; [apply Hz|apply Hz].
Qed.

Lemma iterate_data before after other z z' : iterate before after other z = Ok (Some z') → has_data z → has_data z'.
Proof.
  intros E Hz. unfold iterate in E.
  assert (Hp : ∀ z1, (if h_active (z_handle z WPrepare) then s_prepare_cb before z else Ok z) = Ok z1 → has_data z1).
  { intros z1. unfold s_prepare_cb. repeat case_match; intros E1; try (by injection E1 as <-). by eapply set_active_data. }
  destruct (if h_active _ then _ else _) as [z1|] eqn:E1; [|done]. specialize (Hp z1 eq_refl). cbn [mbind result_bind] in E.
  destruct (_ && _); [done|]. destruct (h_active (z_handle z1 WCheck)); [|by injection E as <-]. unfold s_check_cb in E.
  destruct (uv_set_active WIdle false z1) as [z2|] eqn:E2; [|done]. cbn [mbind result_bind] in E.
  pose proof (set_active_data _ _ _ _ E2 Hp) as H2. repeat case_match; simplify_eq/=; exact H2.
Qed.

(** The program while the loop runs. *)
Definition going (s : app) : Prop := running (wz s) ∧ z_events (wz s) = UV_READABLE ∧ has_data (wz s) ∧ sent s = received s ++ channel s.

Lemma timeout_sends hwm ts s :
  timeout_cb hwm ts s =
    if bool_decide (length (channel s) + 2 ≤ hwm)
    then Some (MkApp (wz s) (channel s ++ [ts; ts]) (sent s ++ [ts; ts]) (received s)) else None.
Proof.
  unfold timeout_cb, zmq_send. case_bool_decide as H1; cbn [mbind option_bind channel wz sent received].
  - rewrite length_app. cbn [length]. case_bool_decide as H2; case_bool_decide as H3; try lia; [by rewrite <-!app_assoc|done].
  - by rewrite bool_decide_false by lia.
Qed.

(** The handles of the socket: the callback is called when there is a message, and the loop
    does not wait before it. *)
Lemma iterate_channel c other z :
  running z → z_events z = UV_READABLE → c ≠ [] ∨ other = true →
  ∃ z', iterate (zmq_events c) (zmq_events c) other z = Ok (Some z') ∧ running z' ∧ z_events z' = UV_READABLE ∧
    length (z_calls z') = length (z_calls z) + (if bool_decide (c = []) then 0 else 1).
Proof.
  intros (Hcb & Hc & H1 & H2 & H3 & H4) Hev Hor. unfold iterate. rewrite H1.
  assert (∃ z1, s_prepare_cb (zmq_events c) z = Ok z1 ∧ z_cb z1 = true ∧ z_events z1 = UV_READABLE ∧ z_calls z1 = z_calls z ∧
    (∀ w, h_closing (z_handle z1 w) = false) ∧ h_active (z_handle z1 WPrepare) = true ∧
    h_active (z_handle z1 WCheck) = true ∧ h_active (z_handle z1 WPoll) = true ∧
    h_active (z_handle z1 WIdle) = negb (bool_decide (c = []))) as (z1 & -> & F1 & F2 & F3 & F4 & F5 & F6 & F7 & F8).
  { unfold s_prepare_cb, uv_set_active. rewrite Hc, Hev. destruct c as [|x c]; simpl.
    - exists z. by rewrite H4.
    - eexists. split; [done|]. split_and!; try done. intros []; simpl; done. }
  cbn [mbind result_bind]. rewrite F6, F7, F8, (bool_decide_true (zmq_events c = zmq_events c)) by done.
  assert (Hgo : negb (negb (bool_decide (c = []))) && negb (other || true && negb true) = false).
  { destruct Hor as [Hor| ->]; [by rewrite bool_decide_false|by rewrite andb_false_r]. }
  rewrite Hgo. destruct (check_running (zmq_events c) z1) as (z2 & -> & Hrun & E1 & E2); [done..|]. cbn [mbind result_bind].
  exists z2. split_and!; [done..|by rewrite E1|]. rewrite E2, F2, F3. destruct c; simpl; solve_len.
Qed.

Lemma iteration_ok hwm due s :
  going s →
  if match due with Some _ => bool_decide (length (channel s) + 2 ≤ hwm) | None => true end
  then ∃ s', iteration hwm due s = Ok (Some s') ∧ going s' ∧ length (channel s') = left_of (length (channel s)) due ∧
         sent s' = sent s ++ sends due
  else iteration hwm due s = Ok None.
Proof.
  intros (Hr & Hev & Hd & Hs). unfold iteration.
  assert (Hrest : ∀ c sn, sn = received s ++ c → ∃ s', (r ← iterate (zmq_events c) (zmq_events c) true (wz s);
      match r with
      | None => Ok None
      | Some z => let s' := MkApp z c sn (received s) in
                  Ok (if bool_decide (length (z_calls (wz s)) < length (z_calls z)) then zsock_cb s' else Some s')
      end) = Ok (Some s') ∧ going s' ∧ length (channel s') = pred (length c) ∧ sent s' = sn).
  { intros c sn ->. destruct (iterate_channel c true (wz s) Hr Hev ltac:(by right)) as (z' & Ei & Hr' & Hev' & Hn).
    pose proof (iterate_data _ _ _ _ _ Ei Hd) as Hd'. rewrite Ei. cbn [mbind result_bind]. destruct c as [|x c]; simpl in Hn.
    - rewrite bool_decide_false by lia. eexists. split; [done|]. unfold going. simpl. by rewrite app_nil_r.
    - rewrite bool_decide_true by lia. eexists. split; [done|]. unfold going. simpl. by rewrite <-app_assoc. }
  destruct due as [ts|]; simpl.
  - rewrite timeout_sends. case_bool_decide; [|done]. cbn [wz channel sent received].
    destruct (Hrest (channel s ++ [ts; ts]) (sent s ++ [ts; ts])) as (s' & E & Hg & Hl & Hsn); [by rewrite Hs, app_assoc|].
    exists s'. split_and!; [done..|rewrite Hl; unfold left_of; solve_len|done].
  - destruct (Hrest (channel s) (sent s) Hs) as (s' & E & Hg & Hl & Hsn).
    exists s'. split_and!; [done..|rewrite Hl; unfold left_of; simpl; lia|by rewrite app_nil_r].
Qed.

Lemma uv_run_ok hwm dues s :
  going s →
  if fits hwm (length (channel s)) dues
  then ∃ s', uv_run hwm dues s = Ok (Some s') ∧ going s' ∧ length (channel s') = foldl left_of (length (channel s)) dues ∧
         sent s' = sent s ++ concat (sends <$> dues)
  else uv_run hwm dues s = Ok None.
Proof.
  revert s. induction dues as [|due dues IH]; intros s Hs; [exists s; by rewrite app_nil_r|]. cbn [fits uv_run].
  pose proof (iteration_ok hwm due s Hs) as H. destruct (match due with Some _ => _ | None => _ end); cbn [andb].
  - destruct H as (s1 & -> & Hg & Hl & Hsn). cbn [mbind result_bind]. rewrite <-Hl. specialize (IH s1 Hg).
    destruct (fits _ _ _); [|done]. destruct IH as (s' & E & Hg' & Hl' & Hsn'). exists s'.
    split_and!; [done..|simpl; by rewrite <-Hl|rewrite Hsn', Hsn, fmap_cons; cbn [concat]; by rewrite app_assoc].
  - by rewrite H.
Qed.

(** The handles before the loop. *)
Definition fresh_zsock : uv_zsock := MkZsock false 0 false (λ _, MkHandle false false true) [] 0.

Lemma start_going : ∃ z, uv_zsock_start UV_READABLE fresh_zsock = Ok z ∧ going (MkApp z [] [] []).
Proof.
  destruct (start_running UV_READABLE fresh_zsock) as (z & E & Hr & Hev); [done..|]. exists z. split; [done|].
  split_and!; [done..| |done]. unfold uv_zsock_start in E. cbn [z_close_cb z_handle z_calls z_closed fresh_zsock] in E. injection E as <-. intros []; done.
Qed.

(** C37. The test program, when its asserted calls succeed, for any times at which the timer is
    due and any order of the close callbacks: if the backlog stays below the high-water
    mark, it runs to its end with its assertions, the messages are received in order, and
    the iterations that find some in the queue receive one each, without waiting; what is
    left in the queue at the end is the backlog of the timer.  When the timer gets ahead so
    far that the queue is full, [zmq_send] blocks the only thread. *)
Theorem zsock_test_delivers hwm dues ws :
  ws ≡ₚ [WPrepare; WCheck; WIdle; WPoll] →
  let a := MkAnswers true true true true true in
  if fits hwm 0 dues then
    ∃ s, main hwm a dues ws = Ok (Some s) ∧ sent s = concat (sends <$> dues) ∧ sent s = received s ++ channel s ∧
      length (channel s) = backlog dues ∧
      ∀ earlier later s1 z1, dues = earlier ++ later → uv_zsock_start UV_READABLE fresh_zsock = Ok z1 →
        uv_run hwm earlier (MkApp z1 [] [] []) = Ok (Some s1) → channel s1 ≠ [] →
        iterate (zmq_events (channel s1)) (zmq_events (channel s1)) false (wz s1) ≠ Ok None
  else main hwm a dues ws = Ok None.
Proof.
  intros Hws a. destruct start_going as (z & Ez & Hz). unfold main. cbn [a_recv a_bind a_fd a_send a_connect a check mbind result_bind uv_zsock_init].
  fold fresh_zsock. rewrite Ez. cbn [mbind result_bind]. pose proof (uv_run_ok hwm dues _ Hz) as H. cbn [channel length] in H.
  destruct (fits hwm 0 dues); [|by rewrite H]. destruct H as (s & -> & (Hr & _ & Hd & Hs) & Hl & Hsn). cbn [mbind result_bind].
  destruct (uv_zsock_close_ok false (wz s)) as (z2 & -> & _ & _ & Hz2); [intros w; split; [apply Hr|apply Hd]|]. cbn [mbind result_bind].
  assert (Hst : still z2 ws) by (intros w; rewrite Hws; split; [intros _; by destruct w; set_solver|intros _; apply Hz2]).
  destruct (close_cbs_null ws z2) as (z3 & -> & Hn); [rewrite Hws; apply (bool_decide_unpack _); by vm_compute|done|]. cbn [mbind result_bind].
  rewrite Hn. eexists. split; [done|]. split_and!; [done..|]. intros earlier later s1 z1 _ E1 Hrun Hc. simplify_eq.
  pose proof (uv_run_ok hwm earlier _ Hz) as He. destruct (fits _ _ _); [|congruence]. destruct He as (s2 & E2 & (Hr2 & Hev2 & _) & _).
  assert (s2 = s1) as -> by congruence. by destruct (iterate_channel (channel s1) false (wz s1) Hr2 Hev2 ltac:(by left)) as (z' & -> & _).
Qed.

Example zsock_test_delivers_witness :
  ∃ s, main 1000 (MkAnswers true true true true true) [Some 5%Z; None; Some 6%Z; None; None] [WPoll; WIdle; WCheck; WPrepare] = Ok (Some s) ∧
    sent s = [5; 5; 6; 6]%Z ∧ received s ++ channel s = [5; 5; 6; 6]%Z ∧ length (channel s) = 0.
Proof.
  destruct (zsock_test_delivers 1000 [Some 5%Z; None; Some 6%Z; None; None] [WPoll; WIdle; WCheck; WPrepare]) as (s & E & H1 & H2 & H3 & _).
  - apply (bool_decide_unpack _). by vm_compute.
  - exists s. split; [exact E|]. split; [exact H1|]. split; [by rewrite <-H2|exact H3].
Defined.
