(* ===== verification/CText.v ===== *)
(** * C strings in buffers

    The string that starts at an offset of a buffer: the bytes before the first NUL; and
    [atoi]. *)

From S2P Require Import Prelude.
From Stdlib Require Import ZArith Lia.

Fixpoint until_nul (s : list Z) : list Z :=
  match s with [] => [] | c :: s => if (c =? 0)%Z then [] else c :: until_nul s end.

Definition cstring (off : nat) (buf : list Z) : list Z := until_nul (drop off buf).

Lemma until_nul_app_nul l r : until_nul (l ++ 0%Z :: r) = until_nul l.
Proof. induction l as [|c l IH]; [done|]. simpl. by rewrite IH. Qed.

Lemma until_nul_snoc l r : until_nul ((l ++ [0%Z]) ++ r) = until_nul l.
Proof. rewrite <-app_assoc. apply until_nul_app_nul. Qed.

Lemma until_nul_idem l : until_nul (until_nul l) = until_nul l.
Proof. induction l as [|c l IH]; [done|]. simpl. destruct (c =? 0)%Z eqn:E; [done|]. simpl. by rewrite E, IH. Qed.

Lemma length_until_nul l : length (until_nul l) ≤ length l.
Proof. induction l as [|c l IH]; simpl; [lia|]. destruct (c =? 0)%Z; simpl; lia. Qed.

Lemma take_until_nul l : take (length (until_nul l)) l = until_nul l.
Proof. induction l as [|c l IH]; [done|]. simpl. destruct (c =? 0)%Z; [done|]. simpl. by rewrite IH. Qed.

(** A string followed by zeros. *)
Lemma until_nul_zeros l k : until_nul l = l → until_nul (l ++ replicate k 0%Z) = l.
Proof.
  intros E. destruct k as [|k]; [by rewrite app_nil_r|]. cbn [replicate]. by rewrite until_nul_app_nul.
Qed.

Lemma until_nul_no_nul l : 0%Z ∉ l → until_nul l = l.
Proof.
  induction l as [|c l IH]; [done|]. intros Hn. apply not_elem_of_cons in Hn as [Hc Hl]. simpl.
  destruct (Z.eqb_spec c 0) as [->|]; [done|]. by rewrite IH.
Qed.

(** [atoi]: blanks, a sign, the digits up to the first other character. *)
Definition is_digit (c : Z) : bool := (48 <=? c)%Z && (c <=? 57)%Z.
Definition is_blank (c : Z) : bool := (c =? 32)%Z || ((9 <=? c)%Z && (c <=? 13)%Z).
Fixpoint digits (acc : Z) (s : list Z) : Z :=
  match s with c :: s => if is_digit c then digits (acc * 10 + (c - 48))%Z s else acc | [] => acc end.
Fixpoint atoi (s : list Z) : Z :=
  match s with
  | c :: s' =>
      if is_blank c then atoi s'
      else if (c =? 45)%Z then i32 (- digits 0 s') else if (c =? 43)%Z then i32 (digits 0 s') else i32 (digits 0 s)
  | [] => 0
  end.
