(* ===== verification/EchoQueue.v ===== *)
(** * Echo over a message queue

    LinuxIPC/27ipcs/echosvr.c and echocli.c: clients send their lines through one System V
    message queue, as messages of type 1 that start with the client's process id, and the
    server sends each back with the process id as its type.  (The server is also in
    LinuxIPC/28ipc-sharemem/echosvr.c.)  Every system call is a turn, so that any number
    of clients and the server interleave; a call that blocks has no turn. *)

From S2P Require Import Prelude Threads CText.
From Stdlib Require Import ZArith Lia Permutation.

Abbreviation bytes := (list Z).

(** ** The queue *)

Record msg := MkMsg { mtype : Z; mtext : bytes }.

(** [msgsnd] of a message: it fails when the type is not positive, and blocks while the
    queue has no room. *)
Inductive sent := Sent (q : list msg) | SendError | SendBlocks.

Definition queue_bytes (q : list msg) : nat := sum_list ((λ m, length (mtext m)) <$> q).

Definition msgsnd (cap : nat) (m : msg) (q : list msg) : sent :=
  if (mtype m <=? 0)%Z then SendError
  else if (queue_bytes q + length (mtext m) <=? cap)%nat then Sent (q ++ [m]) else SendBlocks.

(** [msgrcv] of the first message of a type: it fails when the text is longer than the
    buffer, and blocks while there is no such message. *)
Inductive received := Received (m : msg) (q : list msg) | RecvError | RecvBlocks.

Fixpoint msgrcv (maxlen : nat) (type : Z) (q : list msg) : received :=
  match q with
  | [] => RecvBlocks
  | m :: q =>
      if (mtype m =? type)%Z then if (length (mtext m) <=? maxlen)%nat then Received m q else RecvError
      else match msgrcv maxlen type q with Received m' q => Received m' (m :: q) | r => r end
  end.

(** ** Buffers and strings *)

Definition MSG_MAXLEN : nat := Z.to_nat 8192.

(** [fgets(_, n + 1, stdin)]: up to [n] characters, up to and with the end of the line. *)
Fixpoint fgets (n : nat) (input : bytes) : bytes * bytes :=
  match n, input with
  | O, _ | _, [] => ([], input)
  | S n, c :: input =>
      if (c =? 10)%Z then ([c], input) else let '(l, rest) := fgets n input in (c :: l, rest)
  end.

(** The strings that a reader of the input with [fgets] and [strlen] sees. *)
Fixpoint chunks (fuel : nat) (input : bytes) : list bytes :=
  match fuel with
  | O => []
  | S fuel =>
      match fgets (MSG_MAXLEN - 4 - 1) input with
      | ([], _) => []
      | (line, rest) => until_nul line :: chunks fuel rest
      end
  end.

Definition lines (input : bytes) : list bytes := chunks (length input) input.

(** ** The client *)

(** Before [fgets], before [msgsnd], before [msgrcv], returned, exited in [ERR_EXIT]. *)
Inductive cpc := CRead | CSend | CRecv | CDone | CExit.
#[export] Instance cpc_eq_dec : EqDecision cpc.
Proof. solve_decision. Defined.

Record client := MkClient {
  c_pid : Z;
  c_stdin : bytes;
  c_mtext : bytes;                        (* msg.mtext *)
  c_pc : cpc;
  c_log : list (bytes * bytes);           (* the strings sent, with the strings printed *)
  c_last : bytes;                         (* the string sent last *)
}.

Definition set_cpc (p : cpc) (c : client) : client :=
  MkClient (c_pid c) (c_stdin c) (c_mtext c) p (c_log c) (c_last c).

(** [echo_cli] up to its loop *)
Definition new_client (pid : Z) (input : bytes) : client :=
  MkClient pid input (splice 0 (le_encode 4 pid) (replicate MSG_MAXLEN 0%Z)) CRead [] [].

(** The next call of [echo_cli]. *)
Definition client_turn (cap : nat) (c : client) (q : list msg) : option (client * list msg) :=
  match c_pc c with
  | CRead =>
      let '(line, rest) := fgets (MSG_MAXLEN - 4 - 1) (c_stdin c) in
      match line with
      | [] => Some (set_cpc CDone c, q)
      | _ => Some (MkClient (c_pid c) rest (splice 4 (line ++ [0%Z]) (c_mtext c)) CSend (c_log c) (c_last c), q)
      end
  | CSend =>
      let len := 4 + length (cstring 4 (c_mtext c)) in
      match msgsnd cap (MkMsg 1 (take len (c_mtext c))) q with
      | Sent q => Some (MkClient (c_pid c) (c_stdin c) (splice 4 (replicate (MSG_MAXLEN - 4) 0%Z) (c_mtext c)) CRecv (c_log c)
                          (cstring 4 (c_mtext c)), q)
      | SendError => Some (set_cpc CExit c, q)
      | SendBlocks => None
      end
  | CRecv =>
      match msgrcv (MSG_MAXLEN - 4) (c_pid c) q with
      | Received m q =>
          let buf := splice 0 (mtext m) (c_mtext c) in
          Some (MkClient (c_pid c) (c_stdin c) buf CRead (c_log c ++ [(c_last c, cstring 4 buf)]) (c_last c), q)
      | RecvError => Some (set_cpc CExit c, q)
      | RecvBlocks => None
      end
  | CDone | CExit => None
  end.

(** ** The server *)

(** Before [msgrcv], before [msgsnd] of the buffer's first [n] bytes, exited. *)
Inductive spc := SRecv | SSend (n : nat) | SExit.

Record server := MkServer { s_type : Z; s_mtext : bytes; s_pc : spc }.

Definition new_server : server := MkServer 0 (replicate MSG_MAXLEN 0%Z) SRecv.

(** The next call of [echo_svr].  [pid] is read from the first four bytes. *)
Definition server_turn (cap : nat) (s : server) (q : list msg) : option (server * list msg) :=
  match s_pc s with
  | SRecv =>
      match msgrcv MSG_MAXLEN 1 q with
      | Received m q =>
          let buf := splice 0 (mtext m) (s_mtext s) in
          let pid := i32 (le_decode (take 4 buf)) in
          Some (MkServer pid buf (SSend (length (mtext m))), q)
      | RecvError => Some (MkServer (s_type s) (s_mtext s) SExit, q)
      | RecvBlocks => None
      end
  | SSend n =>
      match msgsnd cap (MkMsg (s_type s) (take n (s_mtext s))) q with
      | Sent q => Some (MkServer (s_type s) (replicate MSG_MAXLEN 0%Z) SRecv, q)
      | SendError => Some (MkServer (s_type s) (s_mtext s) SExit, q)
      | SendBlocks => None
      end
  | SExit => None
  end.

(** ** The system *)

Record system := MkSystem { clients : list client; serv : server; queue : list msg }.

Inductive who := Client (i : nat) | Server.

Definition system_turn (cap : nat) (w : who) (s : system) : option system :=
  match w with
  | Client i =>
      c ← clients s !! i;
      '(c, q) ← client_turn cap c (queue s);
      Some (MkSystem (<[i := c]> (clients s)) (serv s) q)
  | Server =>
      '(sv, q) ← server_turn cap (serv s) (queue s);
      Some (MkSystem (clients s) sv q)
  end.

(** The clients, by process id and input. *)
Definition start (users : list (Z * bytes)) : system :=
  MkSystem ((λ u, new_client u.1 u.2) <$> users) new_server [].

Inductive reachable (cap : nat) (users : list (Z * bytes)) : system → Prop :=
  | reach_start : reachable cap users (start users)
  | reach_turn w s s' : reachable cap users s → system_turn cap w s = Some s' → reachable cap users s'.

(** Process ids: different, positive, and not the type of the requests. *)
Definition good_users (users : list (Z * bytes)) : Prop :=
  NoDup users.*1 ∧ ∀ u, u ∈ users → (1 < u.1 < 2 ^ 31)%Z.

(** ** The calls *)

Lemma msgrcv_received n t q m q' :
  msgrcv n t q = Received m q' → ∃ q1 q2, q = q1 ++ m :: q2 ∧ q' = q1 ++ q2 ∧ mtype m = t ∧ length (mtext m) ≤ n.
Proof.
  revert q'. induction q as [|x q IH]; intros q' E; [done|]. simpl in E. destruct (Z.eqb_spec (mtype x) t) as [Ht|Ht].
  - destruct (Nat.leb_spec (length (mtext x)) n); [|done]. injection E as <- <-. by exists [], q.
  - destruct (msgrcv n t q) as [m' q0| |] eqn:E'; [|done..]. injection E as <- <-.
    destruct (IH q0 eq_refl) as (q1 & q2 & -> & -> & ? & ?). by exists (x :: q1), q2.
Qed.

Lemma msgrcv_error n t q : msgrcv n t q = RecvError → ∃ m, m ∈ q ∧ mtype m = t ∧ n < length (mtext m).
Proof.
  induction q as [|x q IH]; intros E; [done|]. simpl in E. destruct (Z.eqb_spec (mtype x) t) as [Ht|Ht].
  - destruct (Nat.leb_spec (length (mtext x)) n); [done|]. exists x. split; [left|done].
  - destruct (msgrcv n t q) eqn:E'; [done| |done]. destruct (IH eq_refl) as (m & ? & ?). exists m. split; [by right|done].
Qed.

Lemma msgrcv_blocks n t q : msgrcv n t q = RecvBlocks → ∀ m, m ∈ q → mtype m ≠ t.
Proof.
  induction q as [|x q IH]; intros E m Hm; [by apply elem_of_nil in Hm|]. simpl in E.
  destruct (Z.eqb_spec (mtype x) t) as [Ht|Ht]; [by destruct (_ <=? _)|].
  destruct (msgrcv n t q) eqn:E'; [done|done|]. apply elem_of_cons in Hm as [->|Hm]; [done|by apply IH].
Qed.

Lemma fgets_length n s : length (fgets n s).1 ≤ n.
Proof.
  revert s. induction n as [|n IH]; intros [|c s]; simpl; try lia. destruct (c =? 10)%Z; simpl; [lia|].
  specialize (IH s). destruct (fgets n s). simpl in *. lia.
Qed.

(** ** The invariant *)

(** The text of a message about the line of a client. *)
Definition frame (p : Z * bytes) : bytes := le_encode 4 p.1 ++ p.2.

(** A request or a reply for a client and its line. *)
Definition about (m : msg) (p : Z * bytes) : Prop := mtext m = frame p ∧ (mtype m = 1%Z ∨ mtype m = p.1).

(** A client waits, or has given up waiting, for its last line. *)
Definition waiting (c : client) : list (Z * bytes) :=
  match c_pc c with CRecv | CExit => [(c_pid c, c_last c)] | _ => [] end.

Record client_ok (c : client) : Prop := {
  co_length : length (c_mtext c) = MSG_MAXLEN;
  co_head : take 4 (c_mtext c) = le_encode 4 (c_pid c);
  co_log : ∀ a b, (a, b) ∈ c_log c → a = b;
  co_last : until_nul (c_last c) = c_last c ∧ length (c_last c) < MSG_MAXLEN - 4;
  co_send : c_pc c = CSend → length (cstring 4 (c_mtext c)) < MSG_MAXLEN - 4;
  co_recv : c_pc c = CRecv → drop 4 (c_mtext c) = replicate (MSG_MAXLEN - 4) 0%Z;
  co_exit : c_pc c = CExit → MSG_MAXLEN - 8 < length (c_last c);
}.

(** What the server holds between its two calls. *)
Definition server_holds (s : server) (fl : list (Z * bytes)) : Prop :=
  match s_pc s with
  | SRecv => fl = [] ∧ s_mtext s = replicate MSG_MAXLEN 0%Z
  | SSend n => ∃ p, fl = [p] ∧ s_type s = p.1 ∧ take n (s_mtext s) = frame p
  | SExit => False
  end.

Record sinv (users : list (Z * bytes)) (s : system) : Prop := {
  si_pids : c_pid <$> clients s = users.*1;
  si_clients : ∀ c, c ∈ clients s → client_ok c;
  si_flight : ∃ fq fs, Forall2 about (queue s) fq ∧ server_holds (serv s) fs ∧ fq ++ fs ≡ₚ all waiting (clients s);
}.

Lemma maxlen_big : 8 < MSG_MAXLEN.
Proof. unfold MSG_MAXLEN. lia. Qed.

#[local] Opaque MSG_MAXLEN.

Lemma splice_0 (x l : bytes) : splice 0 x l = x ++ drop (length x) l.
Proof. done. Qed.

Lemma frame_decode p t r : (1 < p < 2 ^ 31)%Z → i32 (le_decode (take 4 (frame (p, t) ++ r))) = p.
Proof.
  intros Hp. unfold frame. cbn [fst snd]. rewrite <-app_assoc, take_app_length' by (by rewrite length_le_encode).
  rewrite le_decode_encode_small; [|change (256 ^ Z.of_nat 4)%Z with (2 ^ 32)%Z; lia]. apply sgn_small; lia.
Qed.

Lemma take_splice off (x l : bytes) : off ≤ length l → take off (splice off x l) = take off l.
Proof. intros H. unfold splice. by rewrite take_app_length' by (rewrite length_take; lia). Qed.
Lemma drop_splice off (x l : bytes) : off ≤ length l → drop off (splice off x l) = x ++ drop (off + length x) l.
Proof. intros H. unfold splice. by rewrite drop_app_length' by (rewrite length_take; lia). Qed.

Lemma length_frame p : length (frame p) = 4 + length p.2.
Proof. unfold frame. by rewrite length_app, length_le_encode. Qed.

(** The text that the client sends. *)
Lemma sent_text c :
  client_ok c → take (4 + length (cstring 4 (c_mtext c))) (c_mtext c) = frame (c_pid c, cstring 4 (c_mtext c)).
Proof.
  intros Hok. unfold frame. cbn [fst snd]. rewrite <-(co_head c Hok), <-take_take_drop. f_equal. apply take_until_nul.
Qed.

(** The text that the client prints. *)
Lemma printed_text c r :
  client_ok c → c_pc c = CRecv → cstring 4 (frame (c_pid c, c_last c) ++ drop r (c_mtext c)) = c_last c ∨ r < 4.
Proof.
  intros [_ _ _ [Hn _] _ Hz _] Epc. destruct (decide (r < 4)) as [|Hr]; [by right|left].
  unfold cstring, frame. cbn [fst snd]. rewrite <-app_assoc, drop_app_length' by (by rewrite length_le_encode).
  replace r with (4 + (r - 4)) by lia. rewrite <-drop_drop, (Hz Epc), drop_replicate. by apply until_nul_zeros.
Qed.

(** The client has its message: it prints its line. *)
Lemma received_ok c :
  client_ok c → c_pc c = CRecv → length (frame (c_pid c, c_last c)) ≤ MSG_MAXLEN - 4 →
  let buf := splice 0 (frame (c_pid c, c_last c)) (c_mtext c) in
  client_ok (MkClient (c_pid c) (c_stdin c) buf CRead (c_log c ++ [(c_last c, cstring 4 buf)]) (c_last c)).
Proof.
  intros Hok Epc Hlen buf. pose proof maxlen_big as Hbig. assert (Hc : cstring 4 buf = c_last c).
  { unfold buf. rewrite splice_0. destruct (printed_text c (length (frame (c_pid c, c_last c))) Hok Epc) as [|Hx]; [done|].
    rewrite length_frame in Hx. lia. }
  destruct Hok as [Hl Hh Hlog Hlast _ _ _]. rewrite length_frame in Hlen. cbn [snd] in Hlen.
  split; cbn [c_mtext c_pid c_log c_last c_pc]; [| | |done|discriminate..].
  - unfold buf. rewrite length_splice; [done|]. rewrite length_frame. cbn [snd]. lia.
  - unfold buf. rewrite splice_0. unfold frame. rewrite <-app_assoc. by rewrite take_app_length' by (by rewrite length_le_encode).
  - intros a b [Hin|Hin%list_elem_of_singleton]%elem_of_app; [by apply Hlog|]. rewrite Hc in Hin. by simplify_eq.
Qed.

Section invariant.
Context (cap : nat) (users : list (Z * bytes)) (Hu : good_users users).

Lemma new_client_ok pid input : client_ok (new_client pid input).
Proof.
  pose proof maxlen_big. unfold new_client. split; cbn [c_mtext c_pid c_log c_last c_pc]; [| | | |discriminate..].
  - rewrite length_splice; [apply length_replicate|]. rewrite length_le_encode, length_replicate. lia.
  - rewrite splice_0. by rewrite take_app_length' by (by rewrite length_le_encode).
  - intros a b Hin. by apply elem_of_nil in Hin.
  - split; [done|]. simpl. lia.
Qed.

Lemma echo_start_inv : sinv users (start users).
Proof.
  split.
  - unfold start. cbn [clients]. rewrite <-list_fmap_compose. apply list_fmap_ext. by intros ? [].
  - intros c. unfold start. cbn [clients]. intros (u & -> & _)%list_elem_of_fmap. apply new_client_ok.
  - exists [], []. split_and!; [constructor|done|]. simpl.
    rewrite all_empty; [done|]. by intros c (u & -> & _)%list_elem_of_fmap.
Qed.

(** The clients have different process ids: what is about a client's id is its own. *)
Lemma flight_pid s i c p :
  sinv users s → clients s !! i = Some c → p ∈ all waiting (clients s) → p.1 = c_pid c → p ∈ waiting c.
Proof.
  intros [Hp _ _] Hi Hin E. rewrite (all_take _ _ _ _ Hi), elem_of_app in Hin. destruct Hin as [|Hin]; [done|]. exfalso.
  apply elem_of_all in Hin as (c' & Hc' & Hw). assert (E' : c_pid c' = c_pid c).
  { rewrite <-E. unfold waiting in Hw. destruct (c_pc c'); try by apply elem_of_nil in Hw.
    all: apply list_elem_of_singleton in Hw as ->; done. }
  destruct Hu as [Hnd _]. rewrite <-Hp in Hnd. rewrite (delete_Permutation _ _ _ Hi) in Hnd. rewrite fmap_cons in Hnd.
  apply NoDup_cons in Hnd as [Hn _]. apply Hn. rewrite <-E'. by apply list_elem_of_fmap_2.
Qed.

Lemma flight_range s p : sinv users s → p ∈ all waiting (clients s) → (1 < p.1 < 2 ^ 31)%Z.
Proof.
  intros [Hp _ _] (c & Hc & Hw)%elem_of_all.
  assert (E : p.1 = c_pid c).
  { unfold waiting in Hw. destruct (c_pc c); try by apply elem_of_nil in Hw. all: by apply list_elem_of_singleton in Hw as ->. }
  assert (Hin : c_pid c ∈ users.*1) by (rewrite <-Hp; by apply list_elem_of_fmap_2).
  apply list_elem_of_fmap in Hin as (u & E' & Hin). rewrite E, E'. by apply Hu.
Qed.

(** A turn of a client that keeps what it waits for. *)
Lemma client_step s i c c' q :
  sinv users s → clients s !! i = Some c → client_ok c' → c_pid c' = c_pid c →
  (∀ fq fs, Forall2 about (queue s) fq → server_holds (serv s) fs → fq ++ fs ≡ₚ all waiting (clients s) →
    ∃ fq', Forall2 about q fq' ∧ fq' ++ fs ≡ₚ waiting c' ++ all waiting (delete i (clients s))) →
  sinv users (MkSystem (<[i := c']> (clients s)) (serv s) q).
Proof.
  intros [Hp Hc (fq & fs & Hq & Hs & Hf)] Hi Hok Epid Hstep. destruct (Hstep fq fs Hq Hs Hf) as (fq' & Hq' & Hf').
  split; cbn [clients queue serv].
  - rewrite list_fmap_insert, Epid, <-Hp. apply list_insert_id. by rewrite list_lookup_fmap, Hi.
  - intros c0 (j & Hj)%list_elem_of_lookup. destruct (decide (i = j)) as [->|Hne].
    + rewrite list_lookup_insert_eq in Hj by eauto using lookup_lt_Some. by simplify_eq.
    + rewrite list_lookup_insert_ne in Hj by done. eapply Hc, list_elem_of_lookup_2, Hj.
  - exists fq', fs. split_and!; [done..|]. by rewrite (all_put _ _ _ _ _ Hi).
Qed.
Lemma client_range s c : sinv users s → c ∈ clients s → (1 < c_pid c < 2 ^ 31)%Z.
Proof.
  intros [Hp _ _] Hc. assert (Hin : c_pid c ∈ users.*1) by (rewrite <-Hp; by apply list_elem_of_fmap_2).
  apply list_elem_of_fmap in Hin as (u & -> & Hin). by apply Hu.
Qed.

(** The message of the client's type is about its line. *)
Lemma own_message s i c fq fs m :
  sinv users s → clients s !! i = Some c → c_pc c = CRecv → Forall2 about (queue s) fq → fq ++ fs ≡ₚ all waiting (clients s) →
  ∀ q1 q2, queue s = q1 ++ m :: q2 → mtype m = c_pid c →
  ∃ f1 f2, fq = f1 ++ (c_pid c, c_last c) :: f2 ∧ Forall2 about (q1 ++ q2) (f1 ++ f2) ∧ mtext m = frame (c_pid c, c_last c).
Proof.
  intros Hs Hi Epc Hq Hf q1 q2 E Et. rewrite E in Hq.
  apply Forall2_app_inv_l in Hq as (f1 & f2' & H1 & H2 & ->). apply Forall2_cons_inv_l in H2 as (p & f2 & [Hm Hty] & H2 & ->).
  assert (Hr : (1 < c_pid c)%Z) by (eapply client_range; [done|]; by eapply list_elem_of_lookup_2).
  assert (Hp : p ∈ waiting c).
  { apply (flight_pid s i c); [done..| |].
    - rewrite <-Hf. rewrite !elem_of_app, elem_of_cons. tauto.
    - destruct Hty; congruence || lia. }
  unfold waiting in Hp. rewrite Epc in Hp. apply list_elem_of_singleton in Hp as ->.
  exists f1, f2. split_and!; [done|by apply Forall2_app|done].
Qed.

Lemma client_turn_ok s i c c' q :
  sinv users s → clients s !! i = Some c → client_turn cap c (queue s) = Some (c', q) →
  sinv users (MkSystem (<[i := c']> (clients s)) (serv s) q).
Proof.
  intros Hs Hi E. pose proof (si_clients _ _ Hs c (list_elem_of_lookup_2 _ _ _ Hi)) as Hok. pose proof maxlen_big as Hbig.
  pose proof (all_take waiting _ _ _ Hi) as Ht.
  assert (Hkeep : ∀ c', client_ok c' → c_pid c' = c_pid c → waiting c' = waiting c →
    sinv users (MkSystem (<[i := c']> (clients s)) (serv s) (queue s))).
  { intros c1 H1 H2 H3. eapply client_step; [done..|]. intros fq fs Hq _ Hf. exists fq. split; [done|]. by rewrite H3, <-Ht. }
  unfold client_turn in E. destruct Hok as [Hl Hh Hlog Hlast Hsend Hrecv Hexit] eqn:Eok. clear Eok.
  destruct (c_pc c) eqn:Epc; [| | |done..].
  - pose proof (fgets_length (MSG_MAXLEN - 4 - 1) (c_stdin c)) as Hf. destruct (fgets _ _) as [line rest]. cbn [fst] in Hf.
    destruct line as [|x line']; injection E as <- <-.
    + apply Hkeep; [split; try done|done|]. unfold waiting. by rewrite Epc.
    + change (x :: line' ++ [0%Z]) with ((x :: line') ++ [0%Z]). set (line := x :: line') in *. apply Hkeep; [|done|unfold waiting; by rewrite Epc].
      split; cbn [c_mtext c_pid c_log c_last c_pc]; [| |done|done| |discriminate..].
      * rewrite length_splice; [done|]. rewrite length_app, Hl. change (length [0%Z]) with 1. lia.
      * by rewrite take_splice by lia.
      * intros _. unfold cstring. rewrite drop_splice, until_nul_snoc by lia. pose proof (length_until_nul line). lia.
  - pose proof (sent_text c Hok) as Htext. unfold msgsnd in E. rewrite Htext in E. cbn [mtype mtext] in E.
    change (1 <=? 0)%Z with false in E. cbv iota in E. destruct (_ <=? _); [|done]. injection E as <- <-.
    set (text := cstring 4 (c_mtext c)) in *. eapply client_step; [done..| |done|].
    + split; cbn [c_mtext c_pid c_log c_last c_pc]; [| |done| |discriminate| |discriminate].
      * rewrite length_splice; [done|]. rewrite length_replicate, Hl. lia.
      * by rewrite take_splice by lia.
      * split; [apply until_nul_idem|by apply Hsend].
      * intros _. rewrite drop_splice, length_replicate by lia. rewrite drop_ge by lia. by rewrite app_nil_r.
    + intros fq fs Hq _ Hf. exists (fq ++ [(c_pid c, text)]). split.
      * apply Forall2_app; [done|]. constructor; [|constructor]. split; [done|by left].
      * rewrite Ht in Hf. unfold waiting at 1 in Hf. rewrite Epc in Hf. cbn [waiting c_pc c_pid c_last app] in *.
        rewrite <-Hf. solve_Permutation.
  - destruct (msgrcv _ _ _) as [m q'| |] eqn:Er; [| |done]; injection E as <- <-.
    + apply msgrcv_received in Er as (q1 & q2 & Eq & -> & Et & Hlen). eapply client_step; [done..| |done|].
      2: { intros fq fs Hq _ Hf. destruct (own_message s i c fq fs m Hs Hi Epc Hq Hf q1 q2 Eq Et) as (f1 & f2 & -> & H12 & _).
           exists (f1 ++ f2). split; [done|]. rewrite Ht in Hf. unfold waiting at 1 in Hf. rewrite Epc in Hf. cbn [waiting c_pc app] in *.
           apply (Permutation_cons_inv (a := (c_pid c, c_last c))). rewrite <-Hf. solve_Permutation. }
      destruct (si_flight _ _ Hs) as (fq & fs & Hq & _ & Hf).
      destruct (own_message s i c fq fs m Hs Hi Epc Hq Hf q1 q2 Eq Et) as (_ & _ & _ & _ & Em). rewrite Em in *.
      by apply received_ok.
    + apply Hkeep; [|done|unfold waiting; by rewrite Epc]. split; try done. intros _.
      apply msgrcv_error in Er as (m & Hm & Et & Hlen). apply list_elem_of_split in Hm as (q1 & q2 & Eq).
      destruct (si_flight _ _ Hs) as (fq & fs & Hq & _ & Hf).
      destruct (own_message s i c fq fs m Hs Hi Epc Hq Hf q1 q2 Eq Et) as (_ & _ & _ & _ & Em).
      rewrite Em, length_frame in Hlen. cbn [snd] in Hlen. cbn [set_cpc c_last]. lia.
Qed.

(** The request that the server takes is about some client, whose process id it reads. *)
Lemma server_request s fq fs q1 m q2 :
  sinv users s → Forall2 about (queue s) fq → fq ++ fs ≡ₚ all waiting (clients s) → queue s = q1 ++ m :: q2 →
  ∃ p f1 f2, fq = f1 ++ p :: f2 ∧ Forall2 about (q1 ++ q2) (f1 ++ f2) ∧ mtext m = frame p ∧ (1 < p.1 < 2 ^ 31)%Z.
Proof.
  intros Hs Hq Hf E. rewrite E in Hq. apply Forall2_app_inv_l in Hq as (f1 & f2' & H1 & H2 & ->).
  apply Forall2_cons_inv_l in H2 as (p & f2 & [Hm _] & H2 & ->). exists p, f1, f2. split_and!; [done|by apply Forall2_app|done|..].
  all: eapply (flight_range s p Hs); rewrite <-Hf, !elem_of_app, elem_of_cons; tauto.
Qed.

Lemma frame_small s p : sinv users s → p ∈ all waiting (clients s) → length (frame p) < MSG_MAXLEN.
Proof.
  intros Hs (c & Hc & Hw)%elem_of_all. destruct (co_last _ (si_clients _ _ Hs c Hc)) as [_ Hl]. rewrite length_frame.
  unfold waiting in Hw. destruct (c_pc c); try by apply elem_of_nil in Hw. all: apply list_elem_of_singleton in Hw as ->; simpl; lia.
Qed.

Lemma server_turn_ok s sv q :
  sinv users s → server_turn cap (serv s) (queue s) = Some (sv, q) → sinv users (MkSystem (clients s) sv q).
Proof.
  intros Hs E. pose proof Hs as [Hp Hc (fq & fs & Hq & Hh & Hf)]. split; [done..|]. cbn [clients queue serv].
  unfold server_turn in E. unfold server_holds in Hh. destruct (s_pc (serv s)) as [|n|] eqn:Epc; [| |done].
  - destruct Hh as [-> Hz]. destruct (msgrcv _ _ _) as [m q'| |] eqn:Er; [| |done]; injection E as <- <-.
    + apply msgrcv_received in Er as (q1 & q2 & Eq & -> & _ & _).
      destruct (server_request s _ _ q1 m q2 Hs Hq Hf Eq) as ([pid t] & f1 & f2 & -> & H12 & -> & Hr).
      exists (f1 ++ f2), [(pid, t)]. split_and!; [done| |rewrite <-Hf; solve_Permutation].
      exists (pid, t). cbn [s_type s_mtext]. rewrite splice_0. split_and!; [done|by apply frame_decode|].
      by apply take_app_length.
    + exfalso. apply msgrcv_error in Er as (m & Hm & _ & Hlen). apply list_elem_of_split in Hm as (q1 & q2 & Eq).
      destruct (server_request s _ _ q1 m q2 Hs Hq Hf Eq) as (p & f1 & f2 & -> & _ & Em & _). rewrite Em in Hlen.
      assert (length (frame p) < MSG_MAXLEN); [|lia]. apply (frame_small s p Hs). rewrite <-Hf, !elem_of_app, elem_of_cons. tauto.
  - destruct Hh as (p & -> & Et & Etext). unfold msgsnd in E. cbn [mtype mtext] in E. rewrite Et, Etext in E.
    assert (Hr : (1 < p.1 < 2 ^ 31)%Z) by (apply (flight_range s p Hs); rewrite <-Hf, elem_of_app, list_elem_of_singleton; tauto).
    destruct (Z.leb_spec p.1 0); [lia|]. destruct (_ <=? _); [|done]. injection E as <- <-.
    exists (fq ++ [p]), []. split_and!; [|done|by rewrite app_nil_r]. apply Forall2_app; [done|]. constructor; [|done]. split; [done|by right].
Qed.

Lemma reachable_sinv s : reachable cap users s → sinv users s.
Proof.
  induction 1 as [|w s s' _ IH E]; [apply echo_start_inv|]. destruct w as [i|]; cbn [system_turn] in E.
  - destruct (clients s !! i) as [c|] eqn:Hi; [|done]. cbn [mbind option_bind] in E.
    destruct (client_turn cap c (queue s)) as [[c' q]|] eqn:Et; [|done]. injection E as <-. by eapply client_turn_ok.
  - destruct (server_turn cap (serv s) (queue s)) as [[sv q]|] eqn:Et; [|done]. injection E as <-. by apply server_turn_ok.
Qed.
End invariant.

(** ** The lines of a client *)

Lemma fgets_split n s l r : fgets n s = (l, r) → s = l ++ r.
Proof.
  revert s l r. induction n as [|n IH]; intros [|c s] l r E; simpl in E; simplify_eq/=; try done.
  destruct (c =? 10)%Z; simplify_eq/=; [done|]. destruct (fgets n s) as [l' r'] eqn:E'. simplify_eq/=. f_equal. by apply IH.
Qed.

Lemma chunks_fuel n m s : length s ≤ n → length s ≤ m → chunks n s = chunks m s.
Proof.
  revert m s. induction n as [|n IH]; intros [|m] s Hn Hm; [done|..].
  - destruct s; [|simpl in *; lia]. by destruct m; simpl; destruct (_ - _).
  - destruct s; [|simpl in *; lia]. simpl. by destruct (_ - _).
  - cbn [chunks]. destruct (fgets _ _) as [[|x l] r] eqn:E; [done|]. f_equal. apply fgets_split in E. subst s.
    rewrite length_app in *. simpl in *. apply IH; lia.
Qed.

Lemma lines_unfold s :
  lines s = match fgets (MSG_MAXLEN - 4 - 1) s with ([], _) => [] | (l, r) => until_nul l :: lines r end.
Proof.
  unfold lines. rewrite (chunks_fuel _ (S (length s))) by lia. cbn [chunks].
  destruct (fgets _ _) as [[|x l] r] eqn:E; [done|]. f_equal. apply fgets_split in E. subst s.
  rewrite length_app. apply chunks_fuel; simpl; lia.
Qed.

(** The string that the client is about to send, or has sent and not seen again. *)
Definition pending (c : client) : list bytes :=
  match c_pc c with CSend => [cstring 4 (c_mtext c)] | CRecv | CExit => [c_last c] | _ => [] end.

(** What the client has logged, what is pending and what it still reads are its lines. *)
Definition on_course (u : Z * bytes) (c : client) : Prop :=
  lines u.2 = (c_log c).*1 ++ pending c ++ lines (c_stdin c) ∧ (c_pc c = CDone → lines (c_stdin c) = []).

Lemma client_turn_course cap u c c' q q' :
  length (c_mtext c) = MSG_MAXLEN → client_turn cap c q = Some (c', q') → on_course u c → on_course u c'.
Proof.
  intros Hl E [Hc _]. pose proof maxlen_big. unfold on_course, pending in *. rewrite Hc. clear Hc.
  unfold client_turn in E. destruct (c_pc c) eqn:Epc; [| | |done..].
  - rewrite (lines_unfold (c_stdin c)). destruct (fgets _ _) as [[|x line] rest] eqn:Ef; simplify_eq; cbn [set_cpc c_pc c_log c_stdin c_mtext].
    + split; [|intros _]; rewrite lines_unfold, Ef; done.
    + split; [|done]. unfold cstring. rewrite drop_splice by lia. change (x :: line ++ [0%Z]) with ((x :: line) ++ [0%Z]).
      by rewrite (until_nul_snoc (x :: line)).
  - destruct (msgsnd _ _ _) eqn:Es; [| |done]; injection E as <- <-; cbn [set_cpc c_pc c_log c_stdin c_mtext c_last]; [done|].
    unfold msgsnd in Es. cbn [mtype] in Es. change (1 <=? 0)%Z with false in Es. cbv iota in Es. by destruct (_ <=? _).
  - destruct (msgrcv _ _ _); [| |done]; injection E as <- <-; cbn [set_cpc c_pc c_log c_stdin c_mtext c_last]; [|done].
    split; [|done]. rewrite fmap_app. by rewrite <-app_assoc.
Qed.

Lemma reachable_course cap users s :
  good_users users → reachable cap users s → Forall2 on_course users (clients s).
Proof.
  intros Hu. induction 1 as [|w s s' Hr IH E].
  - unfold start. cbn [clients]. apply Forall2_fmap_r, Forall_Forall2_diag, Forall_true. done.
  - pose proof (reachable_sinv _ _ Hu _ Hr) as Hs. destruct w as [i|]; cbn [system_turn] in E.
    + destruct (clients s !! i) as [c|] eqn:Hi; [|done]. cbn [mbind option_bind] in E.
      destruct (client_turn cap c (queue s)) as [[c' q]|] eqn:Et; [|done]. injection E as <-. cbn [clients].
      destruct (Forall2_lookup_r _ _ _ _ _ IH Hi) as (u & Hui & Hcu).
      rewrite <-(list_insert_id users i u Hui). apply Forall2_insert; [done|].
      eapply client_turn_course; [|done..]. apply (si_clients _ _ Hs). by eapply list_elem_of_lookup_2.
    + destruct (server_turn cap (serv s) (queue s)) as [[sv q]|] eqn:Et; [|done]. by injection E as <-.
Qed.

Lemma log_same (l : list (bytes * bytes)) : (∀ a b, (a, b) ∈ l → a = b) → l.*2 = l.*1.
Proof.
  induction l as [|[a b] l IH]; intros H; [done|]. rewrite !fmap_cons. cbn [fst snd]. f_equal.
  - symmetry. apply H. left.
  - apply IH. intros x y Hx. apply H. by right.
Qed.

(** C16. Whatever the order of the system calls of the server and any number of clients with
    different process ids: each client prints its own lines, in order and nothing else, up to
    the last one when it returns, and exits with an error only over a line of more than
    [MSG_MAXLEN - 8] bytes (its [msgrcv] accepts [MSG_MAXLEN - 4] bytes, the process id
    included); the server never exits. *)
Theorem echo_own_lines cap users s i u c :
  good_users users → reachable cap users s → users !! i = Some u → clients s !! i = Some c →
  (c_log c).*2 `prefix_of` lines u.2 ∧ (c_pc c = CDone → (c_log c).*2 = lines u.2) ∧
  (c_pc c = CExit → MSG_MAXLEN - 8 < length (c_last c) ∧ c_last c ∈ lines u.2) ∧ s_pc (serv s) ≠ SExit.
Proof.
  intros Hu Hr Hui Hi. pose proof (reachable_sinv _ _ Hu _ Hr) as Hs. pose proof (reachable_course _ _ _ Hu Hr) as Hco.
  destruct (Forall2_lookup_lr _ _ _ _ _ _ Hco Hui Hi) as [El Hd]. rewrite El.
  destruct (si_clients _ _ Hs c (list_elem_of_lookup_2 _ _ _ Hi)) as [_ _ Hlog _ _ _ Hexit]. rewrite (log_same _ Hlog). split_and!.
  - by eexists.
  - intros Ed. rewrite (Hd Ed). unfold pending. rewrite Ed. by rewrite app_nil_r.
  - intros Ed. split; [by apply Hexit|]. unfold pending. rewrite Ed, !elem_of_app, list_elem_of_singleton. tauto.
  - destruct (si_flight _ _ Hs) as (_ & fs & _ & Hh & _). unfold server_holds in Hh. by destruct (s_pc (serv s)).
Qed.

(** The default size of a queue on Linux. *)
Definition msgmnb : nat := Z.to_nat 16384.

(** Runs by a schedule. *)
Fixpoint run (cap : nat) (ws : list who) (s : system) : option system :=
  match ws with [] => Some s | w :: ws => s ← system_turn cap w s; run cap ws s end.

Lemma run_reachable cap users ws s s' : reachable cap users s → run cap ws s = Some s' → reachable cap users s'.
Proof.
  revert s. induction ws as [|w ws IH]; intros s Hr E; simpl in E; [by simplify_eq|].
  destruct (system_turn cap w s) eqn:Et; [|done]. eapply IH; [|done]. by eapply reach_turn.
Qed.

Lemma echo_own_lines_witness :
  let users := [(7, [97; 10; 98; 10]); (9, [99])]%Z in
  let sched := [Client 0; Client 1; Client 0; Client 1; Server; Server; Server; Server; Client 1; Client 1] in
  ∃ s c, run msgmnb sched (start users) = Some s ∧ clients s !! 1 = Some c ∧ (c_log c).*2 = [[99%Z]].
Proof.
  intros users sched.
  assert (Hu : good_users users).
  { split; [apply (bool_decide_unpack _); vm_compute; exact I|]. intros u Hin. unfold users in Hin.
    rewrite !elem_of_cons, elem_of_nil in Hin. destruct Hin as [->|[->|[]]]; simpl; lia. }
  assert (Hv : (s ← run msgmnb sched (start users); c ← clients s !! 1; Some (c_pc c)) = Some CDone) by (vm_compute; reflexivity).
  destruct (run msgmnb sched (start users)) as [s|] eqn:E; [|discriminate Hv]. cbn [mbind option_bind] in Hv.
  destruct (clients s !! 1) as [c|] eqn:Hc; [|discriminate Hv]. injection Hv as Epc. exists s, c. split; [reflexivity|]. split; [exact Hc|].
  destruct (echo_own_lines msgmnb users s 1 (9, [99])%Z c Hu) as (_ & H & _).
  - eapply run_reachable; [apply reach_start|exact E].
  - reflexivity.
  - exact Hc.
  - rewrite (H Epc). vm_compute. reflexivity.
Defined.

(** ** Progress *)

Definition returned (c : client) : Prop := c_pc c = CDone ∨ c_pc c = CExit.

Lemma flight_bytes users s fq l :
  sinv users s → Forall2 about l fq → (∀ p, p ∈ fq → p ∈ all waiting (clients s)) → queue_bytes l ≤ length fq * MSG_MAXLEN.
Proof.
  intros Hs. induction 1 as [|m p l fq [Hm _] _ IH]; intros Hin; [done|]. unfold queue_bytes in *. rewrite fmap_cons. cbn [sum_list sum_list_with length].
  rewrite Hm. pose proof (frame_small users s p Hs (Hin p ltac:(left))). specialize (IH ltac:(intros; apply Hin; by right)). simpl in *. lia.
Qed.

Lemma waiting_length l : length (all waiting l) ≤ length l.
Proof.
  unfold all. induction l as [|c l IH]; [done|]. rewrite fmap_cons. cbn [concat length]. rewrite length_app. unfold waiting at 1. destruct (c_pc c); simpl; lia.
Qed.

Section progress.
Context (cap : nat) (users : list (Z * bytes)) (s : system).
Context (Hu : good_users users) (Hcap : length users * MSG_MAXLEN ≤ cap) (Hs : sinv users s).

Lemma clients_length : length (clients s) = length users.
Proof. rewrite <-(length_fmap c_pid), (si_pids _ _ Hs). by rewrite length_fmap. Qed.

(** With room for a message of every client no [msgsnd] of a message in flight blocks. *)
Lemma room m fq x :
  Forall2 about (queue s) fq → (∀ p, p ∈ fq → p ∈ all waiting (clients s)) → length fq + 1 ≤ length users →
  (0 < mtype m)%Z → length (mtext m) ≤ MSG_MAXLEN → x = msgsnd cap m (queue s) → x = Sent (queue s ++ [m]).
Proof.
  intros Hq Hin Hl Ht Hm ->. unfold msgsnd. destruct (Z.leb_spec (mtype m) 0); [lia|].
  pose proof (flight_bytes users s fq _ Hs Hq Hin). destruct (Nat.leb_spec (queue_bytes (queue s) + length (mtext m)) cap); [done|]. nia.
Qed.

Lemma server_sends n : s_pc (serv s) = SSend n → is_Some (system_turn cap Server s).
Proof.
  intros E. destruct (si_flight _ _ Hs) as (fq & fs & Hq & Hh & Hf). unfold server_holds in Hh. rewrite E in Hh.
  destruct Hh as (p & -> & Et & Etext). assert (Hp : p ∈ all waiting (clients s)) by (rewrite <-Hf, elem_of_app, list_elem_of_singleton; tauto).
  pose proof (flight_range users Hu s p Hs Hp) as Hr. pose proof (frame_small users s p Hs Hp) as Hsm.
  cbn [system_turn]. unfold server_turn. rewrite E.
  erewrite (room _ fq (msgsnd _ _ _)); [done|done|..|reflexivity]; cbn [mtype mtext].
  - intros p' Hp'. rewrite <-Hf, elem_of_app. by left.
  - apply Permutation_length in Hf. rewrite length_app in Hf. simpl in Hf. pose proof (waiting_length (clients s)). rewrite clients_length in *. lia.
  - rewrite Et. lia.
  - rewrite Etext. lia.
Qed.

Lemma client_sends i c : clients s !! i = Some c → c_pc c = CSend → is_Some (system_turn cap (Client i) s).
Proof.
  intros Hi E. destruct (si_flight _ _ Hs) as (fq & fs & Hq & Hh & Hf).
  pose proof (si_clients _ _ Hs c (list_elem_of_lookup_2 _ _ _ Hi)) as Hok. pose proof (co_send _ Hok E) as Hsm.
  cbn [system_turn]. rewrite Hi. cbn [mbind option_bind]. unfold client_turn. rewrite E.
  erewrite (room _ fq (msgsnd _ _ _)); [done|done|..|reflexivity]; cbn [mtype mtext]; [| |lia|].
  - intros p' Hp'. rewrite <-Hf, elem_of_app. by left.
  - pose proof Hf as Hl. rewrite (all_take _ _ _ _ Hi) in Hl. unfold waiting at 1 in Hl. rewrite E in Hl. cbn [app] in Hl.
    apply Permutation_length in Hl. rewrite length_app in Hl. pose proof (waiting_length (delete i (clients s))) as Hd.
    rewrite length_delete in Hd by (by rewrite Hi). apply lookup_lt_Some in Hi. rewrite clients_length in *. lia.
  - rewrite (sent_text _ Hok), length_frame. simpl. lia.
Qed.

Lemma server_receives m : m ∈ queue s → mtype m = 1%Z → s_pc (serv s) = SRecv → is_Some (system_turn cap Server s).
Proof.
  intros Hm Ht E. cbn [system_turn]. unfold server_turn. rewrite E. destruct (msgrcv _ _ _) eqn:Er; [done|done|].
  by destruct (msgrcv_blocks _ _ _ Er m Hm).
Qed.

Lemma client_receives i c :
  clients s !! i = Some c → c_pc c = CRecv → is_Some (system_turn cap (Client i) s) ∨ is_Some (system_turn cap Server s).
Proof.
  intros Hi E. destruct (si_flight _ _ Hs) as (fq & fs & Hq & Hh & Hf).
  destruct (s_pc (serv s)) as [|n|] eqn:Es; [|right; by eapply server_sends|by unfold server_holds in Hh; rewrite Es in Hh].
  unfold server_holds in Hh. rewrite Es in Hh. destruct Hh as [-> _]. rewrite app_nil_r in Hf.
  assert (Hin : (c_pid c, c_last c) ∈ fq).
  { rewrite Hf. apply elem_of_all. exists c. split; [by eapply list_elem_of_lookup_2|]. unfold waiting. rewrite E. left. }
  apply list_elem_of_lookup in Hin as (j & Hj). destruct (Forall2_lookup_r _ _ _ _ _ Hq Hj) as (m & Hm & [_ Ht]).
  apply list_elem_of_lookup_2 in Hm. destruct Ht as [Ht|Ht]; [right; by eapply server_receives|left].
  cbn [system_turn]. rewrite Hi. cbn [mbind option_bind]. unfold client_turn. rewrite E.
  destruct (msgrcv _ _ _) eqn:Er; [done|done|]. by destruct (msgrcv_blocks _ _ _ Er m Hm).
Qed.
End progress.

(** C17. As long as the queue has room for one message of every client, the system is never
    stuck: until every client has returned, some call can be made. *)
Theorem echo_progress cap users s :
  good_users users → length users * MSG_MAXLEN ≤ cap → reachable cap users s →
  Forall returned (clients s) ∨ ∃ w, is_Some (system_turn cap w s).
Proof.
  intros Hu Hcap Hr. pose proof (reachable_sinv _ _ Hu _ Hr) as Hs.
  destruct (decide (Exists (λ c, c_pc c ≠ CDone ∧ c_pc c ≠ CExit) (clients s))) as [He|He].
  - right. apply Exists_exists in He as (c & (i & Hi)%list_elem_of_lookup & H1 & H2). destruct (c_pc c) eqn:E; [| | |done..].
    + exists (Client i). cbn [system_turn]. rewrite Hi. cbn [mbind option_bind]. unfold client_turn. rewrite E.
      by destruct (fgets _ _) as [[|x l] r].
    + exists (Client i). by eapply client_sends.
    + destruct (client_receives cap users s Hu Hcap Hs i c Hi E); by eexists.
  - left. apply Forall_forall. intros c Hc. rewrite Exists_exists in He. unfold returned. destruct (c_pc c) eqn:E; try (by auto).
    all: destruct He; exists c; by rewrite E.
Qed.

Lemma echo_progress_witness :
  let users := [(7, [97; 10]); (9, [98; 10])]%Z in
  ∃ s, run msgmnb [Client 0; Client 0; Client 1; Client 1] (start users) = Some s ∧
    (Forall returned (clients s) ∨ ∃ w, is_Some (system_turn msgmnb w s)).
Proof.
  intros users. assert (Hu : good_users users).
  { split; [apply (bool_decide_unpack _); vm_compute; exact I|]. intros u Hin. unfold users in Hin.
    rewrite !elem_of_cons, elem_of_nil in Hin. destruct Hin as [->|[->|[]]]; simpl; lia. }
  set (o := run msgmnb [Client 0; Client 0; Client 1; Client 1] (start users)).
  assert (Hv : bool_decide (is_Some o) = true) by (vm_compute; reflexivity). apply bool_decide_eq_true in Hv as [s E].
  exists s. split; [exact E|]. apply (echo_progress msgmnb users s Hu).
  - apply Nat.leb_le. vm_compute. reflexivity.
  - eapply run_reachable; [apply reach_start|exact E].
Defined.

(** ** The queue can fill up *)

(** Four clients, each with a line of 5000 bytes. *)
Definition long_users : list (Z * bytes) :=
  (λ pid, (pid, replicate (Z.to_nat 4999) 97%Z ++ [10%Z])) <$> [7; 8; 9; 10]%Z.

(** Three requests fill the queue; the fourth takes the room of the one the server has read. *)
Definition long_schedule : list who :=
  [Client 0; Client 1; Client 2; Client 3; Client 0; Client 1; Client 2; Server; Client 3].

Definition stuck (cap : nat) (s : system) : bool :=
  forallb (λ w, bool_decide (system_turn cap w s = None)) (Server :: (Client <$> seq 0 (length (clients s)))).

Lemma stuck_none cap s w : stuck cap s = true → system_turn cap w s = None.
Proof.
  intros H. unfold stuck in H. rewrite forallb_forall in H.
  assert (Hx : ∀ w, In w (Server :: (Client <$> seq 0 (length (clients s)))) → system_turn cap w s = None).
  { intros w' Hw. specialize (H w' Hw). by apply bool_decide_eq_true in H. }
  destruct w as [i|]; [|apply Hx; by left]. destruct (decide (i < length (clients s))) as [Hi|Hi].
  - apply Hx. right. apply list_elem_of_In, list_elem_of_fmap_2, elem_of_seq. lia.
  - cbn [system_turn]. by rewrite lookup_ge_None_2 by lia.
Qed.

(** With less room the system deadlocks: with a queue of the default size and four
    clients that send 5000 bytes each, the server waits for room to reply while every client
    waits for a reply, and no call can be made any more. *)
Lemma echo_deadlock :
  ∃ s, reachable msgmnb long_users s ∧ (∀ w, system_turn msgmnb w s = None) ∧
    (∀ c, c ∈ clients s → c_pc c = CRecv ∧ c_log c = []) ∧ ∃ n, s_pc (serv s) = SSend n.
Proof.
  set (o := run msgmnb long_schedule (start long_users)).
  assert (Hv : (s ← o; Some (stuck msgmnb s, (λ c, (c_pc c, c_log c)) <$> clients s,
    match s_pc (serv s) with SSend n => Some (Z.of_nat n) | _ => None end)) = Some (true, replicate 4 (CRecv, []), Some 5004%Z))
    by (vm_compute; reflexivity).
  destruct o as [s|] eqn:E; [|done]. cbn [mbind option_bind] in Hv. injection Hv as H1 H2 H3. exists s. split_and!.
  - eapply run_reachable; [apply reach_start|exact E].
  - intros w. by apply stuck_none.
  - intros c Hc. apply (list_elem_of_fmap_2 (λ c, (c_pc c, c_log c))) in Hc. rewrite H2 in Hc.
    apply (elem_of_replicate 4 (CRecv, [])) in Hc as [Hc _]. injection Hc as E1 E2. split; assumption.
  - clear E H1 H2. destruct (s_pc (serv s)) as [|n|]; [done|by exists n|done].
Qed.
