(* ===== verification/Pgm.v ===== *)
(** * PGM sockets

    Languages/c/openpgm_test: [create_pgm_socket] and [main] of pgmsend.c, and
    [on_startup] of pgmrecv.c, over a world that keeps every object the PGM library hands
    out.  The library is not in the repository: which calls succeed, and the addresses
    that [pgm_getaddrinfo] finds, are inputs; its objects are handles that may be released
    once and not used afterwards (a use after release is [Err Fault]). *)

From S2P Require Import Prelude CText.
From Stdlib Require Import ZArith Lia.

Abbreviation bytes := (list Z).

(** ** The library's data *)

Inductive family := AF_INET | AF_INET6.
Definition is_inet6 (f : family) : bool := match f with AF_INET6 => true | AF_INET => false end.

(** [struct group_source_req]; [gsr_scope] is [sin6_scope_id] of an IPv6 group. *)
Record group_req := MkGroup { gsr_interface : Z; gsr_family : family; gsr_addr : bytes; gsr_scope : Z }.

(** [struct pgm_addrinfo_t] *)
Record addrinfo := MkInfo { ai_recv_addrs : list group_req; ai_send_addrs : list group_req }.

Inductive protocol := IPPROTO_UDP | IPPROTO_PGM.

Inductive sockopt :=
  | PGM_UDP_ENCAP_UCAST_PORT | PGM_UDP_ENCAP_MCAST_PORT | PGM_IP_ROUTER_ALERT | PGM_SEND_ONLY | PGM_RECV_ONLY
  | PGM_PASSIVE | PGM_MTU | PGM_TXW_SQNS | PGM_TXW_MAX_RTE | PGM_AMBIENT_SPM | PGM_HEARTBEAT_SPM | PGM_USE_FEC
  | PGM_RXW_SQNS | PGM_PEER_EXPIRY | PGM_SPMR_EXPIRY | PGM_NAK_BO_IVL | PGM_NAK_RPT_IVL | PGM_NAK_RDATA_IVL
  | PGM_NAK_DATA_RETRIES | PGM_NAK_NCF_RETRIES | PGM_JOIN_GROUP | PGM_SEND_GROUP | PGM_MULTICAST_LOOP
  | PGM_MULTICAST_HOPS | PGM_TOS | PGM_NOBLOCK.
#[export] Instance sockopt_eq_dec : EqDecision sockopt.
Proof. solve_decision. Defined.

(** [VFec]: [block_size], [proactive_packets], [group_size], [ondemand_parity_enabled],
    [var_pktlen_enabled]. *)
Inductive optval :=
  | VInt (z : Z)
  | VInts (l : list Z)
  | VFec (n p k : Z) (ondemand varlen : bool)
  | VGroup (g : group_req).

(** The addresses of [pgm_bind3]: [sa_port], [sport], [ir_interface], [ir_scope_id]. *)
Record binding := MkBinding { b_port : Z; b_sport : Z; b_interface : Z; b_scope : Z }.

Record sock := MkSock {
  s_family : family;
  s_protocol : protocol;
  s_opts : list (sockopt * optval);        (* [pgm_setsockopt], the last first *)
  s_bound : option binding;
  s_connected : bool;
  s_sent : list bytes;                     (* accepted by [pgm_send], the last first *)
}.

(** ** The world *)

(** Objects by handle; [res] and [pgm_err] are the local variables of the running function. *)
Record world := MkWorld {
  next : nat;
  socks : list (nat * sock);
  infos : list (nat * addrinfo);
  errs : list (nat * unit);
  g_sock : option nat;
  res : option nat;
  pgm_err : option nat;
  engine : bool;                           (* [pgm_init] ... [pgm_shutdown] *)
  messages : bool;                         (* [pgm_messages_init] ... [pgm_messages_shutdown] *)
}.

Definition empty_world : world := MkWorld 0 [] [] [] None None None false false.

Fixpoint find {A} (h : nat) (l : list (nat * A)) : option A :=
  match l with [] => None | (h', a) :: l => if (h =? h')%nat then Some a else find h l end.
Fixpoint remove {A} (h : nat) (l : list (nat * A)) : list (nat * A) :=
  match l with [] => [] | (h', a) :: l => if (h =? h')%nat then l else (h', a) :: remove h l end.
Fixpoint update {A} (h : nat) (f : A → A) (l : list (nat * A)) : list (nat * A) :=
  match l with [] => [] | (h', a) :: l => if (h =? h')%nat then (h', f a) :: l else (h', a) :: update h f l end.

(** ** The monad: a function ends with a value, or by [goto err_abort] ([None]) *)

Definition prog (A : Type) : Type := world → result (option A * world).

#[global] Instance prog_ret : MRet prog := λ A a w, Ok (Some a, w).
#[global] Instance prog_bind : MBind prog := λ A B f m w,
  match m w with Ok (Some a, w) => f a w | Ok (None, w) => Ok (None, w) | Err e => Err e end.

Definition goto_err_abort {A} : prog A := λ w, Ok (None, w).
Definition fault {A} : prog A := λ _, Err Fault.
Definition gets {A} (f : world → A) : prog A := λ w, Ok (Some (f w), w).
Definition modify (f : world → world) : prog unit := λ w, Ok (Some tt, f w).

Definition set_socks (l : list (nat * sock)) (w : world) : world :=
  MkWorld (next w) l (infos w) (errs w) (g_sock w) (res w) (pgm_err w) (engine w) (messages w).
Definition set_g_sock (p : option nat) (w : world) : world :=
  MkWorld (next w) (socks w) (infos w) (errs w) p (res w) (pgm_err w) (engine w) (messages w).
Definition set_infos (l : list (nat * addrinfo)) (w : world) : world :=
  MkWorld (next w) (socks w) l (errs w) (g_sock w) (res w) (pgm_err w) (engine w) (messages w).
Definition set_res (p : option nat) (w : world) : world :=
  MkWorld (next w) (socks w) (infos w) (errs w) (g_sock w) p (pgm_err w) (engine w) (messages w).
Definition set_errs (l : list (nat * unit)) (w : world) : world :=
  MkWorld (next w) (socks w) (infos w) l (g_sock w) (res w) (pgm_err w) (engine w) (messages w).
Definition set_pgm_err (p : option nat) (w : world) : world :=
  MkWorld (next w) (socks w) (infos w) (errs w) (g_sock w) (res w) p (engine w) (messages w).
Definition set_next (n : nat) (w : world) : world :=
  MkWorld n (socks w) (infos w) (errs w) (g_sock w) (res w) (pgm_err w) (engine w) (messages w).
Definition set_engine (b : bool) (w : world) : world :=
  MkWorld (next w) (socks w) (infos w) (errs w) (g_sock w) (res w) (pgm_err w) b (messages w).
Definition set_messages (b : bool) (w : world) : world :=
  MkWorld (next w) (socks w) (infos w) (errs w) (g_sock w) (res w) (pgm_err w) (engine w) b.

(** The pointer in a variable, and the live object behind it. *)
Definition deref {A} (var : world → option nat) (tab : world → list (nat * A)) : prog (nat * A) := λ w,
  match var w with
  | Some h => match find h (tab w) with Some a => Ok (Some (h, a), w) | None => Err Fault end
  | None => Err Fault
  end.

(** ** The calls of the library *)

(** A call that fails stores a new error in [pgm_err]. *)
Definition raise : prog unit :=
  modify (λ w, set_pgm_err (Some (next w)) (set_errs ((next w, tt) :: errs w) (set_next (S (next w)) w))).

Definition fallible (ok : bool) (m : prog unit) : prog bool :=
  if ok then m ;; mret true else raise ;; mret false.

Definition pgm_getaddrinfo (found : option addrinfo) : prog bool :=
  match found with
  | Some a => modify (λ w, set_res (Some (next w)) (set_infos ((next w, a) :: infos w) (set_next (S (next w)) w))) ;; mret true
  | None => raise ;; mret false
  end.

Definition pgm_socket (ok : bool) (f : family) (p : protocol) : prog bool :=
  fallible ok (modify (λ w,
    set_g_sock (Some (next w)) (set_socks ((next w, MkSock f p [] None false []) :: socks w) (set_next (S (next w)) w)))).

Definition on_sock (f : sock → sock) : prog unit :=
  '(h, _) ← deref g_sock socks;
  modify (λ w, set_socks (update h f (socks w)) w).

Definition pgm_setsockopt (o : sockopt) (v : optval) : prog unit :=
  on_sock (λ s, MkSock (s_family s) (s_protocol s) ((o, v) :: s_opts s) (s_bound s) (s_connected s) (s_sent s)).
Definition pgm_bind3 (ok : bool) (b : binding) : prog bool :=
  fallible ok (on_sock (λ s, MkSock (s_family s) (s_protocol s) (s_opts s) (Some b) (s_connected s) (s_sent s))).
Definition pgm_connect (ok : bool) : prog bool :=
  fallible ok (on_sock (λ s, MkSock (s_family s) (s_protocol s) (s_opts s) (s_bound s) true (s_sent s))).
Definition pgm_gsi_create_from_hostname (ok : bool) : prog bool := fallible ok (mret tt).

(** [PGM_IO_STATUS_NORMAL] when [ok]. *)
Definition pgm_send (ok : bool) (data : bytes) : prog bool :=
  on_sock (λ s, MkSock (s_family s) (s_protocol s) (s_opts s) (s_bound s) (s_connected s) (if ok then data :: s_sent s else s_sent s)) ;;
  mret ok.

Definition pgm_close : prog unit := '(h, _) ← deref g_sock socks; modify (λ w, set_socks (remove h (socks w)) w).
Definition pgm_freeaddrinfo : prog unit := '(h, _) ← deref res infos; modify (λ w, set_infos (remove h (infos w)) w).
Definition pgm_error_free : prog unit := '(h, _) ← deref pgm_err errs; modify (λ w, set_errs (remove h (errs w)) w).

(** ** Shared pieces of [create_pgm_socket] and [on_startup] *)

(** The first element of an array of the address information. *)
Definition first_addr (f : addrinfo → list group_req) : prog group_req :=
  '(_, a) ← deref res infos;
  match f a with g :: _ => mret g | [] => fault end.

Definition when_not_null (var : world → option nat) (m : prog unit) : prog unit :=
  p ← gets var;
  match p with Some _ => m | None => mret tt end.

(** [if (g_sock) { pgm_close (g_sock, _); g_sock = NULL; }] *)
Definition close_g_sock : prog unit := when_not_null g_sock (pgm_close ;; modify (set_g_sock None)).

(** The code at [err_abort]. *)
Definition err_abort : prog unit :=
  close_g_sock ;;
  when_not_null res (pgm_freeaddrinfo ;; modify (set_res None)) ;;
  when_not_null pgm_err (pgm_error_free ;; modify (set_pgm_err None)).

(** [body] with its local variables, and [err_abort] after a [goto]: the function's result. *)
Definition with_abort (body : prog unit) : prog bool := λ w,
  match body (set_res None (set_pgm_err None w)) with
  | Ok (Some _, w) => Ok (Some true, w)
  | Ok (None, w) => (err_abort ;; mret false) w
  | Err e => Err e
  end.

(** [if (!call) goto err_abort;] *)
Definition must (call : prog bool) : prog unit := b ← call; if b : bool then mret tt else goto_err_abort.

Fixpoint join_groups (l : list group_req) : prog unit :=
  match l with [] => mret tt | g :: l => pgm_setsockopt PGM_JOIN_GROUP (VGroup g) ;; join_groups l end.

(** ** The programs' settings *)

Record config := MkConfig {
  g_port : Z; g_network : bytes; g_source : bytes; g_multicast_loop : bool; g_udp_encap_port : Z;
  g_max_tpdu : Z; g_max_rte : Z; g_sqns : Z; g_fec : bool; g_k : Z; g_n : Z;
}.

(** The library: its constants, which calls succeed, and the addresses found. *)
Record env := MkEnv {
  pgm_secs : Z → Z; pgm_msecs : Z → Z;
  DEFAULT_DATA_DESTINATION_PORT : Z; DEFAULT_DATA_SOURCE_PORT : Z;
  e_addrs : bytes → option addrinfo;
  e_init : bool; e_socket : bool; e_gsi : bool; e_bind : bool; e_connect : bool;
  e_thread : bool;                         (* [g_thread_create_full] *)
  e_send : nat → bool;                     (* the [k]-th [pgm_send] *)
}.

(** ** [create_pgm_socket] of pgmsend.c *)

Definition create_body (e : env) (c : config) : prog unit :=
  must (pgm_getaddrinfo (e_addrs e (g_network c))) ;;
  g0 ← first_addr ai_send_addrs;
  let sa_family := gsr_family g0 in
  (if (g_udp_encap_port c =? 0)%Z then
     must (pgm_socket (e_socket e) sa_family IPPROTO_PGM)
   else
     must (pgm_socket (e_socket e) sa_family IPPROTO_UDP) ;;
     pgm_setsockopt PGM_UDP_ENCAP_UCAST_PORT (VInt (g_udp_encap_port c)) ;;
     pgm_setsockopt PGM_UDP_ENCAP_MCAST_PORT (VInt (g_udp_encap_port c))) ;;
  pgm_setsockopt PGM_IP_ROUTER_ALERT (VInt 0) ;;
  pgm_setsockopt PGM_SEND_ONLY (VInt 1) ;;
  pgm_setsockopt PGM_MTU (VInt (g_max_tpdu c)) ;;
  pgm_setsockopt PGM_TXW_SQNS (VInt (g_sqns c)) ;;
  pgm_setsockopt PGM_TXW_MAX_RTE (VInt (g_max_rte c)) ;;
  pgm_setsockopt PGM_AMBIENT_SPM (VInt (pgm_secs e 30)) ;;
  pgm_setsockopt PGM_HEARTBEAT_SPM (VInts [pgm_msecs e 100; pgm_msecs e 100; pgm_msecs e 100; pgm_msecs e 100; pgm_msecs e 1300;
                                           pgm_secs e 7; pgm_secs e 16; pgm_secs e 25; pgm_secs e 30]) ;;
  (if g_fec c then pgm_setsockopt PGM_USE_FEC (VFec (g_n c) 0 (g_k c) true true) else mret tt) ;;
  let sa_port := if (g_port c =? 0)%Z then DEFAULT_DATA_DESTINATION_PORT e else g_port c in
  must (pgm_gsi_create_from_hostname (e_gsi e)) ;;
  g ← first_addr ai_recv_addrs;
  let scope := if is_inet6 sa_family then gsr_scope g else 0%Z in
  must (pgm_bind3 (e_bind e) (MkBinding sa_port (DEFAULT_DATA_SOURCE_PORT e) (gsr_interface g) scope)) ;;
  '(_, a) ← deref res infos;
  join_groups (ai_recv_addrs a) ;;
  s ← first_addr ai_send_addrs;
  pgm_setsockopt PGM_SEND_GROUP (VGroup s) ;;
  pgm_freeaddrinfo ;;
  pgm_setsockopt PGM_MULTICAST_LOOP (VInt (if g_multicast_loop c then 1 else 0)) ;;
  pgm_setsockopt PGM_MULTICAST_HOPS (VInt 16) ;;
  (if is_inet6 sa_family then mret tt else pgm_setsockopt PGM_TOS (VInt (Z.shiftl 46 2))) ;;
  pgm_setsockopt PGM_NOBLOCK (VInt 0) ;;
  must (pgm_connect (e_connect e)).

Definition create_pgm_socket (e : env) (c : config) : prog bool := with_abort (create_body e c).

(** ** [on_startup] of pgmrecv.c: [true] with the receiver thread created *)

Definition startup_body (e : env) (c : config) : prog unit :=
  must (pgm_getaddrinfo (e_addrs e (g_network c))) ;;
  g0 ← first_addr ai_send_addrs;
  let sa_family := gsr_family g0 in
  (if (g_udp_encap_port c =? 0)%Z then
     must (pgm_socket (e_socket e) sa_family IPPROTO_PGM)
   else
     must (pgm_socket (e_socket e) sa_family IPPROTO_UDP) ;;
     pgm_setsockopt PGM_UDP_ENCAP_UCAST_PORT (VInt (g_udp_encap_port c)) ;;
     pgm_setsockopt PGM_UDP_ENCAP_MCAST_PORT (VInt (g_udp_encap_port c))) ;;
  pgm_setsockopt PGM_IP_ROUTER_ALERT (VInt 0) ;;
  pgm_setsockopt PGM_RECV_ONLY (VInt 1) ;;
  pgm_setsockopt PGM_PASSIVE (VInt 0) ;;
  pgm_setsockopt PGM_MTU (VInt (g_max_tpdu c)) ;;
  pgm_setsockopt PGM_RXW_SQNS (VInt (g_sqns c)) ;;
  pgm_setsockopt PGM_PEER_EXPIRY (VInt (pgm_secs e 300)) ;;
  pgm_setsockopt PGM_SPMR_EXPIRY (VInt (pgm_msecs e 250)) ;;
  pgm_setsockopt PGM_NAK_BO_IVL (VInt (pgm_msecs e 50)) ;;
  pgm_setsockopt PGM_NAK_RPT_IVL (VInt (pgm_secs e 2)) ;;
  pgm_setsockopt PGM_NAK_RDATA_IVL (VInt (pgm_secs e 2)) ;;
  pgm_setsockopt PGM_NAK_DATA_RETRIES (VInt 50) ;;
  pgm_setsockopt PGM_NAK_NCF_RETRIES (VInt 50) ;;
  let sa_port := if (g_port c =? 0)%Z then DEFAULT_DATA_DESTINATION_PORT e else g_port c in
  must (pgm_gsi_create_from_hostname (e_gsi e)) ;;
  g ← first_addr ai_recv_addrs;
  let scope := if is_inet6 sa_family then gsr_scope g else 0%Z in
  must (pgm_bind3 (e_bind e) (MkBinding sa_port (DEFAULT_DATA_SOURCE_PORT e) (gsr_interface g) scope)) ;;
  '(_, a) ← deref res infos;
  join_groups (ai_recv_addrs a) ;;
  s ← first_addr ai_send_addrs;
  pgm_setsockopt PGM_SEND_GROUP (VGroup s) ;;
  pgm_freeaddrinfo ;;
  pgm_setsockopt PGM_MULTICAST_LOOP (VInt (if g_multicast_loop c then 1 else 0)) ;;
  pgm_setsockopt PGM_MULTICAST_HOPS (VInt 16) ;;
  (if is_inet6 sa_family then mret tt else pgm_setsockopt PGM_TOS (VInt (Z.shiftl 46 2))) ;;
  pgm_setsockopt PGM_NOBLOCK (VInt 1) ;;
  must (pgm_connect (e_connect e)) ;;
  must (mret (e_thread e)).

Definition on_startup (e : env) (c : config) : prog bool := with_abort (startup_body e c).

(** ** What the functions do *)

(** The world after [pgm_messages_init] and [pgm_init]. *)
Definition started : world := set_engine true (set_messages true empty_world).

(** Everything the functions obtained has been released. *)
Definition clean (w : world) : Prop := socks w = [] ∧ infos w = [] ∧ errs w = [] ∧ g_sock w = None.

(** The value that an option has, and the groups joined, in order. *)
Definition setting (o : sockopt) (s : sock) : option optval :=
  snd <$> List.find (λ p, bool_decide (p.1 = o)) (s_opts s).
Definition joined (s : sock) : list group_req :=
  rev (omap (λ p, match p with (PGM_JOIN_GROUP, VGroup g) => Some g | _ => None end) (s_opts s)).

Lemma on_sock_run fn n h s i er r pe en ms :
  on_sock fn (MkWorld n [(h, s)] i er (Some h) r pe en ms) = Ok (Some tt, MkWorld n [(h, fn s)] i er (Some h) r pe en ms).
Proof.
  unfold on_sock, mbind, prog_bind, deref. cbn [g_sock socks find]. rewrite Nat.eqb_refl.
  unfold modify, set_socks. cbn [socks update next infos errs g_sock res pgm_err engine messages]. by rewrite Nat.eqb_refl.
Qed.

Lemma close_g_sock_run n h s i er r pe en ms :
  close_g_sock (MkWorld n [(h, s)] i er (Some h) r pe en ms) = Ok (Some tt, MkWorld n [] i er None r pe en ms).
Proof.
  unfold close_g_sock, when_not_null, pgm_close, mbind, prog_bind, gets, deref. cbn [g_sock socks find]. rewrite Nat.eqb_refl.
  unfold modify, set_socks. cbn [socks remove]. by rewrite Nat.eqb_refl.
Qed.

Lemma join_groups_run l n h f p os b k t i er r pe en ms :
  join_groups l (MkWorld n [(h, MkSock f p os b k t)] i er (Some h) r pe en ms) =
  Ok (Some tt, MkWorld n [(h, MkSock f p (reverse ((λ g, (PGM_JOIN_GROUP, VGroup g)) <$> l) ++ os) b k t)] i er (Some h) r pe en ms).
Proof.
  revert os. induction l as [|g l IH]; intros os; [done|]. cbn [join_groups]. unfold mbind, prog_bind.
  unfold pgm_setsockopt. rewrite on_sock_run, IH, fmap_cons, reverse_cons, <-app_assoc. done.
Qed.

Lemma setting_joins o f p gs os b k t :
  o ≠ PGM_JOIN_GROUP →
  setting o (MkSock f p (reverse ((λ g, (PGM_JOIN_GROUP, VGroup g)) <$> gs) ++ os) b k t) = setting o (MkSock f p os b k t).
Proof.
  intros Ho. unfold setting. cbn [s_opts]. f_equal. rewrite <-fmap_reverse. induction (reverse gs) as [|g l IH]; [done|].
  cbn. by rewrite bool_decide_false.
Qed.

Lemma setting_cons o o' v f p os b k t :
  setting o (MkSock f p ((o', v) :: os) b k t) = if decide (o' = o) then Some v else setting o (MkSock f p os b k t).
Proof. unfold setting. cbn. by destruct (decide (o' = o)); [rewrite bool_decide_true|rewrite bool_decide_false]. Qed.

Lemma joined_cons o v f p os b k t :
  o ≠ PGM_JOIN_GROUP → joined (MkSock f p ((o, v) :: os) b k t) = joined (MkSock f p os b k t).
Proof. intros Ho. unfold joined. cbn. by destruct o, v. Qed.

Lemma joined_joins f p gs os b k t :
  joined (MkSock f p (reverse ((λ g, (PGM_JOIN_GROUP, VGroup g)) <$> gs) ++ os) b k t) = joined (MkSock f p os b k t) ++ gs.
Proof.
  unfold joined. cbn [s_opts]. revert os. induction gs as [|g gs IH]; intros os; [by rewrite app_nil_r|].
  rewrite fmap_cons, reverse_cons, <-app_assoc, IH. cbn. by rewrite <-app_assoc.
Qed.

(** The options of the sender, and of the receiver. *)
Definition common_wanted (c : config) (a : addrinfo) (o : sockopt) : option optval :=
  match o, ai_send_addrs a with
  | PGM_UDP_ENCAP_UCAST_PORT, _ | PGM_UDP_ENCAP_MCAST_PORT, _ =>
      if (g_udp_encap_port c =? 0)%Z then None else Some (VInt (g_udp_encap_port c))
  | PGM_IP_ROUTER_ALERT, _ => Some (VInt 0)
  | PGM_MTU, _ => Some (VInt (g_max_tpdu c))
  | PGM_SEND_GROUP, g :: _ => Some (VGroup g)
  | PGM_MULTICAST_LOOP, _ => Some (VInt (if g_multicast_loop c then 1 else 0))
  | PGM_MULTICAST_HOPS, _ => Some (VInt 16)
  | PGM_TOS, g :: _ => if is_inet6 (gsr_family g) then None else Some (VInt 184)
  | _, _ => None
  end.

Definition sender_wanted (e : env) (c : config) (a : addrinfo) (o : sockopt) : option optval :=
  match o with
  | PGM_SEND_ONLY => Some (VInt 1)
  | PGM_TXW_SQNS => Some (VInt (g_sqns c))
  | PGM_TXW_MAX_RTE => Some (VInt (g_max_rte c))
  | PGM_AMBIENT_SPM => Some (VInt (pgm_secs e 30))
  | PGM_HEARTBEAT_SPM => Some (VInts (replicate 4 (pgm_msecs e 100) ++ pgm_msecs e 1300 :: (pgm_secs e <$> [7; 16; 25; 30]%Z)))
  | PGM_USE_FEC => if g_fec c then Some (VFec (g_n c) 0 (g_k c) true true) else None
  | PGM_NOBLOCK => Some (VInt 0)
  | o => common_wanted c a o
  end.

Definition receiver_wanted (e : env) (c : config) (a : addrinfo) (o : sockopt) : option optval :=
  match o with
  | PGM_RECV_ONLY => Some (VInt 1)
  | PGM_PASSIVE => Some (VInt 0)
  | PGM_RXW_SQNS => Some (VInt (g_sqns c))
  | PGM_PEER_EXPIRY => Some (VInt (pgm_secs e 300))
  | PGM_SPMR_EXPIRY => Some (VInt (pgm_msecs e 250))
  | PGM_NAK_BO_IVL => Some (VInt (pgm_msecs e 50))
  | PGM_NAK_RPT_IVL | PGM_NAK_RDATA_IVL => Some (VInt (pgm_secs e 2))
  | PGM_NAK_DATA_RETRIES | PGM_NAK_NCF_RETRIES => Some (VInt 50)
  | PGM_NOBLOCK => Some (VInt 1)
  | o => common_wanted c a o
  end.

(** One socket, connected, bound to the port and the first receive interface, a member of
    every group, with these options and nothing sent; no other object. *)
Definition opened (wanted : sockopt → option optval) (e : env) (c : config) (a : addrinfo) (w : world) : Prop :=
  ∃ h s g, socks w = [(h, s)] ∧ g_sock w = Some h ∧ infos w = [] ∧ errs w = [] ∧
    s_connected s = true ∧ s_sent s = [] ∧
    s_protocol s = (if (g_udp_encap_port c =? 0)%Z then IPPROTO_PGM else IPPROTO_UDP) ∧
    head (ai_recv_addrs a) = Some g ∧
    s_bound s = Some (MkBinding (if (g_port c =? 0)%Z then DEFAULT_DATA_DESTINATION_PORT e else g_port c)
      (DEFAULT_DATA_SOURCE_PORT e) (gsr_interface g) (if is_inet6 (s_family s) then gsr_scope g else 0%Z)) ∧
    (∀ o, o ≠ PGM_JOIN_GROUP → setting o s = wanted o) ∧ joined s = ai_recv_addrs a.

(** What becomes of a call: no socket and nothing left behind, the socket, or a fault. *)
Definition outcome (ok last : bool) (good : world → Prop) (r : result (option bool * world)) : Prop :=
  if ok then if last then ∃ w, r = Ok (Some true, w) ∧ good w ∧ engine w = true ∧ messages w = true else r = Err Fault
  else ∃ w, r = Ok (Some false, w) ∧ clean w ∧ engine w = true ∧ messages w = true.

#[local] Ltac pgm_run :=
  cbv [create_pgm_socket create_body on_startup startup_body with_abort err_abort close_g_sock when_not_null mbind prog_bind mret prog_ret must
       goto_err_abort fault gets modify deref raise fallible pgm_getaddrinfo pgm_socket on_sock pgm_setsockopt pgm_bind3 pgm_connect
       pgm_gsi_create_from_hostname pgm_close pgm_freeaddrinfo pgm_error_free first_addr find remove update Nat.eqb set_socks set_g_sock
       set_infos set_res set_errs set_pgm_err set_next next socks infos errs g_sock res pgm_err engine messages started empty_world
       set_engine set_messages ai_recv_addrs ai_send_addrs s_family s_protocol s_opts s_bound s_connected s_sent is_inet6 gsr_family].

#[local] Ltac pgm_cleaned := eexists; split; [reflexivity|]; split; [by repeat split|done].

#[local] Ltac pgm_opened :=
  eexists; split; [reflexivity|]; split; [|done]; do 3 eexists;
  cbn [socks g_sock infos errs s_connected s_sent s_protocol s_bound s_family head ai_recv_addrs];
  repeat match goal with H : _ = true |- _ => rewrite !H | H : _ = false |- _ => rewrite !H end; split_and!; try reflexivity;
  [ intros o Ho; rewrite ?setting_cons, setting_joins, ?setting_cons by done; destruct o; try done;
    cbn; repeat match goal with H : _ = true |- _ => rewrite H | H : _ = false |- _ => rewrite H end; done
  | rewrite ?joined_cons, joined_joins, ?joined_cons by done; done ].

Lemma create_cases e c a g0 sends g recvs :
  e_addrs e (g_network c) = Some a → ai_send_addrs a = g0 :: sends → ai_recv_addrs a = g :: recvs →
  outcome (e_socket e && e_gsi e && e_bind e) (e_connect e) (opened (sender_wanted e c a) e c a) (create_pgm_socket e c started).
Proof.
  intros Ha Hs Hr. destruct a as [rs ss]. cbn in Hs, Hr. subst. unfold create_pgm_socket, with_abort, create_body. rewrite Ha.
  destruct (g_udp_encap_port c =? 0)%Z eqn:Eu.
  all: destruct (e_socket e); cbn [andb outcome]; [|pgm_run; pgm_cleaned].
  all: destruct (g_fec c) eqn:Ef.
  all: destruct (e_gsi e); cbn [andb outcome]; [|pgm_run; pgm_cleaned].
  all: destruct (e_bind e); cbn [andb outcome]; [|pgm_run; pgm_cleaned].
  all: destruct g0 as [? [] ? ?]; pgm_run; rewrite join_groups_run; pgm_run.
  all: destruct (e_connect e); cbn [andb outcome]; [|reflexivity].
  all: pgm_opened.
Qed.

Lemma startup_cases e c a g0 sends g recvs :
  e_addrs e (g_network c) = Some a → ai_send_addrs a = g0 :: sends → ai_recv_addrs a = g :: recvs →
  outcome (e_socket e && e_gsi e && e_bind e) (e_connect e && e_thread e) (opened (receiver_wanted e c a) e c a) (on_startup e c started).
Proof.
  intros Ha Hs Hr. destruct a as [rs ss]. cbn in Hs, Hr. subst. unfold on_startup, with_abort, startup_body. rewrite Ha.
  destruct (g_udp_encap_port c =? 0)%Z eqn:Eu.
  all: destruct (e_socket e); cbn [andb outcome]; [|pgm_run; pgm_cleaned].
  all: destruct (e_gsi e); cbn [andb outcome]; [|pgm_run; pgm_cleaned].
  all: destruct (e_bind e); cbn [andb outcome]; [|pgm_run; pgm_cleaned].
  all: destruct g0 as [? [] ? ?]; pgm_run; rewrite join_groups_run; pgm_run.
  all: destruct (e_connect e); cbn [andb outcome]; [|reflexivity].
  all: destruct (e_thread e); cbn [andb outcome]; [|reflexivity].
  all: pgm_opened.
Qed.

(** [pgm_getaddrinfo] fails. *)
Lemma create_no_address e c last good :
  e_addrs e (g_network c) = None → outcome false last good (create_pgm_socket e c started).
Proof. intros Ha. unfold create_pgm_socket, with_abort, create_body. rewrite Ha. pgm_run. pgm_cleaned. Qed.
Lemma startup_no_address e c last good :
  e_addrs e (g_network c) = None → outcome false last good (on_startup e c started).
Proof. intros Ha. unfold on_startup, with_abort, startup_body. rewrite Ha. pgm_run. pgm_cleaned. Qed.

(** ** [main] of pgmsend.c *)

(** What [getopt] returns: the option's letter, with its argument. *)
Abbreviation option_arg := (Z * bytes)%type.
Definition letter (c : string) : Z := hd 0%Z (ascii_bytes c).

Definition send_config : config := MkConfig 0 [] [] false 0 1500 400000 100 false 8 255.

(** The options, in order: the settings, or the exit code of [-i], [-h] and [-?]. *)
Fixpoint parse_send (args : list option_arg) (c : config) : config + Z :=
  match args with
  | [] => inl c
  | (o, optarg) :: args =>
      let 'MkConfig port network source loop udp tpdu rte sqns fec k n := c in
      if (o =? letter "n")%Z then parse_send args (MkConfig port optarg source loop udp tpdu rte sqns fec k n)
      else if (o =? letter "s")%Z then parse_send args (MkConfig (atoi optarg) network source loop udp tpdu rte sqns fec k n)
      else if (o =? letter "p")%Z then parse_send args (MkConfig port network source loop (atoi optarg) tpdu rte sqns fec k n)
      else if (o =? letter "r")%Z then parse_send args (MkConfig port network source loop udp tpdu (atoi optarg) sqns fec k n)
      else if (o =? letter "f")%Z then parse_send args (MkConfig port network source loop udp tpdu rte sqns true k n)
      else if (o =? letter "K")%Z then parse_send args (MkConfig port network source loop udp tpdu rte sqns fec (atoi optarg) n)
      else if (o =? letter "N")%Z then parse_send args (MkConfig port network source loop udp tpdu rte sqns fec k (atoi optarg))
      else if (o =? letter "l")%Z then parse_send args (MkConfig port network source true udp tpdu rte sqns fec k n)
      else if (o =? letter "i")%Z then inr 0%Z
      else if (o =? letter "h")%Z || (o =? letter "?")%Z then inr 1%Z
      else parse_send args c
  end.

Definition str_data : bytes := ascii_bytes "sunquan hello world!" ++ [0%Z].
Definition nCounter : nat := Z.to_nat 100000.

(** [while (k <= nCounter)], with [rounds] rounds left; the sends that failed are reported. *)
Fixpoint send_loop (e : env) (rounds k : nat) : prog (list nat) :=
  match rounds with
  | O => mret []
  | S rounds =>
      ok ← pgm_send (e_send e k) str_data;
      failed ← send_loop e rounds (S k);
      mret (if ok : bool then failed else k :: failed)
  end.

(** The exit code, and the indices of the sends that failed. *)
Definition main_send (e : env) (args : list option_arg) : prog (Z * list nat) :=
  modify (set_messages true) ;;
  (if e_init e then
     modify (set_engine true) ;;
     match parse_send args send_config with
     | inr code => modify (set_messages false) ;; mret (code, [])
     | inl c =>
         if g_fec c && ((g_k c =? 0)%Z || (g_n c =? 0)%Z) then modify (set_messages false) ;; mret (1%Z, [])
         else
           created ← create_pgm_socket e c;
           failed ← (if created : bool then send_loop e (S nCounter) 0 else mret []);
           close_g_sock ;;
           modify (set_engine false) ;;
           modify (set_messages false) ;;
           mret (0%Z, failed)
     end
   else
     raise ;; pgm_error_free ;; modify (set_messages false) ;; mret (1%Z, [])).

(** ** The sender *)

(** The addresses that [pgm_getaddrinfo] finds are not empty. *)
Definition addrs_ok (e : env) : Prop :=
  ∀ n a, e_addrs e n = Some a → ai_send_addrs a ≠ [] ∧ ai_recv_addrs a ≠ [].

(** Every call before [pgm_connect] succeeds. *)
Definition early_ok (e : env) (c : config) : bool :=
  bool_decide (is_Some (e_addrs e (g_network c))) && (e_socket e && e_gsi e && e_bind e).

Definition fec_ok (c : config) : bool := negb (g_fec c && ((g_k c =? 0)%Z || (g_n c =? 0)%Z)).

Lemma send_loop_run e n k m h f p os b cn t i er r pe en ms :
  ∃ t', send_loop e n k (MkWorld m [(h, MkSock f p os b cn t)] i er (Some h) r pe en ms) =
    Ok (Some (filter (λ k, e_send e k = false) (seq k n)), MkWorld m [(h, MkSock f p os b cn t')] i er (Some h) r pe en ms) ∧
    t' = replicate (length (filter (λ k, e_send e k = true) (seq k n))) str_data ++ t.
Proof.
  revert k t. induction n as [|n IH]; intros k t; [by eexists|]. cbn [send_loop seq].
  unfold pgm_send, mbind, prog_bind. rewrite on_sock_run. unfold mret, prog_ret.
  cbn [s_family s_protocol s_opts s_bound s_connected s_sent]. edestruct IH as (t' & -> & ->). rewrite !filter_cons. cbv beta.
  destruct (e_send e k); eexists; (split; [reflexivity|]); [|done].
  rewrite decide_True by done. cbn [length replicate]. rewrite replicate_cons_app. by rewrite <-app_assoc.
Qed.

#[local] Opaque nCounter.

Lemma create_outcome e c :
  addrs_ok e →
  ∃ good, (∀ w, good w → ∃ h s, socks w = [(h, s)] ∧ g_sock w = Some h ∧ infos w = [] ∧ errs w = []) ∧
    outcome (early_ok e c) (e_connect e) good (create_pgm_socket e c started).
Proof.
  intros Ha. unfold early_ok. destruct (e_addrs e (g_network c)) as [a|] eqn:E.
  - destruct (Ha _ _ E) as [H1 H2]. destruct (ai_send_addrs a) as [|g0 ss] eqn:Es; [done|].
    destruct (ai_recv_addrs a) as [|g rs] eqn:Er; [done|]. eexists. split; [|by eapply create_cases].
    intros w (h & s & ? & ? & ? & ? & ? & _). by exists h, s.
  - exists (λ _, False). split; [done|]. rewrite bool_decide_false by (by intros []). by apply create_no_address.
Qed.

(** A run whose options are accepted. *)
Lemma sender_runs e args c :
  addrs_ok e → e_init e = true → parse_send args send_config = inl c → fec_ok c = true →
  match main_send e args empty_world with
  | Ok (r, w) =>
      clean w ∧ engine w = false ∧ messages w = false ∧ (early_ok e c = true → e_connect e = true) ∧
      r = Some (0%Z, if early_ok e c then filter (λ k, e_send e k = false) (seq 0 (S nCounter)) else [])
  | Err x => x = Fault ∧ early_ok e c = true ∧ e_connect e = false
  end.
Proof.
  intros Ha Hi Hp Hf. unfold main_send, mbind, prog_bind, modify. rewrite Hi, Hp. unfold fec_ok in Hf. apply negb_true_iff in Hf. rewrite Hf.
  change (set_engine true (set_messages true empty_world)) with started.
  destruct (create_outcome e c Ha) as (good & Hgood & Ho). destruct (early_ok e c); cbn [outcome] in Ho.
  - destruct (e_connect e); [|by rewrite Ho]. destruct Ho as (w & -> & Hg & He & Hm).
    destruct (Hgood w Hg) as (h & [] & Hs & Hgs & Hin & Her). destruct w as [nx ss ii ee gg rr pp en ms]. cbn in *. subst.
    edestruct (send_loop_run e (S nCounter) 0) as (t' & E & _). cbn [send_loop] in E. rewrite E. by rewrite close_g_sock_run.
  - destruct Ho as (w & -> & (Hs & Hin & Her & Hgs) & He & Hm). destruct w as [nx ss ii ee gg rr pp en ms]. cbn in *. by subst.
Qed.

(** [main] returns [code] before any socket is made, with the engine as [running]. *)
Definition ends_early (r : result (option (Z * list nat) * world)) (code : Z) (running : bool) : Prop :=
  ∃ w, r = Ok (Some (code, []), w) ∧ clean w ∧ engine w = running ∧ messages w = false.

(** C21. The sender, for every way the PGM library can fail and every list of options, when
    the addresses that [pgm_getaddrinfo] finds have a group to send to and one to receive
    from.  If [pgm_init] fails, it exits with 1, having released its error.  If the options
    end the program, [-i] with 0, [-h], an unknown option or parameters of the error
    correction that are 0 with 1, it has released everything but has not shut the engine
    down.  Otherwise, unless [pgm_connect] is the call that fails, it runs to its end, has
    released the socket, the addresses and the errors it obtained and has shut the engine
    down; when the socket could be made it has called [pgm_send] for [0..nCounter] and
    reported exactly the failed ones.  When [pgm_connect] fails it frees the addresses a
    second time. *)
Theorem sender_lifecycle e args :
  addrs_ok e →
  let r := main_send e args empty_world in
  if e_init e then
    match parse_send args send_config with
    | inr code => ends_early r code true
    | inl c =>
        if fec_ok c then
          match r with
          | Ok (r, w) =>
              clean w ∧ engine w = false ∧ messages w = false ∧ (early_ok e c = true → e_connect e = true) ∧
              r = Some (0%Z, if early_ok e c then filter (λ k, e_send e k = false) (seq 0 (S nCounter)) else [])
          | Err x => x = Fault ∧ early_ok e c = true ∧ e_connect e = false
          end
        else ends_early r 1 true
    end
  else ends_early r 1 false.
Proof.
  intros Ha r. destruct (e_init e) eqn:Hi.
  - destruct (parse_send args send_config) as [c|code] eqn:Hp.
    + destruct (fec_ok c) eqn:Hf; [by apply sender_runs|]. unfold fec_ok in Hf. apply negb_false_iff in Hf.
      eexists. unfold r, main_send, mbind, prog_bind, modify. rewrite Hi, Hp, Hf. by repeat split.
    + eexists. unfold r, main_send, mbind, prog_bind, modify. rewrite Hi, Hp. by repeat split.
  - eexists. unfold r, main_send, mbind, prog_bind, modify. rewrite Hi. by repeat split.
Qed.

(** A library in which every call works and finds one group, but for [pgm_connect]. *)
Definition some_library (connect : bool) : env :=
  let g := MkGroup 2 AF_INET [239; 192; 0; 1]%Z 0 in
  MkEnv (λ s, s * 1000000)%Z (λ s, s * 1000)%Z 7500 0 (λ _, Some (MkInfo [g] [g])) true true true true connect true (λ _, true).

Lemma sender_lifecycle_witness :
  let args := [(letter "n", ascii_bytes "eth0;239.192.0.1"); (letter "p", ascii_bytes "5555")] in
  (∃ failed w, main_send (some_library true) args empty_world = Ok (Some (0%Z, failed), w) ∧ clean w) ∧
  main_send (some_library false) args empty_world = Err Fault ∧
  (∃ w, main_send (some_library true) [(letter "h", [])] empty_world = Ok (Some (1%Z, []), w) ∧ clean w ∧
     engine w = true ∧ messages w = false).
Proof.
  intros args. assert (Ha : ∀ b, addrs_ok (some_library b)) by (intros b n a H; injection H as <-; split; discriminate).
  split; [|split].
  - pose proof (sender_lifecycle (some_library true) args (Ha true)) as H. cbv zeta in H. revert H.
    generalize (main_send (some_library true) args empty_world). intros r H.
    destruct r as [[r w]|x]; [|destruct H as (_ & _ & H); discriminate H].
    destruct H as (Hc & _ & _ & _ & ->). by eexists _, _.
  - pose proof (sender_lifecycle (some_library false) args (Ha false)) as H. cbv zeta in H. revert H.
    generalize (main_send (some_library false) args empty_world). intros r H.
    destruct r as [[r w]|x]; [|by destruct H as (-> & _)].
    destruct H as (_ & _ & _ & H & _). discriminate (H eq_refl).
  - exact (sender_lifecycle (some_library true) [(letter "h", [])] (Ha true)).
Defined.
