(* ===== verification/PgmRecv.v ===== *)
(** * The PGM receiver

    Languages/c/openpgm_test/pgmrecv.c as it is built (with [CONFIG_HAVE_EPOLL], on Unix):
    [main] runs a GLib loop in which [on_startup] opens the socket and creates
    [receiver_thread]; the thread waits on the socket and on a pipe, and hands what it
    receives to [on_msgv]; after the loop [main] sets [g_quit], writes to the pipe and
    joins the thread.  The two threads interleave call by call; what the library, GLib and
    the kernel answer are inputs. *)

From S2P Require Import Prelude CText Pgm.
From Stdlib Require Import ZArith Lia.

(** ** [on_msgv] *)

(** A fragment is its data; a message ([msgv_skb]) is its fragments. *)
Abbreviation skb := bytes.
Abbreviation message := (list skb).

Inductive printed :=
  | Fragmented (i : Z) (buf : bytes) (apdu_len : Z)       (* "==>" *)
  | Counted (iCounter : Z) (buf : bytes).                 (* "%ld data = <%s>" *)

Definition apdu_len (m : message) : Z := Z.of_nat (sum_list (length <$> m)).

(** [strncpy(buf, src, n)] into a buffer with contents [buf]. *)
Definition strncpy (n : nat) (src buf : bytes) : bytes :=
  let s := until_nul (take n src) in
  splice 0 (s ++ replicate (n - length s) 0%Z) buf.

(** The string in [buf] after the copy of the first fragment; [junk]: what [buf] held. *)
Definition first_fragment (junk : bytes) (pskb : skb) : result bytes :=
  let buflen := Nat.min (Z.to_nat 2048 - 1) (length pskb) in
  let buf := strncpy buflen pskb junk in
  if (buflen <? length buf)%nat then Ok (until_nul (<[buflen := 0%Z]> buf)) else Err Fault.

(** The [do] loop from message [i] on: the counter, what was printed. *)
Fixpoint on_msgv (junk : bytes) (i : Z) (msgv : list message) (len : Z) (iCounter : Z) : result (Z * list printed) :=
  match msgv with
  | (pskb :: frags) :: msgv =>
      let n := u64 (apdu_len (pskb :: frags)) in
      buf ← first_fragment junk pskb;
      let out := (match frags with [] => [] | _ => [Fragmented i buf n] end) ++
                 (if (Z.rem iCounter 1000 =? 0)%Z then [Counted iCounter buf] else []) in
      let iCounter := i64 (iCounter + 1) in
      let len := u64 (len - n) in
      if (len =? 0)%Z then Ok (iCounter, out)
      else '(iCounter, rest) ← on_msgv junk (u32 (i + 1)) msgv len iCounter; Ok (iCounter, out ++ rest)
  | _ => Err Fault
  end.

(** ** The state of the program *)

(** [main]: in the loop with [on_startup] due, in the loop, before [g_quit = TRUE], before
    [write], in [g_thread_join], before the rest of the clean-up, returned. *)
Inductive mpc := MStartup | MLoop | MQuit | MWrite | MJoin | MCleanup | MEnd.

(** [receiver_thread]: before [epoll_create], [pgm_epoll_ctl], [epoll_ctl], [pgm_recvmsgv],
    in [epoll_wait], at the loop's condition, returned. *)
Inductive tpc := TCreate | TAddSock | TAddPipe | TRecv | TWait (timeout : Z) | TCheck | TEnd.

Record state := MkState {
  wrld : world;
  g_quit : bool;
  g_quit_pipe : option nat;                (* open, with the bytes in it *)
  g_loop : option bool;                    (* allocated, and running *)
  main : mpc;
  g_thread : option tpc;
  rx_sock : nat;
  efds : nat;                              (* open epoll descriptors *)
  setup_failed : bool;                     (* the thread gave up after [epoll_create] *)
  counter : Z;                             (* iCounter *)
  out : list printed;
}.

Definition set_main (m : mpc) (s : state) : state :=
  MkState (wrld s) (g_quit s) (g_quit_pipe s) (g_loop s) m (g_thread s) (rx_sock s) (efds s) (setup_failed s) (counter s) (out s).
Definition set_thread (t : tpc) (s : state) : state :=
  MkState (wrld s) (g_quit s) (g_quit_pipe s) (g_loop s) (main s) (Some t) (rx_sock s) (efds s) (setup_failed s) (counter s) (out s).
Definition set_efds (n : nat) (s : state) : state :=
  MkState (wrld s) (g_quit s) (g_quit_pipe s) (g_loop s) (main s) (g_thread s) (rx_sock s) n (setup_failed s) (counter s) (out s).
Definition set_loop (l : option bool) (s : state) : state :=
  MkState (wrld s) (g_quit s) (g_quit_pipe s) l (main s) (g_thread s) (rx_sock s) (efds s) (setup_failed s) (counter s) (out s).
Definition set_failed (b : bool) (s : state) : state :=
  MkState (wrld s) (g_quit s) (g_quit_pipe s) (g_loop s) (main s) (g_thread s) (rx_sock s) (efds s) b (counter s) (out s).
Definition set_received (n : Z) (o : list printed) (s : state) : state :=
  MkState (wrld s) (g_quit s) (g_quit_pipe s) (g_loop s) (main s) (g_thread s) (rx_sock s) (efds s) (setup_failed s) n o.

(** [g_main_loop_quit(g_loop)] *)
Definition g_main_loop_quit (s : state) : result state :=
  match g_loop s with Some _ => Ok (set_loop (Some false) s) | None => Err Fault end.

(** ** [receiver_thread] *)

(** The answer of [pgm_recvmsgv]; [STATUS_OTHER]: an error, a reset, the end of a session. *)
Inductive status :=
  | STATUS_NORMAL (msgv : list message) (len : Z)
  | STATUS_TIMER_PENDING (tv_sec tv_usec : Z)
  | STATUS_RATE_LIMITED (tv_sec tv_usec : Z)
  | STATUS_WOULD_BLOCK
  | STATUS_OTHER.

(** The time-out of [epoll_wait], an [int] of milliseconds. *)
Definition wait_ms (tv_sec tv_usec : Z) : Z := i32 (tv_sec * 1000 + Z.quot tv_usec 1000).

(** What the call of the thread's turn answers: success, a status, an event of the socket
    or the time-out; [i_junk]: what the stack held. *)
Record input := MkInput { i_ok : bool; i_status : status; i_ready : bool; i_junk : bytes }.

Definition rx_live (s : state) : result unit :=
  match find (rx_sock s) (socks (wrld s)) with Some _ => Ok tt | None => Err Fault end.

(** The next call of the thread; [None]: it blocks, or has returned.  An error object of
    [pgm_recvmsgv] lives only between this call and the branch that prints and frees it, and
    is not part of the state. *)
Definition thread_step (i : input) (s : state) : result (option state) :=
  match g_thread s with
  | Some TCreate =>
      if i_ok i then Ok (Some (set_thread TAddSock (set_efds (S (efds s)) s)))
      else s ← g_main_loop_quit s; Ok (Some (set_thread TEnd s))
  | Some TAddSock =>
      rx_live s ;;
      if i_ok i then Ok (Some (set_thread TAddPipe s))
      else s ← g_main_loop_quit s; Ok (Some (set_failed true (set_thread TEnd s)))
  | Some TAddPipe =>
      match g_quit_pipe s with
      | None => Err Fault
      | Some _ =>
          if i_ok i then Ok (Some (set_thread TRecv s))
          else s ← g_main_loop_quit s; Ok (Some (set_failed true (set_thread TEnd s)))
      end
  | Some TRecv =>
      rx_live s ;;
      match i_status i with
      | STATUS_NORMAL msgv len =>
          '(n, o) ← on_msgv (i_junk i) 0 msgv len (counter s);
          Ok (Some (set_thread TCheck (set_received n (out s ++ o) s)))
      | STATUS_TIMER_PENDING sec usec | STATUS_RATE_LIMITED sec usec => Ok (Some (set_thread (TWait (wait_ms sec usec)) s))
      | STATUS_WOULD_BLOCK => Ok (Some (set_thread (TWait (-1)) s))
      | STATUS_OTHER => Ok (Some (set_thread TCheck s))
      end
  | Some (TWait _) =>
      match g_quit_pipe s with
      | None => Err Fault
      | Some unread => if i_ready i || (0 <? unread)%nat then Ok (Some (set_thread TCheck s)) else Ok None
      end
  | Some TCheck =>
      if g_quit s then Ok (Some (set_thread TEnd (set_efds (pred (efds s)) s))) else Ok (Some (set_thread TRecv s))
  | Some TEnd | None => Ok None
  end.

(** ** [main] *)

Definition run_prog {A} (m : prog A) (w : world) : result (A * world) :=
  match m w with Ok (Some a, w) => Ok (a, w) | Ok (None, _) => Err Fault | Err e => Err e end.

(** The next call of [main]; [None]: the loop runs, the join waits, or it has returned.
    [g_thread_join] of a null pointer is a warning. *)
Definition main_step (e : env) (c : config) (s : state) : result (option state) :=
  match main s with
  | MStartup =>
      '(created, w) ← run_prog (on_startup e c) (wrld s);
      let s := MkState w (g_quit s) (g_quit_pipe s) (g_loop s) MLoop (g_thread s) (rx_sock s) (efds s) (setup_failed s) (counter s) (out s) in
      if created : bool then
        match g_sock w with
        | Some h => Ok (Some (MkState w (g_quit s) (g_quit_pipe s) (g_loop s) MLoop (Some TCreate) h (efds s) (setup_failed s) (counter s) (out s)))
        | None => Err Fault
        end
      else s ← g_main_loop_quit s; Ok (Some s)
  | MLoop =>
      match g_loop s with
      | Some false => Ok (Some (set_main MQuit s))
      | Some true => Ok None
      | None => Err Fault
      end
  | MQuit =>
      Ok (Some (MkState (wrld s) true (g_quit_pipe s) (g_loop s) MWrite (g_thread s) (rx_sock s) (efds s) (setup_failed s) (counter s) (out s)))
  | MWrite =>
      match g_quit_pipe s with
      | Some n => Ok (Some (MkState (wrld s) (g_quit s) (Some (S n)) (g_loop s) MJoin (g_thread s) (rx_sock s) (efds s) (setup_failed s) (counter s) (out s)))
      | None => Err AssertFail
      end
  | MJoin => match g_thread s with None | Some TEnd => Ok (Some (set_main MCleanup s)) | _ => Ok None end
  | MCleanup =>
      '(_, w) ← run_prog (close_g_sock ;; modify (set_engine false) ;; modify (set_messages false)) (wrld s);
      Ok (Some (MkState w (g_quit s) None None MEnd (g_thread s) (rx_sock s) (efds s) (setup_failed s) (counter s) (out s)))
  | MEnd => Ok None
  end.

(** [on_signal], dispatched by the loop.  [main] does not install it: the calls of
    [pgm_signal_install] are commented out. *)
Definition on_signal (s : state) : result (option state) :=
  match main s with MLoop => s ← g_main_loop_quit s; Ok (Some s) | _ => Ok None end.

Inductive turn := Main | Thread (i : input) | Signal.

Definition step (e : env) (c : config) (installed : bool) (t : turn) (s : state) : result (option state) :=
  match t with
  | Main => main_step e c s
  | Thread i => thread_step i s
  | Signal => if installed then on_signal s else Ok None
  end.

Definition recv_config : config := MkConfig 0 [] [] false 0 1500 0 100 false 0 0.

Fixpoint parse_recv (args : list option_arg) (c : config) : config + Z :=
  match args with
  | [] => inl c
  | (o, optarg) :: args =>
      let 'MkConfig port network source loop udp tpdu rte sqns fec k n := c in
      if (o =? letter "n")%Z then parse_recv args (MkConfig port optarg source loop udp tpdu rte sqns fec k n)
      else if (o =? letter "a")%Z then parse_recv args (MkConfig port network optarg loop udp tpdu rte sqns fec k n)
      else if (o =? letter "s")%Z then parse_recv args (MkConfig (atoi optarg) network source loop udp tpdu rte sqns fec k n)
      else if (o =? letter "p")%Z then parse_recv args (MkConfig port network source loop (atoi optarg) tpdu rte sqns fec k n)
      else if (o =? letter "l")%Z then parse_recv args (MkConfig port network source true udp tpdu rte sqns fec k n)
      else if (o =? letter "i")%Z then inr 0%Z
      else if (o =? letter "h")%Z || (o =? letter "?")%Z then inr 1%Z
      else parse_recv args c
  end.

(** [main] up to [g_main_loop_run]: an exit code, or the settings and the state in the loop. *)
Definition main_start (e : env) (pipe_ok : bool) (args : list option_arg) : result (Z * world + config * state) :=
  if e_init e then
    match parse_recv args recv_config with
    | inr code => Ok (inl (code, set_engine true empty_world))
    | inl c => if pipe_ok then Ok (inr (c, MkState started false (Some 0) (Some true) MStartup None 0 0 false 0 [])) else Err AssertFail
    end
  else '(_, w) ← run_prog (raise ;; pgm_error_free) (set_messages true empty_world); Ok (inl (1%Z, set_messages false w)).

(** ** The messages *)

Lemma first_fragment_ok junk p :
  length junk = Z.to_nat 2048 → first_fragment junk p = Ok (until_nul (take (Z.to_nat 2047) p)).
Proof.
  intros Hj. unfold first_fragment, strncpy. replace (Z.to_nat 2048 - 1) with (Z.to_nat 2047) by lia.
  set (n := Z.to_nat 2047) in *. assert (Hn : length junk = S n) by lia. clearbody n. clear Hj. set (k := Nat.min n (length p)).
  assert (Ek : take k p = take n p) by (unfold k; destruct (decide (n ≤ length p)); [by rewrite Nat.min_l|rewrite Nat.min_r, !take_ge by lia; done]).
  rewrite Ek. set (s := until_nul (take n p)).
  assert (Hs : length s ≤ k) by (pose proof (length_until_nul (take n p)); unfold s; rewrite length_take in *; lia).
  assert (Hl : length (s ++ replicate (k - length s) 0%Z) = k) by (rewrite length_app, length_replicate; lia).
  unfold splice. rewrite take_0, Hl. cbn [app Nat.add]. set (z := s ++ replicate (k - length s) 0%Z) in *. rewrite length_app, Hl, length_drop.
  destruct (Nat.ltb_spec k (k + (length junk - k))); [|lia]. f_equal.
  destruct (drop k junk) as [|x r] eqn:Ed; [apply (f_equal length) in Ed; rewrite length_drop in Ed; simpl in Ed; lia|].
  rewrite insert_app_r_alt by lia. rewrite Hl, Nat.sub_diag. cbn [insert list_insert]. rewrite until_nul_app_nul. unfold z.
  apply until_nul_zeros, until_nul_idem.
Qed.

(** What one message prints. *)
Definition report (i cnt : Z) (m : message) : list printed :=
  match m with
  | [] => []
  | pskb :: frags =>
      let buf := until_nul (take (Z.to_nat 2047) pskb) in
      (match frags with [] => [] | _ => [Fragmented i buf (apdu_len m)] end) ++
      (if (Z.rem cnt 1000 =? 0)%Z then [Counted cnt buf] else [])
  end.

Fixpoint reports (i cnt : Z) (a : list message) : Z * list printed :=
  match a with
  | [] => (cnt, [])
  | m :: a => let r := reports (u32 (i + 1)) (i64 (cnt + 1)) a in (r.1, report i cnt m ++ r.2)
  end.

Definition total (a : list message) : Z := foldr (λ m z, apdu_len m + z)%Z 0%Z a.

(** Messages that have bytes. *)
Definition real_message (m : message) : Prop := m ≠ [] ∧ (0 < apdu_len m)%Z.

Lemma total_nonneg a : (0 ≤ total a)%Z.
Proof. induction a as [|m a IH]; simpl; [lia|]. unfold apdu_len. lia. Qed.

Lemma total_app a b : total (a ++ b) = (total a + total b)%Z.
Proof. unfold total. induction a as [|m a IH]; simpl; [done|]. rewrite IH. lia. Qed.

Lemma on_msgv_prefix junk a rest i len cnt :
  length junk = Z.to_nat 2048 → a ≠ [] → Forall real_message a → total a = len → (len < 2 ^ 64)%Z →
  on_msgv junk i (a ++ rest) len cnt = Ok (reports i cnt a).
Proof.
  intros Hj. revert i len cnt. induction a as [|m a IH]; [done|]. intros i len cnt _ [[Hm Hp] Ha]%Forall_cons Hlen Hb.
  destruct m as [|p fr]; [done|]. pose proof (total_nonneg a). cbn [total foldr] in Hlen. fold (total a) in Hlen.
  cbn [app on_msgv]. rewrite (wrap_small 64 (apdu_len _)) by lia. rewrite first_fragment_ok by done. cbn [mbind result_bind].
  rewrite (wrap_small 64) by lia. destruct a as [|m' a].
  - cbn in Hlen. destruct (Z.eqb_spec (len - apdu_len (p :: fr)) 0); [|lia]. cbn [reports fst snd]. by rewrite app_nil_r.
  - assert (0 < total (m' :: a))%Z.
    { apply Forall_cons in Ha as [[_ Hp'] _]. pose proof (total_nonneg a). cbn [total foldr]. fold (total a). lia. }
    destruct (Z.eqb_spec (len - apdu_len (p :: fr)) 0); [lia|]. rewrite IH by (done || lia). done.
Qed.

Lemma on_msgv_overrun junk msgv i len cnt :
  length junk = Z.to_nat 2048 → Forall real_message msgv → (total msgv < 2 ^ 64)%Z →
  (∀ a, a `prefix_of` msgv → a ≠ [] → len ≠ u64 (total a)) → (0 ≤ len < 2 ^ 64)%Z →
  on_msgv junk i msgv len cnt = Err Fault.
Proof.
  intros Hj. revert i len cnt. induction msgv as [|m msgv IH]; intros i len cnt Hr Ht Hn Hl; [done|].
  apply Forall_cons in Hr as [[Hm Hp] Hr]. destruct m as [|p fr]; [done|]. pose proof (total_nonneg msgv) as H0.
  cbn [total foldr] in Ht. fold (total msgv) in Ht. cbn [on_msgv]. rewrite (wrap_small 64 (apdu_len _)) by lia.
  rewrite first_fragment_ok by done. cbn [mbind result_bind]. pose proof (wrap_range 64 (len - apdu_len (p :: fr)) ltac:(lia)) as Hw.
  destruct (Z.eqb_spec (u64 (len - apdu_len (p :: fr))) 0) as [E|E].
  - exfalso. apply (Hn [p :: fr]); [by exists msgv|done|]. cbn [total foldr]. rewrite Z.add_0_r.
    unfold wrap in *. apply Z.mod_divide in E; [|lia]. destruct E as [k E]. rewrite (Z.mod_small (apdu_len _)) by lia.
    assert (k = 0)%Z by nia. lia.
  - rewrite IH; [done|done|lia| |lia]. intros a [r ->] Ha Heq. apply (Hn ((p :: fr) :: a)); [by exists r|done|].
    cbn [total foldr]. fold (total a). unfold wrap in *. rewrite <-Zplus_mod_idemp_r, <-Heq, Zplus_mod_idemp_r.
    rewrite Z.add_comm, Z.sub_add. by rewrite Z.mod_small.
Qed.

Lemma reports_imap i cnt a :
  (0 ≤ i)%Z → (i + Z.of_nat (length a) < 2 ^ 32)%Z → (0 ≤ cnt)%Z → (cnt + Z.of_nat (length a) < 2 ^ 63)%Z →
  reports i cnt a = ((cnt + Z.of_nat (length a))%Z, concat (imap (λ k m, report (i + Z.of_nat k) (cnt + Z.of_nat k) m) a)).
Proof.
  revert i cnt. induction a as [|m a IH]; intros i cnt Hi Hil Hc Hcl; [by rewrite Z.add_0_r|]. cbn [length] in *.
  cbn [reports]. rewrite (wrap_small 32), (sgn_small 64) by lia. rewrite IH by lia. cbn [fst snd imap concat].
  f_equal; [lia|]. rewrite !Z.add_0_r. f_equal. f_equal. apply imap_ext. intros k x _. simpl. f_equal; lia.
Qed.

(** C20. [on_msgv], given the number of bytes that [pgm_recvmsgv] reports: when they are the
    bytes of the first messages of the array it handles exactly these, in order (each
    counted once, its first fragment, cut to 2047 bytes, printed for every thousandth), and
    never writes outside its 2048-byte buffer; any other number makes it run past the
    messages received. *)
Theorem on_msgv_exact junk msgv len cnt :
  length junk = Z.to_nat 2048 → Forall real_message msgv → (total msgv < 2 ^ 64)%Z → length msgv < Z.to_nat (2 ^ 31) →
  (0 ≤ cnt < 2 ^ 62)%Z → (0 ≤ len < 2 ^ 64)%Z →
  (∀ a, a `prefix_of` msgv → a ≠ [] → total a = len →
    on_msgv junk 0 msgv len cnt =
    Ok ((cnt + Z.of_nat (length a))%Z, concat (imap (λ k m, report (Z.of_nat k) (cnt + Z.of_nat k) m) a))) ∧
  ((∀ a, a `prefix_of` msgv → a ≠ [] → total a ≠ len) → on_msgv junk 0 msgv len cnt = Err Fault).
Proof.
  intros Hj Hr Ht Hl Hc Hlen. split.
  - intros a [rest ->] Ha Hta. apply Forall_app in Hr as [Hr _]. rewrite length_app in Hl.
    rewrite (on_msgv_prefix junk a rest) by (done || lia). by rewrite reports_imap by lia.
  - intros Hn. apply on_msgv_overrun; [done..| |done]. intros a Hp Ha. intros ->. apply (Hn a Hp Ha).
    symmetry. apply wrap_small. split; [apply total_nonneg|]. destruct Hp as [r ->]. clear -Ht.
    rewrite total_app in Ht. pose proof (total_nonneg r). lia.
Qed.

Lemma on_msgv_exact_witness :
  let junk := replicate (Z.to_nat 2048) 1%Z in
  let msgv := [[[104; 105]]; [[97]; [98; 99]]; [[100]]]%Z in
  on_msgv junk 0 msgv 5 999 = Ok (1001%Z, [Fragmented 1 [97%Z] 3; Counted 1000 [97%Z]]) ∧ on_msgv junk 0 msgv 4 999 = Err Fault.
Proof.
  intros junk msgv. assert (Hr : Forall real_message msgv) by (repeat constructor; discriminate || (vm_compute; reflexivity)).
  assert (Hj : length junk = Z.to_nat 2048) by apply length_replicate. split.
  - destruct (on_msgv_exact junk msgv 5 999 Hj Hr) as [H _]; [vm_compute; reflexivity|simpl; lia|lia|lia|].
    rewrite (H (take 2 msgv)); [vm_compute; reflexivity|by exists (drop 2 msgv)|discriminate|reflexivity].
  - destruct (on_msgv_exact junk msgv 4 999 Hj Hr) as [_ H]; [vm_compute; reflexivity|simpl; lia|lia|lia|].
    apply H. intros a [r E] Ha. destruct a as [|a1 a]; [done|]. injection E as <- E.
    destruct a as [|a2 a]; [vm_compute; discriminate|]. injection E as <- E.
    destruct a as [|a3 a]; [vm_compute; discriminate|]. injection E as <- E.
    destruct a as [|a4 a]; [vm_compute; discriminate|discriminate].
Defined.

(** ** The invariant of the two threads *)

(** The open epoll descriptors, by where the thread is. *)
Definition thread_fds (t : option tpc) (failed : bool) (n : nat) : Prop :=
  match t with
  | None | Some TCreate => n = 0 ∧ failed = false
  | Some TEnd => n = (if failed then 1 else 0)
  | _ => n = 1 ∧ failed = false
  end.

(** The thread's socket, and no other object. *)
Definition holds_sock (s : state) : Prop :=
  ∃ k, socks (wrld s) = [(rx_sock s, k)] ∧ g_sock (wrld s) = Some (rx_sock s) ∧ infos (wrld s) = [] ∧ errs (wrld s) = [].

Definition world_ok (s : state) : Prop :=
  match main s with
  | MStartup => wrld s = started ∧ g_thread s = None
  | MEnd => clean (wrld s) ∧ engine (wrld s) = false ∧ messages (wrld s) = false
  | _ => match g_thread s with None => clean (wrld s) | Some _ => holds_sock s end
  end.

Definition stopped (t : option tpc) : Prop := match t with None | Some TEnd => True | _ => False end.

Definition pipe_at (m : mpc) : option nat := match m with MStartup | MLoop | MQuit | MWrite => Some 0 | MJoin | MCleanup => Some 1 | MEnd => None end.
Definition quit_at (m : mpc) : bool := match m with MStartup | MLoop | MQuit => false | _ => true end.

Record rinv (s : state) : Prop := {
  ri_fds : thread_fds (g_thread s) (setup_failed s) (efds s);
  ri_world : world_ok s;
  ri_joined : main s = MCleanup ∨ main s = MEnd → stopped (g_thread s);
  ri_pipe : g_quit_pipe s = pipe_at (main s);
  ri_loop : match main s with MEnd => g_loop s = None | MStartup => g_loop s = Some true | _ => is_Some (g_loop s) end;
  ri_quit : g_quit s = quit_at (main s);
}.

(** What [pgm_recvmsgv] answers: the bytes of the messages it has stored. *)
Definition input_ok (i : input) : Prop :=
  length (i_junk i) = Z.to_nat 2048 ∧
  match i_status i with
  | STATUS_NORMAL msgv len => msgv ≠ [] ∧ Forall real_message msgv ∧ total msgv = len ∧ (len < 2 ^ 64)%Z
  | _ => True
  end.
Definition turn_ok (t : turn) : Prop := match t with Thread i => input_ok i | _ => True end.

(** [on_startup] is not one that frees the addresses twice. *)
Definition startup_ok (e : env) (c : config) : Prop :=
  addrs_ok e ∧ (early_ok e c = true → e_connect e = true ∧ e_thread e = true).

Lemma startup_outcome e c :
  startup_ok e c →
  (∃ w h k, on_startup e c started = Ok (Some true, w) ∧ socks w = [(h, k)] ∧ g_sock w = Some h ∧ infos w = [] ∧ errs w = []) ∨
  (∃ w, on_startup e c started = Ok (Some false, w) ∧ clean w).
Proof.
  intros [Ha He]. unfold early_ok in He. destruct (e_addrs e (g_network c)) as [a|] eqn:E.
  - destruct (Ha _ _ E) as [H1 H2]. destruct (ai_send_addrs a) as [|g0 ss] eqn:Es; [done|].
    destruct (ai_recv_addrs a) as [|g rs] eqn:Er; [done|]. pose proof (startup_cases e c a g0 ss g rs E Es Er) as Ho.
    rewrite bool_decide_true in He by (by eexists). cbn [andb] in He. unfold outcome in Ho.
    destruct (e_socket e && e_gsi e && e_bind e); [|right; destruct Ho as (w & ? & ? & _); by exists w].
    destruct (He eq_refl) as [Hc Ht]. rewrite Hc, Ht in Ho. destruct Ho as (w & Hr & (h & s & ? & ? & ? & ? & ? & _) & _).
    left. by exists w, h, s.
  - right. destruct (startup_no_address e c true (λ _, True) E) as (w & ? & ? & _). by exists w.
Qed.

(** A turn neither faults nor breaks the invariant. *)
Definition keeps (r : result (option state)) : Prop := match r with Ok (Some s) => rinv s | Ok None => True | Err _ => False end.

Lemma quit_ok s : rinv s → main s ≠ MEnd → g_main_loop_quit s = Ok (set_loop (Some false) s).
Proof.
  intros Hs Hm. unfold g_main_loop_quit. pose proof (ri_loop s Hs) as Hl. destruct (main s); try done; [by rewrite Hl|..].
  all: destruct Hl as [x ->]; done.
Qed.

Lemma rx_live_ok s t : rinv s → g_thread s = Some t → ¬ stopped (Some t) → rx_live s = Ok tt ∧ main s ≠ MStartup ∧ main s ≠ MCleanup ∧ main s ≠ MEnd.
Proof.
  intros Hs Ht Hn. pose proof (ri_world s Hs) as Hw. pose proof (ri_joined s Hs) as Hj. unfold world_ok in Hw. rewrite Ht in *.
  destruct (main s) eqn:Em; try (by destruct Hn; auto); [by destruct Hw|..].
  all: destruct Hw as (k & Hk & _); unfold rx_live; rewrite Hk; cbn; by rewrite Nat.eqb_refl.
Qed.

Lemma thread_keeps i s : input_ok i → rinv s → keeps (thread_step i s).
Proof.
  intros [Hj Hi] Hs. unfold thread_step. destruct (g_thread s) as [t|] eqn:Et; [|done].
  assert (Hlive : ¬ stopped (Some t) → rx_live s = Ok tt ∧ main s ≠ MStartup ∧ main s ≠ MCleanup ∧ main s ≠ MEnd) by (by apply rx_live_ok).
  destruct Hs as [Hf Hw Hjn Hp Hl Hq] eqn:EHs. clear EHs. rewrite Et in Hf.
  assert (Hstep : ∀ s', main s' = main s → wrld s' = wrld s → rx_sock s' = rx_sock s → g_quit_pipe s' = g_quit_pipe s →
    g_quit s' = g_quit s → g_loop s' = g_loop s ∨ g_loop s' = Some false → is_Some (g_thread s') → ¬ stopped (Some t) →
    thread_fds (g_thread s') (setup_failed s') (efds s') → rinv s').
  { intros s' E1 E2 E3 E4 E5 E6 [t' E7] Hn Hf'. destruct (Hlive Hn) as (_ & H1 & H2 & H3). split; rewrite ?E1, ?E4, ?E5; try done.
    - unfold world_ok, holds_sock in *. rewrite E1, E2, E3, E7. rewrite Et in Hw. by destruct (main s).
    - intros [?|?]; done.
    - destruct (main s); try done. all: destruct E6 as [->| ->]; done. }
  destruct t; try done.
  all: destruct (Hlive ltac:(by intros [])) as (Hrx & H1 & H2 & H3); rewrite ?Hrx; cbn [mbind result_bind].
  - destruct Hf as [Hf1 Hf2]. destruct (i_ok i); [|rewrite (quit_ok s) by done]; cbn [mbind result_bind keeps].
    + apply Hstep; try done; [by left|by intros []|]. cbn. by rewrite Hf1.
    + apply Hstep; try done; [by right|by intros []|]. cbn. by rewrite Hf2.
  - destruct Hf as [Hf1 Hf2]. destruct (i_ok i); [|rewrite (quit_ok s) by done]; cbn [mbind result_bind keeps].
    + apply Hstep; try done; [by left|by intros []].
    + apply Hstep; try done; [by right|by intros []].
  - destruct Hf as [Hf1 Hf2]. rewrite Hp. destruct (pipe_at (main s)) eqn:Ep; [|by destruct (main s)].
    destruct (i_ok i); [|rewrite (quit_ok s) by done]; cbn [mbind result_bind keeps].
    + apply Hstep; try done; [by left|by intros []].
    + apply Hstep; try done; [by right|by intros []].
  - destruct (i_status i) as [msgv len|sec usec|sec usec| |]; cbn [keeps].
    + destruct Hi as (Hne & Hreal & Htot & Hb). pose proof (on_msgv_prefix (i_junk i) msgv [] 0 len (counter s) Hj Hne Hreal Htot Hb) as E.
      rewrite app_nil_r in E. rewrite E. destruct (reports 0 (counter s) msgv) as [n o]. cbn [mbind result_bind keeps].
      apply Hstep; try done; [by left|by intros []].
    + apply Hstep; try done; [by left|by intros []].
    + apply Hstep; try done; [by left|by intros []].
    + apply Hstep; try done; [by left|by intros []].
    + apply Hstep; try done; [by left|by intros []].
  - rewrite Hp. destruct (pipe_at (main s)) eqn:Ep; [|by destruct (main s)].
    destruct (_ || _); [|done]. apply Hstep; try done; [by left|by intros []].
  - destruct Hf as [Hf1 Hf2]. destruct (g_quit s) eqn:Eq.
    + apply Hstep; try done; [by left|by intros []|]. cbn. by rewrite Hf1, Hf2.
    + apply Hstep; try done; [by left|by intros []].
Qed.

Lemma main_keeps e c s : startup_ok e c → rinv s → keeps (main_step e c s).
Proof.
  intros Hok Hs. pose proof Hs as [Hf Hw Hjn Hp Hl Hq]. unfold main_step, world_ok, holds_sock in *. destruct (main s) eqn:Em.
  - destruct Hw as [-> Et]. rewrite Et in *. unfold run_prog. destruct (startup_outcome e c Hok) as [(w & h & k & -> & Hsk & Hg & Hin & Her)|(w & -> & Hc)].
    + cbn [mbind result_bind]. rewrite Hg. split; try done; [by exists k|by intros [?|?]|by exists true].
    + cbn [mbind result_bind]. unfold g_main_loop_quit. cbn [g_loop]. rewrite Hl. cbn [mbind result_bind keeps].
      split; try done; unfold world_ok; cbn; rewrite ?Et; done.
  - destruct Hl as [[] El]; rewrite El; [done|]. split; try done; cbn; [by intros [?|?]|by rewrite El].
  - split; try done; cbn. by intros [?|?].
  - rewrite Hp. cbn [pipe_at]. split; try done; cbn. by intros [?|?].
  - destruct (g_thread s) as [[]|] eqn:Et; try done.
    all: split; try done; cbn; rewrite ?Et; try done; unfold world_ok; cbn; rewrite Et; done.
  - assert (Hc : ∃ w, run_prog (close_g_sock;; modify (set_engine false);; modify (set_messages false)) (wrld s) = Ok (tt, w) ∧
      clean w ∧ engine w = false ∧ messages w = false).
    { destruct (wrld s) as [nx ss ii ee gg rr pp en ms]. destruct (g_thread s) as [t|]; cbn in Hw.
      - destruct Hw as (k & -> & -> & -> & ->). unfold run_prog, mbind, prog_bind. rewrite close_g_sock_run. by eexists.
      - destruct Hw as (? & ? & ? & ?). cbn in *. subst. by eexists. }
    destruct Hc as (w & -> & ? & ? & ?). cbn [mbind result_bind keeps].
    split; try done. intros _. apply Hjn. by left.
  - done.
Qed.

Lemma signal_keeps s : rinv s → keeps (on_signal s).
Proof.
  intros Hs. unfold on_signal. destruct (main s) eqn:Em; try done. rewrite (quit_ok s Hs) by congruence. cbn [mbind result_bind keeps].
  destruct Hs as [Hf Hw Hjn Hp Hl Hq]. unfold world_ok, holds_sock in *. rewrite Em in *. split; cbn; rewrite ?Em; try done.
  unfold world_ok. cbn. by rewrite Em.
Qed.

(** The states that the turns of [main], of the thread and of the signals lead to. *)
Inductive reachable (e : env) (c : config) (installed : bool) (s0 : state) : state → Prop :=
  | reach_start : reachable e c installed s0 s0
  | reach_step t s s' : reachable e c installed s0 s → turn_ok t → step e c installed t s = Ok (Some s') → reachable e c installed s0 s'.

Section receiver.
Context (e : env) (pipe_ok : bool) (args : list option_arg) (c : config) (s0 : state).
Context (Hstart : main_start e pipe_ok args = Ok (inr (c, s0))) (Hok : startup_ok e c).

Lemma start_state : s0 = MkState started false (Some 0) (Some true) MStartup None 0 0 false 0 [].
Proof.
  unfold main_start in Hstart. destruct (e_init e); [|done]. destruct (parse_recv args recv_config) as [c'|]; [|done].
  destruct pipe_ok; by simplify_eq.
Qed.

Lemma step_keeps installed t s : turn_ok t → rinv s → keeps (step e c installed t s).
Proof.
  intros Ht Hs. destruct t as [|i|]; cbn [step]; [by apply main_keeps|by apply thread_keeps|].
  destruct installed; [by apply signal_keeps|done].
Qed.

Lemma reachable_rinv installed s : reachable e c installed s0 s → rinv s.
Proof.
  induction 1 as [|t s s' _ IH Ht E].
  - rewrite start_state. by split.
  - pose proof (step_keeps installed t s Ht IH) as H. by rewrite E in H.
Qed.
End receiver.

(** C18. The receiver, in every interleaving of [main], its thread and the signals, as long as
    [pgm_connect] and the creation of the thread succeed once the socket is bound: no call
    uses an object that is gone (the socket and the pipe outlive the thread, the loop
    outlives every [g_main_loop_quit]), and when [main] returns, the thread has returned,
    and the socket, the addresses, the errors, the pipe and the loop are released; one epoll
    descriptor is left open exactly when the thread failed to register an event. *)
Theorem receiver_safe e pipe_ok args c s0 installed s t :
  main_start e pipe_ok args = Ok (inr (c, s0)) → startup_ok e c → reachable e c installed s0 s → turn_ok t →
  (∃ r, step e c installed t s = Ok r) ∧
  (main s = MEnd → stopped (g_thread s) ∧ clean (wrld s) ∧ engine (wrld s) = false ∧ messages (wrld s) = false ∧
    g_quit_pipe s = None ∧ g_loop s = None ∧ efds s = (if setup_failed s then 1 else 0)).
Proof.
  intros Hstart Hok Hr Ht. pose proof (reachable_rinv _ _ _ _ _ Hstart Hok _ _ Hr) as Hs. split.
  - pose proof (step_keeps e c Hok installed t s Ht Hs) as H. destruct (step e c installed t s) as [r|]; [by exists r|done].
  - intros Em. destruct Hs as [Hf Hw Hjn Hp Hl Hq]. unfold world_ok in Hw. rewrite Em in *. destruct Hw as (? & ? & ?).
    specialize (Hjn ltac:(by right)). split_and!; try done. destruct (g_thread s) as [[]|]; try done. cbn in Hf. by destruct Hf as [-> ->].
Qed.

(** A run by a list of turns; a turn that is not possible is skipped. *)
Definition nexts (e : env) (c : config) (installed : bool) (ts : list turn) (s : state) : state :=
  foldl (λ s t, match step e c installed t s with Ok (Some s') => s' | _ => s end) s ts.

Lemma reachable_nexts e c installed s0 ts s :
  Forall turn_ok ts → reachable e c installed s0 s → reachable e c installed s0 (nexts e c installed ts s).
Proof.
  intros Ht. revert s. induction Ht as [|t ts Ht _ IH]; intros s Hr; [done|]. unfold nexts. cbn [foldl]. apply IH.
  destruct (step e c installed t s) as [[s'|]|] eqn:E; [by eapply reach_step|done..].
Qed.

Lemma some_library_ok c : startup_ok (some_library true) c.
Proof. split; [intros n a H; injection H as <-; split; discriminate|done]. Qed.

Definition some_input (ok : bool) : input := MkInput ok STATUS_WOULD_BLOCK false (replicate (Z.to_nat 2048) 0%Z).

Lemma receiver_safe_witness :
  let args := [(letter "n", ascii_bytes "eth0;239.192.0.1")] in
  let thread ok := Thread (some_input ok) in
  let turns := [Main; thread true; thread true; thread false; Main; Main; Main; Main; Main] in
  ∃ c s0, main_start (some_library true) true args = Ok (inr (c, s0)) ∧
    let s := nexts (some_library true) c false turns s0 in main s = MEnd ∧ clean (wrld s) ∧ efds s = 1.
Proof.
  intros args thread turns.
  destruct (main_start (some_library true) true args) as [[?|[c s0]]|] eqn:E0; [discriminate E0| |discriminate E0].
  exists c, s0. split; [reflexivity|]. set (s := nexts (some_library true) c false turns s0).
  assert (Hv : (main s, efds s) = (MEnd, 1)) by (injection E0 as <- <-; vm_compute; reflexivity). injection Hv as H1 H2. cbv zeta.
  destruct (receiver_safe (some_library true) true args c s0 false s Main E0 (some_library_ok c)) as [_ H].
  - apply reachable_nexts; [|apply reach_start]. repeat constructor; apply length_replicate.
  - exact I.
  - destruct (H H1) as (_ & Hc & _). split; [exact H1|]. split; [exact Hc|exact H2].
Defined.

(** ** Stopping the thread *)

(** The thread alone, a turn for each input; a turn that blocks is skipped. *)
Fixpoint thread_run (ins : list input) (s : state) : result state :=
  match ins with
  | [] => Ok s
  | i :: ins => r ← thread_step i s; thread_run ins (default s r)
  end.

(** The calls that the thread makes at most before it sees [g_quit]. *)
Definition rank (t : option tpc) : nat :=
  match t with
  | Some TCreate => 6 | Some TAddSock => 5 | Some TAddPipe => 4 | Some TRecv => 3 | Some (TWait _) => 2 | Some TCheck => 1
  | Some TEnd | None => 0
  end.

Lemma rank_stopped t : rank t = 0 → stopped t.
Proof. by destruct t as [[]|]. Qed.

(** With [g_quit] set and the byte in the pipe the thread never waits. *)
Lemma thread_ranks i s :
  rinv s → main s = MJoin → input_ok i → 0 < rank (g_thread s) →
  ∃ s', thread_step i s = Ok (Some s') ∧ rank (g_thread s') < rank (g_thread s) ∧ main s' = MJoin.
Proof.
  intros Hs Em Hi Hr. pose proof (thread_keeps i s Hi Hs) as Hk. pose proof (ri_pipe s Hs) as Hp. pose proof (ri_quit s Hs) as Hq.
  rewrite Em in Hp, Hq. cbn in Hp, Hq.
  assert (Hsome : ∀ s', thread_step i s = Ok (Some s') → rank (g_thread s') < rank (g_thread s) ∧ main s' = MJoin).
  { intros s'. unfold thread_step, g_main_loop_quit. rewrite Hp, Hq.
    destruct (g_thread s) as [[]|]; try done; destruct (rx_live s) as [[]|]; destruct (i_ok i); destruct (g_loop s);
      destruct (i_status i); cbn [mbind result_bind];
      try destruct (on_msgv (i_junk i) 0 msgv len (counter s)) as [[n o]|]; cbn [mbind result_bind];
      rewrite ?orb_true_r; intros ?; simplify_eq; cbn; (split; [lia|done]). }
  destruct (thread_step i s) as [[s'|]|] eqn:E; [by exists s'; destruct (Hsome s' eq_refl)| |done].
  exfalso. unfold thread_step, g_main_loop_quit in E. rewrite Hp, Hq in E. clear Hsome Hk.
  destruct (g_thread s) as [[]|]; cbn in Hr; try lia; destruct (rx_live s) as [[]|]; destruct (i_ok i); destruct (g_loop s);
    destruct (i_status i); cbn [mbind result_bind] in E;
    try destruct (on_msgv (i_junk i) 0 msgv len (counter s)) as [[n o]|]; cbn [mbind result_bind] in E; rewrite ?orb_true_r in E; done.
Qed.

Lemma thread_run_stops ins s :
  rinv s → main s = MJoin → Forall input_ok ins → rank (g_thread s) ≤ length ins →
  ∃ s', thread_run ins s = Ok s' ∧ stopped (g_thread s') ∧ main s' = MJoin.
Proof.
  revert s. induction ins as [|i ins IH]; intros s Hs Em Hi Hr.
  - exists s. split_and!; [done| |done]. apply rank_stopped. simpl in Hr. lia.
  - apply Forall_cons in Hi as [Hi Hins]. cbn [thread_run length] in *. destruct (decide (rank (g_thread s) = 0)) as [E|E].
    + assert (Ht : thread_step i s = Ok None) by (unfold thread_step; destruct (g_thread s) as [[]|]; done).
      rewrite Ht. cbn [mbind result_bind from_option id]. apply IH; [done..|lia].
    + destruct (thread_ranks i s Hs Em Hi ltac:(lia)) as (s' & Ht & Hlt & Em'). pose proof (thread_keeps i s Hi Hs) as Hk.
      rewrite Ht in *. cbn [mbind result_bind from_option id]. apply IH; [done..|lia].
Qed.

(** C19. No lost wake-up: whenever [main] waits for the thread, wherever the thread was when
    [g_quit] was set and whatever it receives, it makes at most six more calls, none of which
    blocks, and returns; [main] then leaves [g_thread_join]. *)
Theorem receiver_stops e pipe_ok args c s0 installed s ins :
  main_start e pipe_ok args = Ok (inr (c, s0)) → startup_ok e c → reachable e c installed s0 s → main s = MJoin →
  Forall input_ok ins → length ins = 6 →
  ∃ s', thread_run ins s = Ok s' ∧ stopped (g_thread s') ∧ main_step e c s' = Ok (Some (set_main MCleanup s')).
Proof.
  intros Hstart Hok Hr Em Hi Hl. pose proof (reachable_rinv _ _ _ _ _ Hstart Hok _ _ Hr) as Hs.
  destruct (thread_run_stops ins s Hs Em Hi) as (s' & Hrun & Hst & Em').
  { rewrite Hl. destruct (g_thread s) as [[]|]; simpl; lia. }
  exists s'. split_and!; [done..|]. unfold main_step. rewrite Em'. by destruct (g_thread s') as [[]|].
Qed.

Lemma receiver_stops_witness :
  let args := [(letter "n", ascii_bytes "eth0;239.192.0.1")] in
  let thread := Thread (some_input true) in
  let turns := [Main; thread; thread; thread; thread; Signal; Main; Main; Main] in
  ∃ c s0 s', main_start (some_library true) true args = Ok (inr (c, s0)) ∧
    g_thread (nexts (some_library true) c true turns s0) = Some (TWait (-1)) ∧
    thread_run (replicate 6 (some_input true)) (nexts (some_library true) c true turns s0) = Ok s' ∧ stopped (g_thread s').
Proof.
  intros args thread turns.
  destruct (main_start (some_library true) true args) as [[?|[c s0]]|] eqn:E0; [discriminate E0| |discriminate E0].
  set (s := nexts (some_library true) c true turns s0).
  assert (Hv : (main s, g_thread s) = (MJoin, Some (TWait (-1)))) by (injection E0 as <- <-; vm_compute; reflexivity).
  injection Hv as H1 H2.
  destruct (receiver_stops (some_library true) true args c s0 true s (replicate 6 (some_input true)) E0 (some_library_ok c)) as (s' & Hr & Hs & _).
  - apply reachable_nexts; [|apply reach_start]. repeat constructor; apply length_replicate.
  - exact H1.
  - repeat constructor; apply length_replicate.
  - reflexivity.
  - exists c, s0, s'. split; [reflexivity|]. split; [exact H2|]. split; [exact Hr|exact Hs].
Defined.

(** ** The loop that is never left *)

(** The thread is in its loop, and [main] in its own. *)
Definition in_loops (s : state) : Prop :=
  main s = MLoop ∧ g_loop s = Some true ∧ g_quit s = false ∧
  match g_thread s with Some (TRecv | TWait _ | TCheck) => True | _ => False end.

(** As the program stands, without the signal handlers, a receiver that has come as far as
    [pgm_recvmsgv] stays in its loops for ever. *)
Lemma receiver_endless e c s s' : in_loops s → reachable e c false s s' → in_loops s'.
Proof.
  intros H. induction 1 as [|t s1 s2 _ (Em & El & Eq & Ht) _ E]; [done|]. destruct t as [|i|]; cbn [step] in E; [|..|done].
  - unfold main_step in E. by rewrite Em, El in E.
  - unfold thread_step in E. destruct (g_thread s1) as [[]|] eqn:Et; try done.
    + destruct (rx_live s1); [|done]. cbn [mbind result_bind] in E. destruct (i_status i); simplify_eq; try done.
      destruct (on_msgv _ _ _ _ _) as [[n o]|]; [|done]. by simplify_eq/=.
    + destruct (g_quit_pipe s1); [|done]. by destruct (_ || _); simplify_eq.
    + rewrite Eq in E. by simplify_eq.
Qed.
