(* ===== verification/ZmqPipes.v ===== *)
(** * Programs over ZeroMQ

    The in-process benchmark
    Languages/cpp/benckmark01_inproc_communication/zmq_inproc/bench_zmq_inproc.cpp (a
    producer and a consumer thread over a pair of sockets), and the publisher and subscriber
    of Languages/c/zmq_pgm.  ZeroMQ is not in the repository: a pair of sockets is a queue
    of frames with the documented high-water marks, and whether a send is accepted is an
    input. *)

From S2P Require Import Prelude CText.
From Stdlib Require Import ZArith Lia.

Abbreviation bytes := (list Z).

(** A frame of a message, with the flag that more frames follow. *)
Record frame := MkFrame { f_data : bytes; f_more : bool }.

Module Inproc.

(** ** [CreateSocket] *)

Inductive zmqopt :=
  | ZMQ_SNDTIMEO | ZMQ_RCVTIMEO | ZMQ_SNDHWM | ZMQ_RCVHWM | ZMQ_RECONNECT_IVL | ZMQ_RECONNECT_IVL_MAX
  | ZMQ_TCP_KEEPALIVE | ZMQ_TCP_KEEPALIVE_IDLE | ZMQ_TCP_KEEPALIVE_CNT | ZMQ_TCP_KEEPALIVE_INTVL | ZMQ_LINGER.

(** The options that a socket has been given, in order. *)
Definition socket : Type := list (zmqopt * Z).

Definition zmq_setsockopt (o : zmqopt) (v : Z) (s : socket) : socket := s ++ [(o, v)].

Definition CreateSocket : socket :=
  let s := [] in
  let s := zmq_setsockopt ZMQ_SNDTIMEO 0 s in
  let s := zmq_setsockopt ZMQ_RCVTIMEO 0 s in
  let iHWM := 100000000%Z in
  let s := zmq_setsockopt ZMQ_SNDHWM iHWM s in
  let s := zmq_setsockopt ZMQ_RCVHWM iHWM s in
  let s := zmq_setsockopt ZMQ_RECONNECT_IVL 10 s in
  let s := zmq_setsockopt ZMQ_RECONNECT_IVL_MAX 2000 s in
  let s := zmq_setsockopt ZMQ_TCP_KEEPALIVE 1 s in
  let s := zmq_setsockopt ZMQ_TCP_KEEPALIVE_IDLE 1 s in
  let s := zmq_setsockopt ZMQ_TCP_KEEPALIVE_CNT 3 s in
  let s := zmq_setsockopt ZMQ_TCP_KEEPALIVE_INTVL 3 s in
  zmq_setsockopt ZMQ_LINGER 0 s.

(** The room of an in-process pipe: the high-water marks of its two ends. *)
Definition hwm (o : zmqopt) (s : socket) : Z :=
  match List.find (λ p, match p.1, o with ZMQ_SNDHWM, ZMQ_SNDHWM | ZMQ_RCVHWM, ZMQ_RCVHWM => true | _, _ => false end) s with
  | Some p => p.2
  | None => 1000%Z
  end.
Definition pipe_room (sender receiver : socket) : Z := (hwm ZMQ_SNDHWM sender + hwm ZMQ_RCVHWM receiver)%Z.

(** ** The two threads *)

Definition msg_data : bytes := le_encode 8 305419896.     (* 0x12345678 *)

Record state := MkState {
  pipe : list frame;
  k : Z; sent_cnt : Z;                     (* the producer's [k] and [success_cnt] *)
  success_cnt : Z; fail_count : Z; fail_count_eagain : Z;
  last_recv : option bytes;                (* printed at the end *)
  returned : bool;                         (* [start_consumer] has returned *)
}.

Definition start : state := MkState [] 0 0 0 0 0 None false.

(** One round of [producer_routine]'s loop; [None]: it has returned. *)
Definition producer_turn (room test_count : Z) (s : state) : option state :=
  if (k s <? test_count)%Z then
    if (Z.of_nat (length (pipe s)) <? room)%Z then
      Some (MkState (pipe s ++ [MkFrame msg_data false]) (k s + 1) (sent_cnt s + 1) (success_cnt s) (fail_count s) (fail_count_eagain s)
              (last_recv s) (returned s))
    else
      Some (MkState (pipe s) (k s + 1) (sent_cnt s) (success_cnt s) (fail_count s) (fail_count_eagain s) (last_recv s) (returned s))
  else None.

(** The rest of a round of [start_consumer] with a frame, or none ([EAGAIN]), at hand. *)
Definition consume (recv_count_total : Z) (f : option frame) (rest : list frame) (s : state) : state :=
  match f with
  | Some f =>
      if (Z.of_nat (length (f_data f)) =? 8)%Z then
        let n := (success_cnt s + 1)%Z in
        if (n >=? recv_count_total)%Z
        then MkState rest (k s) (sent_cnt s) n (fail_count s) (fail_count_eagain s) (Some (f_data f)) true
        else MkState rest (k s) (sent_cnt s) n (fail_count s) (fail_count_eagain s) (last_recv s) false
      else
        let errno_eagain := (0 <? fail_count s)%Z in       (* errno keeps the error of an earlier receive *)
        MkState rest (k s) (sent_cnt s) (success_cnt s) (fail_count s) (fail_count_eagain s + if errno_eagain then 1 else 0) (last_recv s) false
  | None => MkState rest (k s) (sent_cnt s) (success_cnt s) (fail_count s) (fail_count_eagain s + 1) (last_recv s) false
  end.

(** A round of [start_consumer]'s loop. *)
Definition consumer_turn (recv_count_total : Z) (s : state) : option state :=
  if returned s then None
  else
    match pipe s with
    | [] => Some (MkState [] (k s) (sent_cnt s) (success_cnt s) (fail_count s + 1) (fail_count_eagain s) (last_recv s) false)
    | f :: rest =>
        if f_more f then
          match rest with
          | [] => Some (consume recv_count_total None [] s)
          | f :: rest => Some (consume recv_count_total (Some f) rest s)
          end
        else Some (consume recv_count_total (Some f) rest s)
    end.

(** [main]'s two threads, interleaved. *)
Inductive who := Producer | Consumer.
Definition turn (room test_count : Z) (w : who) (s : state) : option state :=
  match w with Producer => producer_turn room test_count s | Consumer => consumer_turn test_count s end.

Inductive reachable (room test_count : Z) (s0 : state) : state → Prop :=
  | reach_start : reachable room test_count s0 s0
  | reach_turn w s s' : reachable room test_count s0 s → turn room test_count w s = Some s' → reachable room test_count s0 s'.

(** ** The invariant *)

Record inv (room test_count : Z) (s : state) : Prop := {
  i_k : (0 ≤ k s ≤ Z.max 0 test_count)%Z;
  i_frames : Forall (eq (MkFrame msg_data false)) (pipe s);
  i_sum : (sent_cnt s = success_cnt s + Z.of_nat (length (pipe s)))%Z;
  i_sent : (0 ≤ success_cnt s ∧ sent_cnt s ≤ k s)%Z;
  i_returned : if returned s then (test_count ≤ success_cnt s ∧ 0 < success_cnt s)%Z ∧ last_recv s = Some msg_data
               else (success_cnt s < test_count ∨ success_cnt s = 0)%Z ∧ last_recv s = None;
  i_room : (test_count ≤ room)%Z → sent_cnt s = k s;
  i_eagain : fail_count_eagain s = 0%Z;
}.

Lemma pair_reachable_inv room test_count s : reachable room test_count start s → inv room test_count s.
Proof.
  induction 1 as [|w s s' _ [Hk Hf Hs Hn Hr Hm He] E]; [split; simpl; try done; try lia; split; [by right|done]|].
  destruct w; cbn [turn] in E.
  - unfold producer_turn in E. destruct (Z.ltb_spec (k s) test_count); [|done].
    destruct (Z.ltb_spec (Z.of_nat (length (pipe s))) room); injection E as <-; split; cbn; try done; try lia.
    + apply Forall_app. split; [done|]. by constructor.
    + rewrite length_app. simpl. lia.
  - unfold consumer_turn in E. destruct (returned s); [done|]. destruct Hr as [Hr Hl]. destruct (pipe s) as [|f rest] eqn:Ep.
    + injection E as <-. by split.
    + apply Forall_cons in Hf as [<- Hf]. cbn [f_more] in E. injection E as <-. unfold consume. cbn [f_data].
      change (Z.of_nat (length msg_data) =? 8)%Z with true. cbv iota. cbn [length] in Hs. rewrite Z.geb_leb.
      destruct (Z.leb_spec test_count (success_cnt s + 1)); split; cbn; try done; try lia; (split; [lia|done]).
Qed.

Lemma reachable_trans room test_count s0 s1 s2 :
  reachable room test_count s0 s1 → reachable room test_count s1 s2 → reachable room test_count s0 s2.
Proof. intros H1. induction 1; [done|]. by eapply reach_turn. Qed.

(** A refused message is not sent again. *)
Lemma refused_stays room test_count s s' : reachable room test_count s s' → (k s - sent_cnt s ≤ k s' - sent_cnt s')%Z.
Proof.
  induction 1 as [|w s1 s2 _ IH E]; [lia|]. destruct w; cbn [turn] in E.
  - unfold producer_turn in E. destruct (_ <? _)%Z; [|done]. destruct (_ <? _)%Z; injection E as <-; cbn; lia.
  - unfold consumer_turn, consume in E. destruct (returned s1); [done|].
    destruct (pipe s1) as [|f [|f' rest]]; [by simplify_eq/=|..]; destruct (f_more f); repeat case_match; by simplify_eq/=.
Qed.

(** The consumer's receives until it returns, once the producer has. *)
Fixpoint drain (fuel : nat) (test_count : Z) (s : state) : state :=
  match fuel with O => s | S fuel => match consumer_turn test_count s with Some s => drain fuel test_count s | None => s end end.

Lemma drain_receives fuel room test_count s :
  reachable room test_count start s → (0 < test_count)%Z → (success_cnt s + Z.of_nat (length (pipe s)) = test_count)%Z →
  length (pipe s) ≤ fuel → returned (drain fuel test_count s) = true ∧ success_cnt (drain fuel test_count s) = test_count.
Proof.
  revert s. induction fuel as [|fuel IH]; intros s Hr Hc Hs Hf; pose proof (pair_reachable_inv _ _ _ Hr) as [Hk Hfr Hsum Hn Hret Hm He]; cbn [drain].
  - destruct (returned s) eqn:Er; [split; [done|]; lia|]. destruct (pipe s); simpl in *; lia.
  - destruct (consumer_turn test_count s) as [s'|] eqn:E.
    + assert (Hr' : reachable room test_count start s') by (eapply (reach_turn _ _ _ Consumer); done).
      unfold consumer_turn in E. destruct (returned s) eqn:Er; [done|]. destruct (pipe s) as [|f rest] eqn:Ep; [simpl in *; lia|].
      apply Forall_cons in Hfr as [<- Hfr]. cbn [f_more] in E. injection E as <-. cbn [length] in *.
      apply IH; [done|done|..]; unfold consume; cbn [f_data]; change (Z.of_nat (length msg_data) =? 8)%Z with true; cbv iota;
        destruct (_ >=? _)%Z; cbn; lia.
    + unfold consumer_turn in E. destruct (returned s) eqn:Er; [split; [done|]; lia|]. destruct (pipe s) as [|f rest]; [done|].
      by destruct (f_more f), rest.
Qed.

(** The in-process benchmark, in every interleaving of its threads: the consumer returns
    only after every message has been accepted and received (it prints the last one), no
    receive fails halfway; when the high-water marks leave room for [test_count] messages
    none is refused, and once the producer is done the consumer returns after receiving what
    is left; but after one refused send it never returns, nor does it when [test_count] is
    not positive. *)
Lemma inproc_complete room test_count s :
  reachable room test_count start s →
  (returned s = true → (0 < test_count → sent_cnt s = test_count ∧ success_cnt s = test_count)%Z ∧ last_recv s = Some msg_data) ∧
  fail_count_eagain s = 0%Z ∧
  ((test_count ≤ room)%Z → sent_cnt s = k s) ∧
  ((0 < test_count)%Z → sent_cnt s = test_count → returned (drain (length (pipe s)) test_count s) = true) ∧
  ((sent_cnt s < k s ∨ test_count ≤ 0)%Z → ∀ s', reachable room test_count s s' → returned s' = false).
Proof.
  intros Hr. pose proof (pair_reachable_inv _ _ _ Hr) as [Hk Hf Hs Hn Hret Hm He]. split_and!; [|done|done|..].
  - intros Er. rewrite Er in Hret. destruct Hret as [Hret Hl]. split; [lia|done].
  - intros Hc Hsent. apply (drain_receives _ room); [done|done|lia|done].
  - intros Hlt s' Hr'. pose proof (reachable_trans _ _ _ _ _ Hr Hr') as Hr2.
    pose proof (pair_reachable_inv _ _ _ Hr2) as [Hk' _ Hs' Hn' Hret' _ _]. pose proof (refused_stays _ _ _ _ Hr').
    destruct (returned s'); [|done]. lia.
Qed.
End Inproc.

Lemma inproc_complete_witness :
  let room := Inproc.pipe_room Inproc.CreateSocket Inproc.CreateSocket in
  let s := default Inproc.start (s ← Inproc.turn room 2 Inproc.Producer Inproc.start; Inproc.turn room 2 Inproc.Producer s) in
  Inproc.returned (Inproc.drain (length (Inproc.pipe s)) 2 s) = true.
Proof.
  intros room s. apply (Inproc.inproc_complete room 2 s).
  - eapply (Inproc.reach_turn _ _ _ Inproc.Producer); [eapply (Inproc.reach_turn _ _ _ Inproc.Producer)|]; [apply Inproc.reach_start|reflexivity..].
  - reflexivity.
  - reflexivity.
Defined.

Module PubSub.

(** ** The publisher *)

Definition topic : bytes := ascii_bytes "test".

(** [Packet_t]: the id, and the text in 16 bytes. *)
Definition packet (id : Z) : bytes := le_encode 8 id ++ ascii_bytes "hello world!" ++ replicate 4 0%Z.

(** Whether each [zmq_send] is accepted, in order; the loop ends with the list. *)
Abbreviation answers := (list bool).

(** The frames that were accepted, in order, and the lines of progress. *)
Record log := MkLog { frames : list frame; progress : list Z }.

(** [retry]: the data frame once, and up to three more times; what is left of the answers. *)
Fixpoint retry (n : nat) (ans : answers) : option (bool * answers) :=
  match ans with
  | [] => None
  | true :: ans => Some (true, ans)
  | false :: ans => match n with O => Some (false, ans) | S n => retry n ans end
  end.

(** The loop of [main], from [iTotalSend] on. *)
Fixpoint publish (fuel : nat) (printOncePerN TotalMsg iTotalSend : Z) (ans : answers) (l : log) : result log :=
  match fuel with
  | O => Ok l
  | S fuel =>
      if (iTotalSend <? TotalMsg)%Z then
        match ans with
        | [] => Ok l
        | false :: ans => publish fuel printOncePerN TotalMsg iTotalSend ans l
        | true :: ans =>
            let l := MkLog (frames l ++ [MkFrame topic true]) (progress l) in
            match retry 3 ans with
            | None => Ok l
            | Some (ok, ans) =>
                let l := if ok : bool then MkLog (frames l ++ [MkFrame (packet iTotalSend) false]) (progress l) else l in
                let n := (iTotalSend + 1)%Z in
                if (printOncePerN =? 0)%Z then Err Fault
                else publish fuel printOncePerN TotalMsg n ans
                       (if (Z.rem n printOncePerN =? 0)%Z then MkLog (frames l) (progress l ++ [n]) else l)
            end
        end
      else Ok l
  end.

(** ** The subscriber *)

(** What [zmq_msg_recv] brings: a frame, or an error. *)
Inductive event := Frame (f : frame) | RecvError.

Inductive line :=
  | Data (iTotalRecv : Z) (topic data : bytes)
  | TooMany (iTotalRecv : Z) (this_frame_idx : Z).

(** The two loops of [main]: outside a message, or inside with its topic and
    [this_frame_idx]; they end with the events.  The first [zmq_msg_close], on a message that
    was never initialised, is left out. *)
Fixpoint subscribe (printOncePerN : Z) (inside : option (bytes * Z)) (iTotalRecv : Z) (evs : list event) : result (Z * list line) :=
  match evs with
  | [] => Ok (iTotalRecv, [])
  | RecvError :: evs => subscribe printOncePerN None iTotalRecv evs
  | Frame f :: evs =>
      match inside with
      | None => if f_more f then subscribe printOncePerN (Some (f_data f, 1%Z)) (iTotalRecv + 1) evs else Err AssertFail
      | Some (t, idx) =>
          if (printOncePerN =? 0)%Z then Err Fault
          else
            let out := if (Z.rem iTotalRecv printOncePerN =? 1)%Z || (1 <? idx)%Z then [Data iTotalRecv t (f_data f)] else [] in
            if f_more f then
              '(n, rest) ← subscribe printOncePerN (Some (t, idx + 1)%Z) iTotalRecv evs;
              Ok (n, out ++ Data iTotalRecv t (f_data f) :: TooMany iTotalRecv (idx + 1) :: rest)
            else
              '(n, rest) ← subscribe printOncePerN None iTotalRecv evs;
              Ok (n, out ++ rest)
      end
  end.

(** ** The programs *)

Inductive netopt := ZMQ_RATE | ZMQ_RECOVERY_IVL | ZMQ_SNDBUF | ZMQ_RCVBUF | ZMQ_MULTICAST_HOPS | ZMQ_RCVHWM | ZMQ_SNDHWM | ZMQ_SUBSCRIBE.

(** [zmq_setsockopt] with its [assert]; [accepts]: which options ZeroMQ takes. *)
Definition set_option (accepts : netopt → Z → bool) (o : netopt) (v : Z) : result unit := check (accepts o v).

(** [set_options] of pub_zmq.cpp, and of sub_zmq.cpp *)
Definition set_options_pub (accepts : netopt → Z → bool) (rate : Z) : result unit :=
  set_option accepts ZMQ_RATE rate ;;
  set_option accepts ZMQ_RECOVERY_IVL 60000 ;;
  let recv_buffer := (4 * 1024 * 1024)%Z in
  set_option accepts ZMQ_SNDBUF recv_buffer ;;
  set_option accepts ZMQ_RCVBUF recv_buffer ;;
  set_option accepts ZMQ_MULTICAST_HOPS 16 ;;
  let hard_max_msg_size := 1000000000%Z in
  set_option accepts ZMQ_RCVHWM hard_max_msg_size ;;
  set_option accepts ZMQ_SNDHWM hard_max_msg_size.
Definition set_options_sub (accepts : netopt → Z → bool) (rate : Z) : result unit :=
  set_option accepts ZMQ_RATE rate ;;
  set_option accepts ZMQ_RECOVERY_IVL 60000 ;;
  let recv_buffer := (4 * 1024 * 1024)%Z in
  set_option accepts ZMQ_SNDBUF recv_buffer ;;
  set_option accepts ZMQ_RCVBUF recv_buffer ;;
  let hard_max_msg_size := 1000000000%Z in
  set_option accepts ZMQ_RCVHWM hard_max_msg_size ;;
  set_option accepts ZMQ_SNDHWM hard_max_msg_size.

(** [main] of pub_zmq.cpp with its arguments [<rate> <printOncePerN> <MsgCount>] as text;
    [None]: [zmq_bind] failed. *)
Definition main_pub (fuel : nat) (accepts : netopt → Z → bool) (bind_ok : bool) (rate printOncePerN MsgCount : bytes) (ans : answers) :
    result (option log) :=
  set_options_pub accepts (atoi rate) ;;
  if bind_ok then l ← publish fuel (atoi printOncePerN) (atoi MsgCount) 0 ans (MkLog [] []); Ok (Some l) else Ok None.

(** [main] of sub_zmq.cpp, up to the events at hand; [None]: [zmq_connect] failed. *)
Definition main_sub (accepts : netopt → Z → bool) (connect_ok : bool) (rate printOncePerN : bytes) (evs : list event) :
    result (option (Z * list line)) :=
  set_options_sub accepts (atoi rate) ;;
  set_option accepts ZMQ_SUBSCRIBE (Z.of_nat (length topic)) ;;
  if connect_ok then r ← subscribe (atoi printOncePerN) None 0 evs; Ok (Some r) else Ok None.

(** ** What is on the wire *)

(** The packet of a round, after the topics of the rounds before it whose packet was lost. *)
Definition wire (m : nat * Z) : list frame := replicate (S m.1) (MkFrame topic true) ++ [MkFrame (packet m.2) false].

(** The ids sent, and the topics after the last packet. *)
Definition on_wire (ms : list (nat * Z)) (open : nat) : list frame := concat (wire <$> ms) ++ replicate open (MkFrame topic true).

Lemma on_wire_topic ms open : on_wire ms open ++ [MkFrame topic true] = on_wire ms (S open).
Proof. unfold on_wire. rewrite <-app_assoc. f_equal. by rewrite <-replicate_S_end. Qed.

Lemma on_wire_packet ms open id : on_wire ms (S open) ++ [MkFrame (packet id) false] = on_wire (ms ++ [(open, id)]) 0.
Proof. unfold on_wire. rewrite fmap_app, concat_app. cbn [fmap list_fmap concat replicate]. rewrite !app_nil_r, <-app_assoc. done. Qed.

(** The ids of the packets sent increase, from below [hi]. *)
Fixpoint ids_below (hi : Z) (ids : list Z) : Prop :=
  match ids with [] => True | i :: ids => (i < hi)%Z ∧ Forall (λ j, (i < j)%Z) ids ∧ ids_below hi ids end.

Lemma ids_below_snoc hi i ids : ids_below i ids → (i < hi)%Z → ids_below hi (ids ++ [i]).
Proof.
  induction ids as [|j ids IH]; simpl; [done|]. intros (Hj & Hf & Hi) Hlt. split_and!; [lia| |by apply IH].
  apply Forall_app. split; [done|]. by constructor.
Qed.

Lemma ids_below_mono hi hi' ids : (hi ≤ hi')%Z → ids_below hi ids → ids_below hi' ids.
Proof. intros H. induction ids as [|j ids IH]; simpl; [done|]. intros (? & ? & ?). split_and!; [lia|done|by apply IH]. Qed.

Lemma publish_wire fuel N T i ans l ms open l' :
  publish fuel N T i ans l = Ok l' → frames l = on_wire ms open → ids_below i ms.*2 →
  ∃ ms' open' hi, frames l' = on_wire ms' open' ∧ ids_below hi ms'.*2.
Proof.
  revert i ans l ms open. induction fuel as [|fuel IH]; intros i ans l ms open E Hl Hi; cbn [publish] in E.
  - injection E as <-. eauto.
  - destruct (_ <? _)%Z; [|injection E as <-; eauto]. destruct ans as [|[] ans]; [injection E as <-; eauto| |by eapply IH].
    assert (Hl1 : frames l ++ [MkFrame topic true] = on_wire ms (S open)) by (by rewrite Hl, on_wire_topic).
    destruct (retry 3 ans) as [[ok ans']|]; [|injection E as <-; eauto]. destruct (N =? 0)%Z; [done|]. destruct ok; cbn [frames progress] in E.
    + eapply (IH _ _ _ (ms ++ [(open, i)]) 0); [exact E| |].
      * rewrite <-on_wire_packet, <-Hl1. by destruct (_ =? _)%Z.
      * rewrite fmap_app. apply ids_below_snoc; [done|]. cbn [snd]. lia.
    + eapply (IH _ _ _ ms (S open)); [exact E| |].
      * rewrite <-Hl1. by destruct (_ =? _)%Z.
      * eapply ids_below_mono; [|done]. lia.
Qed.

(** What the subscriber prints of the frames of a message after its topic: the [n]-th
    message, [k] more topics from index [idx] on, then the packet. *)
Fixpoint received_from (N n idx : Z) (k : nat) (id : Z) : list line :=
  let shown := (Z.rem n N =? 1)%Z || (1 <? idx)%Z in
  match k with
  | O => if shown then [Data n topic (packet id)] else []
  | S k => (if shown then [Data n topic topic] else []) ++ Data n topic topic :: TooMany n (idx + 1) :: received_from N n (idx + 1) k id
  end.
Definition received (N n : Z) (m : nat * Z) : list line := received_from N n 1 m.1 m.2.

Lemma subscribe_rest N n idx k id evs :
  N ≠ 0%Z →
  subscribe N (Some (topic, idx)) n ((Frame <$> (replicate k (MkFrame topic true) ++ [MkFrame (packet id) false])) ++ evs) =
  (r ← subscribe N None n evs; Ok (r.1, received_from N n idx k id ++ r.2)).
Proof.
  intros HN. apply Z.eqb_neq in HN. revert idx. induction k as [|k IH]; intros idx; cbn [replicate app fmap list_fmap subscribe f_more f_data received_from]; rewrite HN.
  - destruct (subscribe N None n evs) as [[r o]|]; [|done]. cbn. by destruct (_ || _).
  - rewrite IH. destruct (subscribe N None n evs) as [[r o]|]; [|done]. cbn. by destruct (_ || _).
Qed.

Lemma subscribe_wire N n ms :
  N ≠ 0%Z →
  subscribe N None n (Frame <$> concat (wire <$> ms)) =
  Ok ((n + Z.of_nat (length ms))%Z, concat (imap (λ j m, received N (n + Z.of_nat j + 1) m) ms)).
Proof.
  intros HN. revert n. induction ms as [|m ms IH]; intros n; [by rewrite Z.add_0_r|]. rewrite fmap_cons. cbn [concat]. rewrite fmap_app.
  unfold wire at 1. cbn [replicate]. rewrite <-app_comm_cons, fmap_cons, <-app_comm_cons. cbn [subscribe f_more f_data].
  rewrite (subscribe_rest N (n + 1) 1 m.1 m.2 _ HN), IH. cbn [mbind result_bind fst snd length imap concat]. f_equal. f_equal; [lia|]. f_equal.
  - unfold received. f_equal. lia.
  - f_equal. apply imap_ext. intros j x _. cbn. f_equal. lia.
Qed.

(** With every send accepted each message is a topic and a packet. *)
Lemma publish_all fuel N T i l :
  N ≠ 0%Z → (i ≤ T)%Z → Z.to_nat (T - i) ≤ fuel →
  ∃ l', publish fuel N T i (replicate (2 * fuel) true) l = Ok l' ∧
    frames l' = frames l ++ concat (wire <$> ((λ j, (0, (i + Z.of_nat j)%Z)) <$> seq 0 (Z.to_nat (T - i)))).
Proof.
  intros HN. revert i l. induction fuel as [|fuel IH]; intros i l Hi Hf.
  - exists l. split; [done|]. replace (Z.to_nat (T - i)) with 0 by lia. by rewrite app_nil_r.
  - replace (2 * S fuel) with (S (S (2 * fuel))) by lia. cbn [replicate publish]. destruct (Z.ltb_spec i T).
    + cbn [retry]. rewrite (proj2 (Z.eqb_neq _ _) HN).
      match goal with |- context [publish fuel N T (i + 1) _ ?l1] => destruct (IH (i + 1)%Z l1) as (l' & -> & Hl'); [lia..|] end.
      exists l'. split; [done|]. rewrite Hl'. replace (Z.to_nat (T - i)) with (S (Z.to_nat (T - (i + 1)))) by lia.
      cbn [seq]. rewrite <-fmap_S_seq. rewrite <-list_fmap_compose, !fmap_cons. cbn [concat]. rewrite app_assoc, Z.add_0_r. f_equal.
      * destruct (_ =? _)%Z; cbn [frames]; by rewrite <-app_assoc.
      * f_equal. rewrite <-!list_fmap_compose. apply list_fmap_ext. intros k j _. unfold compose. do 2 f_equal. lia.
    + exists l. split; [done|]. replace (Z.to_nat (T - i)) with 0 by lia. by rewrite app_nil_r.
Qed.

(** C22. Publisher and subscriber together, whichever sends ZeroMQ refuses: the subscriber
    counts every complete message and its assertion holds; the packets carry increasing
    ids; a packet that was given up leaves its topic in front of the next message, which
    the subscriber reports as one with too many frames.  When nothing is refused, message
    [i] is the topic and the packet with id [i], for every [i] below [TotalMsg]. *)
Theorem pub_sub fuel accepts rate n t ans l accepts' rate' m :
  main_pub fuel accepts true rate n t ans = Ok (Some l) → (∀ o v, accepts' o v = true) → atoi m ≠ 0%Z →
  ∃ ms open hi, frames l = on_wire ms open ∧ ids_below hi ms.*2 ∧
    main_sub accepts' true rate' m (Frame <$> concat (wire <$> ms)) =
      Ok (Some (Z.of_nat (length ms), concat (imap (λ j x, received (atoi m) (Z.of_nat j + 1) x) ms))) ∧
    ((0 ≤ atoi t)%Z → atoi n ≠ 0%Z → Z.to_nat (atoi t) ≤ fuel → ans = replicate (2 * fuel) true →
      frames l = concat (wire <$> ((λ j, (0, Z.of_nat j)) <$> seq 0 (Z.to_nat (atoi t))))).
Proof.
  intros E Ha HM. unfold main_pub in E. destruct (set_options_pub _ _); [|done]. cbn [mbind result_bind] in E.
  destruct (publish _ _ _ _ _ _) as [l1|] eqn:Ep; [|done]. injection E as ->.
  destruct (publish_wire _ _ _ _ _ _ [] 0 _ Ep eq_refl I) as (ms & open & hi & Hf & Hi).
  exists ms, open, hi. split_and!; [done..| |].
  - unfold main_sub, set_options_sub, set_option, check. rewrite !Ha. cbn [mbind result_bind].
    by rewrite (subscribe_wire (atoi m) 0 ms HM).
  - intros HT HN Hfuel ->. destruct (publish_all fuel (atoi n) (atoi t) 0 (MkLog [] []) HN HT ltac:(lia)) as (l' & E' & Hl').
    rewrite Ep in E'. injection E' as <-. rewrite Hl'. by rewrite Z.sub_0_r.
Qed.
End PubSub.

Lemma pub_sub_witness :
  let ans := [true; false; false; false; false; true; true] in
  let all (_ : PubSub.netopt) (_ : Z) := true in
  ∃ l ms open, PubSub.main_pub 9 all true (ascii_bytes "1000") (ascii_bytes "1") (ascii_bytes "2") ans = Ok (Some l) ∧
    PubSub.frames l = PubSub.on_wire [(1, 1%Z)] 0 ∧ PubSub.frames l = PubSub.on_wire ms open ∧
    PubSub.main_sub all true (ascii_bytes "1000") (ascii_bytes "5") (PubSub.Frame <$> concat (PubSub.wire <$> ms)) =
      Ok (Some (Z.of_nat (length ms), concat (imap (λ j x, PubSub.received 5 (Z.of_nat j + 1) x) ms))).
Proof.
  intros ans all.
  destruct (PubSub.main_pub 9 all true (ascii_bytes "1000") (ascii_bytes "1") (ascii_bytes "2") ans) as [[l|]|] eqn:E; [|discriminate E..].
  destruct (PubSub.pub_sub 9 all _ _ _ ans l all (ascii_bytes "1000") (ascii_bytes "5") E) as (ms & open & hi & H1 & _ & H2 & _);
    [reflexivity|discriminate|].
  exists l, ms, open. split; [reflexivity|]. split; [injection E as <-; reflexivity|]. split; [exact H1|exact H2].
Defined.
