(* ===== verification/ThreadEcho.v ===== *)
(** * The threaded echo server

    LinuxIPC/posix/33thread/clientThread.c: [main] accepts connections and starts a detached
    thread for each, which gets its descriptor through a heap cell of its own; the thread
    frees the cell and echoes what it reads until the client closes.  A turn is one round
    of the loop of [main] or one call of a thread; what [accept], [malloc], [pthread_create], [read] and [write] answer
    are inputs of the turn.  A failed [accept] or [read] ends the whole process, a [malloc]
    that returns a null pointer is dereferenced, and a failed [pthread_create] goes unnoticed. *)

From S2P Require Import Prelude CText.
From Stdlib Require Import ZArith Lia.

Abbreviation bytes := (list Z).

Definition BUFSIZE : nat := Z.to_nat 1024.

(** ** The state *)

(** A thread: before it reads its argument, before [free], in [echo_srv] before [read] and
    before [write] of what it has read, returned; [t_for] is the connection it was made for. *)
Inductive tpc := TArg | TFree | TRead | TWrite (chunk : bytes) | TDone.
Record thread := MkThread { t_for : nat; t_arg : nat; t_conn : nat; t_pc : tpc }.

(** A connection by its index among those accepted: what was read from it and written to it
    so far, and whether the server has closed it. *)
Record conn := MkConn { c_in : bytes; c_out : bytes; c_open : bool }.

Record server := MkServer {
  threads : list thread;
  conns : list conn;
  cells : gmap nat nat;                    (* the cells of [malloc], by address *)
  next : nat;
  printed : list bytes;                    (* [fputs(recvbuf, stdout)] *)
  exited : option Z;                       (* [exit] has been called *)
}.

Definition start : server := MkServer [] [] ∅ 0 [] None.

(** ** The turns *)

(** [ERR_EXIT] *)
Definition ERR_EXIT (s : server) : server :=
  MkServer (threads s) (conns s) (cells s) (next s) (printed s) (Some 1%Z).

(** One round of the loop of [main]: the first of [accept], [malloc] and [pthread_create]
    that fails, if any. *)
Inductive accepted := AcceptFails | MallocFails | CreateFails | Created.

Definition accept_turn (a : accepted) (s : server) : result server :=
  let c := length (conns s) in
  let conns' := conns s ++ [MkConn [] [] true] in
  match a with
  | AcceptFails => Ok (ERR_EXIT s)
  | MallocFails => Err Fault
  | CreateFails => Ok (MkServer (threads s) conns' (<[next s := c]> (cells s)) (S (next s)) (printed s) (exited s))
  | Created =>
      Ok (MkServer (threads s ++ [MkThread c (next s) 0 TArg]) conns' (<[next s := c]> (cells s)) (S (next s)) (printed s) (exited s))
  end.

(** The answers of a thread's call: the bytes that [read] returns (none: the end; [None]: an
    error), and how many of them [write] takes. *)
Record answer := MkAnswer { a_read : option bytes; a_written : nat }.

(** [fputs] of the buffer: the string must end inside it. *)
Definition fputs (chunk : bytes) : result bytes :=
  let recvbuf := splice 0 chunk (replicate BUFSIZE 0%Z) in
  if bool_decide (0%Z ∈ recvbuf) then Ok (until_nul recvbuf) else Err Fault.

Definition put_thread (i : nat) (t : thread) (s : server) : server :=
  MkServer (<[i := t]> (threads s)) (conns s) (cells s) (next s) (printed s) (exited s).
Definition put_conn (i : nat) (c : conn) (s : server) : server :=
  MkServer (threads s) (<[i := c]> (conns s)) (cells s) (next s) (printed s) (exited s).

(** The connection behind a descriptor that is open. *)
Definition open_conn (i : nat) (s : server) : result conn :=
  match conns s !! i with Some c => if c_open c then Ok c else Err Fault | None => Err Fault end.

(** The next call of [thread_routine] and [echo_srv]; [None]: the thread has returned. *)
Definition thread_turn (a : answer) (i : nat) (s : server) : result (option server) :=
  match threads s !! i with
  | None => Ok None
  | Some (MkThread f p conn pc) =>
      match pc with
      | TArg => match cells s !! p with Some v => Ok (Some (put_thread i (MkThread f p v TFree) s)) | None => Err Fault end
      | TFree =>
          match cells s !! p with
          | Some _ =>
              Ok (Some (MkServer (<[i := MkThread f p conn TRead]> (threads s)) (conns s) (delete p (cells s)) (next s) (printed s) (exited s)))
          | None => Err Fault
          end
      | TRead =>
          c ← open_conn conn s;
          match a_read a with
          | None => Ok (Some (ERR_EXIT s))
          | Some [] => Ok (Some (put_conn conn (MkConn (c_in c) (c_out c) false) (put_thread i (MkThread f p conn TDone) s)))
          | Some chunk =>
              line ← fputs chunk;
              let s := put_conn conn (MkConn (c_in c ++ chunk) (c_out c) true) (put_thread i (MkThread f p conn (TWrite chunk)) s) in
              Ok (Some (MkServer (threads s) (conns s) (cells s) (next s) (printed s ++ [line]) (exited s)))
          end
      | TWrite chunk =>
          c ← open_conn conn s;
          Ok (Some (put_conn conn (MkConn (c_in c) (c_out c ++ take (a_written a) chunk) true) (put_thread i (MkThread f p conn TRead) s)))
      | TDone => Ok None
      end
  end.

Inductive turn := Accept (a : accepted) | Thread (i : nat) (a : answer).

(** [None]: the thread or the process has ended. *)
Definition step (t : turn) (s : server) : result (option server) :=
  match exited s with
  | Some _ => Ok None
  | None => match t with Accept a => s ← accept_turn a s; Ok (Some s) | Thread i a => thread_turn a i s end
  end.

(** [read] returns at most the size of the buffer; the buffer keeps a terminator when it
    returns less; [write] takes the whole chunk. *)
Definition short_reads (t : turn) : Prop :=
  match t with Thread _ a => from_option (λ l, length l < BUFSIZE) True (a_read a) | _ => True end.
Definition full_writes (t : turn) : Prop := match t with Thread _ a => BUFSIZE ≤ a_written a | _ => True end.

Inductive reachable : server → Prop :=
  | reach_start : reachable start
  | reach_turn t s s' : reachable s → short_reads t → full_writes t → step t s = Ok (Some s') → reachable s'.

(** ** The invariant *)

(** The cell of a thread is live. *)
Definition has_cell (t : thread) : bool := match t_pc t with TArg | TFree => true | _ => false end.
Definition unwritten (t : thread) : bytes := match t_pc t with TWrite chunk => chunk | _ => [] end.
Definition running (t : thread) : bool := match t_pc t with TDone => false | _ => true end.

Record thread_ok (t : thread) (c : conn) : Prop := {
  to_arg : t_arg t = t_for t;
  to_conn : t_pc t = TArg ∨ t_conn t = t_for t;
  to_open : c_open c = running t;
  to_echo : c_in c = c_out c ++ unwritten t;
  to_chunk : length (unwritten t) < BUFSIZE;
}.

(** No thread was made for the connection. *)
Definition unserved (s : server) (p : nat) : Prop := p ∉ t_for <$> threads s.

Record inv (s : server) : Prop := {
  i_next : next s = length (conns s);
  i_unique : NoDup (t_for <$> threads s);
  i_threads : ∀ i t, threads s !! i = Some t → ∃ c, conns s !! t_for t = Some c ∧ thread_ok t c;
  i_unserved : ∀ p c, conns s !! p = Some c → unserved s p → c = MkConn [] [] true;
  i_cells : ∀ p v, cells s !! p = Some v ↔ p = v ∧
    (p < length (conns s) ∧ unserved s p ∨ ∃ i t, threads s !! i = Some t ∧ t_for t = p ∧ has_cell t = true);
}.

Lemma fputs_ok chunk : length chunk < BUFSIZE → fputs chunk = Ok (until_nul chunk).
Proof.
  intros H. unfold fputs, splice. rewrite take_0. cbn [app Nat.add]. rewrite drop_replicate.
  destruct (BUFSIZE - length chunk) as [|k] eqn:E; [lia|]. cbn [replicate].
  rewrite bool_decide_true by (rewrite elem_of_app, elem_of_cons; tauto). by rewrite until_nul_app_nul.
Qed.

Lemma echo_threads_start : inv start.
Proof.
  split; [done|constructor|done|done|]. intros p v. cbn. rewrite lookup_empty. split; [done|].
  by intros (_ & [[? _]|(i & t & ? & _)]); [lia|].
Qed.

Lemma exit_inv s : inv s → inv (ERR_EXIT s).
Proof. by intros []. Qed.

(** A new connection: [ts] are the threads made for it, none or one. *)
Lemma new_conn_inv s ts pr ex :
  inv s → (ts = [] ∨ ts = [MkThread (length (conns s)) (next s) 0 TArg]) →
  inv (MkServer (threads s ++ ts) (conns s ++ [MkConn [] [] true]) (<[next s := length (conns s)]> (cells s)) (S (next s)) pr ex).
Proof.
  intros [Hn Hu Ht Hun Hcell] Hts. set (n := length (conns s)) in *.
  assert (Hnew : n ∉ t_for <$> threads s).
  { intros (t & Ef & [i Hi]%list_elem_of_lookup)%list_elem_of_fmap. destruct (Ht i t Hi) as (c & Hc & _).
    apply lookup_lt_Some in Hc. unfold n in *. lia. }
  assert (Hfor : ∀ t, t ∈ ts → t_for t = n) by (intros t Hin; destruct Hts; subst ts; [by apply elem_of_nil in Hin|by apply list_elem_of_singleton in Hin as ->]).
  assert (Hin : ∀ p, p ∈ t_for <$> (threads s ++ ts) ↔ p ∈ t_for <$> threads s ∨ p = n ∧ ts ≠ []).
  { intros p. rewrite fmap_app, elem_of_app. destruct Hts; subst ts; simpl; [rewrite elem_of_nil|rewrite list_elem_of_singleton]; naive_solver. }
  split; cbn; unfold unserved; cbn.
  - rewrite length_app. unfold n in Hn. simpl. lia.
  - rewrite fmap_app. apply NoDup_app. split_and!; [done| |by destruct Hts; subst; repeat constructor; try set_solver].
    intros p Hp (t & -> & Hi)%list_elem_of_fmap. by rewrite (Hfor t Hi) in Hp.
  - intros i t [Hi|[_ Hi]]%lookup_app_Some.
    + destruct (Ht i t Hi) as (c & Hc & Hok). exists c. split; [by apply lookup_app_l_Some|done].
    + apply list_elem_of_lookup_2 in Hi. exists (MkConn [] [] true). rewrite (Hfor t Hi). split; [by rewrite lookup_app_r, Nat.sub_diag by done|].
      destruct Hts; subst ts; [by apply elem_of_nil in Hi|]. apply list_elem_of_singleton in Hi as ->. split; cbn; try done; [by left|unfold BUFSIZE; lia].
  - intros p c [Hp|[Hp Hc]]%lookup_app_Some; rewrite Hin; [intros H; apply (Hun p c Hp); unfold unserved; tauto|].
    intros _. apply list_elem_of_lookup_2, list_elem_of_singleton in Hc. done.
  - intros p v. rewrite Hn, length_app, Hin. cbn [length]. fold n. destruct (decide (p = n)) as [->|Hne].
    + rewrite lookup_insert_eq. split.
      * intros [= <-]. split; [done|]. destruct Hts as [-> | ->]; [left; split; [lia|tauto]|right].
        eexists (length (threads s)), _. by rewrite lookup_app_r, Nat.sub_diag by done.
      * by intros [<- _].
    + rewrite lookup_insert_ne, Hcell by done. fold n. assert (p < n + 1 ↔ p < n) as Hlt by lia. rewrite Hlt. unfold unserved.
      split; intros (-> & H); (split; [done|]); (destruct H as [H|(i & t & Hi & Hf & Hh)]; [left; tauto|right; exists i, t]).
      * split; [by apply lookup_app_l_Some|done].
      * apply lookup_app_Some in Hi as [Hi|[_ Hi]]; [done|]. apply list_elem_of_lookup_2, Hfor in Hi. congruence.
Qed.

(** A turn of thread [i] on its connection: only the two change, and maybe the cell. *)
Lemma thread_inv s i k t t' c c' m l ex :
  inv s → threads s !! i = Some t → t_for t = k → conns s !! k = Some c → t_for t' = k → thread_ok t' c' →
  (∀ p v, m !! p = Some v ↔ cells s !! p = Some v ∧ (p = k → has_cell t' = true)) → (has_cell t' = true → has_cell t = true) →
  inv (MkServer (<[i := t']> (threads s)) (<[k := c']> (conns s)) m (next s) l ex).
Proof.
  intros [Hn Hu Ht Hun Hcell] Hi <- Hci Hf Hok Hm Hmono.
  assert (Efor : t_for <$> <[i := t']> (threads s) = t_for <$> threads s).
  { rewrite list_fmap_insert, Hf. apply list_insert_id. by rewrite list_lookup_fmap, Hi. }
  assert (Hinj : ∀ j u, threads s !! j = Some u → t_for u = t_for t → j = i).
  { intros j u Hj Hju. eapply NoDup_lookup; [exact Hu| |]; rewrite list_lookup_fmap; [by rewrite Hj|]. rewrite Hi. simpl. by rewrite Hju. }
  split; cbn; unfold unserved; cbn; rewrite ?length_insert, ?Efor; try done.
  - intros j u Hj. destruct (decide (i = j)) as [->|Hne].
    + rewrite list_lookup_insert_eq in Hj by eauto using lookup_lt_Some. injection Hj as <-. exists c'. split; [|done].
      rewrite Hf. apply list_lookup_insert_eq. by eapply lookup_lt_Some.
    + rewrite list_lookup_insert_ne in Hj by done. destruct (Ht j u Hj) as (d & Hd & Hok'). exists d. split; [|done].
      rewrite list_lookup_insert_ne; [done|]. intros E. symmetry in E. by apply Hne, eq_sym, (Hinj j u).
  - intros p d Hp Hus. destruct (decide (t_for t = p)) as [<-|Hne].
    + destruct Hus. apply list_elem_of_fmap. exists t. split; [done|]. by eapply list_elem_of_lookup_2.
    + rewrite list_lookup_insert_ne in Hp by done. by apply (Hun p d).
  - intros p v. rewrite Hm, Hcell. unfold unserved. destruct (decide (p = t_for t)) as [->|Hne].
    + assert (Hs : t_for t ∈ t_for <$> threads s) by (apply list_elem_of_fmap; exists t; split; [done|]; by eapply list_elem_of_lookup_2).
      split.
      * intros [[<- _] Hp]. split; [done|]. right. exists i, t'. rewrite list_lookup_insert_eq by eauto using lookup_lt_Some. auto.
      * intros (<- & [[_ ?]|(j & u & Hj & Hju & Hh)]); [done|]. assert (j = i) as ->.
        { destruct (decide (j = i)) as [|Hji]; [done|]. rewrite list_lookup_insert_ne in Hj by done. by apply (Hinj j u). }
        rewrite list_lookup_insert_eq in Hj by eauto using lookup_lt_Some. injection Hj as <-.
        split; [|done]. split; [done|]. right. exists i, t. auto.
    + split; [intros [[-> H] _]|intros (-> & H); split; [split; [done|]|done]];
        [split; [done|]|]; (destruct H as [H|(j & u & Hj & Hju & Hh)]; [by left|right; exists j, u]); (split; [|done]).
      * rewrite list_lookup_insert_ne; [done|]. intros ->. congruence.
      * destruct (decide (i = j)) as [->|]; [|by rewrite list_lookup_insert_ne in Hj].
        rewrite list_lookup_insert_eq in Hj by eauto using lookup_lt_Some. injection Hj as <-. congruence.
Qed.

Lemma thread_turn_inv a i s :
  inv s → short_reads (Thread i a) → BUFSIZE ≤ a_written a →
  match thread_turn a i s with Ok (Some s') => inv s' | Ok None => True | Err _ => False end.
Proof.
  intros Hs Hr Hw. unfold short_reads in Hr. unfold thread_turn. destruct (threads s !! i) as [t|] eqn:Hi; [|done].
  destruct (i_threads _ Hs i t Hi) as (c & Hc & [Harg Hconn Hopen Hecho Hchunk]).
  destruct t as [f p cn pc]. cbn in Hc, Harg, Hconn. subst p.
  assert (Hcell : has_cell (MkThread f f cn pc) = true → cells s !! f = Some f).
  { intros Hh. apply (i_cells _ Hs). split; [done|]. right. exists i, (MkThread f f cn pc). auto. }
  assert (Hfree : has_cell (MkThread f f cn pc) = false → ∀ p v, cells s !! p = Some v ↔ cells s !! p = Some v ∧ (p = f → false = true)).
  { intros Hh p v. split; [|tauto]. intros E. split; [done|]. intros ->.
    apply (i_cells _ Hs) in E as (_ & [[_ Hus]|(j & u & Hj & Hju & Hh')]).
    - destruct Hus. apply list_elem_of_fmap. exists (MkThread f f cn pc). split; [done|]. by eapply list_elem_of_lookup_2.
    - assert (j = i) as ->; [|congruence]. eapply NoDup_lookup; [apply (i_unique _ Hs)| |]; rewrite list_lookup_fmap; [by rewrite Hj|].
      rewrite Hi. simpl. by rewrite Hju. }
  assert (Hsame : <[f := c]> (conns s) = conns s) by (by apply list_insert_id).
  destruct pc as [| | |chunk|]; cbn in Hcell, Hfree, Hopen, Hecho, Hchunk; [| | | |done].
  - rewrite Hcell by done. unfold put_thread. rewrite <-Hsame.
    eapply thread_inv; [done..| |by intros; tauto|done]. split; cbn; auto.
  - rewrite Hcell by done. rewrite <-Hsame. destruct Hconn as [?|Hconn]; [done|].
    eapply thread_inv; [done..| | |done]; [split; cbn; auto|].
    intros p v. cbn. destruct (decide (p = f)) as [->|Hne]; [rewrite lookup_delete_eq; split; [done|]; intros [_ H]; by specialize (H eq_refl)|].
    rewrite lookup_delete_ne by done. tauto.
  - destruct Hconn as [?|Hconn]; [done|]. cbn in Hconn. subst cn. unfold open_conn. rewrite Hc, Hopen. cbn [mbind result_bind].
    destruct (a_read a) as [[|x l]|] eqn:Ea; [| |by apply exit_inv].
    + unfold put_conn, put_thread. cbn. eapply thread_inv; [done..| |by apply Hfree|done]. split; cbn; auto.
    + rewrite fputs_ok by done. cbn [mbind result_bind]. unfold put_conn, put_thread. cbn.
      eapply thread_inv; [done..| |by apply Hfree|done]. split; cbn; auto. by rewrite Hecho, app_nil_r.
  - destruct Hconn as [?|Hconn]; [done|]. cbn in Hconn. subst cn. unfold open_conn. rewrite Hc, Hopen. cbn [mbind result_bind].
    unfold put_conn, put_thread. cbn. eapply thread_inv; [done..| |by apply Hfree|done]. split; cbn; auto.
    + rewrite Hecho, app_nil_r. by rewrite take_ge by lia.
    + unfold BUFSIZE. lia.
Qed.

Lemma accept_turn_inv a s : inv s → match accept_turn a s with Ok s' => inv s' | Err e => a = MallocFails ∧ e = Fault end.
Proof.
  intros Hs. destruct a; [by apply exit_inv|done| |].
  - cbn. rewrite <-(app_nil_r (threads s)). apply new_conn_inv; [done|by left].
  - apply new_conn_inv; [done|by right].
Qed.

Lemma step_inv t s : inv s → short_reads t → full_writes t →
  match step t s with Ok (Some s') => inv s' | Ok None => True | Err e => t = Accept MallocFails ∧ e = Fault end.
Proof.
  intros Hs H1 H2. unfold step. destruct (exited s); [done|]. destruct t as [a|i a].
  - pose proof (accept_turn_inv a s Hs) as Ha. destruct (accept_turn a s); [done|]. by destruct Ha as [-> ->].
  - pose proof (thread_turn_inv a i s Hs H1 H2) as Ht. by destruct (thread_turn a i s).
Qed.

Lemma echo_reachable_inv s : reachable s → inv s.
Proof. induction 1 as [|t s s' _ IH H1 H2 E]; [apply echo_threads_start|]. pose proof (step_inv t s IH H1 H2) as H. by rewrite E in H. Qed.

(** C23. The threaded server, in every interleaving of [main] and any number of threads, as
    long as a [read] leaves room for the terminator and [write] takes what it is given: each
    thread serves the connection it was started for, which no other thread serves, has echoed
    exactly what it read but for the chunk at hand, and closes it once, at its end; a
    connection whose [pthread_create] failed stays open and unserved; the heap holds the
    cells of the threads that have not yet freed theirs and, for ever, those of the
    connections whose [pthread_create] failed, and no other.  The only turn that faults is
    that of a [malloc] that returns a null pointer; a failed [accept], or a failed [read] of
    one client, ends the server for all of them. *)
Theorem threads_echo s :
  reachable s →
  (∀ i t, threads s !! i = Some t → ∃ c, conns s !! t_for t = Some c ∧ (t_pc t ≠ TArg → t_conn t = t_for t) ∧
    (∀ j u, threads s !! j = Some u → t_for u = t_for t → j = i) ∧
    c_open c = running t ∧ c_in c = c_out c ++ unwritten t) ∧
  (∀ p c, conns s !! p = Some c → unserved s p → c = MkConn [] [] true) ∧
  (∀ p v, cells s !! p = Some v ↔ p = v ∧
    (p < length (conns s) ∧ unserved s p ∨ ∃ i t, threads s !! i = Some t ∧ t_for t = p ∧ has_cell t = true)) ∧
  (∀ t, short_reads t → full_writes t → t ≠ Accept MallocFails → ∃ r, step t s = Ok r) ∧
  (exited s = None →
    step (Accept MallocFails) s = Err Fault ∧ step (Accept AcceptFails) s = Ok (Some (ERR_EXIT s)) ∧
    ∀ i t n, threads s !! i = Some t → t_pc t = TRead → step (Thread i (MkAnswer None n)) s = Ok (Some (ERR_EXIT s))) ∧
  (∀ t, step t (ERR_EXIT s) = Ok None).
Proof.
  intros Hr. pose proof (echo_reachable_inv s Hr) as Hs. split_and!; [|apply (i_unserved _ Hs)|apply (i_cells _ Hs)| | |done].
  - intros i t Hi. destruct (i_threads _ Hs i t Hi) as (c & Hc & [H1 H2 H3 H4 _]). exists c.
    split_and!; [done|by destruct H2| |done|done]. intros j u Hj Hju.
    eapply NoDup_lookup; [apply (i_unique _ Hs)| |]; rewrite list_lookup_fmap; [by rewrite Hj|]. rewrite Hi. simpl. by rewrite Hju.
  - intros t H1 H2 Hm. pose proof (step_inv t s Hs H1 H2) as H. destruct (step t s) as [r|]; [by exists r|by destruct H].
  - intros He. unfold step. rewrite He. split_and!; [done|done|]. intros i t n Hi Hpc. unfold thread_turn. rewrite Hi.
    destruct (i_threads _ Hs i t Hi) as (c & Hc & [_ Hconn Hopen _ _]). destruct t as [f p cn pc]. cbn in *. subst pc.
    destruct Hconn as [?|Hconn]; [done|]. unfold open_conn. by rewrite Hconn, Hc, Hopen.
Qed.

(** A [read] that fills the buffer leaves no terminator: [fputs] runs past it. *)
Lemma full_read_overruns chunk : length chunk = BUFSIZE → 0%Z ∉ chunk → fputs chunk = Err Fault.
Proof.
  intros Hl Hn. unfold fputs, splice. rewrite take_0. cbn [app Nat.add]. rewrite drop_ge by (rewrite length_replicate; lia).
  rewrite app_nil_r. by rewrite bool_decide_false.
Qed.

(** A run by a list of turns; a turn that is not possible is skipped. *)
Definition nexts (ts : list turn) (s : server) : server :=
  foldl (λ s t, match step t s with Ok (Some s') => s' | _ => s end) s ts.

Lemma echo_reachable_nexts ts s : Forall (λ t, short_reads t ∧ full_writes t) ts → reachable s → reachable (nexts ts s).
Proof.
  intros Ht. revert s. induction Ht as [|t ts [H1 H2] _ IH]; intros s Hr; [done|]. unfold nexts. cbn [foldl]. apply IH.
  destruct (step t s) as [[s'|]|] eqn:E; [by eapply reach_turn|done..].
Qed.

(** Two clients and a failed [pthread_create] between them. *)
Lemma threads_echo_witness :
  let t i l := Thread i (MkAnswer (Some l) BUFSIZE) in
  let turns := [Accept Created; Accept CreateFails; Accept Created; t 1 []; t 0 []; t 0 []; t 0 [104; 105]%Z; t 1 []; t 0 []; t 1 [120%Z]] in
  let s := nexts turns start in
  (∃ t c, threads s !! 0 = Some t ∧ conns s !! 0 = Some c ∧ c_in c = [104; 105]%Z ∧ c_in c = c_out c ++ unwritten t) ∧
  cells s !! 1 = Some 1 ∧ step (Accept MallocFails) s = Err Fault.
Proof.
  intros t turns s. destruct (threads_echo s) as (H & _ & Hcells & _ & Hfail & _).
  - apply echo_reachable_nexts; [|apply reach_start]. repeat constructor; unfold short_reads, BUFSIZE; simpl; lia.
  - split; [|split].
    + destruct (threads s !! 0) as [u|] eqn:E; [|vm_compute in E; discriminate E]. destruct (H 0 u E) as (c & Hc & _ & _ & _ & He).
      assert (Hf : t_for u = 0) by (vm_compute in E; injection E as <-; reflexivity). rewrite Hf in Hc.
      exists u, c. split; [reflexivity|]. split; [exact Hc|]. split; [|exact He].
      assert (Hv : c_in <$> conns s !! 0 = Some [104; 105]%Z) by (vm_compute; reflexivity). rewrite Hc in Hv. injection Hv as Hv. exact Hv.
    + apply Hcells. split; [reflexivity|]. left. split; [apply Nat.ltb_lt; vm_compute; reflexivity|].
      unfold unserved. apply (bool_decide_unpack _). vm_compute. exact I.
    + apply Hfail. vm_compute. reflexivity.
Defined.
