(* ===== verification/CloseFds.v ===== *)
(** * Closing all descriptors

    [close_all_fd] of IO/tcp_reuse_port_test.c: it reads a process's descriptors from
    /proc/<pid>/fd and closes them, and starts over while a pass has closed something.
    The kernel is the input: in which order a pass lists the entries, and whether the calls
    of [readdir_r] and [close] fail for other reasons. *)

From S2P Require Import Prelude.
From Stdlib Require Import ZArith Lia Permutation.

(** An entry of the directory: a name that starts with a dot, or a descriptor's number. *)
Inductive entry := Dot | Fd (fd : Z).

(** The process's descriptors, and what the next pass lists: its own, or another process's.
    [order] lists the entries of a pass, the first being number 0. *)
Record kernel := MkKernel {
  own : bool;                              (* [pid] is the calling process *)
  others : list Z;                         (* the descriptors of another process *)
  order : nat → list entry → list entry;
  readdir_ok : nat → bool;                 (* the [n]-th [readdir_r] of the call *)
  close_ok : Z → bool;                     (* [close] of an open descriptor *)
}.

Definition listing (kn : kernel) (pass : nat) (open : gset Z) : list entry :=
  order kn pass (Dot :: Dot :: (Fd <$> (if own kn then elements open else others kn))).

(** How the entries of a pass end: out of the loop with [retval], or at the end of the
    directory with [rewind]. *)
Inductive scanned := Left (retval : Z) (open : gset Z) | AtEnd (open : gset Z) (rewind : bool) (reads : nat).

(** The loop within a pass.  [readlink] of the entry's name, which is relative to the
    working directory and not to [dir], does not give a path of length 0, so that the test
    for sockets never skips an entry. *)
Fixpoint scan (kn : kernel) (dirfd : Z) (entries : list entry) (open : gset Z) (rewind : bool) (reads : nat) : scanned :=
  if readdir_ok kn reads then
    match entries with
    | [] => AtEnd open rewind (S reads)
    | Dot :: entries => scan kn dirfd entries open rewind (S reads)
    | Fd fd :: entries =>
        if (dirfd =? fd)%Z then scan kn dirfd entries open rewind (S reads)
        else if (fd <? 3)%Z then scan kn dirfd entries open rewind (S reads)
        else if bool_decide (fd ∈ open) && close_ok kn fd
        then scan kn dirfd entries (open ∖ {[fd]}) true (S reads)
        else Left (-1) open
    end
  else Left (-1) open.

(** [while (1)], pass by pass: [retval] and the open descriptors; [None]: out of fuel. *)
Fixpoint passes (fuel : nat) (kn : kernel) (dirfd : Z) (pass : nat) (open : gset Z) (reads : nat) : option (Z * gset Z) :=
  match fuel with
  | O => None
  | S fuel =>
      match scan kn dirfd (listing kn pass open) open false reads with
      | Left retval open => Some (retval, open)
      | AtEnd open true reads => passes fuel kn dirfd (S pass) open reads
      | AtEnd open false _ => Some (0%Z, open)
      end
  end.

(** [close_all_fd]; [dirfd]: the descriptor that [opendir] gives, [None]: it fails. *)
Definition close_all_fd (fuel : nat) (kn : kernel) (dirfd : option Z) (open : gset Z) : option (Z * gset Z) :=
  match dirfd with
  | None => Some ((-1)%Z, open)
  | Some d =>
      '(retval, open) ← passes fuel kn d 0 ({[d]} ∪ open) 0;
      Some (retval, open ∖ {[d]})
  end.

(** ** What a pass closes *)

(** The descriptors that stay. *)
Definition spared (dirfd fd : Z) : bool := (dirfd =? fd)%Z || (fd <? 3)%Z.

Definition entry_fds (es : list entry) : list Z := omap (λ e, match e with Dot => None | Fd fd => Some fd end) es.

Lemma scan_closes kn dirfd es open rewind reads :
  (∀ n, readdir_ok kn n = true) → (∀ fd, close_ok kn fd = true) →
  NoDup (entry_fds es) → (∀ fd, fd ∈ entry_fds es → spared dirfd fd = false → fd ∈ open) →
  ∃ open' reads', scan kn dirfd es open rewind reads =
      AtEnd open' (rewind || bool_decide (Exists (λ fd, spared dirfd fd = false) (entry_fds es))) reads' ∧
    ∀ fd, fd ∈ open' ↔ fd ∈ open ∧ ¬ (fd ∈ entry_fds es ∧ spared dirfd fd = false).
Proof.
  intros Hrd Hcl. revert open rewind reads. induction es as [|e es IH]; intros open rewind reads Hnd Hin; cbn [scan]; rewrite Hrd.
  - exists open, (S reads). split; [by destruct rewind|]. intros fd. cbn. rewrite elem_of_nil. tauto.
  - destruct e as [|fd].
    { apply IH; done. }
    cbn [entry_fds omap list_omap] in *. fold (entry_fds es) in *. apply NoDup_cons in Hnd as [Hnf Hnd].
    destruct (spared dirfd fd) eqn:Es.
    + assert (E : scan kn dirfd es open rewind (S reads) =
        (if (dirfd =? fd)%Z then scan kn dirfd es open rewind (S reads)
         else if (fd <? 3)%Z then scan kn dirfd es open rewind (S reads)
         else if bool_decide (fd ∈ open) && close_ok kn fd then scan kn dirfd es (open ∖ {[fd]}) true (S reads) else Left (-1) open)).
      { unfold spared in Es. destruct (dirfd =? fd)%Z; [done|]. by destruct (fd <? 3)%Z. }
      rewrite <-E. destruct (IH open rewind (S reads) Hnd) as (o & r & -> & Ho); [set_solver|].
      exists o, r. split.
      * f_equal. f_equal. apply bool_decide_ext. rewrite Exists_cons. rewrite Es. intuition done.
      * intros x. rewrite Ho, elem_of_cons. split; [intros [? Hn]; split; [done|]; intros [[->|?] ?]; [congruence|tauto]|tauto].
    + assert (Hd : (dirfd =? fd)%Z = false ∧ (fd <? 3)%Z = false) by (unfold spared in Es; by apply orb_false_iff).
      destruct Hd as [-> ->]. rewrite (bool_decide_true (fd ∈ open)) by (apply Hin; [left|done]). rewrite Hcl. cbn [andb].
      destruct (IH (open ∖ {[fd]}) true (S reads) Hnd) as (o & r & -> & Ho); [set_solver|].
      exists o, r. split.
      * f_equal. cbn [orb]. rewrite bool_decide_true; [by rewrite orb_true_r|by apply Exists_cons; left].
      * intros x. rewrite Ho, elem_of_cons, elem_of_difference, elem_of_singleton. destruct (decide (x = fd)) as [->|]; intuition congruence.
Qed.

(** The entries of a pass, in any order. *)
Definition orders (kn : kernel) : Prop := ∀ pass es, order kn pass es ≡ₚ es.

Lemma entry_fds_fds l : entry_fds (Fd <$> l) = l.
Proof. induction l as [|x l IH]; [done|]. cbn. f_equal. exact IH. Qed.

Lemma entry_fds_perm es es' : es ≡ₚ es' → entry_fds es ≡ₚ entry_fds es'.
Proof. intros H. unfold entry_fds. by rewrite H. Qed.

Lemma listing_fds kn pass open : orders kn → own kn = true → entry_fds (listing kn pass open) ≡ₚ elements open.
Proof.
  intros Ho He. unfold listing. rewrite He. rewrite (entry_fds_perm _ _ (Ho pass _)). cbn. by rewrite <-(entry_fds_fds (elements open)) at 2.
Qed.

(** A whole pass over the process's own descriptors. *)
Lemma pass_closes kn dirfd pass open reads :
  own kn = true → orders kn → (∀ n, readdir_ok kn n = true) → (∀ fd, close_ok kn fd = true) →
  ∃ open' again reads', scan kn dirfd (listing kn pass open) open false reads = AtEnd open' again reads' ∧
    (∀ fd, fd ∈ open' ↔ fd ∈ open ∧ spared dirfd fd = true) ∧ (again = true ↔ ∃ fd, fd ∈ open ∧ spared dirfd fd = false).
Proof.
  intros He Ho Hrd Hcl. pose proof (listing_fds kn pass open Ho He) as Hl.
  assert (Hin : ∀ fd, fd ∈ entry_fds (listing kn pass open) ↔ fd ∈ open) by (intros fd; rewrite Hl; apply elem_of_elements).
  destruct (scan_closes kn dirfd (listing kn pass open) open false reads Hrd Hcl) as (o & r & E & Hx).
  - rewrite Hl. apply NoDup_elements.
  - intros fd. by rewrite Hin.
  - do 3 eexists. split; [exact E|]. split.
    + intros fd. rewrite Hx, Hin. destruct (spared dirfd fd); intuition done.
    + cbn [orb]. rewrite bool_decide_eq_true, Exists_exists. by setoid_rewrite Hin.
Qed.

(** [close_all_fd] of the calling process, in whatever order the kernel lists the
    entries: it ends after at most two passes, returns 0, and has closed every descriptor
    but 0, 1 and 2, that of the directory last. *)
Lemma close_all_fd_closes kn dirfd open fuel :
  own kn = true → orders kn → (∀ n, readdir_ok kn n = true) → (∀ fd, close_ok kn fd = true) →
  dirfd ∉ open → (3 ≤ dirfd)%Z → 2 ≤ fuel →
  ∃ open', close_all_fd fuel kn (Some dirfd) open = Some (0%Z, open') ∧ ∀ fd, fd ∈ open' ↔ fd ∈ open ∧ (fd < 3)%Z.
Proof.
  intros He Ho Hrd Hcl Hnd Hd Hf. cbn [close_all_fd]. destruct fuel as [|[|fuel]]; [lia..|]. cbn [passes].
  assert (Hsp : ∀ fd, fd ≠ dirfd → spared dirfd fd = true ↔ (fd < 3)%Z).
  { intros fd Hne. unfold spared. rewrite orb_true_iff, Z.eqb_eq, Z.ltb_lt. intuition congruence. }
  destruct (pass_closes kn dirfd 0 ({[dirfd]} ∪ open) 0 He Ho Hrd Hcl) as (o1 & again & r1 & -> & H1 & _).
  assert (Hfin : ∀ o : gset Z, (∀ fd, fd ∈ o ↔ fd ∈ o1) → ∀ fd, fd ∈ o ∖ {[dirfd]} ↔ fd ∈ open ∧ (fd < 3)%Z).
  { intros o Hoo fd. rewrite elem_of_difference, elem_of_singleton, Hoo, H1, elem_of_union, elem_of_singleton.
    destruct (decide (fd = dirfd)) as [->|Hne]; [intuition done|]. rewrite Hsp by done. intuition done. }
  destruct again; [|eexists; split; [done|]; by apply Hfin].
  destruct (pass_closes kn dirfd 1 o1 r1 He Ho Hrd Hcl) as (o2 & again & r2 & -> & H2 & Ha).
  destruct again.
  - destruct Ha as [Ha _]. destruct (Ha eq_refl) as (fd & Hin & Hs). apply H1 in Hin as [_ ?]. congruence.
  - eexists. split; [done|]. apply Hfin. intros fd. rewrite H2, H1. tauto.
Qed.

Lemma close_all_fd_closes_witness :
  let kn := MkKernel true [] (λ _ es, reverse es) (λ _, true) (λ _, true) in
  ∃ open', close_all_fd 2 kn (Some 9%Z) {[0; 1; 5; 7]}%Z = Some (0%Z, open') ∧ (7%Z ∉ open') ∧ (1%Z ∈ open').
Proof.
  intros kn. destruct (close_all_fd_closes kn 9 {[0; 1; 5; 7]}%Z 2) as (o & E & H).
  - reflexivity.
  - intros pass es. apply reverse_Permutation.
  - reflexivity.
  - reflexivity.
  - apply (bool_decide_unpack _). vm_compute. exact I.
  - lia.
  - lia.
  - exists o. split; [exact E|]. rewrite !H. split; [lia|]. split; [apply (bool_decide_unpack _); vm_compute; exact I|lia].
Defined.

(** With the descriptors of another process listed, as in the call that is commented out in
    [main] (the child closes what it shares with its parent), a descriptor of the second pass
    is not open any more: all are closed, but the result is -1. *)
Example close_all_fd_foreign :
  let kn := MkKernel false [0; 1; 2; 3; 4]%Z (λ _ es, es) (λ _, true) (λ _, true) in
  ('(retval, open) ← close_all_fd 2 kn (Some 5%Z) {[0; 1; 2; 3; 4]}%Z; Some (retval, bool_decide (open = {[0; 1; 2]}%Z))) =
  Some ((-1)%Z, true).
Proof. vm_compute. reflexivity. Qed.
