(* ===== verification/CodeConvert.v ===== *)
(** * Conversion of encodings

    Languages/cpp/code_convert/code_convert.cpp: [code_convert] around [iconv].  [iconv] is
    the C library's: the bytes it writes and whether it succeeds are inputs, with the
    documented bound that it writes no more than it was told there is room for. *)

From S2P Require Import Prelude CText.
From Stdlib Require Import ZArith Lia.

Abbreviation bytes := (list Z).

(** [iconv]: the bytes it writes at [outbuf], and whether it returns other than [-1].  It
    moves [outbuf] past these bytes and takes them off [outbytesleft]. *)
Record conversion := MkConversion { written : bytes; succeeds : bool }.

(** [code_convert] with [*outlen = outlen] and [outbuf] at the start of an object [buf]; the
    return code, the object and [*outlen] afterwards.  [cd_ok]: [iconv_open] succeeds. *)
Definition code_convert (cd_ok : bool) (iconv : nat → conversion) (buf : bytes) (outlen : nat) : result (Z * bytes * nat) :=
  if cd_ok then
    let r := iconv outlen in
    let buf := splice 0 (written r) buf in
    let outbuf := length (written r) in
    let outbytesleft := outlen - length (written r) in
    if succeeds r then
      let outlen := outlen - outbytesleft in
      if (outbuf + outlen <? length buf)%nat then Ok (0%Z, <[outbuf + outlen := 0%Z]> buf, outlen) else Err Fault
    else Ok ((-1)%Z, buf, outlen)
  else Ok ((-1)%Z, buf, outlen).

(** [code_convert] when the conversion of [k] bytes succeeds: the object must have room
    for [2 k + 1] bytes, else the terminator is written outside it, although [outlen] bytes
    and a terminator fit; with that room [*outlen] and the first [*outlen] bytes are the
    converted text, but the byte after them keeps its old value: the terminator is [k] bytes
    further on. *)
Lemma code_convert_terminator iconv buf outlen k :
  succeeds (iconv outlen) = true → k = length (written (iconv outlen)) → k ≤ outlen → outlen < length buf → 0 < k →
  match code_convert true iconv buf outlen with
  | Ok (rc, buf', outlen') =>
      2 * k < length buf ∧ rc = 0%Z ∧ outlen' = k ∧ take outlen' buf' = written (iconv outlen) ∧ buf' !! k = buf !! k ∧
      buf' !! (2 * k) = Some 0%Z
  | Err e => e = Fault ∧ length buf ≤ 2 * k
  end.
Proof.
  intros Hs -> Hk Hl H0. unfold code_convert. rewrite Hs. set (w := written (iconv outlen)) in *.
  replace (outlen - (outlen - length w)) with (length w) by lia. rewrite length_splice by lia.
  destruct (Nat.ltb_spec (length w + length w) (length buf)); [|split; [done|lia]].
  assert (Hd : splice 0 w buf !! length w = buf !! length w).
  { unfold splice. rewrite take_0. cbn [app Nat.add]. rewrite lookup_app_r by lia. rewrite Nat.sub_diag, lookup_drop. f_equal. lia. }
  split_and!; [lia|done|done|..].
  - rewrite take_insert_ge by lia. unfold splice. rewrite take_0. cbn [app Nat.add]. by rewrite take_app_length.
  - by rewrite list_lookup_insert_ne by lia.
  - replace (2 * length w) with (length w + length w) by lia. apply list_lookup_insert_eq. rewrite length_splice; lia.
Qed.

Lemma code_convert_terminator_witness :
  let iconv (_ : nat) := MkConversion [104; 105]%Z true in
  code_convert true iconv (replicate 4 63%Z) 3 = Err Fault ∧
  code_convert true iconv (replicate 8 63%Z) 7 = Ok (0%Z, [104; 105; 63; 63; 0; 63; 63; 63]%Z, 2).
Proof.
  intros iconv. split.
  - pose proof (code_convert_terminator iconv (replicate 4 63%Z) 3 2 eq_refl eq_refl ltac:(lia) ltac:(simpl; lia) ltac:(lia)) as H.
    destruct (code_convert true iconv (replicate 4 63%Z) 3) as [[[rc b] n]|e]; [destruct H as [H _]; simpl in H; lia|].
    destruct H as [-> _]. reflexivity.
  - pose proof (code_convert_terminator iconv (replicate 8 63%Z) 7 2 eq_refl eq_refl ltac:(lia) ltac:(simpl; lia) ltac:(lia)) as H.
    reflexivity.
Defined.
