(* ===== verification/SharedRecord.v ===== *)
(** * Records in shared memory

    LinuxIPC/28ipc-sharemem/mmapwrite.c and mmapread.c (five records in a mapped file), and
    LinuxIPC/29ipcMem/shmcreate.c and shmread.c (one record in a System V segment): a record
    is a name of a fixed width followed by an [int]. *)

From S2P Require Import Prelude CText.
From Stdlib Require Import ZArith Lia.

Abbreviation bytes := (list Z).

(** ** [STU], with a name of [w] bytes, at an offset of the memory *)

Definition stu_size (w : nat) : nat := w + 4.

(** Writes of a name (without check of its length) and of an age. *)
Definition put_name (off : nat) (name mem : bytes) : bytes := splice off name mem.
Definition put_age (w off : nat) (age : Z) (mem : bytes) : bytes := splice (off + w) (le_encode 4 age) mem.

(** What [printf("%s,%d")] shows; the string ends at the first NUL, wherever it is. *)
Definition get_stu (w off : nat) (mem : bytes) : bytes * Z := (cstring off mem, i32 (le_decode (slice (off + w) 4 mem))).

(** ** mmapwrite.c and mmapread.c *)

Definition NAME_LEN : nat := 4.

(** The file after [O_TRUNC], [lseek] to its last byte and [write]. *)
Definition new_file (n : nat) : bytes := replicate (stu_size NAME_LEN * n) 0%Z.

(** The loop over the records, from [i] on. *)
Fixpoint write_loop (n i : nat) (ch : Z) (mem : bytes) : bytes :=
  match n with
  | O => mem
  | S n =>
      let off := i * stu_size NAME_LEN in
      write_loop n (S i) (i8 (ch + 1)) (put_age NAME_LEN off (20 + Z.of_nat i) (put_name off [ch] mem))
  end.
Definition mmapwrite (n : nat) : bytes := write_loop n 0 97 (new_file n).

(** What is printed of [n] records; [None]: the mapping ends before them. *)
Definition mmapread (n : nat) (mem : bytes) : option (list (bytes * Z)) :=
  if (n * stu_size NAME_LEN <=? length mem)%nat
  then Some ((λ i, get_stu NAME_LEN (i * stu_size NAME_LEN) mem) <$> seq 0 n)
  else None.

(** ** shmcreate.c and shmread.c *)

(** [strcpy(ptr->name, "lisi")] writes the terminator too; [mem]: what the segment held. *)
Definition shmcreate (mem : bytes) : bytes := put_age 32 0 20 (put_name 0 (ascii_bytes "lisi" ++ [0%Z]) mem).
Definition shmread (mem : bytes) : bytes * Z := get_stu 32 0 mem.

(** ** Round trips *)

Lemma slice_splice_same off (x mem : bytes) : off + length x ≤ length mem → slice off (length x) (splice off x mem) = x.
Proof.
  intros H. unfold slice, splice. rewrite drop_app_length' by (rewrite length_take; lia). by apply take_app_length.
Qed.

Lemma drop_splice_after off (x mem : bytes) k : off + length x ≤ k → off ≤ length mem → drop k (splice off x mem) = drop k mem.
Proof.
  intros H Hl. unfold splice. rewrite drop_app_ge by (rewrite length_take; lia). rewrite length_take.
  rewrite drop_app_ge by lia. rewrite drop_drop. f_equal. lia.
Qed.

Lemma take_splice_before off (x mem : bytes) k : k ≤ off → off ≤ length mem → take k (splice off x mem) = take k mem.
Proof.
  intros H Hl. unfold splice. rewrite take_app_le by (rewrite length_take; lia). rewrite take_take. by rewrite Nat.min_l.
Qed.

(** A record reads the same while its bytes do. *)
Lemma cstring_local off len (m1 m2 : bytes) :
  slice off len m1 = slice off len m2 → 0%Z ∈ slice off len m1 → cstring off m1 = cstring off m2.
Proof.
  unfold cstring, slice. generalize (drop off m1) (drop off m2). clear. revert len. fix IH 1. intros [|len] [|a l1] [|b l2] E Hin; try done.
  all: try (simpl in *; by apply elem_of_nil in Hin). simpl in E. injection E as -> E. simpl in Hin |- *.
  destruct (Z.eqb_spec b 0); [done|]. f_equal. apply (IH len); [done|]. apply elem_of_cons in Hin as [?|?]; [lia|done].
Qed.

(** The record written last, with a name and its terminator inside the field. *)
Lemma get_put w off name age mem :
  off + stu_size w ≤ length mem → 0%Z ∉ name → length name < w → (- 2 ^ 31 ≤ age < 2 ^ 31)%Z →
  mem !! (off + length name) = Some 0%Z →
  get_stu w off (put_age w off age (put_name off name mem)) = (name, age).
Proof.
  intros Hl Hn Hw Ha Hz. unfold stu_size in Hl. unfold get_stu, put_age, put_name. set (m1 := splice off name mem).
  assert (Hl1 : length m1 = length mem) by (apply length_splice; lia). f_equal.
  - transitivity (cstring off m1).
    + apply (cstring_local _ w).
      * unfold slice. rewrite !take_drop_commute. by rewrite take_splice_before by lia.
      * unfold slice. rewrite take_drop_commute, take_splice_before, <-take_drop_commute by lia.
        apply list_elem_of_lookup. exists (length name). rewrite lookup_take_lt by lia. rewrite lookup_drop. unfold m1.
        rewrite <-(Nat.add_0_r (off + _)), <-lookup_drop, drop_splice_after, lookup_drop by lia. by rewrite Nat.add_0_r.
    + unfold cstring, m1, splice. rewrite drop_app_length' by (rewrite length_take; lia).
      destruct (drop (off + length name) mem) as [|z r] eqn:Ed.
      * rewrite <-(Nat.add_0_r (off + _)), <-lookup_drop, Ed in Hz. done.
      * rewrite <-(Nat.add_0_r (off + _)), <-lookup_drop, Ed in Hz. simpl in Hz. injection Hz as ->.
        rewrite until_nul_app_nul. by apply until_nul_no_nul.
  - rewrite <-(length_le_encode 4 age) at 1. rewrite slice_splice_same by (rewrite length_le_encode; lia).
    rewrite le_decode_encode. change (256 ^ Z.of_nat 4)%Z with (2 ^ 32)%Z.
    rewrite <-(sgn_small 32 age) at 2 by lia. unfold sgn, wrap. by rewrite Z.mod_mod.
Qed.

Lemma get_local w off (m1 m2 : bytes) :
  take (off + stu_size w) m1 = take (off + stu_size w) m2 → 0%Z ∈ slice off w m1 → get_stu w off m1 = get_stu w off m2.
Proof.
  intros E Hz.
  assert (Hs : ∀ o n, o + n ≤ off + stu_size w → slice o n m1 = slice o n m2).
  { intros o n Ho. unfold slice. rewrite !take_drop_commute. f_equal.
    rewrite <-(Nat.min_l (o + n) (off + stu_size w)) by lia. by rewrite <-!take_take, E. }
  unfold get_stu. f_equal; [apply (cstring_local off w); [|done]|do 2 f_equal]; apply Hs; unfold stu_size; lia.
Qed.

Lemma zero_field off k n (mem : bytes) :
  drop off mem = replicate n 0%Z → k < n → mem !! (off + k) = Some 0%Z.
Proof. intros E Hk. rewrite <-lookup_drop, E. by apply lookup_replicate_2. Qed.

(** The terminator is in the field. *)
Lemma name_terminated w off name age mem :
  off + stu_size w ≤ length mem → length name < w → mem !! (off + length name) = Some 0%Z →
  0%Z ∈ slice off w (put_age w off age (put_name off name mem)).
Proof.
  intros Hl Hw Hz. unfold stu_size in Hl. unfold put_age, put_name, slice. rewrite take_drop_commute, take_splice_before by (rewrite ?length_splice; lia).
  rewrite <-take_drop_commute. apply list_elem_of_lookup. exists (length name). rewrite lookup_take_lt by lia. rewrite lookup_drop.
  rewrite <-(Nat.add_0_r (off + _)), <-lookup_drop, drop_splice_after, lookup_drop by lia. by rewrite Nat.add_0_r.
Qed.

Lemma write_loop_spec n i ch mem :
  ch = (97 + Z.of_nat i)%Z → i + n ≤ 30 → length mem = stu_size NAME_LEN * (i + n) →
  drop (i * stu_size NAME_LEN) mem = replicate (stu_size NAME_LEN * n) 0%Z →
  length (write_loop n i ch mem) = length mem ∧
  take (i * stu_size NAME_LEN) (write_loop n i ch mem) = take (i * stu_size NAME_LEN) mem ∧
  ∀ j, i ≤ j < i + n → get_stu NAME_LEN (j * stu_size NAME_LEN) (write_loop n i ch mem) = ([97 + Z.of_nat j], 20 + Z.of_nat j)%Z.
Proof.
  change (stu_size NAME_LEN) with 8. revert i ch mem. induction n as [|n IH]; intros i ch mem Hch Hb Hl Hz; [split_and!; [done..|lia]|].
  cbn [write_loop]. change (stu_size NAME_LEN) with 8. set (off := i * 8) in *.
  set (m1 := put_age NAME_LEN off (20 + Z.of_nat i) (put_name off [ch] mem)).
  assert (Hput : length (put_name off [ch] mem) = length mem) by (unfold put_name; apply length_splice; simpl; lia).
  assert (Hl1 : length m1 = length mem) by (unfold m1, put_age; rewrite length_splice; [done|rewrite length_le_encode, Hput; unfold NAME_LEN; lia]).
  assert (Hz1 : mem !! (off + length [ch]) = Some 0%Z) by (eapply zero_field; [done|simpl; lia]).
  assert (Hroom : off + stu_size NAME_LEN ≤ length mem) by (change (stu_size NAME_LEN) with 8; lia).
  destruct (IH (S i) (i8 (ch + 1)) m1) as (IHl & IHt & IHj).
  - rewrite sgn_small by lia. lia.
  - lia.
  - rewrite Hl1. lia.
  - unfold m1, put_age. rewrite drop_splice_after by (rewrite ?length_le_encode, ?Hput; unfold NAME_LEN; lia). unfold put_name.
    rewrite drop_splice_after by (simpl; lia). replace (S i * 8) with (off + 8) by lia. rewrite <-drop_drop, Hz, drop_replicate. f_equal. lia.
  - split_and!; [congruence| |].
    + apply (f_equal (take off)) in IHt. rewrite !take_take, !(Nat.min_l off) in IHt by lia. rewrite IHt. unfold m1, put_age.
      rewrite take_splice_before by (rewrite ?Hput; unfold NAME_LEN; lia). unfold put_name. by rewrite take_splice_before by lia.
    + intros j Hj. destruct (decide (j = i)) as [->|]; [|apply IHj; lia]. fold off.
      rewrite <-(get_local NAME_LEN off m1).
      * rewrite <-Hch. unfold m1. apply get_put; [done|rewrite not_elem_of_cons; split; [lia|apply not_elem_of_nil]|unfold NAME_LEN; simpl; lia|lia|done].
      * replace (off + stu_size NAME_LEN) with (S i * 8) by (change (stu_size NAME_LEN) with 8; lia). done.
      * apply name_terminated; [done|unfold NAME_LEN; simpl; lia|done].
Qed.

Lemma put_terminated off name (mem : bytes) :
  off + length name < length mem → put_name off (name ++ [0%Z]) mem = put_name off name (<[off + length name := 0%Z]> mem).
Proof.
  intros H. unfold put_name, splice. rewrite take_insert_ge by lia. rewrite length_app. cbn [length]. rewrite <-!app_assoc. do 2 f_equal.
  rewrite (drop_S (<[off + length name := 0%Z]> mem) 0%Z (off + length name)) by (apply list_lookup_insert_eq; lia). rewrite drop_insert_lt by lia. cbn [app]. do 2 f_equal. lia.
Qed.

(** What the readers print is what the writers stored: mmapread shows the [n] records of
    mmapwrite (for the five of the program, and up to 30), each with its one-letter name and
    age; shmread shows the record of shmcreate whatever the segment held before. *)
Lemma records_roundtrip n mem :
  n ≤ 30 → stu_size 32 ≤ length mem →
  mmapread n (mmapwrite n) = Some ((λ j, ([97 + Z.of_nat j], 20 + Z.of_nat j)%Z) <$> seq 0 n) ∧
  shmread (shmcreate mem) = (ascii_bytes "lisi", 20%Z).
Proof.
  intros Hn Hm. split.
  - unfold mmapread, mmapwrite. destruct (write_loop_spec n 0 97 (new_file n)) as (Hl & _ & Hj); [done|lia|apply length_replicate|done|].
    rewrite Hl. unfold new_file. rewrite length_replicate. destruct (Nat.leb_spec (n * stu_size NAME_LEN) (stu_size NAME_LEN * n)); [|lia].
    f_equal. apply list_fmap_ext. intros k j Hk. apply lookup_seq in Hk. apply Hj. lia.
  - unfold shmread, shmcreate. unfold stu_size in Hm. rewrite put_terminated by (simpl; lia).
    apply get_put; [rewrite length_insert; unfold stu_size; lia|apply (bool_decide_unpack _); by vm_compute|simpl; lia|lia|apply list_lookup_insert_eq; simpl; lia].
Qed.

Lemma records_roundtrip_witness :
  mmapread 5 (mmapwrite 5) = Some [([97], 20); ([98], 21); ([99], 22); ([100], 23); ([101], 24)]%Z ∧
  shmread (shmcreate (replicate 36 255%Z)) = ([108; 105; 115; 105]%Z, 20%Z).
Proof. apply (records_roundtrip 5 (replicate 36 255%Z)); [lia|rewrite length_replicate; unfold stu_size; lia]. Defined.
