(* ===== verification/Templates.v ===== *)
(** * Templates

    Languages/cpp/cpp11_feature/templates_demo.cpp: the class template [tup] (a tuple by
    recursive inheritance), the variadic [printX], the meta-function [Factorial], [max] with
    its specialisation, [is_const], and what the program prints with them.  A C++ type is a value of [cty]; what the compiler
    rejects is [None], or does not type-check here either. *)

From S2P Require Import Prelude.
From Stdlib Require Import ZArith Lia SpecFloat.

Abbreviation bytes := (list Z).

(** ** Types and their values *)

Inductive cty := TBool | TInt | TFloat | TDouble | TString | TComplexInt | TBitset (n : nat) | TConst (t : cty).

Fixpoint value (t : cty) : Type :=
  match t with
  | TBool => bool
  | TInt => Z
  | TFloat | TDouble => double
  | TString => bytes
  | TComplexInt => Z * Z
  | TBitset _ => list bool
  | TConst t => value t
  end.

(** [is_const<T>::value] *)
Definition is_const (t : cty) : bool := match t with TConst _ => true | _ => false end.

Module Tup.

(** [tup<Values...>]: the empty one, and one that inherits the tuple of the tail. *)
Inductive tup : list cty → Type :=
  | tup_nil : tup []
  | tup_cons {t ts} (inherited : tup ts) (m_head : value t) : tup (t :: ts).

(** The arguments of a constructor call. *)
Inductive args : list cty → Type :=
  | no_args : args []
  | arg {t ts} (v : value t) (vtail : args ts) : args (t :: ts).

(** [tup(Head v, Tail ... vtail) : inherited(vtail...), m_head(v)] *)
Fixpoint tup_new {ts} (a : args ts) : tup ts :=
  match a with no_args => tup_nil | arg v vtail => tup_cons (tup_new vtail) v end.

Definition head {t ts} (x : tup (t :: ts)) : value t :=
  match x in tup l return match l with [] => unit | t :: _ => value t end with tup_nil => tt | tup_cons _ v => v end.
Definition tail {t ts} (x : tup (t :: ts)) : tup ts :=
  match x in tup l return match l with [] => unit | _ :: ts => tup ts end with tup_nil => tt | tup_cons i _ => i end.

(** [it1] of [run]: an [int], a [float] and a [string]. *)
Definition it1 (f : double) : tup [TInt; TFloat; TString] :=
  @tup_new [TInt; TFloat; TString] (@arg TInt _ 41%Z (@arg TFloat _ f (@arg TString _ (ascii_bytes "nico") no_args))).

Example it1_shown f : head (tail (tail (it1 f))) = ascii_bytes "nico" ∧ head (it1 f) = 41%Z.
Proof. done. Qed.
End Tup.

Module Meta.

(** [Factorial<N>::value] at type [int]: a product that does not fit is rejected, and so is
    an endless instantiation. *)
Fixpoint Factorial (n : nat) : option Z :=
  match n with
  | O => Some 1%Z
  | S m => v ← Factorial m; let p := (Z.of_nat n * v)%Z in if (p <? 2 ^ 31)%Z then Some p else None
  end.

(** [printX]: what each call prints, the argument and the number of those after it. *)
Fixpoint printX (l : list bytes) : list (bytes * nat) :=
  match l with [] => [] | h :: args => (h, length args) :: printX args end.

(** [max], with [gt] the operator [>] of [T]; [max<bool>]. *)
Definition max {T} (gt : T → T → bool) (a b : T) : T := if gt a b then a else b.
Definition max_bool (a b : bool) : bool := a || b.
Definition bool_gt (a b : bool) : bool := a && negb b.

(** [Factorial<N>::value] compiles exactly for [N] up to 12, the largest whose factorial
    fits an [int], and is the factorial; the specialisation [max<bool>] is [max]. *)
Lemma factorial_fits n :
  (Factorial n = if (n <=? 12)%nat then Some (foldr Z.mul 1%Z (Z.of_nat <$> seq 1 n)) else None) ∧ (∀ a b, max_bool a b = max bool_gt a b).
Proof.
  split; [|by intros [] []]. destruct (Nat.leb_spec n 12) as [H|H].
  - do 13 (destruct n as [|n]; [reflexivity|]). lia.
  - induction H as [|n H IH]; [by vm_compute|]. cbn [Factorial]. by rewrite IH.
Qed.

(** Every argument is printed once, in order, with the number of arguments still to come. *)
Lemma printX_lines l : printX l = imap (λ i h, (h, length l - S i)) l.
Proof.
  induction l as [|h l IH]; [done|]. cbn [printX imap length]. rewrite IH, Nat.sub_succ, Nat.sub_0_r. done.
Qed.
End Meta.

(** ** The program *)

(** What [main] prints, item by item: texts and the values of the expressions (not their
    decimal forms). *)
Module Runs.

Inductive item := Text (s : string) | Int (z : Z) | Double (d : double) | Bool (b : bool) | Str (s : bytes) | Endl.

Definition double_gt (a b : double) : bool := SFltb b a.
Definition int_gt (a b : Z) : bool := (b <? a)%Z.

(** [max<bool>] prints when it is called, before its caller prints the result. *)
Definition print_max_bool (a b : bool) : list item :=
  [Text "call specialization max<bool>()"; Endl; Bool (Meta.max_bool a b); Endl].

(** [Test01::run] *)
Definition Test01_run : list item :=
  [Text "max(a, b) :"; Int (Meta.max int_gt 1 2)%Z; Endl;
   Text "max(a, b) :"; Double (Meta.max double_gt (double_of_Z 5) (double_of_Z 8)); Endl;
   Double (Meta.max double_gt (double_of_Z 3) (double_of_Z 7)); Endl] ++ print_max_bool true false.

(** Algorithm/rb_tree.cpp is that part of the program alone, under another name. *)
Definition rb_tree_main : list item := Test01_run.

(** [ClassX<T>::show], with the specialisation for [int]. *)
Definition show (t : cty) : list item := match t with TInt => [Text "<int>show"; Endl] | _ => [Text "show"; Endl] end.
Definition Test02_run : list item := show TInt.

(** [pi<double>]: the literal is a [long double], the nearest of 64 bits, and is converted. *)
Definition pi_literal : Z * Z := (14488038916154245685, -62)%Z.
Definition pi : double := binary_normalize 53 1024 (fst pi_literal) (snd pi_literal) false.
Definition circular_area (r : double) : double := double_mul (double_mul pi r) r.
Definition Test03_run : list item := [Text "area is "; Double (circular_area (double_of_Z 10)); Endl].

Definition Test05_run : list item := [Text "Test05::run()"; Endl].

(** [printX(1, 200.10, "sunquan")], each line with the number of arguments left. *)
Definition printX_items (l : list item) : list item :=
  concat (imap (λ i x, [x; Text ", "; Int (Z.of_nat (length l - S i)); Endl]) l).
Definition Test06_run : list item :=
  [Text "printX() "; Endl] ++ printX_items [Int 1; Double (double_div (double_of_Z 2001) (double_of_Z 10)); Text "sunquan"] ++
  [Text "Calculate factorial is "; Int (default 0%Z (Meta.Factorial 3)); Endl].

(** [it2], with the components that [run] shows; a [bitset<16>] from a number has its bits. *)
Definition bitset (n : nat) (z : Z) : list bool := (λ i, Z.testbit z (Z.of_nat i)) <$> seq 0 n.
Definition it2 (d : double) : Tup.tup [TString; TComplexInt; TBitset 16; TDouble] :=
  @Tup.tup_new [TString; TComplexInt; TBitset 16; TDouble]
    (@Tup.arg TString _ (ascii_bytes "Ace") (@Tup.arg TComplexInt _ (3, 8)%Z
      (@Tup.arg (TBitset 16) _ (bitset 16 377) (@Tup.arg TDouble _ d Tup.no_args)))).

Definition Test09_run : list item :=
  [Text "a is const:"; Bool (is_const TInt); Endl; Text "b is const:"; Bool (is_const (TConst TInt)); Endl].

(** The components come back in order; the bits of the third are those of 377. *)
Lemma it2_shown d :
  Tup.head (it2 d) = ascii_bytes "Ace" ∧ Tup.head (Tup.tail (it2 d)) = (3, 8)%Z ∧
  foldr (λ b acc, (Z.b2z b + 2 * acc)%Z) 0%Z (Tup.head (Tup.tail (Tup.tail (it2 d)))) = 377%Z ∧
  Tup.head (Tup.tail (Tup.tail (Tup.tail (it2 d)))) = d.
Proof. split_and!; by vm_compute. Qed.

(** What is printed at first, and that [pi] is the [double] nearest to its literal. *)
Lemma runs_values :
  Test01_run = [Text "max(a, b) :"; Int 2; Endl; Text "max(a, b) :"; Double (double_of_Z 8); Endl; Double (double_of_Z 7); Endl;
    Text "call specialization max<bool>()"; Endl; Bool true; Endl] ∧
  pi = S754_finite false 7074237752028440 (-51) ∧ (2 * Z.abs (14488038916154245685 - 7074237752028440 * 2 ^ 11) < 2 ^ 11)%Z.
Proof. split_and!; by vm_compute. Qed.

End Runs.
