(* ===== verification/Kafka.v ===== *)
(** * The Kafka producer

    Languages/cpp/kafka-sasl-cpp/kafka_producer.cpp: [main] configures a producer and calls
    [KafKaProduce] every three seconds until SIGINT.  librdkafka is not in the repository.
    What it documents is modelled: an accepted message stays in the producer's queue, which
    holds at most [queue.buffering.max.messages], until its delivery report is served; the
    reports come from a background thread and are served by [rd_kafka_poll] and
    [rd_kafka_flush].  Which calls fail, and what the background thread settles between
    the calls, are inputs. *)

From S2P Require Import Prelude.
From stdpp Require Import strings.
From Stdlib Require Import ZArith Lia.

(** ** The library's producer *)

(** A message: the number of the round that sent it, and its bytes. *)
Record message := MkMsg { round_no : nat; payload : string }.

(** The queue: messages whose fate is open, delivery reports that wait (a message and its
    [rkmessage->err]), and what [dr_msg_cb] has
    been called with so far. *)
Record producer := MkProducer {
  inflight : list message;
  reports : list (message * Z);
  served : list (message * Z);
}.

Definition outq_len (p : producer) : nat := length (inflight p) + length (reports p).

(** What the background thread settles: for each message in flight, its error code, or
    [None] as long as it is open. *)
Definition acks : Type := list (option Z).

Fixpoint settle (a : acks) (ms : list message) : list message * list (message * Z) :=
  match a, ms with
  | Some e :: a, m :: ms => let '(open, done) := settle a ms in (open, (m, e) :: done)
  | None :: a, m :: ms => let '(open, done) := settle a ms in (m :: open, done)
  | _, _ => (ms, [])
  end.

Definition background (a : acks) (p : producer) : producer :=
  let '(open, done) := settle a (inflight p) in MkProducer open (reports p ++ done) (served p).

(** [dr_msg_cb] prints one line for its report: it is called for each report in turn. *)
Definition dr_msg_cb (r : message * Z) (p : producer) : producer := MkProducer (inflight p) (reports p) (served p ++ [r]).

Definition serve (p : producer) : producer :=
  foldl (λ p r, dr_msg_cb r p) (MkProducer (inflight p) [] (served p)) (reports p).

(** [rd_kafka_poll], with what is settled while it waits; [rd_kafka_flush] is such a wait
    too. *)
Definition rd_kafka_poll (a : acks) (p : producer) : producer := serve (background a p).
Definition rd_kafka_flush (a : acks) (p : producer) : producer := rd_kafka_poll a p.

(** [rd_kafka_last_error] after [rd_kafka_produce]: [RD_KAFKA_RESP_ERR__QUEUE_FULL], or one
    of the other errors that it documents. *)
Inductive refusal := MsgSizeTooLarge | UnknownPartition | UnknownTopic.
Inductive last_error := QueueFull | Refused (r : refusal).

Definition rd_kafka_produce (max : nat) (refuse : option refusal) (m : message) (p : producer) : producer + last_error :=
  match refuse with
  | Some r => inr (Refused r)
  | None => if bool_decide (max ≤ outq_len p) then inr QueueFull else inl (MkProducer (inflight p ++ [m]) (reports p) (served p))
  end.

(** ** KafKaProduce *)

(** One turn of the loop [retry]: what is settled before [rd_kafka_produce], whether it
    refuses the message for a reason of its own, and what is settled during
    [rd_kafka_poll(rk, 1000)]. *)
Record attempt := MkAttempt { before : acks; refuse : option refusal; waiting : acks }.

(** The loop, for the attempts that the run makes: the producer, and whether the message was
    accepted.  [OutOfFuel]: it goes on. *)
Fixpoint produce_loop (max : nat) (attempts : list attempt) (m : message) (p : producer) : result (producer * bool) :=
  match attempts with
  | [] => Err OutOfFuel
  | t :: attempts =>
      let p := background (before t) p in
      match rd_kafka_produce max (refuse t) m p with
      | inl p => Ok (p, true)
      | inr QueueFull => produce_loop max attempts m (rd_kafka_poll (waiting t) p)
      | inr (Refused _) => Ok (p, false)
      end
  end.

Definition KafKaProduce (max : nat) (attempts : list attempt) (last : acks) (m : message) (p : producer) : result (producer * bool) :=
  '(p, ok) ← produce_loop max attempts m p;
  Ok (rd_kafka_poll last p, ok).

(** ** main *)

(** The library: which calls succeed, and [queue.buffering.max.messages]. *)
Record library := MkLibrary {
  conf_set_ok : string → bool;
  new_ok : bool;
  topic_new_ok : bool;
  max_messages : nat;
}.

(** The pointers [conf], [rk] (with the configuration it took over) and [rkt]. *)
Record objects := MkObjects { o_conf : option (list (string * string)); o_rk : option (list (string * string)); o_rkt : bool }.

Definition rd_kafka_conf_set (lib : library) (name value : string) (o : objects) : result (objects * bool) :=
  match o_conf o with
  | None => Err Fault
  | Some c => Ok (if conf_set_ok lib name then (MkObjects (Some (c ++ [(name, value)])) (o_rk o) (o_rkt o), true) else (o, false))
  end.

(** A condition [conf_set(..) != OK || conf_set(..) != OK || ..]: [false] when all are OK. *)
Fixpoint conf_set_fails (lib : library) (settings : list (string * string)) (o : objects) : result (objects * bool) :=
  match settings with
  | [] => Ok (o, false)
  | (name, value) :: settings =>
      '(o, ok) ← rd_kafka_conf_set lib name value o;
      if ok : bool then conf_set_fails lib settings o else Ok (o, true)
  end.

(** [rd_kafka_new] takes [conf] over when it succeeds. *)
Definition rd_kafka_new (lib : library) (o : objects) : result (objects * bool) :=
  match o_conf o with
  | None => Err Fault
  | Some c => Ok (if new_ok lib then (MkObjects None (Some c) (o_rkt o), true) else (o, false))
  end.

Definition rd_kafka_topic_new (lib : library) (o : objects) : result (objects * bool) :=
  match o_rk o with
  | None => Err Fault
  | Some _ => Ok (if topic_new_ok lib then (MkObjects (o_conf o) (o_rk o) true, true) else (o, false))
  end.

(** Topics have to be destroyed before their producer. *)
Definition rd_kafka_topic_destroy (o : objects) : result objects :=
  if o_rkt o && bool_decide (is_Some (o_rk o)) then Ok (MkObjects (o_conf o) (o_rk o) false) else Err Fault.
Definition rd_kafka_destroy (o : objects) : result objects :=
  if negb (o_rkt o) && bool_decide (is_Some (o_rk o)) then Ok (MkObjects (o_conf o) None false) else Err Fault.

Definition brokers : list (string * string) := [("bootstrap.servers", "master:9092,slave01:9092,slave02:9092")]%string.
Definition sasl : list (string * string) :=
  [("security.protocol", "SASL_PLAINTEXT"); ("sasl.kerberos.service.name", "kafka");
   ("sasl.kerberos.keytab", "/home/xunce/xunce.keytab"); ("sasl.kerberos.principal", "kafka/hu53@XUNCE.COM");
   ("sasl.mechanism", "GSSAPI")]%string.
Definition fileDataPackage : string := "this is an test_msg!".

(** A round of the loop: the attempts of [KafKaProduce], and what is settled up to its last
    poll. *)
Record round := MkRound { attempts : list attempt; last_poll : acks }.

(** What the program has done: the producer's queue, the messages that
    [rd_kafka_produce] accepted, and the lines "id:%d, .. publish msg", by [count]. *)
Record progress := MkProgress { queue : producer; accepted : list message; published : list nat }.

(** [while (global_is_run)]: one round after the other until SIGINT, [n] rounds done.  With
    three seconds of sleep in each, [count] stays far below the range of its [int]. *)
Fixpoint run_loop (max : nat) (rounds : list round) (n : nat) (s : progress) : result progress :=
  match rounds with
  | [] => Ok s
  | r :: rounds =>
      let m := MkMsg n fileDataPackage in
      '(p, ok) ← KafKaProduce max (attempts r) (last_poll r) m (queue s);
      run_loop max rounds (S n) (MkProgress p (if ok : bool then accepted s ++ [m] else accepted s) (published s ++ [S n]))
  end.

Record outcome := MkOutcome { ret : Z; left_over : objects; done : progress }.

Definition idle : progress := MkProgress (MkProducer [] [] []) [] [].

(** [main] up to [getchar], for the rounds it makes and what is settled during the final
    flush.  [rd_kafka_destroy] drops what is still in the queue. *)
Definition main (lib : library) (rounds : list round) (flush : acks) : result outcome :=
  let o := MkObjects (Some []) None false in
  '(o, fails) ← conf_set_fails lib brokers o;
  if fails : bool then Ok (MkOutcome (-1) o idle) else
  '(o, fails) ← conf_set_fails lib sasl o;
  if fails : bool then Ok (MkOutcome (-1) o idle) else
  '(o, ok) ← rd_kafka_new lib o;
  if negb ok then Ok (MkOutcome (-1) o idle) else
  '(o, ok) ← rd_kafka_topic_new lib o;
  if negb ok then o ← rd_kafka_destroy o; Ok (MkOutcome (-1) o idle) else
  s ← run_loop (max_messages lib) rounds 0 idle;
  let s := MkProgress (rd_kafka_flush flush (queue s)) (accepted s) (published s) in
  o ← rd_kafka_topic_destroy o;
  o ← rd_kafka_destroy o;
  Ok (MkOutcome 0 o s).

(** ** The queue *)

(** Every accepted message is in flight, waits as a report, or was reported. *)
Definition accounts (acc : list message) (p : producer) : Prop :=
  acc ≡ₚ inflight p ++ (reports p).*1 ++ (served p).*1.

Lemma settle_perm a ms : ms ≡ₚ (settle a ms).1 ++ (settle a ms).2.*1.
Proof.
  revert ms. induction a as [|[e|] a IH]; intros [|m ms]; simpl; rewrite ?app_nil_r; try done.
  - specialize (IH ms). destruct (settle a ms) as [open done]. simpl in *. by rewrite <-Permutation_middle, <-IH.
  - specialize (IH ms). destruct (settle a ms) as [open done]. simpl in *. by rewrite <-IH.
Qed.

Lemma settle_all a ms : Forall is_Some a → length ms ≤ length a → (settle a ms).1 = [].
Proof.
  intros Ha. revert ms. induction Ha as [|x a [e ->] _ IH]; intros [|m ms] Hl; simpl in *; try done; [lia|].
  specialize (IH ms). destruct (settle a ms) as [open done]. simpl in *. apply IH. lia.
Qed.

Lemma serve_eq p : serve p = MkProducer (inflight p) [] (served p ++ reports p).
Proof.
  unfold serve. generalize (served p) as sv. induction (reports p) as [|r rs IH]; intros sv; simpl; [by rewrite app_nil_r|].
  etransitivity; [apply IH|]. by rewrite <-app_assoc.
Qed.

Lemma background_accounts a acc p : accounts acc p → accounts acc (background a p).
Proof.
  unfold accounts, background. intros ->. rewrite (settle_perm a (inflight p)) at 1.
  destruct (settle a (inflight p)) as [open done]. simpl. rewrite fmap_app. solve_Permutation.
Qed.

Lemma background_len a p : outq_len (background a p) = outq_len p.
Proof.
  unfold outq_len, background. pose proof (settle_perm a (inflight p)) as H. apply Permutation_length in H.
  destruct (settle a (inflight p)) as [open done]. simpl in *. len_simpl. lia.
Qed.

Lemma poll_accounts a acc p : accounts acc p → accounts acc (rd_kafka_poll a p).
Proof.
  intros H. apply (background_accounts a) in H. unfold rd_kafka_poll. rewrite serve_eq. unfold accounts in *. simpl.
  rewrite H, fmap_app. solve_Permutation.
Qed.

Lemma poll_len a p : outq_len (rd_kafka_poll a p) ≤ outq_len p.
Proof. unfold rd_kafka_poll. rewrite serve_eq, <-(background_len a p). unfold outq_len. simpl. lia. Qed.

(** A poll in which the oldest open message is settled makes room. *)
Lemma poll_room e a p : 0 < outq_len p → outq_len (rd_kafka_poll (Some e :: a) p) < outq_len p.
Proof.
  intros Hp. unfold rd_kafka_poll. rewrite serve_eq. unfold background, outq_len in *. simpl.
  destruct (inflight p) as [|m ms] eqn:E; simpl in *; rewrite ?E; simpl; [lia|].
  pose proof (settle_perm a ms) as H. apply Permutation_length in H.
  destruct (settle a ms) as [open done]. simpl in *. len_simpl. lia.
Qed.

(** ** KafKaProduce *)

(** What a call keeps: the account of the messages, and the bound of the queue. *)
Definition kept (max : nat) (acc : list message) (p : producer) : Prop := accounts acc p ∧ outq_len p ≤ max.

Lemma background_kept max a acc p : kept max acc p → kept max acc (background a p).
Proof. intros [H1 H2]. split; [by apply background_accounts|by rewrite background_len]. Qed.

Lemma poll_kept max a acc p : kept max acc p → kept max acc (rd_kafka_poll a p).
Proof. intros [H1 H2]. split; [by apply poll_accounts|]. pose proof (poll_len a p). lia. Qed.

Lemma produce_kept max r m acc p p' : kept max acc p → rd_kafka_produce max r m p = inl p' → kept max (acc ++ [m]) p'.
Proof.
  intros [H1 H2] E. unfold rd_kafka_produce in E. destruct r; [done|]. case_bool_decide as Hf; [done|]. injection E as <-.
  unfold kept, accounts, outq_len in *. simpl. split; [rewrite H1; solve_Permutation|]. len_simpl. simpl. lia.
Qed.

(** The message is counted exactly when it is accepted. *)
Definition taken (ok : bool) (m : message) (acc : list message) : list message := if ok then acc ++ [m] else acc.

Lemma produce_loop_kept max ts m acc p p' ok :
  kept max acc p → produce_loop max ts m p = Ok (p', ok) → kept max (taken ok m acc) p'.
Proof.
  revert p. induction ts as [|t ts IH]; intros p Hp E; simpl in E; [done|]. apply (background_kept _ (before t)) in Hp.
  destruct (rd_kafka_produce _ _ _ _) as [p1|[|r]] eqn:Ep.
  - injection E as <- <-. by eapply produce_kept.
  - by eapply IH; [apply poll_kept|].
  - by injection E as <- <-.
Qed.

(** The attempts get through: in a poll that is followed by another attempt, the report of
    the oldest message arrives. *)
Fixpoint gets_through (ts : list attempt) : bool :=
  match ts with
  | [] => false
  | t :: ts =>
      match ts with
      | [] => false
      | _ :: _ => (if waiting t is Some _ :: _ then true else false) || gets_through ts
      end
  end.

Lemma produce_room max t ts m p :
  outq_len p < max → ∃ p' ok, produce_loop max (t :: ts) m p = Ok (p', ok).
Proof.
  intros Hp. simpl. unfold rd_kafka_produce. rewrite background_len. destruct (refuse t); [by eauto|].
  rewrite bool_decide_false by lia. by eauto.
Qed.

Lemma produce_loop_returns max ts m acc p :
  0 < max → kept max acc p → gets_through ts → ∃ p' ok, produce_loop max ts m p = Ok (p', ok).
Proof.
  intros Hmax. revert p. induction ts as [|t [|t' ts] IH]; intros p Hp Hg; [done..|].
  destruct (decide (outq_len p < max)) as [Hl|Hl]; [by apply produce_room|].
  remember (t' :: ts) as ts' eqn:Hts. cbn [produce_loop]. unfold rd_kafka_produce at 1. rewrite background_len.
  destruct (refuse t); [by eauto|]. rewrite bool_decide_true by lia. apply (background_kept _ (before t)) in Hp.
  subst ts'. simpl in Hg. destruct (waiting t) as [|[e|] a]; simpl in Hg; [by apply IH; [apply poll_kept|]| |by apply IH; [apply poll_kept|]].
  apply produce_room. destruct Hp as [_ Hp]. rewrite background_len in Hp.
  pose proof (poll_room e a (background (before t) p)) as H. rewrite background_len in H. lia.
Qed.

(** Without reports, a full queue keeps the call in its loop, however often it retries; it
    does not look at [global_is_run]. *)
Lemma produce_stuck max ts m p :
  max ≤ outq_len p → reports p = [] →
  Forall (λ t, refuse t = None ∧ Forall (λ x, x = None) (before t) ∧ Forall (λ x, x = None) (waiting t)) ts →
  produce_loop max ts m p = Err OutOfFuel.
Proof.
  assert (Hs : ∀ a ms, Forall (λ x, x = None) a → settle a ms = (ms, [])).
  { intros a ms Ha. revert ms. induction Ha as [|x a -> _ IH]; intros [|m' ms]; simpl; [done..|]. by rewrite IH. }
  assert (Hb : ∀ a p, Forall (λ x, x = None) a → background a p = p).
  { intros a [i r s] Ha. unfold background. simpl. rewrite Hs by done. by rewrite app_nil_r. }
  intros Hm Hr Hts. revert p Hm Hr. induction Hts as [|t ts (Hn & Hb1 & Hb2) _ IH]; intros p Hm Hr; simpl; [done|].
  rewrite (Hb (before t)) by done. unfold rd_kafka_produce. rewrite Hn, bool_decide_true by done. apply IH.
  - unfold rd_kafka_poll. rewrite Hb, serve_eq by done. unfold outq_len in *. rewrite Hr in Hm. done.
  - unfold rd_kafka_poll. by rewrite serve_eq.
Qed.

(** ** main *)

Definition configured (lib : library) : bool := forallb (λ x, conf_set_ok lib x.1) (brokers ++ sasl).

Lemma conf_set_all lib (ss c : list (string * string)) rk t :
  ∃ c' fails, conf_set_fails lib ss (MkObjects (Some c) rk t) = Ok (MkObjects (Some c') rk t, fails) ∧
    fails = negb (forallb (λ x, conf_set_ok lib x.1) ss) ∧ (fails = false → c' = c ++ ss).
Proof.
  revert c. induction ss as [|[n v] ss IH]; intros c; simpl; [exists c, false; by rewrite app_nil_r|].
  destruct (conf_set_ok lib n); simpl; [|by exists c, true].
  destruct (IH (c ++ [(n, v)])) as (c' & f & E & Hf & Hc). exists c', f. split_and!; [done..|].
  intros Hff. rewrite Hc by done. by rewrite <-app_assoc.
Qed.

(** The message of round [n]. *)
Definition sent (n : nat) : message := MkMsg n fileDataPackage.

Lemma run_loop_ok max rounds n s :
  0 < max → kept max (accepted s) (queue s) → Forall (λ r, gets_through (attempts r)) rounds →
  ∃ s' fresh, run_loop max rounds n s = Ok s' ∧ kept max (accepted s') (queue s') ∧
    published s' = published s ++ seq (S n) (length rounds) ∧
    accepted s' = accepted s ++ (sent <$> fresh) ∧ fresh `sublist_of` seq n (length rounds) ∧
    (Forall (λ r, Forall (λ t, refuse t = None) (attempts r)) rounds → fresh = seq n (length rounds)).
Proof.
  intros Hmax. revert n s. induction rounds as [|r rounds IH]; intros n s Hs Hg.
  { exists s, []. rewrite !app_nil_r. split_and!; try done. }
  apply Forall_cons in Hg as [Hr Hg]. cbn [run_loop length seq]. unfold KafKaProduce.
  destruct (produce_loop_returns max (attempts r) (sent n) _ _ Hmax Hs Hr) as (p & ok & E). unfold sent in E. rewrite E.
  pose proof (produce_loop_kept _ _ _ _ _ _ _ Hs E) as Hk. apply (poll_kept _ (last_poll r)) in Hk. cbn [mbind result_bind].
  destruct (IH (S n) (MkProgress (rd_kafka_poll (last_poll r) p) (taken ok (sent n) (accepted s)) (published s ++ [S n])) Hk Hg)
    as (s' & fresh & Es & Hs' & Hp & Ha & Hf & Hall). simpl in *.
  exists s', (if ok then n :: fresh else fresh). split_and!; [exact Es|done|by rewrite Hp, <-app_assoc| | |].
  - rewrite Ha. destruct ok; simpl; [by rewrite <-app_assoc|done].
  - destruct ok; by constructor.
  - intros Hn. apply Forall_cons in Hn as [Hn Hns]. rewrite Hall by done. destruct ok; [done|]. exfalso.
    clear -E Hn. revert E. generalize (queue s). induction Hn as [|t ts Ht _ IH]; intros q E; simpl in E; [done|].
    unfold rd_kafka_produce in E. rewrite Ht in E. case_bool_decide; [by eapply IH|done].
Qed.

(** C26. The producer, whatever librdkafka answers, if in every round the report of some message
    arrives while the queue is full: [main] ends.  When the configuration or an object is
    refused it returns -1 without sending, and releases everything but a configuration that
    no producer has taken over.  Otherwise it returns 0 with all objects released, has
    printed one line per round, the refused ones included, and every accepted message was
    reported exactly once or was still in the queue after the flush; none is when the flush
    settles the whole queue, and all are accepted when none is refused. *)
Theorem producer_accounts lib rounds flush :
  0 < max_messages lib → Forall (λ r, gets_through (attempts r)) rounds →
  ∃ o, main lib rounds flush = Ok o ∧
    if configured lib && new_ok lib && topic_new_ok lib then
      ret o = 0%Z ∧ left_over o = MkObjects None None false ∧
      published (done o) = seq 1 (length rounds) ∧
      ∃ ns, ns `sublist_of` seq 0 (length rounds) ∧
        sent <$> ns ≡ₚ inflight (queue (done o)) ++ (served (queue (done o))).*1 ∧
        (Forall (λ r, Forall (λ t, refuse t = None) (attempts r)) rounds → ns = seq 0 (length rounds)) ∧
        (Forall is_Some flush → max_messages lib ≤ length flush → inflight (queue (done o)) = [])
    else
      ret o = (-1)%Z ∧ done o = idle ∧ o_rk (left_over o) = None ∧ o_rkt (left_over o) = false ∧
      (o_conf (left_over o) = None ↔ configured lib ∧ new_ok lib).
Proof.
  intros Hmax Hg. unfold main, configured. cbv zeta. rewrite forallb_app.
  destruct (conf_set_all lib brokers [] None false) as (c1 & f1 & E1 & Hf1 & _). rewrite E1. cbn [mbind result_bind].
  destruct (forallb _ brokers); subst f1; cbn [negb andb]; [|eexists; split; [done|]; simpl; naive_solver].
  destruct (conf_set_all lib sasl c1 None false) as (c2 & f2 & E2 & Hf2 & _). rewrite E2. cbn [mbind result_bind].
  destruct (forallb _ sasl); subst f2; cbn [negb andb]; [|eexists; split; [done|]; simpl; naive_solver].
  unfold rd_kafka_new. simpl. destruct (new_ok lib); simpl; [|eexists; split; [done|]; simpl; naive_solver].
  unfold rd_kafka_topic_new. simpl. destruct (topic_new_ok lib); simpl; [|eexists; split; [done|]; simpl; naive_solver].
  destruct (run_loop_ok (max_messages lib) rounds 0 idle Hmax) as (s & ns & E & Hk & Hp & Ha & Hns & Hall); [by split; [constructor|cbn; lia]|done|].
  rewrite E. simpl. eexists. split; [done|]. simpl. split_and!; [done..|]. exists ns.
  pose proof (poll_accounts flush _ _ (proj1 Hk)) as Hq. unfold accounts in Hq. unfold rd_kafka_flush, rd_kafka_poll in *.
  rewrite serve_eq in *. simpl in *. rewrite <-Ha. split_and!; [done..|]. intros Hf Hl. unfold background.
  pose proof (settle_all flush (inflight (queue s)) Hf) as Hs. destruct (settle _ _). simpl in *. apply Hs.
  destruct Hk as [_ Hk]. unfold outq_len in Hk. lia.
Qed.

(** Two rounds with a queue of one message: the second has to wait for the first. *)
Definition sample_library : library := MkLibrary (λ _, true) true true 1.
Definition sample_rounds : list round :=
  [MkRound [MkAttempt [] None [Some 0%Z]; MkAttempt [] None []] []; MkRound [MkAttempt [] None [Some 0%Z]; MkAttempt [] None []] []].

Lemma producer_accounts_witness :
  ∃ o, main sample_library sample_rounds [Some 0%Z] = Ok o ∧ ret o = 0%Z ∧ inflight (queue (done o)) = [] ∧
    (served (queue (done o))).*1 ≡ₚ [sent 0; sent 1].
Proof.
  destruct (producer_accounts sample_library sample_rounds [Some 0%Z]) as (o & E & H1 & _ & _ & ns & _ & H2 & H3 & H4).
  - simpl. lia.
  - repeat constructor.
  - exists o. assert (inflight (queue (done o)) = []) as Hi by (apply H4; [repeat constructor; by eexists|simpl; lia]).
    rewrite Hi in H2. simpl in H2. rewrite H3 in H2 by (repeat constructor). by rewrite <-H2.
Defined.
