(* ===== verification/AioRead.v ===== *)
(** * Asynchronous reads

    IO/aio_sample.cpp: [test_aio_sample] starts an [aio_read] and asks [aio_error] until it
    is done; [test_aio_suspend] waits for one second with [aio_suspend].  Both print the
    buffer as a string.  What the system answers, and when the request is done, are
    inputs. *)

From S2P Require Import Prelude CText.
From Stdlib Require Import ZArith Lia.

Definition EINPROGRESS : Z := 115.

(** The fields of [struct aiocb] that the program and the library use; the block that
    [aio_buf] points to is kept with it. *)
Record aiocb := MkAiocb {
  aio_fildes : Z;
  aio_offset : nat;
  aio_nbytes : nat;
  aio_buf : list Z;
  return_value : Z;
  error_code : Z;
}.

(** The system: the descriptor of file.txt and its bytes, the block that [malloc] returns
    (of any contents), whether [aio_read] is accepted and how the request ends (an error
    code, or [None]: success); [done_at]: the number of the call of [aio_error] that first
    finds it done; [in_time]: [aio_suspend] returns because it is done, and not because of
    the time-out, when [arrived] bytes are there. *)
Record system := MkSystem {
  opened : option Z;
  file : list Z;
  malloc : nat → option (list Z);
  read_accepted : bool;
  failure : option Z;
  done_at : nat;
  in_time : bool;
  arrived : nat;
}.

(** [malloc] returns a block of the size it is asked for. *)
Definition malloc_ok (sys : system) : Prop := ∀ n b, malloc sys n = Some b → length b = n.

Definition data (sys : system) (cb : aiocb) : list Z := take (aio_nbytes cb) (drop (aio_offset cb) (file sys)).

(** The request while it runs, and when it has ended. *)
Definition running (k : nat) (sys : system) (cb : aiocb) : aiocb :=
  MkAiocb (aio_fildes cb) (aio_offset cb) (aio_nbytes cb) (splice 0 (take k (data sys cb)) (aio_buf cb)) 0 EINPROGRESS.
Definition finished (sys : system) (cb : aiocb) : aiocb :=
  match failure sys with
  | Some e => MkAiocb (aio_fildes cb) (aio_offset cb) (aio_nbytes cb) (aio_buf cb) (-1) e
  | None =>
      let d := data sys cb in
      MkAiocb (aio_fildes cb) (aio_offset cb) (aio_nbytes cb) (splice 0 d (aio_buf cb)) (Z.of_nat (length d)) 0
  end.

(** [printf] with [%s]: up to the first NUL of the block, which has to have one. *)
Definition text (buf : list Z) : result (list Z) := if bool_decide (0%Z ∈ buf) then Ok (until_nul buf) else Err Fault.

(** The lines that are printed after the request. *)
Inductive line :=
  | Polled (count tmp_rc : Z)
  | ReadBytes (n errno : Z) (s : list Z)
  | HasRead (rc : Z) (s : list Z)
  | FailToRead (rc : Z).

(** How a function ends: [exit(1)], or by returning, with the lines and whether the request
    is still in progress, on a control block that is gone. *)
Inductive ended := Exit1 | Returned (lines : list line) (pending : bool).

(** The request as it is set up, the same in both functions. *)
Definition prepare (sys : system) (BUFSIZE : nat) : option aiocb :=
  match opened sys with
  | None => None
  | Some fd =>
      match malloc sys (BUFSIZE + 1) with
      | None => None
      | Some buffer => if read_accepted sys then Some (MkAiocb fd 0 BUFSIZE buffer 0 0) else None
      end
  end.

(** [do .. while (tmp_rc == EINPROGRESS)]: [count], [tmp_rc] and the block then; [None]: out
    of fuel. *)
Fixpoint poll_loop (fuel : nat) (sys : system) (cb : aiocb) (count : Z) : option (Z * Z * aiocb) :=
  match fuel with
  | O => None
  | S fuel =>
      let count := (count + 1)%Z in
      let cb' := if (count <? Z.of_nat (done_at sys))%Z then running 0 sys cb else finished sys cb in
      if (error_code cb' =? EINPROGRESS)%Z then poll_loop fuel sys cb count else Some (count, error_code cb', cb')
  end.

Definition test_aio_sample (fuel : nat) (sys : system) : result ended :=
  match prepare sys 5 with
  | None => Ok Exit1
  | Some cb =>
      match poll_loop fuel sys cb 0 with
      | None => Err OutOfFuel
      | Some (count, tmp_rc, cb) =>
          s ← text (aio_buf cb);
          let rc := return_value cb in
          if (0 <=? rc)%Z
          then s' ← text (aio_buf cb); Ok (Returned [Polled count tmp_rc; ReadBytes (return_value cb) (error_code cb) s; HasRead rc s'] false)
          else Ok (Returned [Polled count tmp_rc; ReadBytes (return_value cb) (error_code cb) s; FailToRead rc] false)
      end
  end.

(** [rc] of [aio_suspend] is not looked at. *)
Definition test_aio_suspend (sys : system) : result ended :=
  match prepare sys 20 with
  | None => Ok Exit1
  | Some cb =>
      let cb := if in_time sys then finished sys cb else running (arrived sys) sys cb in
      s ← text (aio_buf cb);
      Ok (Returned [ReadBytes (return_value cb) (error_code cb) s] (error_code cb =? EINPROGRESS)%Z)
  end.

(** [main], for the system as each of the two finds it; [exit(1)] ends it. *)
Definition main (fuel : nat) (sys1 sys2 : system) : result ended :=
  r ← test_aio_sample fuel sys1;
  match r with
  | Exit1 => Ok Exit1
  | Returned l1 p1 =>
      r ← test_aio_suspend sys2;
      match r with Exit1 => Ok Exit1 | Returned l2 p2 => Ok (Returned (l1 ++ l2) (p1 || p2)) end
  end.

(** ** What is printed *)

Lemma poll_loop_done fuel sys cb count :
  failure sys ≠ Some EINPROGRESS → (Z.of_nat (done_at sys) - count < Z.of_nat fuel)%Z → (0 < Z.of_nat fuel)%Z →
  poll_loop fuel sys cb count =
    Some (Z.max (count + 1) (Z.of_nat (done_at sys)), error_code (finished sys cb), finished sys cb).
Proof.
  intros Hf. revert count. induction fuel as [|fuel IH]; intros count Hc H0; [lia|]. cbn [poll_loop].
  destruct (Z.ltb_spec (count + 1) (Z.of_nat (done_at sys))) as [Hl|Hl].
  - cbn [error_code running]. rewrite Z.eqb_refl, IH by lia. do 3 f_equal. lia.
  - replace (error_code (finished sys cb) =? EINPROGRESS)%Z with false; [do 3 f_equal; lia|].
    symmetry. apply Z.eqb_neq. unfold finished. destruct (failure sys) as [e|]; cbn [error_code]; [congruence|done].
Qed.

(** The block after the bytes [d] have arrived at its start, as [printf] reads it. *)
Lemma text_splice d buf :
  0%Z ∉ d → length d < length buf →
  text (splice 0 d buf) =
    if bool_decide (0%Z ∈ drop (length d) buf) then Ok (d ++ until_nul (drop (length d) buf)) else Err Fault.
Proof.
  intros Hd Hl. unfold text, splice. rewrite take_0. cbn [app Nat.add].
  rewrite (bool_decide_ext (0%Z ∈ d ++ drop (length d) buf) (0%Z ∈ drop (length d) buf)) by (rewrite elem_of_app; naive_solver).
  case_bool_decide as Hz; [|done]. f_equal. clear Hl Hz. revert Hd. generalize (drop (length d) buf) as r.
  induction d as [|c d IH]; intros r Hd; [done|]. apply not_elem_of_cons in Hd as [Hc Hd]. simpl.
  destruct (Z.eqb_spec c 0) as [->|]; [done|]. by rewrite IH.
Qed.

(** [test_aio_sample] on a file without NUL bytes, when the read succeeds: the loop ends with
    the call that finds the request done; what is printed is the first five bytes of the file
    followed by what the block held behind them, up to a NUL; without one it is read past its
    end.  ([BUFSIZE + 1] bytes are allocated, but nothing writes the terminator.) *)
Lemma sample_prints fuel sys fd b :
  malloc_ok sys → opened sys = Some fd → malloc sys 6 = Some b → read_accepted sys = true → failure sys = None →
  0%Z ∉ file sys → done_at sys < fuel →
  let d := take 5 (file sys) in
  let rest := drop (length d) b in
  let s := d ++ until_nul rest in
  test_aio_sample fuel sys =
    if bool_decide (0%Z ∈ rest)
    then Ok (Returned [Polled (Z.max 1 (Z.of_nat (done_at sys))) 0; ReadBytes (Z.of_nat (length d)) 0 s; HasRead (Z.of_nat (length d)) s] false)
    else Err Fault.
Proof.
  intros Hm Ho Hb Ha Hf Hn Hfuel d rest s. unfold test_aio_sample, prepare. rewrite Ho. cbn [Nat.add]. rewrite Hb, Ha.
  rewrite poll_loop_done by (rewrite ?Hf; done || lia). unfold finished. rewrite Hf. cbn [aio_buf return_value error_code].
  unfold data. cbn [aio_nbytes aio_offset]. rewrite drop_0. fold d.
  assert (Hd : 0%Z ∉ d) by (intros H; apply Hn; rewrite <-(take_drop 5 (file sys)); apply elem_of_app; by left).
  rewrite text_splice by (done || (rewrite (Hm _ _ Hb); subst d; rewrite length_take; lia)). fold rest.
  case_bool_decide; [|done]. cbn [mbind result_bind]. by rewrite (proj2 (Z.leb_le 0 (Z.of_nat (length d)))) by lia.
Qed.

(** [test_aio_suspend] when the time-out comes first: it prints what has arrived and returns
    with the request in progress, whose control block was on its stack. *)
Lemma suspend_times_out sys fd b :
  opened sys = Some fd → malloc sys 21 = Some b → read_accepted sys = true → in_time sys = false →
  test_aio_suspend sys = Err Fault ∨ ∃ s, test_aio_suspend sys = Ok (Returned [ReadBytes 0 EINPROGRESS s] true).
Proof.
  intros Ho Hb Ha Hi. unfold test_aio_suspend, prepare. rewrite Ho. cbn [Nat.add]. rewrite Hb, Ha, Hi.
  unfold text. case_bool_decide; [right; by eexists|by left].
Qed.
