(* ===== verification/ReusePort.v ===== *)
(** * Sharing a port

    The rest of IO/tcp_reuse_port_test.c: [create_socket_and_bind] and [main], which binds a
    port with [SO_REUSEPORT], forks, and binds the same port again in the child.  The two
    processes interleave at their system calls.  The kernel's part is what its
    documentation says of descriptors (shared after [fork], the lowest number is handed out)
    and of [bind] (two sockets may have one address if both have [SO_REUSEPORT]). *)

From S2P Require Import Prelude.
From Stdlib Require Import ZArith Lia.

(** ** The kernel *)

(** A socket: its address and port, [SO_REUSEPORT], and whether it listens. *)
Record socket := MkSocket { bound : option (Z * Z); reuseport : bool; listening : bool }.

Inductive process := Parent | Child.
#[global] Instance process_eq_dec : EqDecision process.
Proof. solve_decision. Defined.

(** All sockets ever made, by number; the tables of the two processes (that of a process that
    does not run is empty), where a descriptor that is no socket of the program has [None];
    the sockets of other processes. *)
Record kernel := MkKernel { sockets : list socket; tab : process → gmap nat (option nat); foreign : list (Z * Z * bool) }.

Definition set_tab (p : process) (t : gmap nat (option nat)) (k : kernel) : kernel :=
  MkKernel (sockets k) (λ q, if decide (q = p) then t else tab k q) (foreign k).
Definition set_socket (i : nat) (s : socket) (k : kernel) : kernel := MkKernel (<[i := s]> (sockets k)) (tab k) (foreign k).

(** The lowest free descriptor. *)
Fixpoint lowest_from (fuel n : nat) (t : gmap nat (option nat)) : nat :=
  match fuel with
  | O => n
  | S fuel => if bool_decide (is_Some (t !! n)) then lowest_from fuel (S n) t else n
  end.
Definition lowest (t : gmap nat (option nat)) : nat := lowest_from (size t) 0 t.

(** A socket exists as long as a descriptor refers to it. *)
Definition refers (t : gmap nat (option nat)) (i : nat) : bool := existsb (λ x, bool_decide (x.2 = Some i)) (map_to_list t).
Definition live (k : kernel) (i : nat) : bool := refers (tab k Parent) i || refers (tab k Child) i.

(** [bind]: another socket has the port, on the same or on any address (0), and not both may
    share it. *)
Definition clash (at1 at2 : Z * Z) (share1 share2 : bool) : bool :=
  (at1.2 =? at2.2)%Z && ((at1.1 =? at2.1)%Z || (at1.1 =? 0)%Z || (at2.1 =? 0)%Z) && negb (share1 && share2).

Definition in_use (k : kernel) (i : nat) (at' : Z * Z) (share : bool) : bool :=
  existsb (λ j, match sockets k !! j with
    | Some s => negb (i =? j) && live k j && match bound s with Some at2 => clash at' at2 share (reuseport s) | None => false end
    | None => false end) (seq 0 (length (sockets k)))
  || existsb (λ f, clash at' f.1 share f.2) (foreign k).

(** ** The program *)

(** [create_socket_and_bind]: the next call, with [sockfd]. *)
Inductive step_of := DoSocket | DoSetsockopt (sockfd : nat) | DoBind (sockfd : nat) | DoListen (sockfd : nat) | Created (sockfd : nat).

(** A call may fail for a reason of its own ([ok = false]); [handle_error] exits then.
    [inet_pton] returns 0 for a text that is no address, which the test against -1 does not
    catch: the address stays 0. *)
Definition server_addr (ip : option Z) (port_number : Z) : Z * Z := (default 0 ip, port_number `mod` 65536)%Z.

Definition create_step (p : process) (at' : Z * Z) (ok : bool) (c : step_of) (k : kernel) : option (step_of * kernel) :=
  let sock fd := match tab k p !! fd with Some (Some i) => s ← sockets k !! i; Some (i, s) | _ => None end in
  match c with
  | DoSocket =>
      if ok then
        let fd := lowest (tab k p) in
        let k := MkKernel (sockets k ++ [MkSocket None false false]) (tab k) (foreign k) in
        Some (DoSetsockopt fd, set_tab p (<[fd := Some (pred (length (sockets k)))]> (tab k p)) k)
      else None
  | DoSetsockopt fd =>
      '(i, s) ← sock fd;
      if ok then Some (DoBind fd, set_socket i (MkSocket (bound s) true (listening s)) k) else None
  | DoBind fd =>
      '(i, s) ← sock fd;
      if ok && negb (in_use k i at' (reuseport s))
      then Some (DoListen fd, set_socket i (MkSocket (Some at') (reuseport s) (listening s)) k) else None
  | DoListen fd =>
      '(i, s) ← sock fd;
      if ok then Some (Created fd, set_socket i (MkSocket (bound s) (reuseport s) true) k) else None
  | Created fd => Some (Created fd, k)
  end.

(** The parent: up to the fork, waiting for a key, gone.  The child: not there yet, closing
    [fd], making its socket, sleeping, gone. *)
Inductive ppc := PCreate (c : step_of) | PFork (fd : nat) | PWait (fd : nat) | PGone.
Inductive cpc := CNone | CClose (fd : nat) | CCreate (c : step_of) | CSleep (sub_fd : nat) | CGone.

Record state := MkState { parent : ppc; child : cpc; kern : kernel }.

(** [exit], or the end of [main]: the descriptors are closed. *)
Definition leave (p : process) (k : kernel) : kernel := set_tab p ∅ k.

(** A call of one of the processes; [ok]: it does not fail for a reason of its own. *)
Definition turn (at' : Z * Z) (p : process) (ok : bool) (s : state) : option state :=
  let k := kern s in
  match p with
  | Parent =>
      match parent s with
      | PCreate (Created fd) => Some (MkState (PFork fd) (child s) k)
      | PCreate c =>
          match create_step Parent at' ok c k with
          | Some (c, k) => Some (MkState (PCreate c) (child s) k)
          | None => Some (MkState PGone (child s) (leave Parent k))
          end
      | PFork fd =>
          if ok then Some (MkState (PWait fd) (CClose fd) (set_tab Child (tab k Parent) k))
          else Some (MkState PGone (child s) (leave Parent k))
      | PWait _ => Some (MkState PGone (child s) (leave Parent k))
      | PGone => None
      end
  | Child =>
      match child s with
      | CClose fd => Some (MkState (parent s) (CCreate DoSocket) (set_tab Child (delete fd (tab k Child)) k))
      | CCreate (Created fd) => Some (MkState (parent s) (CSleep fd) k)
      | CCreate c =>
          match create_step Child at' ok c k with
          | Some (c, k) => Some (MkState (parent s) (CCreate c) k)
          | None => Some (MkState (parent s) CGone (leave Child k))
          end
      | CSleep _ => Some (MkState (parent s) CGone (leave Child k))
      | CNone | CGone => None
      end
  end.

(** [main] with the standard descriptors open. *)
Definition std_fds : gmap nat (option nat) := list_to_map [(0, None); (1, None); (2, None)].
Definition start (foreign : list (Z * Z * bool)) : state :=
  MkState (PCreate DoSocket) CNone (MkKernel [] (λ p, if decide (p = Parent) then std_fds else ∅) foreign).

Inductive reachable (at' : Z * Z) (foreign : list (Z * Z * bool)) : state → Prop :=
  | reach_start : reachable at' foreign (start foreign)
  | reach_turn p ok s s' : reachable at' foreign s → turn at' p ok s = Some s' → reachable at' foreign s'.

(** ** The invariant *)

(** Where a process is in [create_socket_and_bind], seen in its table and in its socket,
    which is number [i]. *)
Definition own_fds (i : nat) : gmap nat (option nat) := <[3 := Some i]> std_fds.

Definition made (at' : Z * Z) (c : step_of) (i : nat) (t : gmap nat (option nat)) (ss : option socket) : Prop :=
  match c with
  | DoSocket => t = std_fds ∧ ss = None
  | DoSetsockopt fd => fd = 3 ∧ t = own_fds i ∧ ss = Some (MkSocket None false false)
  | DoBind fd => fd = 3 ∧ t = own_fds i ∧ ss = Some (MkSocket None true false)
  | DoListen fd => fd = 3 ∧ t = own_fds i ∧ ss = Some (MkSocket (Some at') true false)
  | Created fd => fd = 3 ∧ t = own_fds i ∧ ss = Some (MkSocket (Some at') true true)
  end.

(** What a step of process [p] leaves alone. *)
Definition beside (p : process) (i : nat) (k k' : kernel) : Prop :=
  (∀ q, q ≠ p → tab k' q = tab k q) ∧ (∀ j, j ≠ i → sockets k' !! j = sockets k !! j) ∧ foreign k' = foreign k.

Lemma set_tab_beside p t i k : beside p i k (set_tab p t k).
Proof. split_and!; [|done..]. intros q Hq. simpl. by rewrite decide_False. Qed.

Lemma set_socket_beside p i s k : beside p i k (set_socket i s k).
Proof. split_and!; [done| |done]. intros j Hj. simpl. by rewrite list_lookup_insert_ne. Qed.

(** A call on the process's own socket, which replaces that socket. *)
Ltac own_socket Hm Ht Hs E :=
  destruct Hm as (-> & Ht & Hs); rewrite Ht in E; unfold own_fds at 1 in E; rewrite lookup_insert_eq, Hs in E; cbn [mbind option_bind] in E; case_match; [|done]; injection E as <- <-;
  split_and!; [split_and!; [done|done|by eapply list_lookup_insert_eq, lookup_lt_Some]|done|apply set_socket_beside].

Lemma create_step_made p at' ok c i k c' k' :
  made at' c i (tab k p) (sockets k !! i) → (∀ j, j < i → is_Some (sockets k !! j)) →
  create_step p at' ok c k = Some (c', k') →
  made at' c' i (tab k' p) (sockets k' !! i) ∧ c' ≠ DoSocket ∧ beside p i k k'.
Proof.
  intros Hm Hn E. destruct c; cbn [made create_step] in *.
  - destruct Hm as [Ht Hs]. destruct ok; [|done].
    assert (Hl : length (sockets k) = i).
    { apply lookup_ge_None in Hs. destruct (decide (length (sockets k) < i)) as [Hlt|]; [|lia].
      apply Hn in Hlt as [? Hx]. by apply lookup_lt_Some in Hx; lia. }
    clear Hn. injection E as <- <-. rewrite Ht.
    cbn [made]. rewrite length_app, Nat.add_1_r, Hl. cbn [pred]. split_and!; try done.
    + cbn [set_tab tab]. by rewrite decide_True.
    + cbn [set_tab sockets]. by rewrite lookup_app_r, Hl, Nat.sub_diag by lia.
    + split_and!; [|intros j Hj; cbn|done].
      * intros q Hq. cbn. by rewrite decide_False.
      * destruct (decide (j < i)); [by rewrite lookup_app_l by lia|]. rewrite !lookup_ge_None_2 by solve_len. done.
  - own_socket Hm Ht Hs E.
  - own_socket Hm Ht Hs E.
  - own_socket Hm Ht Hs E.
  - injection E as <- <-. split_and!; done.
Qed.

Definition full (at' : Z * Z) : option socket := Some (MkSocket (Some at') true true).

(** The two processes: before the fork, and after it, when the parent's socket is complete. *)
Definition alone (at' : Z * Z) (s : state) : Prop :=
  tab (kern s) Child = ∅ ∧ sockets (kern s) !! 1 = None ∧
  match parent s with
  | PCreate c => made at' c 0 (tab (kern s) Parent) (sockets (kern s) !! 0)
  | PFork fd => made at' (Created fd) 0 (tab (kern s) Parent) (sockets (kern s) !! 0)
  | PWait _ => False
  | PGone => True
  end.

Definition forked (at' : Z * Z) (s : state) : Prop :=
  sockets (kern s) !! 0 = full at' ∧
  match parent s with
  | PWait fd => fd = 3 ∧ tab (kern s) Parent = own_fds 0
  | PGone => tab (kern s) Parent = ∅
  | _ => False
  end ∧
  match child s with
  | CNone => False
  | CClose fd => fd = 3 ∧ tab (kern s) Child = own_fds 0 ∧ sockets (kern s) !! 1 = None
  | CCreate c => made at' c 1 (tab (kern s) Child) (sockets (kern s) !! 1)
  | CSleep fd => made at' (Created fd) 1 (tab (kern s) Child) (sockets (kern s) !! 1)
  | CGone => tab (kern s) Child = ∅
  end.

Definition inv (at' : Z * Z) (others : list (Z * Z * bool)) (s : state) : Prop :=
  foreign (kern s) = others ∧ match child s with CNone => alone at' s | _ => forked at' s end.

Lemma start_inv_port at' others : inv at' others (start others).
Proof. done. Qed.

Lemma parent_inv at' others ok s s' : inv at' others s → turn at' Parent ok s = Some s' → inv at' others s'.
Proof.
  destruct s as [pp cc k]. intros [Hf Hi] E. unfold turn in E. cbn [parent child kern] in *.
  destruct cc; cbn [child] in Hi.
  1: { destruct Hi as (Hc & H1 & Hp). cbn [parent kern] in *. destruct pp as [c|fd|fd|]; try done.
    - assert (Hrun : ∀ r, create_step Parent at' ok c k = r →
        inv at' others (match r with Some (c, k) => MkState (PCreate c) CNone k | None => MkState PGone CNone (leave Parent k) end)).
      { intros [[c' k']|] Ec; [|by split_and!].
        destruct (create_step_made Parent at' ok c 0 k c' k') as (Hm & _ & Ht & Hs & Hfo); [done|intros j Hj; lia|done|].
        split; [by rewrite <-Hf, <-Hfo|]. unfold alone. cbn. by rewrite Ht, Hs. }
      destruct c; try (specialize (Hrun _ eq_refl); by destruct (create_step _ _ _ _ _) as [[??]|]; injection E as <-).
    - destruct Hp as (-> & Ht & Hs). destruct ok; injection E as <-; [|by split_and!].
      split_and!; cbn; try done. }
  all: destruct Hi as (H0 & Hp & Hc); destruct pp; try done; injection E as <-; by split_and!.
Qed.

Lemma child_inv at' others ok s s' : inv at' others s → turn at' Child ok s = Some s' → inv at' others s'.
Proof.
  destruct s as [pp cc k]. intros [Hf Hi] E. unfold turn in E. cbn [parent child kern] in *.
  destruct cc as [|fd|c|fd|]; try done; destruct Hi as (H0 & Hp & Hc); cbn [parent child kern] in *.
  - destruct Hc as (-> & Ht & H1). injection E as <-. split_and!; cbn; try done. by rewrite Ht.
  - assert (Hrun : ∀ r, create_step Child at' ok c k = r →
      inv at' others (match r with Some (c, k) => MkState pp (CCreate c) k | None => MkState pp CGone (leave Child k) end)).
    { intros [[c' k']|] Ec; [|by split_and!].
      destruct (create_step_made Child at' ok c 1 k c' k') as (Hm & _ & Ht & Hs & Hfo); [done|intros j Hj|done|].
      - replace j with 0 by lia. rewrite H0. by eexists.
      - split; [by rewrite <-Hf, <-Hfo|]. unfold forked. cbn. by rewrite Hs, Ht. }
    destruct c; try (specialize (Hrun _ eq_refl); by destruct (create_step _ _ _ _ _) as [[??]|]; injection E as <-).
  - injection E as <-. by split_and!.
Qed.

Lemma port_reachable_inv at' others s : reachable at' others s → inv at' others s.
Proof. induction 1 as [|[] ok s s' _ IH E]; [done|by eapply parent_inv|by eapply child_inv]. Qed.

(** ** The theorem *)

Lemma refers_own i j : refers (own_fds i) j = bool_decide (j = i).
Proof.
  apply eq_bool_prop_intro. rewrite !Is_true_true. unfold refers. rewrite existsb_exists, bool_decide_eq_true.
  split.
  - intros ([fd x] & Hin & Hx). apply bool_decide_eq_true in Hx. simpl in Hx. subst x.
    apply list_elem_of_In, elem_of_map_to_list in Hin. unfold own_fds in Hin. apply lookup_insert_Some in Hin as [[_ [= ->]]|[_ Hin]]; [done|].
    apply elem_of_list_to_map_2 in Hin. repeat (apply elem_of_cons in Hin as [[=]|Hin]). by apply elem_of_nil in Hin.
  - intros ->. exists (3, Some i). split; [apply list_elem_of_In, elem_of_map_to_list; by unfold own_fds; simplify_map_eq|by case_bool_decide].
Qed.

Lemma existsb_none {A} (f : A → bool) l : (∀ x, f x = false) → existsb f l = false.
Proof. intros H. induction l as [|x l IH]; [done|]. cbn. by rewrite H, IH. Qed.

Lemma clash_shared at1 at2 : clash at1 at2 true true = false.
Proof. unfold clash. by rewrite andb_false_r. Qed.

Lemma clash_self at' share : clash at' at' share true = negb share.
Proof. unfold clash. rewrite !Z.eqb_refl. by destruct share. Qed.

(** Whoever shares the port clashes only with a process outside the program. *)
Lemma shared_in_use at' k i :
  sockets k !! 0 = full at' → (∀ j s, sockets k !! j = Some s → j ≠ 0 → live k j = true → bound s = None) →
  in_use k i at' true = existsb (λ f, clash at' f.1 true f.2) (foreign k).
Proof.
  intros H0 Hs. unfold in_use. replace (existsb _ (seq _ _)) with false; [done|]. symmetry. apply existsb_none.
  intros j. destruct (sockets k !! j) as [[b r l]|] eqn:E; [|done]. destruct (decide (j = 0)) as [->|Hj].
  - rewrite H0 in E. injection E as <- <- <-. cbn. by rewrite clash_shared, andb_false_r.
  - destruct (live k j) eqn:El; [|by rewrite andb_false_r]. specialize (Hs j _ E Hj El). cbn in *. subst b. by rewrite andb_false_r.
Qed.

(** In every interleaving of the two processes: the parent's socket goes on listening although
    the child has closed the descriptor, the child gets the same number for its own socket,
    and when it sleeps both listen at one address.  Its [bind] succeeds unless a socket of
    another program clashes (when it exits), and would not without [SO_REUSEPORT] as long as
    the parent is there. *)
Lemma port_shared at' others s :
  reachable at' others s →
  (∀ fd, parent s = PWait fd → fd = 3 ∧ tab (kern s) Parent !! fd = Some (Some 0) ∧ sockets (kern s) !! 0 = full at') ∧
  (∀ fd, child s = CSleep fd → fd = 3 ∧ tab (kern s) Child !! fd = Some (Some 1) ∧ sockets (kern s) !! 1 = full at') ∧
  (∀ fd, child s = CCreate (DoBind fd) → ∃ s', turn at' Child true s = Some s' ∧
     child s' = if existsb (λ f, clash at' f.1 true f.2) others then CGone else CCreate (DoListen fd)) ∧
  (∀ fd i, parent s = PWait fd → i ≠ 0 → in_use (kern s) i at' false = true).
Proof.
  intros Hr. destruct (port_reachable_inv at' others s Hr) as [Hf Hi]. destruct s as [pp cc k]. cbn [parent child kern] in *.
  assert (Hp : ∀ fd, pp = PWait fd → fd = 3 ∧ tab k Parent = own_fds 0 ∧ sockets k !! 0 = full at').
  { intros fd ->. destruct cc; destruct Hi as (H0 & Hp & Hc); try done; cbn [parent kern] in *; tauto. }
  split_and!.
  - intros fd E. destruct (Hp fd E) as (-> & -> & ->). unfold own_fds. by simplify_map_eq.
  - intros fd ->. destruct Hi as (_ & _ & -> & Ht & Hs). cbn [kern] in *. rewrite Ht. unfold own_fds. by simplify_map_eq.
  - intros fd0 ->. destruct Hi as (H0 & Hpar & -> & Ht & Hs). cbn [kern parent child turn create_step] in *.
    rewrite Ht. unfold own_fds at 1. rewrite lookup_insert_eq, Hs. cbn [mbind option_bind reuseport andb].
    rewrite (shared_in_use at' k 1 H0), Hf; [by destruct (existsb _ _); eexists|].
    intros j x Hx Hj Hl. unfold live in Hl. rewrite Ht, refers_own in Hl.
    assert (Hpp : refers (tab k Parent) j = false).
    { destruct pp; try done; [destruct (Hp fd eq_refl) as (_ & -> & _); rewrite refers_own; by apply bool_decide_false|by rewrite Hpar]. }
    rewrite Hpp in Hl. apply bool_decide_eq_true in Hl as ->. rewrite Hs in Hx. by injection Hx as <-.
  - intros fd i E Hne. destruct (Hp fd E) as (-> & Ht & H0). unfold in_use. apply orb_true_iff. left. apply existsb_exists.
    exists 0. split; [apply in_seq; apply lookup_lt_Some in H0; lia|]. rewrite H0. cbn [full bound reuseport].
    rewrite clash_self, andb_true_r. unfold live. rewrite Ht, refers_own. cbn. by destruct i.
Qed.

(** A run by a list of turns. *)
Fixpoint turns (at' : Z * Z) (l : list (process * bool)) (s : state) : option state :=
  match l with [] => Some s | (p, ok) :: l => s ← turn at' p ok s; turns at' l s end.

Lemma turns_reachable at' others l s s' : reachable at' others s → turns at' l s = Some s' → reachable at' others s'.
Proof.
  revert s. induction l as [|[p ok] l IH]; intros s Hs E; cbn [turns] in E; [by injection E as <-|].
  destruct (turn at' p ok s) as [s1|] eqn:E1; [|done]. by eapply IH; [eapply reach_turn|].
Qed.

Definition both_up : list (process * bool) := repeat (Parent, true) 6 ++ repeat (Child, true) 6.

Lemma port_shared_witness :
  ∃ s, reachable (server_addr (Some 2130706433%Z) 8000) [] s ∧ parent s = PWait 3 ∧ child s = CSleep 3 ∧
    sockets (kern s) !! 0 = sockets (kern s) !! 1.
Proof.
  destruct (turns (server_addr (Some 2130706433%Z) 8000) both_up (start [])) as [s|] eqn:E; [|by vm_compute in E].
  pose proof (turns_reachable _ [] _ _ _ (reach_start _ _) E) as Hr.
  destruct (port_shared _ _ s Hr) as (H1 & H2 & _). exists s. split; [done|].
  assert (parent s = PWait 3 ∧ child s = CSleep 3) as [Hp Hc] by (vm_compute in E; injection E as <-; done).
  split_and!; [done..|]. destruct (H1 3 Hp) as (_ & _ & ->). by destruct (H2 3 Hc) as (_ & _ & ->).
Defined.
