(* ===== verification/EventSum.v ===== *)
(** * The counter of an event descriptor

    IO/eventfd_test.c: the child writes the numbers of the command line to an event
    descriptor, the parent reads it once.  The two processes interleave at [write] and
    [read]; a call that blocks has no turn. *)

From S2P Require Import Prelude CText.
From Stdlib Require Import ZArith Lia.

#[local] Open Scope Z_scope.

Definition ULLONG_MAX : Z := 2 ^ 64 - 1.

(** ** strtoull *)

Definition digit_of (c : Z) : option Z :=
  if (48 <=? c) && (c <=? 57) then Some (c - 48)
  else if (97 <=? c) && (c <=? 122) then Some (c - 87)
  else if (65 <=? c) && (c <=? 90) then Some (c - 55) else None.

Fixpoint number (base acc : Z) (s : list Z) : Z :=
  match s with
  | c :: s' => match digit_of c with Some d => if d <? base then number base (acc * base + d) s' else acc | None => acc end
  | [] => acc
  end.

Definition is_hex (s : list Z) : bool :=
  match s with c :: _ => match digit_of c with Some d => d <? 16 | None => false end | [] => false end.

(** Base 0: hexadecimal after 0x, octal after 0, decimal otherwise. *)
Definition magnitude (s : list Z) : Z :=
  match s with
  | 48 :: x :: s' => if ((x =? 120) || (x =? 88)) && is_hex s' then number 16 0 s' else number 8 0 (x :: s')
  | _ => number 10 0 s
  end.

(** Blanks, a sign, the digits; too large a number gives the largest one, a negative one is
    negated modulo [2 ^ 64]. *)
Fixpoint strtoull (s : list Z) : Z :=
  match s with
  | [] => 0
  | c :: s' =>
      if is_blank c then strtoull s'
      else
        let n := magnitude (if (c =? 45) || (c =? 43) then s' else s) in
        if ULLONG_MAX <? n then ULLONG_MAX else if c =? 45 then wrap 64 (- n) else n
  end.

(** ** The processes *)

Inductive cpc := CLoop | CDone | CFailed.
Inductive ppc := PWaits | PRead (u : Z).

(** The counter, the numbers still to write and those written. *)
Record state := MkState { counter : Z; to_write : list Z; written : list Z; child : cpc; parent : ppc }.

(** [None]: [main] exits with a message before it has two processes. *)
Definition start (args : list (list Z)) (efd_ok fork_ok : bool) : option state :=
  match args with
  | [] => None
  | _ => if efd_ok && fork_ok then Some (MkState 0 (strtoull <$> args) [] CLoop PWaits) else None
  end.

(** The child: [write] adds to the counter; it refuses the largest number, when
    [handle_error] exits, and blocks rather than overflow. *)
Definition child_turn (s : state) : option state :=
  match child s, to_write s with
  | CLoop, [] => Some (MkState (counter s) [] (written s) CDone (parent s))
  | CLoop, u :: us =>
      if u =? ULLONG_MAX then Some (MkState (counter s) us (written s) CFailed (parent s))
      else if counter s + u <=? ULLONG_MAX - 1
      then Some (MkState (counter s + u) us (written s ++ [u]) CLoop (parent s)) else None
  | _, _ => None
  end.

(** The parent: [read] blocks while the counter is 0, and resets it. *)
Definition parent_turn (s : state) : option state :=
  match parent s with
  | PWaits => if counter s =? 0 then None else Some (MkState 0 (to_write s) (written s) (child s) (PRead (counter s)))
  | PRead _ => None
  end.

Inductive who := Child | Parent.
Definition turn (w : who) : state → option state := match w with Child => child_turn | Parent => parent_turn end.

Inductive reachable (args : list (list Z)) : state → Prop :=
  | reach_start s : start args true true = Some s → reachable args s
  | reach_turn w s s' : reachable args s → turn w s = Some s' → reachable args s'.

(** ** Arithmetic *)

Lemma digit_of_nonneg c d : digit_of c = Some d → 0 <= d.
Proof. unfold digit_of. repeat case_match; intros [= <-]; bool_props; lia. Qed.

Lemma number_nonneg base acc s : 0 <= base → 0 <= acc → 0 <= number base acc s.
Proof.
  intros Hb. revert acc. induction s as [|c s IH]; intros acc Ha; simpl; [done|].
  destruct (digit_of c) as [d|] eqn:E; [|done]. destruct (d <? base); [|done]. apply IH. apply digit_of_nonneg in E. nia.
Qed.

Lemma magnitude_nonneg s : 0 <= magnitude s.
Proof. unfold magnitude. repeat case_match; by apply number_nonneg. Qed.

(** The result is a number of 64 bits. *)
Lemma strtoull_range s : 0 <= strtoull s <= ULLONG_MAX.
Proof.
  induction s as [|c s IH]; [done|]. cbn [strtoull]. destruct (is_blank c); [done|].
  pose proof (magnitude_nonneg (if (c =? 45) || (c =? 43) then s else c :: s)). cbv zeta.
  destruct (Z.ltb_spec ULLONG_MAX (magnitude (if (c =? 45) || (c =? 43) then s else c :: s))); [done|].
  destruct (c =? 45); [|lia]. pose proof (wrap_range 64 (- magnitude (if true || (c =? 43) then s else c :: s)) ltac:(lia)).
  unfold ULLONG_MAX. lia.
Qed.

Definition total (l : list Z) : Z := foldr Z.add 0 l.

Lemma total_snoc_app l k : total (l ++ k) = total l + total k.
Proof. induction l as [|x l IH]; simpl; lia. Qed.

(** ** The theorem *)

(** The numbers of the command line, and how they split: written, refused (a [CFailed] child
    has dropped one), still to write. *)
Record inv (args : list (list Z)) (s : state) : Prop := {
  i_split : ∃ refused, strtoull <$> args = written s ++ refused ++ to_write s ∧
    refused = match child s with CFailed => [ULLONG_MAX] | _ => [] end;
  i_done : child s = CDone → to_write s = [];
  i_count : 0 <= counter s <= ULLONG_MAX - 1;
  i_read : match parent s with
           | PWaits => counter s = total (written s)
           | PRead u => ∃ n, u = total (take n (written s)) ∧ counter s = total (drop n (written s)) ∧
                             0 < u <= ULLONG_MAX - 1 ∧ (n <= length (written s))%nat
           end;
}.

(** The next number, and when the child has to wait for it. *)
Lemma next_range args s u us : inv args s → child s = CLoop → to_write s = u :: us → 0 <= u <= ULLONG_MAX.
Proof.
  intros Hs Ec Et. destruct (i_split _ _ Hs) as (r & E & ->). rewrite Ec, Et in E.
  assert (Hin : u ∈ strtoull <$> args) by (rewrite E; apply elem_of_app; right; by left).
  apply list_elem_of_fmap in Hin as (a & -> & _). apply strtoull_range.
Qed.

Lemma child_blocked s : child s = CLoop → child_turn s = None → ∃ u us, to_write s = u :: us ∧ u ≠ ULLONG_MAX ∧ ULLONG_MAX <= counter s + u.
Proof.
  intros Ec E. unfold child_turn in E. rewrite Ec in E. destruct (to_write s) as [|u us]; [done|]. exists u, us.
  destruct (Z.eqb_spec u ULLONG_MAX); [done|]. destruct (Z.leb_spec (counter s + u) (ULLONG_MAX - 1)); [done|]. split_and!; [done..|lia].
Qed.

Lemma start_sum args s : start args true true = Some s → inv args s.
Proof.
  unfold start. destruct args as [|a args]; [done|]. intros [= <-]. split; cbn; try done. by exists [].
Qed.

Lemma child_sum args s s' : inv args s → child_turn s = Some s' → inv args s'.
Proof.
  intros Hs E. pose proof Hs as [(r & Hr & Hx) Hd Hc Hp]. unfold child_turn in E.
  destruct (child s) eqn:Ec; try done; destruct (to_write s) as [|u us] eqn:Et; subst r.
  - injection E as <-. split; cbn; try done. by exists [].
  - pose proof (next_range args s u us Hs Ec Et) as Hu.
    destruct (Z.eqb_spec u ULLONG_MAX) as [->|Hne]; [injection E as <-; split; cbn; try done; by exists [ULLONG_MAX]|].
    destruct (Z.leb_spec (counter s + u) (ULLONG_MAX - 1)); [|done]. injection E as <-. split; cbn; try done; [|lia|].
    + exists []. split; [|done]. by rewrite Hr, <-app_assoc.
    + destruct (parent s) as [|v]; [rewrite total_snoc_app; simpl; lia|]. destruct Hp as (n & -> & Hp & Hv & Hn). exists n.
      rewrite take_app_le, drop_app_le, total_snoc_app by done. split_and!; [done|simpl; lia|lia..|rewrite length_app; lia].
Qed.

Lemma parent_sum args s s' : inv args s → parent_turn s = Some s' → inv args s'.
Proof.
  intros [Hr Hd Hc Hp] E. unfold parent_turn in E. destruct (parent s); [|done].
  destruct (Z.eqb_spec (counter s) 0); [done|]. injection E as <-. split; cbn; try done.
  exists (length (written s)). rewrite take_ge, drop_ge by done. split_and!; [done|done|lia..].
Qed.

Lemma sum_reachable args s : reachable args s → inv args s.
Proof. induction 1 as [|[] s s' _ IH E]; [by apply start_sum|by eapply child_sum|by eapply parent_sum]. Qed.

(** Child and parent, in every order of their calls: the parent reads the sum of the first
    numbers written, of all of them when the child was done, and it fits 64 bits: the
    counter never overflows.  When no call is possible, the parent has read or nothing but
    zeros was written by a child that is over; a child that cannot go on has a number that
    does not fit on top of those that no one reads. *)
Lemma event_sum args s :
  reachable args s →
  (∀ u, parent s = PRead u → ∃ n, u = total (take n (strtoull <$> args)) ∧ 0 < u < ULLONG_MAX) ∧
  (child s = CDone → ∀ s', parent_turn s = Some s' → parent s' = PRead (total (strtoull <$> args))) ∧
  ((∀ w, turn w s = None) →
     (parent s = PWaits → child s ≠ CLoop ∧ total (written s) = 0) ∧
     (child s = CLoop → ∃ u us, to_write s = u :: us ∧ ULLONG_MAX <= counter s + u ∧ parent s ≠ PWaits)).
Proof.
  intros Hr. pose proof (sum_reachable args s Hr) as Hs. pose proof Hs as [(r & Hsp & Hx) Hd Hc Hp]. split_and!.
  - intros u E. rewrite E in Hp. destruct Hp as (n & -> & _ & Hu & Hn). exists n. rewrite Hsp, take_app_le by done. lia.
  - intros Ed s' E. unfold parent_turn in E. rewrite Ed in Hx. rewrite Hsp, Hx, (Hd Ed), !app_nil_r.
    destruct (parent s); [|done]. destruct (counter s =? 0); [done|]. injection E as <-. cbn. by rewrite Hp.
  - intros Hstuck. assert (Hz : parent s = PWaits → counter s = 0).
    { intros E. specialize (Hstuck Parent). cbn [turn] in Hstuck. unfold parent_turn in Hstuck. rewrite E in Hstuck.
      by destruct (Z.eqb_spec (counter s) 0). }
    assert (Hl : child s = CLoop → parent s ≠ PWaits).
    { intros El E. destruct (child_blocked s El (Hstuck Child)) as (u & us & Et & Hne & Hu).
      pose proof (next_range args s u us Hs El Et). specialize (Hz E). lia. }
    split; [intros E; rewrite E in Hp; split; [by intros El; apply (Hl El)|by rewrite <-Hp, Hz]|].
    intros El. destruct (child_blocked s El (Hstuck Child)) as (u & us & Et & _ & Hu). exists u, us. by split_and!; [|lia|apply Hl].
Qed.

(** The run that the comment at the end of the file shows: the child has written 1, 2, 4, 7
    and 14. *)
Definition sample_args : list (list Z) := [[49]; [50]; [52]; [55]; [49; 52]].

Fixpoint turns (ws : list who) (s : state) : option state :=
  match ws with [] => Some s | w :: ws => s ← turn w s; turns ws s end.

Lemma turns_reachable_sum args ws s s' : reachable args s → turns ws s = Some s' → reachable args s'.
Proof.
  revert s. induction ws as [|w ws IH]; intros s Hs E; cbn [turns] in E; [by injection E as <-|].
  destruct (turn w s) as [s1|] eqn:E1; [|done]. by eapply IH; [eapply reach_turn|].
Qed.

Lemma event_sum_witness :
  ∃ s s', reachable sample_args s ∧ child s = CDone ∧ parent_turn s = Some s' ∧ parent s' = PRead 28.
Proof.
  destruct (turns (repeat Child 6) (MkState 0 (strtoull <$> sample_args) [] CLoop PWaits)) as [s|] eqn:E; [|by vm_compute in E].
  pose proof (turns_reachable_sum sample_args _ _ _ (reach_start sample_args (MkState 0 (strtoull <$> sample_args) [] CLoop PWaits) eq_refl) E) as Hr.
  destruct (event_sum sample_args s Hr) as (_ & H & _).
  assert (∃ s', child s = CDone ∧ parent_turn s = Some s') as (s' & Hd & Es) by (vm_compute in E; injection E as <-; by eexists).
  exists s, s'. split_and!; [done..|]. rewrite (H Hd s' Es). done.
Defined.

Lemma strtoull_bases : strtoull [48; 120; 49; 70] = 31 ∧ strtoull [48; 49; 55] = 15 ∧ strtoull [45; 49] = ULLONG_MAX.
Proof. done. Qed.
