(* ===== verification/WorkPool.v ===== *)
(** * Work in libuv's thread pool

    Languages/cpp/0_libuv/learn_uv/uv_thread_poll.c: [main] queues 25 requests to compute
    Fibonacci numbers, the threads of the pool run [fib], and the loop calls [after_fib]
    for each one that is done.  The threads take turns: queueing a request, taking one,
    running one, calling back.  libuv keeps the requests, and those that are done, in
    order. *)

From S2P Require Import Prelude Threads.
From Stdlib Require Import ZArith Lia Permutation.

(** ** The computation *)

(** [fib_] on [long]; [Fault]: the sum overflows. *)
Fixpoint fib_ (fuel : nat) (t : Z) : result Z :=
  match fuel with
  | O => Err OutOfFuel
  | S fuel =>
      if (t =? 0)%Z || (t =? 1)%Z then Ok 1%Z
      else
        a ← fib_ fuel (t - 1);
        b ← fib_ fuel (t - 2);
        if (a + b <? 2 ^ 63)%Z then Ok (a + b)%Z else Err Fault
  end.

(** Two neighbours at a time: the reference. *)
Fixpoint fibs (n : nat) : Z * Z := match n with O => (1, 1)%Z | S n => let '(a, b) := fibs n in (b, a + b)%Z end.
Definition fibonacci (n : nat) : Z := (fibs n).1.

Lemma fibonacci_SS n : fibonacci (S (S n)) = (fibonacci (S n) + fibonacci n)%Z.
Proof. unfold fibonacci. cbn [fibs]. destruct (fibs n) as [a b]. simpl. lia. Qed.

Lemma fibonacci_mono n : (1 ≤ fibonacci n ≤ fibonacci (S n))%Z.
Proof. induction n as [|n IH]; [done|]. rewrite fibonacci_SS. lia. Qed.

Lemma fibonacci_le m n : m ≤ n → (fibonacci m ≤ fibonacci n)%Z.
Proof. induction 1 as [|n _ IH]; [done|]. pose proof (fibonacci_mono n). lia. Qed.

(** The recursion, which takes exponentially many calls but only [n] levels, computes the
    reference, and fits [long] up to 91. *)
Lemma fib_correct fuel n : n < fuel → n ≤ 91 → fib_ fuel (Z.of_nat n) = Ok (fibonacci n).
Proof.
  revert n. induction fuel as [|fuel IH]; intros n Hf Hn; [lia|]. cbn [fib_].
  destruct n as [|[|n]]; [done..|]. rewrite (proj2 (Z.eqb_neq _ 0)), (proj2 (Z.eqb_neq _ 1)) by lia. cbn [orb].
  replace (Z.of_nat (S (S n)) - 1)%Z with (Z.of_nat (S n)) by lia. replace (Z.of_nat (S (S n)) - 2)%Z with (Z.of_nat n) by lia.
  rewrite !IH by lia. cbn [mbind result_bind]. rewrite <-fibonacci_SS.
  pose proof (fibonacci_le (S (S n)) 91 Hn) as H. rewrite (proj2 (Z.ltb_lt _ _)); [done|].
  eapply Z.le_lt_trans; [exact H|]. by vm_compute.
Qed.

(** ** The pool *)

Definition FIB_UNTIL : nat := 25.

(** [data] as far as [main] has filled it, the requests that wait, what each thread runs, the
    requests that are done, those called back, the lines "%dth fibonacci is %lu", and the
    lines of [after_fib]. *)
Record pool := MkPool {
  data : list Z;
  pending : list nat;
  threads : list (option nat);
  completed : list nat;
  called : list nat;
  computed : list (Z * Z);
  done_lines : list Z;
}.

(** [fib]: [n] is read through [req->data], a pointer into [data]. *)
Definition fib (d : list Z) (i : nat) : result (Z * Z) :=
  match d !! i with
  | None => Err Fault
  | Some n => v ← fib_ (S (Z.to_nat n)) n; Ok (n, v)
  end.

Definition after_fib (d : list Z) (i : nat) : result Z := match d !! i with Some n => Ok n | None => Err Fault end.

(** [main]: the loop that queues the requests, then [uv_run], which returns ([None]) when all
    requests have been called back, and waits ([None]) when none is done. *)
Definition main_turn (p : pool) : result (option pool) :=
  let i := length (data p) in
  if i <? FIB_UNTIL
  then Ok (Some (MkPool (data p ++ [30 + Z.of_nat i]%Z) (pending p ++ [i]) (threads p) (completed p) (called p) (computed p) (done_lines p)))
  else match completed p with
  | [] => Ok None
  | i :: rest =>
      n ← after_fib (data p) i;
      Ok (Some (MkPool (data p) (pending p) (threads p) rest (called p ++ [i]) (computed p) (done_lines p ++ [n])))
  end.

(** Thread [w] of the pool: takes the first request, or runs the one it has. *)
Definition thread_turn (w : nat) (p : pool) : result (option pool) :=
  match threads p !! w with
  | None => Ok None
  | Some None =>
      match pending p with
      | [] => Ok None
      | i :: rest => Ok (Some (MkPool (data p) rest (<[w := Some i]> (threads p)) (completed p) (called p) (computed p) (done_lines p)))
      end
  | Some (Some i) =>
      r ← fib (data p) i;
      Ok (Some (MkPool (data p) (pending p) (<[w := None]> (threads p)) (completed p ++ [i]) (called p) (computed p ++ [r]) (done_lines p)))
  end.

Definition turn (w : option nat) (p : pool) : result (option pool) :=
  match w with None => main_turn p | Some w => thread_turn w p end.

Definition start (nthreads : nat) : pool := MkPool [] [] (replicate nthreads None) [] [] [] [].

Inductive reachable (nthreads : nat) : pool → Prop :=
  | reach_start : reachable nthreads (start nthreads)
  | reach_turn w p p' : reachable nthreads p → turn w p = Ok (Some p') → reachable nthreads p'.

(** ** The invariant *)

Definition running (t : option nat) : list nat := match t with Some i => [i] | None => [] end.

(** What [fib] prints for request [i]. *)
Definition answer (i : nat) : Z * Z := ((30 + Z.of_nat i)%Z, fibonacci (30 + i)).

Record inv (nthreads : nat) (p : pool) : Prop := {
  i_data : data p = (λ i, 30 + Z.of_nat i)%Z <$> seq 0 (length (data p));
  i_length : length (data p) ≤ FIB_UNTIL;
  i_threads : length (threads p) = nthreads;
  i_where : seq 0 (length (data p)) ≡ₚ pending p ++ all running (threads p) ++ completed p ++ called p;
  i_computed : computed p = answer <$> (called p ++ completed p);
  i_lines : done_lines p = (λ i, 30 + Z.of_nat i)%Z <$> called p;
}.

Lemma start_pool nthreads : inv nthreads (start nthreads).
Proof. split; try done; [cbn; unfold FIB_UNTIL; lia|apply length_replicate|]. cbn [threads start]. by rewrite all_nil. Qed.

(** A request that is somewhere has its entry of [data]. *)
Lemma data_of nthreads p i : inv nthreads p → i ∈ pending p ++ all running (threads p) ++ completed p ++ called p →
  data p !! i = Some (30 + Z.of_nat i)%Z ∧ i < FIB_UNTIL.
Proof.
  intros Hp Hi. rewrite <-(i_where _ _ Hp), elem_of_seq in Hi. pose proof (i_length _ _ Hp). split; [|lia].
  rewrite (i_data _ _ Hp), list_lookup_fmap, lookup_seq_lt by lia. done.
Qed.

Lemma fib_ok nthreads p i : inv nthreads p → i ∈ pending p ++ all running (threads p) ++ completed p ++ called p →
  fib (data p) i = Ok (answer i).
Proof.
  intros Hp Hi. destruct (data_of _ _ _ Hp Hi) as [Hd Hlt]. unfold fib. rewrite Hd. unfold answer, FIB_UNTIL in *.
  replace (30 + Z.of_nat i)%Z with (Z.of_nat (30 + i)) by lia. by rewrite Nat2Z.id, fib_correct by lia.
Qed.

(** How much is left: four turns for a request to be queued, down to its callback. *)
Definition left_to_do (p : pool) : nat :=
  4 * (FIB_UNTIL - length (data p)) + 3 * length (pending p) + 2 * length (all running (threads p)) + length (completed p).

Definition good (nthreads : nat) (p : pool) (r : result (option pool)) : Prop :=
  match r with
  | Err _ => False
  | Ok None => True
  | Ok (Some p') => inv nthreads p' ∧ left_to_do p' < left_to_do p
  end.

Lemma main_good nthreads p : inv nthreads p → good nthreads p (main_turn p).
Proof.
  intros Hp. pose proof Hp as [Hd Hl Ht Hw Hc Hn]. unfold main_turn. destruct (Nat.ltb_spec (length (data p)) FIB_UNTIL) as [Hlt|Hge].
  - split; [split; cbn|].
    + rewrite length_app, seq_app, fmap_app, <-Hd. done.
    + rewrite length_app. cbn. lia.
    + done.
    + rewrite length_app, seq_app, Hw. cbn. solve_Permutation.
    + done.
    + done.
    + unfold left_to_do. cbn [data pending threads completed]. rewrite !length_app. cbn [length]. lia.
  - destruct (completed p) as [|i rest] eqn:E; [done|]. destruct (data_of _ p i Hp) as [Hi _].
    { rewrite E. apply elem_of_app. right. apply elem_of_app. right. by left. }
    unfold after_fib. rewrite Hi. split; [split; cbn; try done|unfold left_to_do; cbn [data pending threads completed]; rewrite E; cbn [length]; lia].
    + rewrite Hw. solve_Permutation.
    + rewrite Hc. by rewrite <-app_assoc.
    + by rewrite Hn, fmap_app.
Qed.

Lemma thread_good nthreads w p : inv nthreads p → good nthreads p (thread_turn w p).
Proof.
  intros Hp. pose proof Hp as [Hd Hl Ht Hw Hc Hn]. unfold thread_turn. destruct (threads p !! w) as [[i|]|] eqn:Et; [| |done].
  - pose proof (all_take running _ _ _ Et) as Hr. pose proof (all_put running _ _ _ None Et) as Hr'. cbn [running app] in *.
    rewrite (fib_ok nthreads) by (try done; rewrite Hr; set_solver). cbn [mbind result_bind].
    split; [split; cbn; try done|].
    + by rewrite length_insert.
    + rewrite Hw, Hr', Hr. solve_Permutation.
    + by rewrite Hc, !fmap_app, app_assoc.
    + unfold left_to_do. cbn [data pending threads completed]. apply Permutation_length in Hr, Hr'. rewrite length_app. cbn [length] in *. lia.
  - destruct (pending p) as [|i rest] eqn:E; [done|].
    pose proof (all_take running _ _ _ Et) as Hr. pose proof (all_put running _ _ _ (Some i) Et) as Hr'. cbn [running app] in *.
    split; [split; cbn; try done|].
    + by rewrite length_insert.
    + rewrite Hw, Hr', Hr. solve_Permutation.
    + unfold left_to_do. cbn [data pending threads completed]. apply Permutation_length in Hr, Hr'. rewrite E. cbn [length] in *. lia.
Qed.

Lemma turn_good nthreads w p : inv nthreads p → good nthreads p (turn w p).
Proof. destruct w; [apply thread_good|apply main_good]. Qed.

Lemma pool_reachable_inv nthreads p : reachable nthreads p → inv nthreads p.
Proof.
  induction 1 as [|w p p' _ IH E]; [apply start_pool|]. pose proof (turn_good nthreads w p IH) as H. rewrite E in H. apply H.
Qed.

(** The program with any positive number of threads, in every order of their turns: no turn
    faults or overflows, and each brings it closer to its end, so that it ends; it has
    stopped only when all requests were run once and called back once, each computed for its
    own [data[i]] (the Fibonacci number of the reference), and the callbacks come in the
    order in which the requests were done. *)
Lemma pool_completes nthreads p :
  0 < nthreads → reachable nthreads p →
  (∀ w, match turn w p with Ok (Some p') => left_to_do p' < left_to_do p | Ok None => True | Err _ => False end) ∧
  computed p = answer <$> (called p ++ completed p) ∧ done_lines p = take (length (called p)) (computed p).*1 ∧
  ((∀ w, turn w p = Ok None) → completed p = [] ∧ called p ≡ₚ seq 0 FIB_UNTIL ∧ computed p ≡ₚ answer <$> seq 0 FIB_UNTIL).
Proof.
  intros Hn Hr. pose proof (pool_reachable_inv nthreads p Hr) as Hp. pose proof Hp as [Hd Hl Ht Hw Hc Hln]. split_and!.
  - intros w. pose proof (turn_good nthreads w p Hp) as H. destruct (turn w p) as [[p'|]|]; [apply H|done..].
  - done.
  - rewrite Hln, Hc, fmap_app, fmap_app, take_app_length', <-list_fmap_compose by (by rewrite !length_fmap). done.
  - intros Hstuck. pose proof (Hstuck None) as Hm. cbn [turn] in Hm. unfold main_turn in Hm.
    destruct (Nat.ltb_spec (length (data p)) FIB_UNTIL) as [|Hge]; [done|].
    destruct (completed p) as [|i rest] eqn:Ec; [|by destruct (after_fib _ _)].
    assert (Hidle : ∀ w i, threads p !! w ≠ Some (Some i)).
    { intros w i E. specialize (Hstuck (Some w)). cbn [turn] in Hstuck. unfold thread_turn in Hstuck. rewrite E in Hstuck.
      by destruct (fib _ _). }
    assert (Hrun : all running (threads p) = []).
    { apply all_empty. intros [i|] Hin; [|done]. apply list_elem_of_lookup in Hin as [w E]. by destruct (Hidle w i). }
    assert (Hpend : pending p = []).
    { destruct (lookup_lt_is_Some_2 (threads p) 0) as [[i|] E0]; [lia|by destruct (Hidle 0 i)|].
      specialize (Hstuck (Some 0)). cbn [turn] in Hstuck. unfold thread_turn in Hstuck. rewrite E0 in Hstuck. by destruct (pending p). }
    rewrite Hrun, Hpend in Hw. cbn in Hw. replace (length (data p)) with FIB_UNTIL in Hw by lia.
    rewrite app_nil_r in Hc. by rewrite Hc, <-Hw.
Qed.

(** Two threads: [main] has queued two requests, which were taken, and the second is done
    first. *)
Definition taken_pool : pool := MkPool [30; 31]%Z [] [Some 0; Some 1] [] [] [] [].
Definition second_done : pool := MkPool [30; 31]%Z [] [Some 0; None] [1] [] [answer 1] [].

Lemma second_done_reachable : reachable 2 second_done.
Proof.
  assert (H : reachable 2 taken_pool).
  { eapply (reach_turn 2 (Some 1)); [eapply (reach_turn 2 (Some 0)); [eapply (reach_turn 2 None); [eapply (reach_turn 2 None)|]|]|];
      [apply reach_start|reflexivity..]. }
  eapply (reach_turn 2 (Some 1) taken_pool); [done|]. cbn [turn]. unfold thread_turn. cbn [threads taken_pool lookup list_lookup].
  rewrite (fib_ok 2 taken_pool 1 (pool_reachable_inv _ _ H)); [reflexivity|]. cbn. set_solver.
Qed.

Lemma pool_completes_witness :
  computed second_done = answer <$> (called second_done ++ completed second_done) ∧
  ∀ w, match turn w second_done with Ok (Some p') => left_to_do p' < left_to_do second_done | Ok None => True | Err _ => False end.
Proof.
  destruct (pool_completes 2 second_done ltac:(lia) second_done_reachable) as (H1 & H2 & _). by split.
Defined.
