(* ===== verification/UvClients.v ===== *)
(** * Two TCP clients on the libuv loop

    Languages/cpp/0_libuv/learn_uv/uv_tcp_client.{h,cpp}, a client object whose destructor
    closes its socket, and learn_uv/uv-tcp-echo-client.c, which connects, writes and
    closes.  The events are the callbacks of libuv and, for the object, its destruction;
    libuv's part is what it documents: a request is called back once, with [UV_ECANCELED]
    if its handle is closed before, and then the handle's close callback. *)

From S2P Require Import Prelude.
From Stdlib Require Import ZArith Lia.

Definition UV_ECANCELED : Z := -125.

Module TcpClient.

(** The handle of the socket. *)
Inductive handle := Open | Closing | Freed.

(** The object ([None] after its destruction), with [m_state]; its socket; whether
    [m_connect] is allocated, and whether libuv still has the request. *)
Record world := MkWorld { self : option Z; m_socket : handle; m_connect : bool; connecting : bool }.

(** [TcpClient::TcpClient]; [ok]: [uv_tcp_connect] accepts the request, which is not
    checked. *)
Definition TcpClient (ok : bool) : world := MkWorld (Some 0%Z) Open true ok.

(** [on_tcp_connect] reads [req->data] and writes to the object. *)
Definition on_tcp_connect (status : Z) (w : world) : result world :=
  if m_connect w then
    match self w with
    | Some _ => Ok (MkWorld (Some (if (status =? 0)%Z then 1 else 0)%Z) (m_socket w) (m_connect w) (connecting w))
    | None => Err Fault
    end
  else Err Fault.

(** [~TcpClient]: both pointers are set, as the constructor left them. *)
Definition destroy (w : world) : result world :=
  match self w, m_socket w, m_connect w with
  | Some _, Open, true => Ok (MkWorld None Closing false (connecting w))
  | _, _, _ => Err Fault
  end.

Definition on_close_handle_cb (w : world) : world := MkWorld (self w) Freed (m_connect w) (connecting w).

Inductive event := Connected (status : Z) | Destroyed | Closed.

(** What can happen next; [None]: not this event. *)
Definition exec (e : event) (w : world) : option (result world) :=
  match e with
  | Connected status =>
      if connecting w && match m_socket w with Open => true | Closing => (status =? UV_ECANCELED)%Z | Freed => false end
      then Some (on_tcp_connect status (MkWorld (self w) (m_socket w) (m_connect w) false)) else None
  | Destroyed => match self w with Some _ => Some (destroy w) | None => None end
  | Closed => match m_socket w with Closing => if connecting w then None else Some (Ok (on_close_handle_cb w)) | _ => None end
  end.

Inductive reachable (ok : bool) : world → Prop :=
  | reach_new : reachable ok (TcpClient ok)
  | reach_exec e w w' : reachable ok w → exec e w = Some (Ok w') → reachable ok w'.

(** The object and its request come and go together; the socket is open as long as they are
    there. *)
Definition together (w : world) : Prop :=
  match self w with
  | Some st => m_connect w = true ∧ m_socket w = Open ∧ (st = 1%Z → connecting w = false)
  | None => m_connect w = false ∧ m_socket w ≠ Open ∧ (m_socket w = Freed → connecting w = false)
  end.

Lemma exec_together e w w' : together w → exec e w = Some (Ok w') → together w'.
Proof.
  destruct w as [[st|] s c n]; unfold together; cbn [self m_socket m_connect connecting].
  - intros (-> & -> & Hst) E. destruct e as [status| |]; cbn in E; [|by simplify_eq/=|done].
    rewrite andb_true_r in E. destruct n; [|done]. by simplify_eq/=.
  - intros (-> & Hs & Hf) E. destruct e as [status| |]; cbn in E; [|done|].
    + by destruct (_ && _).
    + destruct s; try done. destruct n; [done|]. by simplify_eq/=.
Qed.

Lemma client_together ok w : reachable ok w → together w.
Proof. induction 1 as [|e w w' _ IH E]; [by destruct ok|by eapply exec_together]. Qed.

(** The client object, in every order of connection, destruction and closing: an event
    faults exactly when the object was destroyed while libuv still had its connect request,
    whose memory the destructor frees; then the only event left is the cancelled callback,
    which uses it.  In all other runs no event faults, and when nothing can happen any more
    after the destruction, everything is freed. *)
Lemma tcp_client_safe ok w :
  reachable ok w →
  (∀ e, exec e w = Some (Err Fault) ↔ self w = None ∧ connecting w = true ∧ e = Connected UV_ECANCELED) ∧
  (self w = None → connecting w = true → ∀ e r, exec e w = Some r → r = Err Fault) ∧
  (self w = None → (∀ e, exec e w = None) → m_socket w = Freed ∧ m_connect w = false).
Proof.
  intros Hr. pose proof (client_together ok w Hr) as Hw. destruct w as [[st|] s c n]; unfold together in Hw; cbn [self m_socket m_connect connecting] in *.
  - destruct Hw as (-> & -> & _). split_and!; [|done..]. intros [status| |]; cbn; [destruct n|..]; naive_solver.
  - destruct Hw as (-> & Hs & Hf). split_and!.
    + intros e. split.
      * destruct e as [status| |]; cbn; [|done|]; destruct s, n; try done.
        destruct (Z.eqb_spec status UV_ECANCELED) as [->|]; [done|done].
      * intros (_ & -> & ->). destruct s; [done..|]. by specialize (Hf eq_refl).
    + intros _ -> [status| |] r; cbn; [|done|by destruct s]. destruct s; try done. by destruct (status =? UV_ECANCELED)%Z; intros [= <-].
    + intros _ Hstuck. split; [|done]. destruct s; [done| |done]. destruct n; [by specialize (Hstuck (Connected UV_ECANCELED))|by specialize (Hstuck Closed)].
Qed.

End TcpClient.

Module EchoClient.

(** The socket, and [req1] of [on_connect], which libuv uses until the write is done: not
    used yet, in the frame of [on_connect], or in a frame that is gone. *)
Inductive phase := Connecting | Writing | Closing | Over.
Record world := MkWorld { at' : phase; req1_alive : bool; socket_freed : bool; connect_freed : bool }.

Definition start : world := MkWorld Connecting false false false.

(** [on_connect]: when it returns, its frame is gone; libuv never calls back from inside
    [uv_write]. *)
Definition on_connect (status : Z) (w : world) : world :=
  if (status <? 0)%Z then MkWorld Over (req1_alive w) (socket_freed w) (connect_freed w)
  else
    let w := MkWorld Writing true (socket_freed w) (connect_freed w) in
    MkWorld (at' w) false (socket_freed w) (connect_freed w).

Definition on_write (status : Z) (w : world) : world :=
  if (status <? 0)%Z then MkWorld Over (req1_alive w) (socket_freed w) (connect_freed w)
  else MkWorld Closing (req1_alive w) (socket_freed w) (connect_freed w).

Inductive event := Connected (status : Z) | Written (status : Z) | Closed.

(** libuv takes the callback out of [req1] when the write is done. *)
Definition exec (e : event) (w : world) : option (result world) :=
  match e, at' w with
  | Connected status, Connecting => Some (Ok (on_connect status w))
  | Written status, Writing => Some (if req1_alive w then Ok (on_write status w) else Err Fault)
  | Closed, Closing => Some (Ok (MkWorld Over (req1_alive w) (socket_freed w) (connect_freed w)))
  | _, _ => None
  end.

(** Once it is connected, the echo client's write request is on a dead frame: the completion
    of the write, the only event that can follow, uses it. *)
Lemma echo_client_dangles status :
  (0 ≤ status)%Z → ∃ w, exec (Connected status) start = Some (Ok w) ∧
    (∀ e r, exec e w = Some r → r = Err Fault) ∧ ∃ e, exec e w = Some (Err Fault).
Proof.
  intros Hs. eexists. split; [done|]. unfold on_connect. rewrite (proj2 (Z.ltb_ge _ _)) by lia. split.
  - intros [st|st|] r; cbn; [done|by intros [= <-]|done].
  - by exists (Written 0).
Qed.

End EchoClient.
