(* ===== verification/IpcTools.v ===== *)
(** * System V tools

    LinuxIPC/30ipcSem/sem.c, functions around System V semaphores, and the programs
    msg_send.c and msg_recv.c of LinuxIPC/26ipcs, which send a message of a given type and
    size and receive one.  What the system calls document is modelled; the identifier of a
    new semaphore set is an input. *)

From S2P Require Import Prelude Threads CText EchoQueue.
From Stdlib Require Import ZArith Lia.

(** How a function ends: it returns, with the new state; it exits in [ERR_EXIT]; or it
    blocks. *)
Inductive outcome (S : Type) := Returns (z : Z) (s : S) | Exits | Blocks.
Arguments Returns {S} z s.
Arguments Exits {S}.
Arguments Blocks {S}.

Module Sem.

Definition SEMVMX : Z := 32767.

(** The sets, each of one semaphore: its key and its value. *)
Abbreviation sets := (gmap Z (Z * Z)).

Definition with_key (key : Z) (k : sets) : option Z :=
  (λ ix, ix.2.1) <$> list_find (λ x, x.2.1 = key) (map_to_list k).

(** [semget(key, 1, IPC_CREAT|IPC_EXCL | 0666)], for the identifier that the kernel gives a
    new set, which is 0 initially. *)
Definition sem_create (key new_id : Z) (k : sets) : outcome sets :=
  match with_key key k with
  | Some _ => Exits
  | None => Returns new_id (<[new_id := (key, 0%Z)]> k)
  end.

(** [semget(key, 0, 0)] *)
Definition sem_open (key : Z) (k : sets) : outcome sets :=
  match with_key key k with Some id => Returns id k | None => Exits end.

Definition sem_setval (semid val : Z) (k : sets) : outcome sets :=
  match k !! semid with
  | Some (key, _) => if (0 <=? val)%Z && (val <=? SEMVMX)%Z then Returns 0 (<[semid := (key, val)]> k) else Exits
  | None => Exits
  end.

Definition sem_getval (semid : Z) (k : sets) : outcome sets :=
  match k !! semid with Some (_, val) => Returns val k | None => Exits end.

(** The error of [sem_del] is the caller's business. *)
Definition sem_del (semid : Z) (k : sets) : outcome sets :=
  match k !! semid with Some _ => Returns 0 (delete semid k) | None => Returns (-1) k end.

(** [semop] by -1 waits for a positive value; by 1, the value has a limit. *)
Definition sem_p (semid : Z) (k : sets) : outcome sets :=
  match k !! semid with
  | Some (key, val) => if (val =? 0)%Z then Blocks else Returns 0 (<[semid := (key, (val - 1)%Z)]> k)
  | None => Exits
  end.
Definition sem_v (semid : Z) (k : sets) : outcome sets :=
  match k !! semid with
  | Some (key, val) => if (val <? SEMVMX)%Z then Returns 0 (<[semid := (key, (val + 1)%Z)]> k) else Exits
  | None => Exits
  end.

Definition main (new_id : Z) (k : sets) : outcome sets :=
  match sem_create 1234 new_id k with Returns _ k => Returns 0 k | r => r end.

(** ** Processes that share a semaphore *)

(** A process is outside, inside, or has exited. *)
Inductive pc := Outside | Inside | Gone.
#[export] Instance pc_eq_dec : EqDecision pc.
Proof. solve_decision. Defined.

Record system := MkSystem { kern : sets; procs : list pc }.

(** Process [i] calls [sem_p] to enter, [sem_v] to leave. *)
Definition turn (semid : Z) (i : nat) (s : system) : option system :=
  p ← procs s !! i;
  match p with
  | Outside =>
      match sem_p semid (kern s) with
      | Returns _ k => Some (MkSystem k (<[i := Inside]> (procs s)))
      | Exits => Some (MkSystem (kern s) (<[i := Gone]> (procs s)))
      | Blocks => None
      end
  | Inside =>
      match sem_v semid (kern s) with
      | Returns _ k => Some (MkSystem k (<[i := Outside]> (procs s)))
      | Exits => Some (MkSystem (kern s) (<[i := Gone]> (procs s)))
      | Blocks => None
      end
  | Gone => None
  end.

Inductive reachable (semid : Z) (s0 : system) : system → Prop :=
  | reach_start : reachable semid s0 s0
  | reach_turn i s s' : reachable semid s0 s → turn semid i s = Some s' → reachable semid s0 s'.

Definition inside (p : pc) : list unit := match p with Inside => [tt] | _ => [] end.

(** Those inside hold what is missing from the value. *)
Definition permits (semid key val : Z) (s : system) : Prop :=
  kern s !! semid = Some (key, (val - Z.of_nat (length (all inside (procs s))))%Z) ∧
  (Z.of_nat (length (all inside (procs s))) ≤ val)%Z ∧ Gone ∉ procs s.

Lemma turn_permits semid key val i s s' :
  (val ≤ SEMVMX)%Z → permits semid key val s → turn semid i s = Some s' → permits semid key val s'.
Proof.
  intros Hv (Hk & Hn & Hg) E. unfold turn in E. destruct (procs s !! i) as [p|] eqn:Ei; [|done]. cbn [mbind option_bind] in E.
  assert (Hp : p ≠ Gone) by (intros ->; by apply Hg; eapply list_elem_of_lookup_2).
  assert (Hgo : ∀ q, q ≠ Gone → Gone ∉ <[i := q]> (procs s)).
  { intros q Hq [j Hj]%list_elem_of_lookup. apply list_lookup_insert_Some in Hj as [(_ & -> & _)|[_ Hj]]; [done|].
    by apply Hg; eapply list_elem_of_lookup_2. }
  pose proof (Permutation_length (all_take inside _ _ _ Ei)) as H1.
  pose proof (λ q, Permutation_length (all_put inside _ _ _ q Ei)) as H2.
  destruct p; cbn [inside app length] in *; [unfold sem_p in E|unfold sem_v in E|done]; rewrite Hk in E.
  - destruct (Z.eqb_spec (val - Z.of_nat (length (all inside (procs s)))) 0); [done|]. injection E as <-.
    specialize (H2 Inside). cbn [inside app length] in H2. unfold permits. cbn [kern procs]. rewrite H2.
    split_and!; [rewrite lookup_insert_eq; do 2 f_equal; lia|lia|by apply Hgo].
  - destruct (Z.ltb_spec (val - Z.of_nat (length (all inside (procs s)))) SEMVMX); [|lia]. injection E as <-.
    specialize (H2 Outside). cbn [inside app length] in H2. unfold permits. cbn [kern procs]. rewrite H2.
    split_and!; [rewrite lookup_insert_eq; do 2 f_equal; lia|lia|by apply Hgo].
Qed.

(** A new semaphore as [sem_create] and [sem_setval] leave it, shared by processes that enter
    with [sem_p] and leave with [sem_v], in every order of their calls: never more than
    [val] are inside, the value is what they leave, no process exits, and one that is
    outside can enter unless [val] are inside. *)
Lemma sem_permits key new_id val k0 k1 k n s :
  (1 ≤ val ≤ SEMVMX)%Z → sem_create key new_id k0 = Returns new_id k1 → sem_setval new_id val k1 = Returns 0 k →
  reachable new_id (MkSystem k (replicate n Outside)) s →
  let m := Z.of_nat (length (all inside (procs s))) in
  (m ≤ val)%Z ∧ sem_getval new_id (kern s) = Returns (val - m)%Z (kern s) ∧ (Gone ∉ procs s) ∧
  ∀ i, procs s !! i = Some Outside → (is_Some (turn new_id i s) ↔ (m < val)%Z).
Proof.
  intros Hv Ec Es Hr.
  assert (H0 : permits new_id key val (MkSystem k (replicate n Outside))).
  { unfold sem_create in Ec. destruct (with_key key k0); [done|]. injection Ec as <-. unfold sem_setval in Es.
    rewrite lookup_insert_eq in Es. destruct (_ && _); [|done]. injection Es as <-. unfold permits. cbn [kern procs].
    rewrite all_nil by done. cbn [length]. split_and!; [by rewrite lookup_insert_eq, Z.sub_0_r|lia|]. by intros [[=] _]%elem_of_replicate. }
  assert (Hs : permits new_id key val s) by (induction Hr; [done|eapply turn_permits; [|done..]; lia]).
  destruct Hs as (Hk & Hn & Hg). split_and!; [done|unfold sem_getval; by rewrite Hk|done|].
  intros i Hi. unfold turn. rewrite Hi. cbn [mbind option_bind]. unfold sem_p. rewrite Hk.
  destruct (Z.eqb_spec (val - Z.of_nat (length (all inside (procs s)))) 0); split; [by intros [? [=]]|lia|lia|by eexists].
Qed.

End Sem.

Module Msg.

Definition MSG_MAXLEN : nat := Z.to_nat 65536.
Definition MSGMAX : nat := Z.to_nat 8192.         (* the kernel's limit for one message *)

(** ** msg_send *)

(** [main] of msg_send.c, for the bytes that [malloc] leaves in the block, of which
    [mtype] takes the first eight; [sizeof(long) + len] is computed in [size_t], so that a
    negative length makes the block too small, or too large to be had. *)
Definition msg_send (cap : nat) (argv : list (list Z)) (junk : nat → list Z) (q : option (list msg)) : result (outcome (list msg)) :=
  match argv with
  | [a1; a2] =>
      let type := atoi a1 in
      let len := atoi a2 in
      match q with
      | None => Ok Exits
      | Some q =>
          if (len <? 0)%Z then Err Fault
          else if bool_decide (MSGMAX < Z.to_nat len) then Ok Exits
          else match msgsnd cap (MkMsg type (junk (Z.to_nat len))) q with
               | Sent q => Ok (Returns 0 q)
               | SendError => Ok Exits
               | SendBlocks => Ok Blocks
               end
      end
  | _ => Ok Exits
  end.

(** ** msg_recv *)

(** The options of one word, after the dash: [flag], [type], and whether [t] still needs its
    argument; [None]: an option that is not known. *)
Fixpoint letters (s : list Z) (flag : bool) (type : Z) : option (bool * Z * bool) :=
  match s with
  | [] => Some (flag, type, false)
  | 110 :: s => letters s true type
  | 116 :: s => match s with [] => Some (flag, type, true) | _ => Some (flag, atoi s, false) end
  | _ => None
  end%Z.

(** [getopt(argc, argv, "nt:")] in the loop; words that are no options are skipped. *)
Fixpoint options (args : list (list Z)) (flag : bool) (type : Z) : option (bool * Z) :=
  match args with
  | [] => Some (flag, type)
  | w :: args =>
      match w with
      | [45; 45]%Z => Some (flag, type)
      | 45%Z :: c :: s =>
          match letters (c :: s) flag type with
          | None => None
          | Some (flag, type, false) => options args flag type
          | Some (flag, _, true) => match args with [] => None | optarg :: args => options args flag (atoi optarg) end
          end
      | _ => options args flag type
      end
  end.

(** [msgrcv] takes the first message of the type, of any type for 0, and of the lowest type
    up to [-type] for a negative one. *)
Definition lowest (type : Z) (q : list msg) : Z :=
  foldr (λ m acc, if (mtype m <=? - type)%Z && (mtype m <? acc)%Z then mtype m else acc) (- type + 1)%Z q.
Definition wanted (type : Z) (q : list msg) (m : msg) : bool :=
  if (type =? 0)%Z then true else if (0 <? type)%Z then (mtype m =? type)%Z else (mtype m =? lowest type q)%Z.

(** [main] of msg_recv.c: the type and the length that it prints. *)
Definition msg_recv (args : list (list Z)) (q : option (list msg)) : outcome (list msg * (Z * Z)) :=
  match options args false 0 with
  | None => Exits
  | Some (flag, type) =>
      match q with
      | None => Exits
      | Some q =>
          match list_find (λ m, wanted type q m) q with
          | None => if flag then Exits else Blocks
          | Some (i, m) =>
              if bool_decide (length (mtext m) ≤ MSG_MAXLEN)
              then Returns 0 (delete i q, (mtype m, Z.of_nat (length (mtext m)))) else Exits
          end
      end
  end.

(** What msg_send has sent, msg_recv receives with the same type and length and leaves the
    queue as it was, when it asks for that type, or for any, and nothing else answers to
    it. *)
Lemma msg_roundtrip cap argv junk q q' args flag type :
  (∀ n, length (junk n) = n) → msg_send cap argv junk (Some q) = Ok (Returns 0 q') →
  options args false 0 = Some (flag, type) →
  ∃ a1 a2, argv = [a1; a2] ∧ (0 < atoi a1)%Z ∧
    ((type = 0%Z ∧ q = []) ∨ (type = atoi a1 ∧ (∀ m, m ∈ q → mtype m ≠ type)) →
     msg_recv args (Some q') = Returns 0 (q, (atoi a1, atoi a2))).
Proof.
  intros Hj Hs Ho. unfold msg_send in Hs. destruct argv as [|a1 [|a2 [|]]]; try done. exists a1, a2.
  destruct (Z.ltb_spec (atoi a2) 0); [done|]. case_bool_decide as Hlen; [done|]. unfold msgsnd in Hs. cbn [mtype mtext] in Hs.
  destruct (Z.leb_spec (atoi a1) 0); [done|]. destruct (_ <=? _)%nat; [|done]. injection Hs as <-.
  split_and!; [done|lia|]. intros Hq. unfold msg_recv. rewrite Ho.
  assert (Hf : list_find (λ m, wanted type (q ++ [MkMsg (atoi a1) (junk (Z.to_nat (atoi a2)))]) m) (q ++ [MkMsg (atoi a1) (junk (Z.to_nat (atoi a2)))])
    = Some (length q, MkMsg (atoi a1) (junk (Z.to_nat (atoi a2))))).
  { apply list_find_Some. rewrite lookup_app_r, Nat.sub_diag by lia. split_and!; [done| |].
    - destruct Hq as [[-> _]|[-> _]]; unfold wanted; [done|]. destruct (Z.eqb_spec (atoi a1) 0); [done|].
      rewrite (proj2 (Z.ltb_lt _ _)) by lia. cbn [mtype]. by rewrite Z.eqb_refl.
    - intros j m Hm Hlt. destruct Hq as [[_ ->]|[-> Hq]]; [cbn in Hlt; lia|]. rewrite lookup_app_l in Hm by lia.
      unfold wanted. destruct (Z.eqb_spec (atoi a1) 0); [lia|]. rewrite (proj2 (Z.ltb_lt _ _)) by lia.
      rewrite (proj2 (Z.eqb_neq _ _)); [by intros []|]. by apply Hq; eapply list_elem_of_lookup_2. }
  rewrite Hf. cbn [mtext mtype]. rewrite Hj, bool_decide_true by (unfold MSG_MAXLEN, MSGMAX in *; lia).
  rewrite Z2Nat.id by done. do 2 f_equal. rewrite delete_take_drop, take_app_length, drop_ge by solve_len. by rewrite app_nil_r.
Qed.

(** With a negative length the type is written to a block that is too small for it. *)
Lemma msg_send_negative cap a1 a2 junk q : (atoi a2 < 0)%Z → msg_send cap [a1; a2] junk (Some q) = Err Fault.
Proof. intros H. unfold msg_send. by rewrite (proj2 (Z.ltb_lt _ _)). Qed.

End Msg.
