(* ===== verification/ThreadDemos.v ===== *)
(** * Small programs with threads

    LinuxIPC/posix/33thread/thread.c (two threads that print letters),
    Languages/cpp/std_thread/thread_local_var.c (thread-local variables) and
    Languages/cpp/cpp11_feature/std_async_test.cpp (futures with the launch policies).  In
    each, the threads take turns at their output; the theorems say what the output can
    be. *)

From S2P Require Import Prelude.
From Stdlib Require Import ZArith Lia.

(** ** thread.c *)

Module Letters.

Inductive letter := A | B.
#[export] Instance letter_eq_dec : EqDecision letter.
Proof. solve_decision. Defined.

(** The counters [i] of the two loops, whether [thread_route] has returned, whether [main]
    has joined it, and the letters printed. *)
Record state := MkState { i_main : nat; i_thread : nat; returned : bool; joined : bool; out : list letter }.

(** [None]: [pthread_create] fails and the program exits. *)
Definition start (created : bool) : option state := if created then Some (MkState 0 0 false false []) else None.

(** [main]: its letters, then [pthread_join], which waits for the thread. *)
Definition main_turn (s : state) : option state :=
  if i_main s <? 20 then Some (MkState (S (i_main s)) (i_thread s) (returned s) (joined s) (out s ++ [A]))
  else if joined s then None
  else if returned s then Some (MkState (i_main s) (i_thread s) true true (out s)) else None.

Definition thread_route (s : state) : option state :=
  if returned s then None
  else if i_thread s <? 20 then Some (MkState (i_main s) (S (i_thread s)) false (joined s) (out s ++ [B]))
  else Some (MkState (i_main s) (i_thread s) true (joined s) (out s)).

(** The last line prints [value], which [thread_route] returned as 0, with [%s]. *)
Definition last_line (s : state) : result unit := if joined s then Err Fault else Ok tt.

Inductive reachable : state → Prop :=
  | reach_start s : start true = Some s → reachable s
  | reach_main s s' : reachable s → main_turn s = Some s' → reachable s'
  | reach_thread s s' : reachable s → thread_route s = Some s' → reachable s'.

Definition count (l : letter) (out : list letter) : nat := length (filter (λ x, x = l) out).

Lemma count_same l o : count l (o ++ [l]) = S (count l o).
Proof. unfold count. rewrite filter_app, length_app, filter_cons, filter_nil, decide_True by done. cbn. lia. Qed.
Lemma count_other l x o : x ≠ l → count l (o ++ [x]) = count l o.
Proof. intros H. unfold count. rewrite filter_app, length_app, filter_cons, filter_nil, decide_False by done. cbn. lia. Qed.

Definition inv (s : state) : Prop :=
  count A (out s) = i_main s ∧ count B (out s) = i_thread s ∧ i_main s ≤ 20 ∧ i_thread s ≤ 20 ∧
  (returned s = true → i_thread s = 20) ∧ (joined s = true → returned s = true ∧ i_main s = 20).

Lemma letters_inv s : reachable s → inv s.
Proof.
  induction 1 as [s E|s s' _ (H1 & H2 & H3 & H4 & H5 & H6) E|s s' _ (H1 & H2 & H3 & H4 & H5 & H6) E].
  - injection E as <-. unfold inv. cbn. split_and!; done || lia.
  - unfold main_turn in E. destruct (Nat.ltb_spec (i_main s) 20).
    + injection E as <-. unfold inv. cbn [i_main i_thread returned joined out]. rewrite count_same, count_other by done. split_and!; try (done || lia); intros Hj; destruct (H6 Hj); lia.
    + destruct (joined s); [done|]. destruct (returned s); [|done]. injection E as <-. unfold inv. cbn. split_and!; done || lia.
  - unfold thread_route in E. destruct (returned s); [done|]. destruct (Nat.ltb_spec (i_thread s) 20); injection E as <-; unfold inv; cbn [i_main i_thread returned joined out].
    + rewrite count_same, count_other by done. split_and!; try (done || lia); intros Hj; by destruct (H6 Hj).
    + split_and!; try (done || lia); intros Hj; by destruct (H6 Hj).
Qed.

(** Whatever the order, a turn is possible until [main] has joined the thread, and then each
    has printed its twenty letters; the last line passes a null pointer as a string. *)
Lemma letters_complete s :
  reachable s →
  (joined s = false → is_Some (main_turn s) ∨ is_Some (thread_route s)) ∧
  (joined s = true → count A (out s) = 20 ∧ count B (out s) = 20 ∧ last_line s = Err Fault).
Proof.
  intros (H1 & H2 & H3 & H4 & H5 & H6)%letters_inv. split.
  - intros Hj. unfold main_turn, thread_route. rewrite Hj. destruct (_ <? 20); [by left; eexists|].
    destruct (returned s); [by left; eexists|]. right. destruct (_ <? 20); by eexists.
  - intros Hj. destruct (H6 Hj) as [Hr Hm]. specialize (H5 Hr). unfold last_line. rewrite Hj. split_and!; [lia..|done].
Qed.

End Letters.

(** ** thread_local_var.c *)

Module Local.

Inductive thread := Main | Worker1 | Worker2.
#[export] Instance thread_eq_dec : EqDecision thread.
Proof. solve_decision. Defined.

Inductive name := Var | Var2 | TmpVar.
#[export] Instance name_eq_dec : EqDecision name.
Proof. solve_decision. Defined.

(** A thread-local variable: a value per thread, the same initially. *)
Definition store : Type := thread → name → Z.
Definition initial (x : name) : Z := match x with Var => 5 | Var2 => 15 | TmpVar => 10 end.
Definition set (t : thread) (x : name) (v : Z) (st : store) : store :=
  λ t' x', if decide (t' = t ∧ x' = x) then v else st t' x'.

(** A statement prints a variable of the thread that runs it, after changing it by [by'],
    if it does. *)
Record statement := MkStmt { var : name; by' : Z }.

Definition worker1 : list statement := [MkStmt Var 1; MkStmt Var2 1].
Definition worker2 : list statement := [MkStmt Var (-1); MkStmt Var2 (-1)].
(** [test_local_var] after the two joins. *)
Definition after_joins : list statement := [MkStmt Var 0; MkStmt Var2 0; MkStmt TmpVar 0].

Record state := MkState { vars : store; rest : thread → list statement; out : list (thread * name * Z) }.
Definition start : state :=
  MkState (λ _, initial) (λ t, match t with Main => after_joins | Worker1 => worker1 | Worker2 => worker2 end) [].

(** The next statement of a thread; [main] waits for the workers. *)
Definition turn (t : thread) (s : state) : option state :=
  let waits := match t with Main => negb (length (rest s Worker1 ++ rest s Worker2) =? 0) | _ => false end in
  match rest s t with
  | MkStmt x d :: more =>
      if waits then None
      else
        let v := (vars s t x + d)%Z in
        Some (MkState (set t x v (vars s)) (λ t', if decide (t' = t) then more else rest s t') (out s ++ [(t, x, v)]))
  | [] => None
  end.

Inductive reachable : state → Prop :=
  | reach_start : reachable start
  | reach_turn t s s' : reachable s → turn t s = Some s' → reachable s'.

(** What a thread prints, run alone from the initial values. *)
Fixpoint alone (t : thread) (st : name → Z) (l : list statement) : list (thread * name * Z) :=
  match l with
  | [] => []
  | MkStmt x d :: l => let v := (st x + d)%Z in (t, x, v) :: alone t (λ x', if decide (x' = x) then v else st x') l
  end.

Definition of_thread (t : thread) (o : list (thread * name * Z)) : list (thread * name * Z) := filter (λ l, l.1.1 = t) o.

Lemma alone_ext t st st' l : (∀ x, st x = st' x) → alone t st l = alone t st' l.
Proof.
  revert st st'. induction l as [|[x d] l IH]; intros st st' H; simpl; [done|]. rewrite H. f_equal. apply IH.
  intros x'. case_decide; [done|apply H].
Qed.

(** Each thread has printed, and will print, what it prints alone. *)
Lemma local_inv s : reachable s → ∀ t, of_thread t (out s) ++ alone t (vars s t) (rest s t) = alone t initial (rest start t).
Proof.
  induction 1 as [|t s s' _ IH E]; [done|]. intros t'. rewrite <-(IH t'). unfold turn in E.
  destruct (rest s t) as [|[x d] more] eqn:Er; [done|]. destruct (match t with Main => _ | _ => _ end); [done|]. injection E as <-.
  cbn [vars rest out]. unfold of_thread. rewrite filter_app, <-app_assoc. f_equal. rewrite filter_cons, filter_nil. cbn [fst].
  destruct (decide (t' = t)) as [->|Hne].
  - rewrite decide_True by done. rewrite Er. cbn [alone app]. f_equal. apply alone_ext. intros x'. unfold set.
    destruct (decide (x' = x)); [by rewrite decide_True|]. by rewrite decide_False by tauto.
  - rewrite decide_False by done. cbn [app]. apply alone_ext. intros x'. unfold set. by rewrite decide_False by tauto.
Qed.

(** The lines of the comment at the end of the file. *)
Definition expected (t : thread) : list (thread * name * Z) :=
  match t with
  | Worker1 => [(t, Var, 6); (t, Var2, 16)]
  | Worker2 => [(t, Var, 4); (t, Var2, 14)]
  | Main => [(t, Var, 5); (t, Var2, 15); (t, TmpVar, 10)]
  end%Z.

(** In every order of the threads' statements: the workers see and change their own variables
    only, [main] prints the initial values, and when nothing is left to do all lines are
    there. *)
Lemma locals_apart s :
  reachable s →
  (∀ t, of_thread t (out s) `prefix_of` expected t) ∧
  ((∀ t, turn t s = None) → ∀ t, of_thread t (out s) = expected t).
Proof.
  intros Hr. pose proof (local_inv s Hr) as Hi. assert (He : ∀ t, alone t initial (rest start t) = expected t) by (by intros []).
  split; [intros t; eexists; by rewrite <-He, <-Hi|]. intros Hstuck.
  assert (Hw : ∀ t, t ≠ Main → rest s t = []).
  { intros t Ht. specialize (Hstuck t). unfold turn in Hstuck. destruct (rest s t) as [|[x d] l]; [done|]. destruct t; done. }
  assert (Hm : rest s Main = []).
  { specialize (Hstuck Main). unfold turn in Hstuck. rewrite (Hw Worker1), (Hw Worker2) in Hstuck by done. by destruct (rest s Main) as [|[x d] l]. }
  intros t. rewrite <-He, <-Hi. replace (rest s t) with ([] : list statement); [by rewrite app_nil_r|]. destruct t; by rewrite ?Hm, ?Hw.
Qed.

End Local.

(** ** std_async_test.cpp *)

(** All runs of a finite system, explored: [stuck] holds wherever they end, and none takes
    more than [fuel] turns. *)
Section explore.
Context {S W : Type} (turn : W → S → option S) (ws : list W) (stuck : S → bool).

Fixpoint explore (fuel : nat) (s : S) : bool :=
  match fuel with
  | O => false
  | Datatypes.S fuel =>
      match omap (λ w, turn w s) ws with
      | [] => stuck s
      | next => forallb (explore fuel) next
      end
  end.

Inductive run : nat → S → S → Prop :=
  | run_nil s : run 0 s s
  | run_step n w s s1 s' : w ∈ ws → turn w s = Some s1 → run n s1 s' → run (Datatypes.S n) s s'.

Lemma explore_sound fuel s :
  explore fuel s = true → ∀ n s', run n s s' → n < fuel ∧ ((∀ w, w ∈ ws → turn w s' = None) → stuck s' = true).
Proof.
  revert s. induction fuel as [|fuel IH]; intros s He n s' Hr; [done|]. cbn [explore] in He.
  destruct Hr as [s|n w s s1 s' Hw Hs Hr].
  - split; [lia|]. intros Hst. assert (Hn : omap (λ w, turn w s) ws = []); [|by rewrite Hn in He].
    destruct (omap _ _) as [|x l] eqn:E; [done|]. assert (Hx : x ∈ omap (λ w, turn w s) ws) by (rewrite E; by left).
    apply list_elem_of_omap in Hx as (w & Hw & Hx). by rewrite Hst in Hx.
  - assert (Hin : s1 ∈ omap (λ w, turn w s) ws) by (apply list_elem_of_omap; by exists w).
    destruct (omap _ _) as [|x l] eqn:E; [by apply elem_of_nil in Hin|].
    apply list_elem_of_In in Hin. rewrite forallb_forall in He. destruct (IH s1 (He s1 Hin) n s' Hr) as [H1 H2]. split; [lia|done].
Qed.
End explore.

Module Async.

(** The three tasks, with the value that each returns. *)
Inductive task := FA | FB | FC.
Definition value (t : task) : Z := match t with FA => 5 | FB => 8 | FC => 13 end.

Inductive line := Say (n : nat) | Enter (t : task) | Exit (t : task) | Value (v : Z).
#[export] Instance task_eq_dec : EqDecision task.
Proof. solve_decision. Defined.
#[export] Instance line_eq_dec : EqDecision line.
Proof. solve_decision. Defined.

(** A statement of [test_async]; a deferred task that [get] finds is run in place. *)
Inductive action := Print (n : nat) | Launch (t : task) (deferred : bool) | Get (t : task) | Body (l : line).

(** What has become of a future: not made yet, deferred, a thread at its line [n], run by
    [get]. *)
Inductive status := Nothing | Deferred | Thread (n : nat) | Ran.

Record state := MkState { todo : list action; futures : task → status; out : list (bool * line) }.

(** [test_async]; the policy of the first call of [std::async] is the library's choice. *)
Definition test_async (f0_deferred : bool) : list action :=
  [Print 0; Print 1; Launch FA f0_deferred; Print 2; Launch FB false; Print 3; Launch FC true; Print 4; Print 5;
   Get FA; Get FB; Get FC; Print 6].
Definition start (f0_deferred : bool) : state := MkState (test_async f0_deferred) (λ _, Nothing) [].

Definition set (t : task) (st : status) (f : task → status) : task → status := λ t', if decide (t' = t) then st else f t'.

(** The main thread, whose lines are marked; [get] waits for a thread. *)
Definition main_turn (s : state) : option state :=
  match todo s with
  | [] => None
  | Print n :: rest => Some (MkState rest (futures s) (out s ++ [(true, Say n)]))
  | Body l :: rest => Some (MkState rest (futures s) (out s ++ [(true, l)]))
  | Launch t d :: rest => Some (MkState rest (set t (if d : bool then Deferred else Thread 0) (futures s)) (out s))
  | Get t :: rest =>
      match futures s t with
      | Deferred => Some (MkState (Body (Enter t) :: Body (Exit t) :: Get t :: rest) (set t Ran (futures s)) (out s))
      | Thread 2 | Ran => Some (MkState rest (futures s) (out s ++ [(true, Value (value t))]))
      | _ => None
      end
  end.

(** The thread of a task: its two lines. *)
Definition thread_turn (t : task) (s : state) : option state :=
  match futures s t with
  | Thread 0 => Some (MkState (todo s) (set t (Thread 1) (futures s)) (out s ++ [(false, Enter t)]))
  | Thread 1 => Some (MkState (todo s) (set t (Thread 2) (futures s)) (out s ++ [(false, Exit t)]))
  | _ => None
  end.

Definition turn (w : option task) (s : state) : option state := match w with None => main_turn s | Some t => thread_turn t s end.
Definition actors : list (option task) := [None; Some FA; Some FB; Some FC].

(** The lines of the main thread at the end, and those that belong to a task. *)
Definition main_lines (f0_deferred : bool) : list line :=
  [Say 0; Say 1; Say 2; Say 3; Say 4; Say 5] ++ (if f0_deferred then [Enter FA; Exit FA] else []) ++
  [Value 5; Value 8; Enter FC; Exit FC; Value 13; Say 6].
Definition of_task (t : task) (l : line) : Prop := l = Enter t ∨ l = Exit t ∨ l = Value (value t).
#[export] Instance of_task_dec t l : Decision (of_task t l).
Proof. unfold of_task. apply _. Defined.

Definition complete (f0_deferred : bool) (s : state) : Prop :=
  (filter (λ l, l.1 = true) (out s)).*2 = main_lines f0_deferred ∧
  Forall (λ t, filter (of_task t) (out s).*2 = [Enter t; Exit t; Value (value t)]) [FA; FB; FC].
#[export] Instance complete_dec d s : Decision (complete d s).
Proof. unfold complete. apply _. Defined.

(** [test_async], for either policy of the first task and every order of the threads: it ends
    after at most 21 turns, the main thread has printed its lines and the three values in
    the order of the calls of [get], and has run the deferred tasks itself; every task has
    entered and left before its value is printed. *)
Lemma async_complete d n s :
  run turn actors n (start d) s →
  n ≤ 21 ∧ ((∀ w, w ∈ actors → turn w s = None) → complete d s).
Proof.
  intros Hr. assert (He : explore turn actors (λ s, bool_decide (complete d s)) 22 (start d) = true) by (destruct d; by vm_compute).
  destruct (explore_sound _ _ _ _ _ He n s Hr) as [Hn Hs]. split; [lia|]. intros Hst. apply (proj1 (bool_decide_eq_true _)). by apply Hs.
Qed.

End Async.
