(* ===== verification/Lifetimes.v ===== *)
(** * Lifetimes of objects in the language demos

    Languages/cpp/14_future_promise/future_then_chain_call.cpp (calls of [then] chained on
    temporaries), Languages/cpp/13_template_skills/template_wrapper_skill.cpp (an object that
    calls a method of another one) and Languages/cpp/cpp17_feature/optional_test.cpp.  The
    objects are cells of a store; using one that is gone is a [Fault].  Where the language
    lets the compiler construct a returned object in place or copy it, the choice is an
    argument. *)

From S2P Require Import Prelude.
From Stdlib Require Import ZArith Lia.

(** ** future_then_chain_call.cpp *)

Module Future.

(** The lines that are printed, without the addresses; [V2] has the name of the object that
    [then] is called on. *)
Inductive line := V1 | V2 (name : string) | Show (name : string) | Last (x : Z) | Release (name : string).

(** The futures alive, with [_name]; the number of the next one; the output. *)
Record world := MkWorld { live : gmap nat string; next : nat; out : list line }.

Definition emit (l : line) (w : world) : world := MkWorld (live w) (next w) (out w ++ [l]).

(** [ready_future(name)] *)
Definition ready_future (name : string) (w : world) : nat * world :=
  (next w, MkWorld (<[next w := name]> (live w)) (S (next w)) (out w)).

(** [_name] *)
Definition name_of (this : nat) (w : world) : result string :=
  match live w !! this with Some name => Ok name | None => Err Fault end.

(** [~ready_future] *)
Definition release (this : nat) (w : world) : result world :=
  name ← name_of this w;
  Ok (MkWorld (delete this (live w)) (next w) (out w ++ [Release name])).

Definition show (this : nat) (w : world) : result world :=
  name ← name_of this w; Ok (emit (Show name) w).

(** An object that is returned: the result is the object itself when the copy is elided.
    Otherwise it is copied, as a class with a destructor is not moved, and destroyed. *)
Definition pass (elided : bool) (this : nat) (w : world) : result (nat * world) :=
  if elided then Ok (this, w)
  else
    name ← name_of this w;
    let '(copy, w) := ready_future name w in
    w ← release this w;
    Ok (copy, w).

(** The choices for one call of [then]: out of the lambda, into [fut], out of [then]. *)
Record choice := MkChoice { c_lambda : bool; c_fut : bool; c_then : bool }.

(** A lambda that returns a future: the three of [run]. *)
Definition task (name : string) (elided : bool) (w : world) : result (nat * world) :=
  let '(retfut, w) := ready_future name w in
  w ← show retfut w;
  pass elided retfut w.

(** [then] of a function that returns a future, and of one that returns nothing, here the
    last one of [run]. *)
Definition then_future (this : nat) (func : string) (c : choice) (w : world) : result (nat * world) :=
  name ← name_of this w;
  let w := emit (V2 name) w in
  '(ret, w) ← task func (c_lambda c) w;
  '(fut, w) ← pass (c_fut c) ret w;
  pass (c_then c) fut w.

Definition then_void (this : nat) (w : world) : world := emit (Last 10) (emit V1 w).

(** The calls in a row, with the temporaries that they return, the last one first. *)
Fixpoint chain (this : nat) (temporaries : list nat) (l : list (string * choice)) (w : world)
    : result (nat * list nat * world) :=
  match l with
  | [] => Ok (this, temporaries, w)
  | (func, c) :: l =>
      '(fut, w) ← then_future this func c w;
      chain fut (fut :: temporaries) l w
  end.

Fixpoint release_all (l : list nat) (w : world) : result world :=
  match l with [] => Ok w | o :: l => w ← release o w; release_all l w end.

(** [run], for a chain of any functions: temporaries are destroyed at the end of the
    expression, the last one first, and [fut] at the end of the function. *)
Definition run_chain (first : string) (l : list (string * choice)) (w : world) : result world :=
  let '(fut, w) := ready_future first w in
  '(last, temporaries, w) ← chain fut [] l w;
  let w := then_void last w in
  w ← release_all temporaries w;
  release fut w.

Definition run (c1 c2 c3 : choice) : world → result world :=
  run_chain "v0" [("task1", c1); ("task2", c2); ("task3", c3)].

(** ** What it prints *)

Definition fresh (w : world) : Prop := ∀ o, is_Some (live w !! o) → o < next w.

Lemma fresh_next w : fresh w → live w !! next w = None.
Proof. intros H. apply eq_None_not_Some. intros Hs. specialize (H _ Hs). lia. Qed.

Lemma fresh_insert w name ls n : fresh w → next w < n → fresh (MkWorld (<[next w := name]> (live w)) n ls).
Proof.
  intros Hf Hn o. cbn. destruct (decide (o = next w)) as [->|Ho]; [done|]. rewrite lookup_insert_ne by done. intros H%Hf. lia.
Qed.

(** The objects of [L], which have been there before, and [o], which is called [name]. *)
Record with_object (L : gmap nat string) (name : string) (o : nat) (w : world) : Prop := {
  object_new : L !! o = None;
  object_live : live w = <[o := name]> L;
  object_fresh : fresh w;
}.

Lemma name_of_object L name o w : with_object L name o w → name_of o w = Ok name.
Proof. intros [_ E _]. unfold name_of. by rewrite E, lookup_insert_eq. Qed.

Lemma release_object L name o w : with_object L name o w →
  ∃ w', release o w = Ok w' ∧ live w' = L ∧ fresh w' ∧ out w' = out w ++ [Release name].
Proof.
  intros H. unfold release. rewrite (name_of_object _ _ _ _ H). destruct H as [Hn E Hf].
  eexists. split; [done|]. cbn. split_and!; [by rewrite E, delete_insert_id| |done].
  intros o' [x Hx]. cbn in Hx. apply lookup_delete_Some in Hx as [_ Hx]. by apply Hf; exists x.
Qed.

(** The line that a copy causes when its source is destroyed. *)
Definition copied (elided : bool) (name : string) : list line := if elided then [] else [Release name].

Lemma pass_object L name elided o w : with_object L name o w →
  ∃ o' w', pass elided o w = Ok (o', w') ∧ with_object L name o' w' ∧ out w' = out w ++ copied elided name.
Proof.
  intros H. unfold pass. destruct elided; cbn [copied]; [exists o, w; by rewrite app_nil_r|].
  rewrite (name_of_object _ _ _ _ H). cbn [mbind result_bind ready_future]. destruct H as [Hn E Hf]. pose proof (fresh_next w Hf) as Hnew.
  assert (o < next w) by (apply Hf; rewrite E, lookup_insert_eq; eauto).
  destruct (release_object (<[next w := name]> L) name o (ready_future name w).2) as (w' & Er & El & Hf' & Eo).
  - split; cbn; [by rewrite lookup_insert_ne by lia|rewrite E; apply insert_insert_ne; lia|by apply fresh_insert; [|lia]].
  - cbn [ready_future snd] in Er. rewrite Er. exists (next w), w'. split; [done|]. split; [|done]. split; [|done..].
    rewrite E, lookup_insert_ne in Hnew by lia. done.
Qed.

(** The lines of one call of [then]. *)
Definition then_lines (name func : string) (c : choice) : list line :=
  [V2 name; Show func] ++ copied (c_lambda c) func ++ copied (c_fut c) func ++ copied (c_then c) func.

Lemma then_future_object this name func c w : live w !! this = Some name → fresh w →
  ∃ o w', then_future this func c w = Ok (o, w') ∧ with_object (live w) func o w' ∧ out w' = out w ++ then_lines name func c.
Proof.
  intros Hname Hf. unfold then_future, name_of. rewrite Hname. cbn [mbind result_bind]. unfold task, show. cbn [ready_future].
  set (w1 := MkWorld (<[next w := func]> (live w)) (S (next w)) (out w ++ [V2 name])).
  assert (H1 : with_object (live w) func (next w) w1) by (split; [by apply fresh_next|done|by apply fresh_insert; [|lia]]).
  cbn [next emit live out]. fold w1. rewrite (name_of_object _ _ _ _ H1). cbn [mbind result_bind].
  assert (H2 : with_object (live w) func (next w) (emit (Show func) w1)) by (destruct H1; by split).
  destruct (pass_object _ _ (c_lambda c) _ _ H2) as (o3 & w3 & -> & H3 & E3). cbn [mbind result_bind].
  destruct (pass_object _ _ (c_fut c) _ _ H3) as (o4 & w4 & -> & H4 & E4). cbn [mbind result_bind].
  destruct (pass_object _ _ (c_then c) _ _ H4) as (o5 & w5 & -> & H5 & E5).
  exists o5, w5. split_and!; [done..|]. rewrite E5, E4, E3. cbn. unfold then_lines. by rewrite <-!app_assoc.
Qed.

(** Objects [ts] called [ns] on top of those of [L], the last one first. *)
Inductive stack (L : gmap nat string) : list nat → list string → gmap nat string → Prop :=
  | stack_nil : stack L [] [] L
  | stack_cons o name ts ns M : stack L ts ns M → M !! o = None → stack L (o :: ts) (name :: ns) (<[o := name]> M).

Lemma release_all_stack L ts ns M : stack L ts ns M → ∀ w, live w = M → fresh w →
  ∃ w', release_all ts w = Ok w' ∧ live w' = L ∧ fresh w' ∧ out w' = out w ++ (Release <$> ns).
Proof.
  induction 1 as [|o name ts ns M _ IH Hn]; intros w E Hf; [exists w; by rewrite app_nil_r|]. cbn [release_all].
  destruct (release_object M name o w) as (w1 & -> & E1 & Hf1 & Eo1); [done|]. cbn [mbind result_bind].
  destruct (IH w1 E1 Hf1) as (w2 & -> & E2 & Hf2 & Eo2). exists w2. split_and!; [done..|]. by rewrite Eo2, Eo1, <-app_assoc.
Qed.

Fixpoint chain_lines (name : string) (l : list (string * choice)) : list line :=
  match l with [] => [] | (func, c) :: l => then_lines name func c ++ chain_lines func l end.

Lemma chain_stack L l : ∀ this name ts ns w, live w !! this = Some name → stack L ts ns (live w) → fresh w →
  ∃ last ts' w', chain this ts l w = Ok (last, ts', w') ∧ stack L ts' (reverse (l.*1) ++ ns) (live w') ∧ fresh w' ∧
    out w' = out w ++ chain_lines name l.
Proof.
  induction l as [|[func c] l IH]; intros this name ts ns w Hname Hs Hf; [exists this, ts, w; by rewrite app_nil_r|].
  cbn [chain]. destruct (then_future_object this name func c w Hname Hf) as (o & w1 & -> & [Hn El Hf1] & E1). cbn [mbind result_bind].
  destruct (IH o func (o :: ts) (func :: ns) w1) as (last & ts' & w2 & -> & H2 & Hf2 & E2); [rewrite El; apply lookup_insert_eq| |done|].
  - rewrite El. by constructor.
  - exists last, ts', w2. split; [done|]. split_and!; [|done|by rewrite E2, E1, <-app_assoc].
    by rewrite fmap_cons, reverse_cons, <-app_assoc.
Qed.

(** A chain of any length, whatever the compiler elides: [then] is never called on an object
    that is gone, each function runs once and in order, the last one after all others, and
    every object is released; those of the chain in reverse order after the last function,
    and the first future at the end. *)
Lemma chain_runs first l w : fresh w →
  ∃ w', run_chain first l w = Ok w' ∧ live w' = live w ∧ fresh w' ∧
    out w' = out w ++ chain_lines first l ++ [V1; Last 10] ++ (Release <$> reverse (l.*1)) ++ [Release first].
Proof.
  intros Hf. pose proof (fresh_next w Hf) as Hn. unfold run_chain. cbn [ready_future].
  set (w1 := MkWorld (<[next w := first]> (live w)) (S (next w)) (out w)).
  assert (H1 : fresh w1) by (by apply fresh_insert; [|lia]).
  destruct (chain_stack (live w1) l (next w) first [] [] w1) as (last & ts & w2 & -> & Hs & Hf2 & E2);
    [apply lookup_insert_eq|constructor|done|]. cbn [mbind result_bind]. rewrite app_nil_r in Hs.
  destruct (release_all_stack _ _ _ _ Hs (then_void last w2)) as (w3 & -> & El & Hf3 & E3); [done|done|]. cbn [mbind result_bind].
  destruct (release_object (live w) first (next w) w3) as (w4 & -> & El4 & Hf4 & E4); [by split|].
  exists w4. split_and!; [done..|]. rewrite E4, E3. cbn. rewrite E2. cbn. by rewrite <-!app_assoc.
Qed.

(** The program: with every copy elided, and with none. *)
Example run_output :
  let w := MkWorld ∅ 0 [] in let e := MkChoice true true true in let n := MkChoice false false false in
  (w ← run e e e w; Ok (out w)) = Ok [V2 "v0"; Show "task1"; V2 "task1"; Show "task2"; V2 "task2"; Show "task3"; V1; Last 10;
    Release "task3"; Release "task2"; Release "task1"; Release "v0"] ∧
  (w ← run n n n w; Ok (length (out w))) = Ok 21.
Proof. by vm_compute. Qed.

End Future.

(** ** template_wrapper_skill.cpp *)

Module Skill.

Inductive line := CallBack (mode : Z) | FreeWrapper.

(** A method of [T] is a function on objects and their output; [Wrapper] has the object and
    the method. *)
Definition method (T : Type) : Type := T → Z → list line → result (list line).
Record Wrapper (T : Type) := MkWrapper { m_obj_ptr : option T; m_cb : method T }.
Arguments MkWrapper {T}.
Arguments m_obj_ptr {T}.
Arguments m_cb {T}.

(** Calling through a null pointer is a [Fault]. *)
Definition run_cb {T} (w : Wrapper T) (out : list line) : result (list line) :=
  match m_obj_ptr w with Some t => m_cb w t 100%Z out | None => Err Fault end.

Definition delete_wrapper {T} (w : Wrapper T) (out : list line) : list line := out ++ [FreeWrapper].

Definition Test : Type := unit.
Definition call_back : method Test := λ _ mode out, Ok (out ++ [CallBack mode]).
Definition init (this : Test) (out : list line) : result (list line) :=
  let wrap := MkWrapper (Some this) call_back in
  out ← run_cb wrap out;
  Ok (delete_wrapper wrap out).
Definition main : result (list line) := init tt [].

Example skill_output : main = Ok [CallBack 100; FreeWrapper].
Proof. done. Qed.

End Skill.

(** ** optional_test.cpp *)

Module Optional.

Inductive line := HasValue (v : double) | NotValueWillThrow | NotValue.

(** [value()] throws [bad_optional_access] when there is none. *)
Inductive outcome := Returns (out : list line) | Terminates (out : list line).
Definition value (o : option double) (out : list line) (k : double → outcome) : outcome :=
  match o with Some v => k v | None => Terminates out end.

(** The second half of [main]. *)
Definition assigned (price_abet : option double) (out : list line) : outcome :=
  match price_abet with
  | Some _ => value price_abet out (λ v, Returns (out ++ [HasValue v]))
  | None => Returns (out ++ [NotValue])
  end.

(** [main], for the value that [price_abet] has at first, which is none: the text before
    the value is written before [value()] is called. *)
Definition main (price_abet : option double) : outcome :=
  match price_abet with
  | Some v => assigned (Some (double_of_Z 100)) [HasValue v]
  | None =>
      let out := [NotValueWillThrow] in
      value price_abet out (λ v, assigned (Some (double_of_Z 100)) out)
  end.

(** As it is written the program ends in the exception, and only then. *)
Lemma main_terminates o : (∃ out, main o = Terminates out) ↔ o = None.
Proof. destruct o; cbn; split; [by intros (? & ?)|done|done|eauto]. Qed.

End Optional.
