(* ===== verification/SmallTools.v ===== *)
(** * Small programs around libraries

    Languages/c/dns (addresses of a host and hosts of an address),
    Languages/cpp/0_libuv/uv_dynamic_so/load_library.cpp (a shared library) and
    builder/blade/test_blade_proto/http_server.cpp (the answers of a brpc server).  What the
    libraries answer is an argument. *)

From S2P Require Import Prelude CText.
From Stdlib Require Import ZArith Lia.

(** ** hostname_to_ip.c and ip_to_hostname.c *)

Module Dns.

Section dns.
Context {addr : Type}.

Inductive line := Usage | GaiError (ret : Z) | NameError (ret : Z) | Name (hostname : list Z).

(** [exit] with its status, the lines before it, and whether the list of [getaddrinfo] has
    been freed ([None]: there is none). *)
Record outcome := MkOutcome { out : list line; status : Z; freed : option bool }.

(** [getnameinfo]: the error, or the name in the buffer.  A name that does not fit with its
    terminator is an error of the call. *)
Context (getnameinfo : addr → Z + list Z).

(** The loop over the list. *)
Fixpoint traverse (result_pointer : list addr) : list line :=
  match result_pointer with
  | [] => []
  | a :: ai_next =>
      match getnameinfo a with
      | inl ret => NameError ret :: traverse ai_next
      | inr hostname => Name hostname :: traverse ai_next
      end
  end.

(** [main], for the error or the list of [getaddrinfo].  Both programs are this one, with
    other flags for the two calls. *)
Definition main (argc : nat) (getaddrinfo : Z + list addr) : outcome :=
  if negb (argc =? 2) then MkOutcome [Usage] 1 None
  else
    match getaddrinfo with
    | inl ret => MkOutcome [GaiError ret] 1 None
    | inr result => MkOutcome (traverse result) 0 (Some true)
    end.

Definition names (l : list line) : list (list Z) := omap (λ x, match x with Name h => Some h | _ => None end) l.

(** Each address of the list has one line, in order, and an error does not end the loop. *)
Lemma main_answers l :
  let o := main 2 (inr l) in
  status o = 0%Z ∧ freed o = Some true ∧ length (out o) = length l ∧
  names (out o) = omap (λ a, match getnameinfo a with inr h => Some h | inl _ => None end) l.
Proof.
  cbn. split_and!; [done|done| |]; (induction l as [|a l IH]; [done|cbn; destruct (getnameinfo a); cbn; by f_equal]).
Qed.
End dns.
End Dns.

(** ** load_library.cpp *)

Module Loader.

(** What is left when the program ends: the block of [m_hdl] and the library. *)
Record remains := MkRemains { m_hdl_allocated : bool; library_open : bool }.
Inductive line := DlopenError | DlsymError | FactoryNull | Exit.

(** [main]; [dlopen], [dlsym]: what the calls return; [factory]: whether [entry()] is not
    null. *)
Definition main (dlopen dlsym : Z) (factory : bool) : Z * line * remains :=
  if (dlopen =? -1)%Z then (1%Z, DlopenError, MkRemains true false)
  else if (dlsym =? -1)%Z then (1%Z, DlsymError, MkRemains true true)
  else if negb factory then (1%Z, FactoryNull, MkRemains true true)
  else (dlsym, Exit, MkRemains true false).

(** The status is 0 exactly when everything succeeds, as the calls return 0 or -1.  The
    library stays open on two of the error paths, and the block is never freed. *)
Lemma loader_remains dlopen dlsym factory :
  dlopen ∈ [0; -1]%Z → dlsym ∈ [0; -1]%Z →
  let '(rc, l, r) := main dlopen dlsym factory in
  (rc = 0%Z ↔ dlopen = 0%Z ∧ dlsym = 0%Z ∧ factory = true) ∧
  (library_open r = true ↔ l = DlsymError ∨ l = FactoryNull) ∧ m_hdl_allocated r = true.
Proof.
  intros H1 H2. unfold main. destruct factory; set_unfold; destruct H1 as [->|[->|[]]]; destruct H2 as [->|[->|[]]]; cbn; naive_solver lia.
Qed.

End Loader.

(** ** http_server.cpp *)

Module Services.

Definition lit (s : string) : list Z := ascii_bytes s.

(** [HttpServiceImpl::Echo]: the parameters of the query in the order of the iterator, and
    the body. *)
Definition Echo (queries : list (list Z * list Z)) (body : list Z) : list Z :=
  lit "queries:" ++ concat ((λ '(first, second), [32%Z] ++ first ++ [61%Z] ++ second) <$> queries) ++
  [10%Z] ++ lit "body: " ++ body ++ [10%Z].

Definition queue_start : list Z := lit "queue started".
Definition queue_stop : list Z := lit "queue stopped".
Definition getstats (unresolved_path : list Z) : list Z :=
  match unresolved_path with
  | [] => lit "Require a name after /stats"
  | _ => lit "Get stats: " ++ unresolved_path
  end.

(** [main]: the results of adding the services and of starting the server; the status. *)
Definition main (add_http add_queue start : Z) : Z :=
  if negb (add_http =? 0)%Z then (-1)%Z
  else if negb (add_queue =? 0)%Z then (-1)%Z
  else if negb (start =? 0)%Z then (-1)%Z else 0%Z.

(** Reading an answer of [Echo] back: up to a byte, and the rest after it. *)
Fixpoint until (stop : Z) (s : list Z) : option (list Z * list Z) :=
  match s with
  | [] => None
  | c :: s => if (c =? stop)%Z then Some ([], s) else match until stop s with Some (a, b) => Some (c :: a, b) | None => None end
  end.

(** The value ends at the next space or at the end of the line. *)
Fixpoint value (s : list Z) : list Z * list Z :=
  match s with
  | [] => ([], [])
  | c :: s' => if (c =? 32)%Z || (c =? 10)%Z then ([], s) else let '(a, b) := value s' in (c :: a, b)
  end.

Fixpoint read_queries (fuel : nat) (s : list Z) : option (list (list Z * list Z) * list Z) :=
  match fuel, s with
  | S fuel, 32%Z :: s =>
      '(k, s) ← until 61 s;
      let '(v, s) := value s in
      '(l, s) ← read_queries fuel s;
      Some ((k, v) :: l, s)
  | S _, 10%Z :: s => Some ([], s)
  | _, _ => None
  end.

Definition read_echo (fuel : nat) (s : list Z) : option (list (list Z * list Z) * list Z) :=
  '(l, s) ← read_queries fuel (drop 8 s); Some (l, take (length s - 7) (drop 6 s)).

Definition plain (q : list Z * list Z) : Prop := 61%Z ∉ q.1 ∧ 32%Z ∉ q.2 ∧ 10%Z ∉ q.2.

Lemma until_app stop a s : stop ∉ a → until stop (a ++ stop :: s) = Some (a, s).
Proof.
  induction a as [|c a IH]; cbn; [by rewrite Z.eqb_refl|]. intros [H1 H2]%not_elem_of_cons.
  rewrite (proj2 (Z.eqb_neq _ _)) by congruence. by rewrite IH.
Qed.

Lemma value_app a s : 32%Z ∉ a → 10%Z ∉ a → (∃ c s', s = c :: s' ∧ (c = 32%Z ∨ c = 10%Z)) → value (a ++ s) = (a, s).
Proof.
  intros H1 H2 (c & s' & -> & Hc). induction a as [|d a IH]; cbn; [by destruct Hc as [-> | ->]|].
  apply not_elem_of_cons in H1 as [H1 H1'], H2 as [H2 H2'].
  rewrite (proj2 (Z.eqb_neq d 32)), (proj2 (Z.eqb_neq d 10)) by congruence. cbn. by rewrite IH.
Qed.

Lemma read_query fuel k v s : plain (k, v) → (∃ c s', s = c :: s' ∧ (c = 32%Z ∨ c = 10%Z)) →
  read_queries (S fuel) (([32%Z] ++ k ++ [61%Z] ++ v) ++ s) = '(l, s) ← read_queries fuel s; Some ((k, v) :: l, s).
Proof.
  intros (Hk & Hv1 & Hv2) Hs. rewrite <-!app_assoc. cbn [app].
  cbn [read_queries]. rewrite until_app by done. cbn [mbind option_bind]. by rewrite value_app.
Qed.

(** The answer of [Echo] has the query and the body: they can be read back when no key has
    an equals sign and no value a space or the end of a line, as in a URI. *)
Lemma echo_roundtrip queries body : Forall plain queries →
  read_echo (S (length queries)) (Echo queries body) = Some (queries, body).
Proof.
  intros H. unfold read_echo, Echo. rewrite drop_app_ge by done. change (8 - length (lit "queries:")) with 0. rewrite drop_0.
  assert (Hq : read_queries (S (length queries)) (concat ((λ '(first, second), [32%Z] ++ first ++ [61%Z] ++ second) <$> queries) ++
    [10%Z] ++ lit "body: " ++ body ++ [10%Z]) = Some (queries, lit "body: " ++ body ++ [10%Z])).
  { induction H as [|[k v] queries Hp _ IH]; [done|]. rewrite fmap_cons. cbn [concat length]. rewrite <-app_assoc, read_query, IH; [done|done|].
    destruct queries as [|[k' v'] queries]; cbn; eauto. }
  rewrite Hq. cbn [mbind option_bind]. f_equal. f_equal. rewrite drop_app_ge by done. change (6 - length (lit "body: ")) with 0.
  rewrite drop_0, take_app_le, take_ge; [done|..]; rewrite !length_app; change (length (lit "body: ")) with 6; cbn; lia.
Qed.

End Services.
